(* ===== verification/_CoqProject ===== *)
-Q . S2P
Prelude.v
Types.v
Kv.v
Crc32.v
Wal.v
State.v
Recovery.v
Election.v
Replication.v
CatchUp.v
Transport.v
Apply.v
Server.v
Text.v
Format.v
Durability.v
NodeRun.v
Cluster.v
ClusterRun.v
ClusterInv.v
ClusterSteps.v
ClusterLog.v
ClusterMoves.v
ClusterCrash.v
ClusterReach.v
ClusterIdentity.v
ClusterOrigin.v
ClusterSafety.v
Progress.v
Ctl.v
Bench.v
Launch.v
Daemon.v
Console.v
Shell.v
ShellFacts.v
