(* ===== verification/Prelude.v ===== *)
(** * Orris: a verification library for a Raft key-value store

    The program ([src/]) is a replicated key-value store written in Go.  A
    daemon ([cmd/orrisd]) runs one node: a Raft state machine
    ([internal/raft]) over a write-ahead log ([internal/storage]), an
    in-memory store ([internal/kv]), an RPC server for its peers
    ([internal/transport]) and a line-based TCP server for clients
    ([internal/client]).  A command-line tool ([cmd/orrisctl]) starts, stops
    and kills nodes, talks to the client server and shows the cluster.

    ** How the parts interact

    Peers call [HandleRequestVote] and [HandleAppendEntries] over gob-encoded
    RPCs.  The node runs its election timer, a heartbeat loop, an apply loop
    and a client handler as goroutines; all of them change the node only in
    critical sections under [n.mu].  Every change of term, vote or log and
    every new commit index is appended to the log file before the section
    ends, and [recoverState] rebuilds the node from it.  Client commands are
    proposed through [handleClientReq] and answered once their index is
    committed.

    ** Files

    - [Prelude]: scopes, Go integers and slices, tactics, hints, majorities.
    - [Types]: the structs of [storage/wal.go] and [transport/rpc.go].
    - [Kv]: [kv/store.go] and the replay of log entries.
    - [Crc32]: the standard library's CRC-32 and big-endian words, which the
      log format uses.
    - [Wal]: [storage/wal.go] on bytes, with failing system calls.
    - [State]: [raft/state.go]; the class [WalOps]/[WalLaws] through which a
      node uses its log, with the byte log and a list of records as instances.
    - [Recovery]: [raft/node.go] (construction, recovery, shutdown).
    - [Election]: [raft/election.go] and the vote handler.
    - [Replication]: [raft/replication.go].
    - [CatchUp]: a leader's heartbeat exchanges with its followers.
    - [Transport]: [transport/tcp.go]; the class [Handler] is its interface,
      implemented by the node.
    - [Apply]: [raft/apply.go] and [raft/client.go].
    - [Server]: [client/server.go], its line protocol.
    - [Text], [Format]: the parts of [strings], [strconv], [path/filepath] and
      [fmt] the command-line tools use.
    - [Ctl]: [cmd/orrisctl/main.go] as a client: requests, the parsing of
      responses, routing to the leader.
    - [Bench]: the goroutines of [runConcurrentBenchmark].
    - [Launch]: the nodes [orrisctl] starts on the data directories there are,
      and the peer lists [orrisd] parses, as clusters of [Cluster].
    - [Daemon]: [cmd/orrisd/main.go], package [flag], the accept loops of the
      two servers, and the command line [orrisctl] gives [orrisd].
    - [Console]: the tables and lists [orrisctl] prints.
    - [Shell]: [main] of [orrisctl], the interactive prompt and every command,
      over the class [Machine] of what the operating system and the network
      do; [ShellFacts] has its theorems, against the laws [MachineLaws], and an
      instance.
    - [Durability], [NodeRun]: one node against arbitrary peers: what is on
      disk is what is in memory, at all times.
    - [Cluster]: any number of nodes and a network as a step relation;
      [ClusterRun] executes it.
    - [ClusterInv], [ClusterSteps], [ClusterLog], [ClusterMoves],
      [ClusterCrash], [ClusterReach]: the inductive invariant of the cluster
      and its preservation by every step.
    - [ClusterIdentity]: nodes keep their identity, more messages only add
      executions, and all nodes may restart.
    - [ClusterOrigin]: where the entries of the logs come from.
    - [ClusterSafety]: the theorems on reachable clusters.
    - [Progress]: executions that elect a leader and commit a write.

    ** How the model follows the code

    A function of the code that runs in one critical section is one definition
    from node to node, with its guards and early returns in the order of the
    code; one that releases the lock in between (elections, replication,
    client requests) is one definition per section, with the locals it carries
    over as arguments.  A run-time panic is [None].  Go's [int] is a [Z]; the
    increment of the term wraps around ([wrap64]), the other sums are of slice
    positions.  Maps are [gmap]s, slices are lists: the code copies a slice
    whenever it leaves a critical section, so there is no aliasing to model.
    The buffered channels of a node are fields of its record.  The read loop
    of the log, the loops of [advanceCommitIndex] and [applyCommittedEntries]
    and the line scanner take fuel, as do [Split], [Fields] and [runeCount];
    the definitions that start them supply a bound on the number of iterations
    ([readLoop_fuel], [advanceLoop_spec], [applyFor_spec], [scanLines_fuel],
    [splitFuel_enough], [fieldsFuel_enough] and [runeFuel_enough] show that it
    is enough).  [runBench] gets the bound of [Bench.benchmark_finishes].

    Not under [src/] and therefore parameters, with what the code relies on:
    the gob encoder of log records ([Gob]: decoding inverts encoding) and of
    RPC messages ([RPCGob]: likewise, and an empty stream is an error); a
    bit-level codec shows that both can be had.  The addresses of the members
    are an argument of the cluster.

    ** What the theorems show

    - Log file: appended records are read back in order; a write cut short at
      any byte loses at most the record being written; a damaged byte is
      detected; a damaged tail is not removed, and what is appended behind it
      is lost ([Wal]).
    - Node: term, vote, log and committed state survive any crash between
      critical sections, for every implementation of the log interface and
      arbitrary peers; under the same conditions a vote is cast once per term
      as long as no election starts in the largest term, where the counter
      wraps around ([term_overflow_votes_again] runs into it); a node that is
      shutting down forgets the votes it still casts; handlers do not panic,
      except on a previous index below -1; a new commit index always wakes the
      apply loop ([NodeRun]).
    - Handlers: branch-by-branch functional descriptions of the vote and append
      handlers, the commit rule and the apply step ([Election],
      [Replication], [Apply]).
    - Cluster: one leader per term, leaders only append, log matching, leader
      completeness, agreement of committed logs and of stores, durability of
      acknowledged writes, absence of panics, and the refinement to a single
      append-only log ([ClusterSafety]).  They hold for any fixed membership
      with non-empty identifiers, any schedule, any loss, delay, reordering or
      repetition of messages, and any crashes, also between two records that
      one critical section writes to the log.  The statements relate two
      moments of an execution.  Every node stays well formed, and every entry
      was made by a leader from a client's request ([ClusterOrigin]).
    - Progress: a follower that answers has the leader's log after a bounded
      number of exchanges, and a leader that reaches a majority commits
      ([CatchUp]); from every reachable cluster a majority without a leader can
      elect one and commit a write ([Progress]); the benchmark ends, with every
      job counted once ([Bench]).
    - Transport and clients: a call over the wire is a call of the handler;
      commands are parsed as written and answered with exactly one line; what
      [orrisctl] reports of a node is the node's state, keys and log, up to the
      size of a line; a command whose answer is late is sent again
      ([Transport], [Server], [Ctl]).  What is typed at the prompt is what the
      server proposes ([ShellFacts]); the log view can show an entry as
      committed that is not ([Console]).
    - Deployment: the cluster [orrisctl start] brings up is an initial cluster
      of [Cluster] on empty data directories, and on the directories a cluster
      of the same membership left it behaves as that cluster after a crash of
      all nodes, so that the safety theorems apply to it; nodes added with
      [orrisctl spawn] to a cluster of five can elect a second leader
      ([Launch]); [orrisd] runs the node, addresses and log file [orrisctl]
      means ([Daemon]); [stop] kills the processes of node1 to node20
      ([ShellFacts]).

    ** Bounds of the model

    In the cluster, an election starts only in a term below the largest int:
    members count up by one, and a larger term can only come from elsewhere.
    A single node with arbitrary peers has no such bound, except where a
    theorem names it.  [Stop] is a function of the node
    ([Recovery]) and not a step of the cluster: the process ends after it, so
    a clean shutdown is a crash and restart there, and what a node still
    answers between the closing of its log and its end is the subject of
    [NodeRun.stopped_node_forgets_vote] only.  A crash leaves the
    records that were written completely: a record cut short is covered by
    [Wal.wal_torn_write], and the abstract log of the cluster drops its bytes,
    where the byte log keeps them in front of later records
    ([Wal.wal_append_after_corruption_lost]).  The cluster is modelled over the
    abstract log; [NodeRun] proves the single-node facts for the byte log as
    well.  Time, randomness and the sizes of timeouts are not modelled: every
    timer may fire at any moment, so progress is stated as the existence of an
    execution and for exchanges that happen, not for every fair schedule.  The views of [orrisctl] take the
    texts of latencies and of the time of day as inputs; paths are those of
    Unix; upper and lower case are exact for comparisons with ASCII words.

    ** Plan

    Next: the cluster over the byte log; progress under every fair schedule;
    the single requests of two clients interleaved with the steps of the
    cluster. *)

From stdpp Require Import base gmap strings list fin_maps sets numbers.

(** ** Notation of the development *)

Declare Scope go_scope.
Delimit Scope go_scope with go.

(** Go's [len] of a slice: an [int], hence a [Z]. *)
Notation "'len' l" := (Z.of_nat (length l)) (at level 10, l at level 9) : go_scope.

Open Scope string_scope.
Open Scope list_scope.
Open Scope go_scope.
Open Scope Z_scope.

(** ** Machine integers

    Go's [int] is 64 bits wide on every platform the program is built for.
    Slice lengths and sums of two slice positions stay far below [2^63]
    (a [LogEntry] takes 64 bytes), so the wrap-around is written out where a
    value that is not a slice position is incremented. *)

Definition maxInt : Z := 2 ^ 63 - 1.
Definition minInt : Z := - 2 ^ 63.
Definition in_int (z : Z) : Prop := minInt <= z <= maxInt.

Definition wrap64 (z : Z) : Z := (z + 2 ^ 63) mod 2 ^ 64 - 2 ^ 63.

Lemma wrap64_id z : in_int z -> wrap64 z = z.
Proof.
  unfold in_int, wrap64, minInt, maxInt. intros H.
  rewrite Z.mod_small by lia. lia.
Qed.

Lemma wrap64_in_int z : in_int (wrap64 z).
Proof.
  unfold in_int, wrap64, minInt, maxInt.
  pose proof (Z.mod_pos_bound (z + 2 ^ 63) (2 ^ 64) ltac:(lia)). lia.
Qed.

(** [x/2 < y] for a count [x]: Go's division truncates. *)
Lemma quot2_lt x y : 0 <= x -> Z.quot x 2 < y <-> x < 2 * y.
Proof. intros Hx. rewrite Z.quot_div_nonneg by lia. Z.to_euclidean_division_equations. lia. Qed.

(** ** Slices

    [go_index l i] is [l[i]] and [go_slice_to l hi] is [l[:hi]]; [None] is the
    run-time panic.  (For [len l < hi <= cap l] Go would reslice into spare
    capacity; the program never does, every [hi] it uses is at most [len l].) *)

Definition go_index {A} (l : list A) (i : Z) : option A :=
  if 0 <=? i then l !! Z.to_nat i else None.

Definition go_slice_to {A} (l : list A) (hi : Z) : option (list A) :=
  if (0 <=? hi) && (hi <=? len l) then Some (take (Z.to_nat hi) l) else None.

(** [l[lo:]] *)
Definition go_slice_from {A} (l : list A) (lo : Z) : option (list A) :=
  if (0 <=? lo) && (lo <=? len l) then Some (drop (Z.to_nat lo) l) else None.

(** A map read [m[k]] gives the zero value when the key is absent. *)
Definition go_map_int (m : gmap string Z) (k : string) : Z := default 0 (m !! k).

(** ** Automation *)

(** Lengths of the list operations the code is modelled with. *)
Create HintDb orris.
#[export] Hint Rewrite @length_app @length_take @length_drop @length_reverse @length_insert : orris.

(** Arithmetic on lengths. *)
Ltac len_lia := autorewrite with orris; simpl; lia.

(** Turns the boolean tests of the code into propositions. *)
Ltac bool_to_prop :=
  repeat match goal with
  | H : (_ && _)%bool = true |- _ => apply andb_true_iff in H as [? ?]
  | H : (_ && _)%bool = false |- _ => apply andb_false_iff in H
  | H : (_ || _)%bool = true |- _ => apply orb_true_iff in H
  | H : (_ || _)%bool = false |- _ => apply orb_false_iff in H as [? ?]
  | H : negb _ = true |- _ => apply negb_true_iff in H
  | H : negb _ = false |- _ => apply negb_false_iff in H
  | H : (_ <? _) = true |- _ => apply Z.ltb_lt in H
  | H : (_ <? _) = false |- _ => apply Z.ltb_ge in H
  | H : (_ <=? _) = true |- _ => apply Z.leb_le in H
  | H : (_ <=? _) = false |- _ => apply Z.leb_gt in H
  | H : (_ >? _) = true |- _ => rewrite Z.gtb_ltb in H
  | H : (_ >? _) = false |- _ => rewrite Z.gtb_ltb in H
  | H : (_ >=? _) = true |- _ => rewrite Z.geb_leb in H
  | H : (_ >=? _) = false |- _ => rewrite Z.geb_leb in H
  | H : (_ =? _) = true |- _ => apply Z.eqb_eq in H
  | H : (_ =? _) = false |- _ => apply Z.eqb_neq in H
  | H : bool_decide _ = true |- _ => apply bool_decide_eq_true in H
  | H : bool_decide _ = false |- _ => apply bool_decide_eq_false in H
  end.

(** Case analysis on the condition of the first [if] of the goal or of a
    hypothesis, as propositions. *)
Ltac case_if :=
  match goal with
  | |- context [if ?b then _ else _] => destruct b eqn:?
  | H : context [if ?b then _ else _] |- _ => destruct b eqn:?
  end; bool_to_prop; simplify_eq/=.

(** ** Lists *)

Section lists.
Context {A : Type}.
Implicit Types l k : list A.

Lemma go_index_Some l i x :
  go_index l i = Some x <-> 0 <= i /\ l !! Z.to_nat i = Some x.
Proof. unfold go_index. case_if; naive_solver lia. Qed.

Lemma go_index_range l i : 0 <= i < len l -> is_Some (go_index l i).
Proof.
  intros Hi. unfold go_index. replace (0 <=? i) with true by lia.
  apply lookup_lt_is_Some_2. lia.
Qed.

Lemma go_slice_to_range l hi :
  0 <= hi <= len l -> go_slice_to l hi = Some (take (Z.to_nat hi) l).
Proof. intros ?. unfold go_slice_to. by replace ((0 <=? hi) && (hi <=? len l)) with true by lia. Qed.

Lemma go_slice_to_Some l hi k :
  go_slice_to l hi = Some k -> k = take (Z.to_nat hi) l /\ 0 <= hi <= len l.
Proof. unfold go_slice_to. case_if; naive_solver lia. Qed.

Lemma take_S_lookup l i x : l !! i = Some x -> take (S i) l = take i l ++ [x].
Proof. apply take_S_r. Qed.

(** Two lists that agree up to [n] agree up to any smaller bound. *)
Lemma take_eq_le n m l k : (m <= n)%nat -> take n l = take n k -> take m l = take m k.
Proof.
  intros Hm H. apply (f_equal (take m)) in H.
  rewrite !take_take in H. by rewrite Nat.min_l in H by lia.
Qed.

Lemma take_eq_lookup n i l k : (i < n)%nat -> take n l = take n k -> l !! i = k !! i.
Proof.
  intros Hi H. rewrite <- (lookup_take_lt l n i), <- (lookup_take_lt k n i) by done.
  by rewrite H.
Qed.

Lemma take_eq_length n l k : (n <= length k)%nat -> take n l = take n k -> (n <= length l)%nat.
Proof. intros Hn H. apply (f_equal length) in H. rewrite !length_take in H. lia. Qed.

Lemma take_eq_self n l k : (length l <= n)%nat -> take n l = take n k -> l = take n k.
Proof. intros ? H. by rewrite take_ge in H. Qed.

(** Agreement up to [S i], from agreement up to [i] and at [i]. *)
Lemma take_S_eq i l k :
  take i l = take i k -> l !! i = k !! i -> take (S i) l = take (S i) k.
Proof.
  intros H Hi. destruct (k !! i) as [x|] eqn:Hk.
  - by rewrite (take_S_r l i x), (take_S_r k i x), H.
  - apply lookup_ge_None in Hi, Hk. rewrite !take_ge in H by lia.
    rewrite !take_ge by lia. done.
Qed.

End lists.

(** ** Majorities *)

(** [Q] is a majority of [M]: what [votes > peersCount/2] tests. *)
Definition majority (M Q : gset string) : Prop :=
  Q ⊆ M /\ (size M < 2 * size Q)%nat.

(** Two majorities of the same membership share a member. *)
Lemma majority_intersect M Q1 Q2 :
  majority M Q1 -> majority M Q2 -> exists x, x ∈ Q1 /\ x ∈ Q2.
Proof.
  intros [Hs1 Hm1] [Hs2 Hm2].
  destruct (decide (Q1 ∩ Q2 = ∅)) as [He|Hne].
  - exfalso. assert (size (Q1 ∪ Q2) = size Q1 + size Q2)%nat as Hu
      by (apply size_union; set_solver).
    pose proof (subseteq_size (Q1 ∪ Q2) M ltac:(set_solver)). lia.
  - apply set_choose_L in Hne as [x Hx]. exists x. set_solver.
Qed.
