(* ===== verification/Types.v ===== *)
(** * Data of the storage and transport packages

    The structs of [internal/storage/wal.go] and [internal/transport/rpc.go],
    one module per struct so that the fields keep the names of the source.
    Go's named string types ([OpType], [RecordType], [RPCType]) stay strings:
    a decoded record may carry any value there, and the code's switches have
    no default branch. *)

From stdpp Require Import base gmap strings list countable.
From S2P Require Import Prelude.

(** ** storage *)

Definition OpType := string.
Definition OpSet : OpType := "SET".
Definition OpDelete : OpType := "DELETE".

Module LogEntry.
Record t := mk {
  Index : Z;
  Term : Z;
  Operation : OpType;
  Key : string;
  Value : string }.
End LogEntry.

Abbreviation LogEntry := LogEntry.t.

Definition RecordType := string.
Definition RecordState : RecordType := "STATE".
Definition RecordEntry : RecordType := "ENTRY".
Definition RecordTruncate : RecordType := "TRUNCATE".
Definition RecordCommit : RecordType := "COMMIT".

Module WALRecord.
Record t := mk {
  Type_ : RecordType;
  Term : Z;
  VotedFor : string;
  CommitIndex : Z;
  Entry : option LogEntry }.
End WALRecord.

Abbreviation WALRecord := WALRecord.t.

(** The four composite literals the program appends to its log; a field that
    is not named has its zero value. *)
Definition stateRecord (term : Z) (votedFor : string) : WALRecord :=
  WALRecord.mk RecordState term votedFor 0 None.
Definition entryRecord (e : LogEntry) : WALRecord :=
  WALRecord.mk RecordEntry 0 "" 0 (Some e).
Definition truncateRecord (commitIndex : Z) : WALRecord :=
  WALRecord.mk RecordTruncate 0 "" commitIndex None.
Definition commitRecord (commitIndex : Z) : WALRecord :=
  WALRecord.mk RecordCommit 0 "" commitIndex None.

(** ** transport *)

Definition RPCType := string.
Definition RPCRequestVoteReq : RPCType := "RV_REQ".
Definition RPCRequestVoteResp : RPCType := "RV_RESP".
Definition RPCAppendEntriesReq : RPCType := "AE_REQ".
Definition RPCAppendEntriesResp : RPCType := "AE_RESP".

Module RequestVoteRequest.
Record t := mk {
  Term : Z;
  CandidateID : string;
  LastLogIndex : Z;
  LastLogTerm : Z }.
End RequestVoteRequest.

Module RequestVoteResponse.
Record t := mk { Term : Z; VoteGranted : bool }.
End RequestVoteResponse.

Module AppendEntriesRequest.
Record t := mk {
  Term : Z;
  LeaderID : string;
  PrevLogIndex : Z;
  PrevLogTerm : Z;
  Entries : list LogEntry;
  LeaderCommit : Z }.
End AppendEntriesRequest.

Module AppendEntriesResponse.
Record t := mk { Term : Z; Success : bool; MatchIndex : Z }.
End AppendEntriesResponse.

Abbreviation RequestVoteRequest := RequestVoteRequest.t.
Abbreviation RequestVoteResponse := RequestVoteResponse.t.
Abbreviation AppendEntriesRequest := AppendEntriesRequest.t.
Abbreviation AppendEntriesResponse := AppendEntriesResponse.t.

Module RPC.
Record t := mk {
  Type_ : RPCType;
  RVReq : option RequestVoteRequest;
  RVResp : option RequestVoteResponse;
  AEreq : option AppendEntriesRequest;
  AEresp : option AppendEntriesResponse }.
End RPC.

Abbreviation RPC := RPC.t.

(** ** Decidable equality and countability *)

#[global] Instance LogEntry_eq_dec : EqDecision LogEntry.
Proof. solve_decision. Defined.

#[global] Instance LogEntry_countable : Countable LogEntry.
Proof.
  refine (inj_countable'
    (fun e => (LogEntry.Index e, LogEntry.Term e, LogEntry.Operation e,
               LogEntry.Key e, LogEntry.Value e))
    (fun '(i, t, o, k, v) => LogEntry.mk i t o k v) _).
  by intros [].
Defined.

#[global] Instance WALRecord_eq_dec : EqDecision WALRecord.
Proof. solve_decision. Defined.

#[global] Instance WALRecord_countable : Countable WALRecord.
Proof.
  refine (inj_countable'
    (fun r => (WALRecord.Type_ r, WALRecord.Term r, WALRecord.VotedFor r,
               WALRecord.CommitIndex r, WALRecord.Entry r))
    (fun '(y, t, v, c, e) => WALRecord.mk y t v c e) _).
  by intros [].
Defined.

#[global] Instance RequestVoteRequest_eq_dec : EqDecision RequestVoteRequest.
Proof. solve_decision. Defined.
#[global] Instance RequestVoteRequest_countable : Countable RequestVoteRequest.
Proof.
  refine (inj_countable'
    (fun r => (RequestVoteRequest.Term r, RequestVoteRequest.CandidateID r,
               RequestVoteRequest.LastLogIndex r, RequestVoteRequest.LastLogTerm r))
    (fun '(t, c, i, l) => RequestVoteRequest.mk t c i l) _).
  by intros [].
Defined.

#[global] Instance RequestVoteResponse_eq_dec : EqDecision RequestVoteResponse.
Proof. solve_decision. Defined.
#[global] Instance RequestVoteResponse_countable : Countable RequestVoteResponse.
Proof.
  refine (inj_countable' (fun r => (RequestVoteResponse.Term r, RequestVoteResponse.VoteGranted r))
    (fun '(t, v) => RequestVoteResponse.mk t v) _).
  by intros [].
Defined.

#[global] Instance AppendEntriesRequest_eq_dec : EqDecision AppendEntriesRequest.
Proof. solve_decision. Defined.
#[global] Instance AppendEntriesRequest_countable : Countable AppendEntriesRequest.
Proof.
  refine (inj_countable'
    (fun r => (AppendEntriesRequest.Term r, AppendEntriesRequest.LeaderID r,
               AppendEntriesRequest.PrevLogIndex r, AppendEntriesRequest.PrevLogTerm r,
               AppendEntriesRequest.Entries r, AppendEntriesRequest.LeaderCommit r))
    (fun '(t, l, i, p, e, c) => AppendEntriesRequest.mk t l i p e c) _).
  by intros [].
Defined.

#[global] Instance AppendEntriesResponse_eq_dec : EqDecision AppendEntriesResponse.
Proof. solve_decision. Defined.
#[global] Instance AppendEntriesResponse_countable : Countable AppendEntriesResponse.
Proof.
  refine (inj_countable'
    (fun r => (AppendEntriesResponse.Term r, AppendEntriesResponse.Success r,
               AppendEntriesResponse.MatchIndex r))
    (fun '(t, s, i) => AppendEntriesResponse.mk t s i) _).
  by intros [].
Defined.

#[global] Instance RPC_eq_dec : EqDecision RPC.
Proof. solve_decision. Defined.
#[global] Instance RPC_countable : Countable RPC.
Proof.
  refine (inj_countable'
    (fun r => (RPC.Type_ r, RPC.RVReq r, RPC.RVResp r, RPC.AEreq r, RPC.AEresp r))
    (fun '(y, a, b, c, d) => RPC.mk y a b c d) _).
  by intros [].
Defined.
