(* ===== verification/Kv.v ===== *)
(** * The key-value store ([internal/kv/store.go])

    The replicated state machine: a Go [map[string]string] behind an
    [RWMutex].  Each method holds the lock for its whole body, so a method is
    one atomic step on the map. *)

From stdpp Require Import base gmap strings list.
From S2P Require Import Prelude Types.

Module Store.
Record t := mk { data : gmap string string }.
End Store.

Abbreviation Store := Store.t.

Definition NewStore : Store := Store.mk ∅.

Definition Set_ (s : Store) (k v : string) : Store := Store.mk (<[k := v]> (Store.data s)).

Definition Delete (s : Store) (k : string) : Store := Store.mk (delete k (Store.data s)).

(** [v, ok := s.data[k]]: the zero value when the key is absent. *)
Definition Get (s : Store) (k : string) : string * bool :=
  match Store.data s !! k with
  | Some v => (v, true)
  | None => ("", false)
  end.

(** A fresh map filled by ranging over the data. *)
Definition GetAll (s : Store) : gmap string string :=
  map_fold (fun k v copy => <[k := v]> copy) ∅ (Store.data s).

(** The body both [applyCommittedEntries] and the recovery loop run on one
    entry ([apply.go:31-35], [node.go:79-83]). *)
Definition applyEntry (s : Store) (entry : LogEntry) : Store :=
  if bool_decide (LogEntry.Operation entry = OpSet) then
    Set_ s (LogEntry.Key entry) (LogEntry.Value entry)
  else if bool_decide (LogEntry.Operation entry = OpDelete) then
    Delete s (LogEntry.Key entry)
  else s.

(** The state machine's value after a sequence of entries. *)
Definition replay (es : list LogEntry) : Store := foldl applyEntry NewStore es.

(** ** Lemmas *)

Lemma Store_ext s1 s2 : Store.data s1 = Store.data s2 -> s1 = s2.
Proof. destruct s1, s2; simpl; congruence. Qed.

Lemma Get_Set s k v : Get (Set_ s k v) k = (v, true).
Proof. unfold Get, Set_; simpl. by rewrite lookup_insert_eq. Qed.

Lemma Get_Set_ne s k k' v : k <> k' -> Get (Set_ s k v) k' = Get s k'.
Proof. intros ?. unfold Get, Set_; simpl. by rewrite lookup_insert_ne. Qed.

Lemma Get_Delete s k : Get (Delete s k) k = ("", false).
Proof. unfold Get, Delete; simpl. by rewrite lookup_delete_eq. Qed.

Lemma Get_Delete_ne s k k' : k <> k' -> Get (Delete s k) k' = Get s k'.
Proof. intros ?. unfold Get, Delete; simpl. by rewrite lookup_delete_ne. Qed.

Lemma GetAll_data s : GetAll s = Store.data s.
Proof.
  unfold GetAll.
  apply (map_fold_weak_ind (fun r m => r = m)); [done|]. by intros k v m r _ ->.
Qed.

Lemma replay_snoc es e : replay (es ++ [e]) = applyEntry (replay es) e.
Proof. unfold replay. by rewrite foldl_app. Qed.

(** Whether an entry writes the key [k]. *)
Definition touches (k : string) (e : LogEntry) : Prop :=
  LogEntry.Key e = k /\ (LogEntry.Operation e = OpSet \/ LogEntry.Operation e = OpDelete).

#[global] Instance touches_dec k e : Decision (touches k e).
Proof. unfold touches. apply _. Defined.

Lemma applyEntry_untouched s e k : ~ touches k e -> Get (applyEntry s e) k = Get s k.
Proof.
  intros Hn. unfold applyEntry, touches in *.
  repeat case_bool_decide; [apply Get_Set_ne|apply Get_Delete_ne|done]; naive_solver.
Qed.

Lemma foldl_untouched s es k :
  Forall (fun e => ~ touches k e) es -> Get (foldl applyEntry s es) k = Get s k.
Proof.
  intros H. revert s. induction H as [|e es He _ IH]; intros s; simpl; [done|].
  by rewrite IH, applyEntry_untouched.
Qed.

(** What the last operation on a key says about it. *)
Definition last_write (k : string) (es : list LogEntry) : option LogEntry :=
  last (filter (touches k) es).

Definition read_of (o : option LogEntry) : string * bool :=
  match o with
  | Some e => if bool_decide (LogEntry.Operation e = OpSet) then (LogEntry.Value e, true) else ("", false)
  | None => ("", false)
  end.

Lemma Get_applyEntry_touch s e k : touches k e -> Get (applyEntry s e) k = read_of (Some e).
Proof.
  intros [<- Ho]. unfold applyEntry, read_of.
  repeat case_bool_decide; [apply Get_Set|apply Get_Delete|]. naive_solver.
Qed.

Lemma last_write_snoc k es e :
  last_write k (es ++ [e]) = if decide (touches k e) then Some e else last_write k es.
Proof.
  unfold last_write. rewrite filter_app. case_decide.
  - by rewrite filter_cons_True, filter_nil, last_snoc.
  - by rewrite filter_cons_False, filter_nil, app_nil_r.
Qed.

(** Reading a key after replaying a log gives the value of the last operation on
    it: the value of the last SET, or not found after a DELETE or no operation. *)
Lemma replay_last_writer_wins es k : Get (replay es) k = read_of (last_write k es).
Proof.
  induction es as [|e es IH] using rev_ind; [done|].
  rewrite replay_snoc, last_write_snoc. case_decide.
  - by apply Get_applyEntry_touch.
  - by rewrite applyEntry_untouched.
Qed.
