(* ===== verification/Crc32.v ===== *)
(** * CRC-32 and big-endian words

    The standard library's part of the log format: [hash/crc32]'s
    [ChecksumIEEE] and [encoding/binary]'s [BigEndian] 32-bit accessors, which
    [internal/storage/wal.go] frames its records with.  The lemmas say what
    [Wal] needs of them: two inputs that differ in one byte have different
    checksums, and a word is read back as it was written.  Bytes are
    [Byte.byte]; words are [N] below [2^32]. *)

From Stdlib Require Import NArith Strings.Byte.
From stdpp Require Import base list numbers.
From S2P Require Import Prelude.

Local Open Scope N_scope.

(** The reversed IEEE polynomial, [crc32.IEEE]. *)
Definition IEEE : N := 0xedb88320.

(** One shift of the table computation ([simpleMakeTable]). *)
Definition crc_shift (crc : N) : N :=
  if N.odd crc then N.lxor (N.shiftr crc 1) IEEE else N.shiftr crc 1.

Definition crc_table (i : N) : N := Nat.iter 8 crc_shift i.

(** [tab[byte(crc)^v] ^ (crc >> 8)] ([simpleUpdate]). *)
Definition crc_byte (crc : N) (v : byte) : N :=
  N.lxor (crc_table (N.lxor (N.land crc 0xff) (Byte.to_N v))) (N.shiftr crc 8).

Definition ChecksumIEEE (data : list byte) : N :=
  N.lxor (foldl crc_byte 0xffffffff data) 0xffffffff.

(** [binary.BigEndian.PutUint32] and [Uint32]; [uint32(n)] keeps 32 bits. *)
Definition byte_of (n : N) : byte := default x00 (Byte.of_N (N.land n 0xff)).

Definition PutUint32 (v : N) : list byte :=
  [byte_of (N.shiftr v 24); byte_of (N.shiftr v 16); byte_of (N.shiftr v 8); byte_of v].

Definition Uint32 (b : list byte) : N :=
  match b with
  | [b0; b1; b2; b3] =>
      N.lor (Byte.to_N b3) (N.lor (N.shiftl (Byte.to_N b2) 8)
        (N.lor (N.shiftl (Byte.to_N b1) 16) (N.shiftl (Byte.to_N b0) 24)))
  | _ => 0
  end.

(** The check value of CRC-32/ISO-HDLC: the checksum of "123456789". *)
Example ChecksumIEEE_check :
  ChecksumIEEE [x31; x32; x33; x34; x35; x36; x37; x38; x39] = 0xcbf43926.
Proof. reflexivity. Qed.

Example ChecksumIEEE_empty : ChecksumIEEE [] = 0.
Proof. reflexivity. Qed.

(** ** The table-driven update is the bit-serial one *)

(** A 32-bit word: its bits from 32 on are zero. *)
Definition word32 (n : N) : Prop := forall i, 32 <= i -> N.testbit n i = false.

Lemma word32_iff n : word32 n <-> n < 2 ^ 32.
Proof.
  split.
  - intros Hw. destruct (decide (n = 0)) as [->|Hn]; [done|].
    apply N.log2_lt_pow2; [lia|].
    destruct (decide (N.log2 n < 32)) as [|Hge]; [done|].
    specialize (Hw (N.log2 n) ltac:(lia)). by rewrite N.bit_log2 in Hw by done.
  - intros Hlt i Hi. destruct (decide (n = 0)) as [->|Hn]; [apply N.bits_0|].
    apply N.bits_above_log2. apply N.log2_lt_pow2 in Hlt; lia.
Qed.

Lemma word32_lxor a b : word32 a -> word32 b -> word32 (N.lxor a b).
Proof. intros Ha Hb i Hi. by rewrite N.lxor_spec, Ha, Hb. Qed.

Lemma word32_shiftr a k : word32 a -> word32 (N.shiftr a k).
Proof. intros Ha i Hi. rewrite N.shiftr_spec' . apply Ha. lia. Qed.

Lemma word32_byte (v : byte) : word32 (Byte.to_N v).
Proof. apply word32_iff. pose proof (Byte.to_N_bounded v). lia. Qed.

Lemma word32_crc_shift a : word32 a -> word32 (crc_shift a).
Proof.
  intros Ha. unfold crc_shift. destruct (N.odd a).
  - apply word32_lxor; [by apply word32_shiftr|]. by apply word32_iff.
  - by apply word32_shiftr.
Qed.

Lemma crc_shift_lxor a b : crc_shift (N.lxor a b) = N.lxor (crc_shift a) (crc_shift b).
Proof.
  unfold crc_shift.
  assert (N.odd (N.lxor a b) = xorb (N.odd a) (N.odd b)) as ->
    by (rewrite <- !N.bit0_odd; apply N.lxor_spec).
  rewrite N.shiftr_lxor.
  destruct (N.odd a), (N.odd b); simpl;
    apply N.bits_inj; intros i; rewrite ?N.lxor_spec;
    destruct (N.testbit (N.shiftr a 1) i), (N.testbit (N.shiftr b 1) i), (N.testbit IEEE i); done.
Qed.

Lemma iter_crc_shift_lxor k a b :
  Nat.iter k crc_shift (N.lxor a b) = N.lxor (Nat.iter k crc_shift a) (Nat.iter k crc_shift b).
Proof. induction k as [|k IH]; simpl; [done|]. by rewrite IH, crc_shift_lxor. Qed.

(** Shifting out bits that are zero is a plain shift. *)
Lemma iter_crc_shift_shiftl k a : Nat.iter k crc_shift (N.shiftl a (N.of_nat k)) = a.
Proof.
  revert a. induction k as [|k IH]; intros a; [simpl; apply N.shiftl_0_r|].
  rewrite Nat.iter_succ_r.
  assert (crc_shift (N.shiftl a (N.of_nat (S k))) = N.shiftl a (N.of_nat k)) as ->; [|apply IH].
  rewrite Nat2N.inj_succ, <- N.add_1_r, <- N.shiftl_shiftl. unfold crc_shift.
  assert (N.odd (N.shiftl (N.shiftl a (N.of_nat k)) 1) = false) as ->.
  { rewrite <- N.bit0_odd. by apply N.shiftl_spec_low. }
  rewrite N.shiftr_shiftl_l by lia. by rewrite N.shiftl_0_r.
Qed.

Lemma split_low_byte x : x = N.lxor (N.land x 0xff) (N.shiftl (N.shiftr x 8) 8).
Proof.
  apply N.bits_inj. intros i. rewrite N.lxor_spec, N.land_spec.
  change 0xff with (N.ones 8). destruct (decide (i < 8)).
  - rewrite N.ones_spec_low by done. rewrite N.shiftl_spec_low by done.
    by rewrite andb_true_r, xorb_false_r.
  - rewrite N.ones_spec_high by lia. rewrite N.shiftl_spec_high' by lia.
    rewrite N.shiftr_spec'. rewrite andb_false_r, xorb_false_l. f_equal; lia.
Qed.

(** The reference: feed the byte into the low bits, then eight bit steps. *)
Definition crc_bitwise (crc : N) (v : byte) : N :=
  Nat.iter 8 crc_shift (N.lxor crc (Byte.to_N v)).

Lemma byte_high_zero (v : byte) i : 8 <= i -> N.testbit (Byte.to_N v) i = false.
Proof.
  intros Hi. destruct (decide (Byte.to_N v = 0)) as [->|Hn]; [apply N.bits_0|].
  apply N.bits_above_log2. pose proof (Byte.to_N_bounded v).
  assert (N.log2 (Byte.to_N v) < 8); [|lia]. apply N.log2_lt_pow2; [lia|]. simpl. lia.
Qed.

(** The table-driven step of [hash/crc32] computes the bit-serial CRC. *)
Lemma crc_byte_bitwise crc v : crc_byte crc v = crc_bitwise crc v.
Proof.
  unfold crc_bitwise. rewrite (split_low_byte (N.lxor crc (Byte.to_N v))).
  rewrite iter_crc_shift_lxor.
  pose proof (iter_crc_shift_shiftl 8 (N.shiftr (N.lxor crc (Byte.to_N v)) 8)) as H8.
  change (N.of_nat 8) with 8 in H8. rewrite H8. unfold crc_byte, crc_table.
  f_equal; [f_equal|]; apply N.bits_inj; intros i.
  - rewrite N.lxor_spec, !N.land_spec, N.lxor_spec. change 0xff with (N.ones 8).
    destruct (decide (i < 8)).
    + rewrite N.ones_spec_low by done. by rewrite !andb_true_r.
    + rewrite N.ones_spec_high by lia. rewrite !andb_false_r, xorb_false_l.
      by apply byte_high_zero; lia.
  - rewrite !N.shiftr_spec', N.lxor_spec, (byte_high_zero v) by lia.
    by rewrite xorb_false_r.
Qed.

(** ** Error detection *)

Lemma crc_shift_top a : word32 a -> N.testbit (crc_shift a) 31 = N.odd a.
Proof.
  intros Ha. unfold crc_shift. destruct (N.odd a).
  - rewrite N.lxor_spec, N.shiftr_spec', Ha by lia. done.
  - rewrite N.shiftr_spec'. apply Ha. lia.
Qed.

Lemma crc_shift_inj a b : word32 a -> word32 b -> crc_shift a = crc_shift b -> a = b.
Proof.
  intros Ha Hb H. pose proof (f_equal (fun n => N.testbit n 31) H) as Ho. simpl in Ho.
  rewrite !crc_shift_top in Ho by done.
  assert (N.shiftr a 1 = N.shiftr b 1) as Hs.
  { unfold crc_shift in H. rewrite Ho in H. destruct (N.odd b); [|done].
    apply (f_equal (fun n => N.lxor n IEEE)) in H.
    by rewrite !N.lxor_assoc, N.lxor_nilpotent, !N.lxor_0_r in H. }
  apply N.bits_inj. intros i. destruct (decide (i = 0)) as [->|].
  - by rewrite !N.bit0_odd.
  - apply (f_equal (fun n => N.testbit n (i - 1))) in Hs.
    rewrite !N.shiftr_spec' in Hs. by replace (i - 1 + 1) with i in Hs by lia.
Qed.

Lemma word32_iter k a : word32 a -> word32 (Nat.iter k crc_shift a).
Proof. intros Ha. induction k; simpl; [done|]. by apply word32_crc_shift. Qed.

Lemma iter_crc_shift_inj k a b :
  word32 a -> word32 b -> Nat.iter k crc_shift a = Nat.iter k crc_shift b -> a = b.
Proof.
  intros Ha Hb. induction k as [|k IH]; simpl; [done|]. intros H. apply IH.
  apply crc_shift_inj; [by apply word32_iter..|done].
Qed.

Lemma lxor_cancel_r a b c : N.lxor a c = N.lxor b c -> a = b.
Proof.
  intros H. apply (f_equal (fun n => N.lxor n c)) in H.
  by rewrite !N.lxor_assoc, N.lxor_nilpotent, !N.lxor_0_r in H.
Qed.

Lemma word32_crc_byte a v : word32 a -> word32 (crc_byte a v).
Proof.
  intros Ha. rewrite crc_byte_bitwise. apply word32_iter, word32_lxor; [done|apply word32_byte].
Qed.

Lemma crc_byte_inj_l a b v : word32 a -> word32 b -> crc_byte a v = crc_byte b v -> a = b.
Proof.
  intros Ha Hb. rewrite !crc_byte_bitwise. intros H.
  apply iter_crc_shift_inj, lxor_cancel_r in H; [done|..];
    apply word32_lxor; auto using word32_byte.
Qed.

Lemma crc_byte_inj_r a v w : word32 a -> crc_byte a v = crc_byte a w -> v = w.
Proof.
  intros Ha. rewrite !crc_byte_bitwise. intros H.
  apply iter_crc_shift_inj in H; [|apply word32_lxor; auto using word32_byte..].
  rewrite !(N.lxor_comm a) in H. apply lxor_cancel_r in H.
  apply (f_equal Byte.of_N) in H. rewrite !Byte.of_to_N in H. by simplify_eq.
Qed.

Lemma word32_foldl s d : word32 s -> word32 (foldl crc_byte s d).
Proof. revert s. induction d; intros s Hs; simpl; auto using word32_crc_byte. Qed.

Lemma foldl_crc_inj a b d :
  word32 a -> word32 b -> foldl crc_byte a d = foldl crc_byte b d -> a = b.
Proof.
  revert a b. induction d as [|v d IH]; intros a b Ha Hb; simpl; [done|].
  intros H. apply IH in H; [|by apply word32_crc_byte..]. by apply crc_byte_inj_l in H.
Qed.

Lemma word32_ones : word32 0xffffffff.
Proof. by apply word32_iff. Qed.

Lemma word32_Checksum d : word32 (ChecksumIEEE d).
Proof. apply word32_lxor; [apply word32_foldl|]; apply word32_ones. Qed.

Lemma Checksum_one_byte p v w s :
  v <> w -> ChecksumIEEE (p ++ v :: s) <> ChecksumIEEE (p ++ w :: s).
Proof.
  intros Hne H. unfold ChecksumIEEE in H. apply lxor_cancel_r in H.
  rewrite !foldl_app in H. simpl in H. apply Hne.
  assert (word32 (foldl crc_byte 0xffffffff p)) by (apply word32_foldl, word32_ones).
  apply foldl_crc_inj in H; [by eapply crc_byte_inj_r|by apply word32_crc_byte..].
Qed.

(** ** Big-endian round trip *)

Lemma to_N_byte_of n : Byte.to_N (byte_of n) = N.land n 0xff.
Proof.
  unfold byte_of. destruct (Byte.of_N (N.land n 0xff)) as [b|] eqn:E; simpl.
  - by apply Byte.to_of_N_iff in E.
  - apply Byte.of_N_None_iff in E. change 0xff with (N.ones 8) in E.
    rewrite N.land_ones in E. pose proof (N.mod_lt n (2 ^ 8) ltac:(done)).
    change (2 ^ 8) with 256 in *. change (N.ones 8) with 255 in *. lia.
Qed.

Lemma length_PutUint32 v : length (PutUint32 v) = 4%nat.
Proof. done. Qed.

Lemma Uint32_PutUint32 v : word32 v -> Uint32 (PutUint32 v) = v.
Proof.
  intros Hv. unfold Uint32, PutUint32. rewrite !to_N_byte_of.
  apply N.bits_inj. intros i. rewrite !N.lor_spec.
  change 0xff with (N.ones 8). rewrite N.land_spec.
  destruct (decide (i < 8)) as [?|?]; [|destruct (decide (i < 16)) as [?|?];
    [|destruct (decide (i < 24)) as [?|?]; [|destruct (decide (i < 32)) as [?|?]]]].
  all: repeat first
    [ rewrite N.shiftl_spec_low by lia | rewrite N.shiftl_spec_high' by lia
    | rewrite N.land_spec | rewrite N.shiftr_spec' | rewrite N.ones_spec_low by lia
    | rewrite N.ones_spec_high by lia | rewrite andb_true_r | rewrite andb_false_r
    | rewrite orb_false_r | rewrite orb_false_l ].
  all: try (f_equal; lia). symmetry. apply Hv. lia.
Qed.
