(* ===== verification/Wal.v ===== *)
(** * The write-ahead log ([internal/storage/wal.go])

    A file is its bytes and the read/write offset of its descriptor.  Every
    operation of the operating system that the code checks for an error takes
    a fault argument that says whether, and after how many bytes, it fails;
    [no_faults] is the ordinary run.  The gob encoder is a parameter ([Gob]):
    what the log relies on is that decoding an encoding gives the record
    back. *)

From Stdlib Require Import NArith Strings.Byte.
From stdpp Require Import base gmap strings list countable.
From S2P Require Import Prelude Types Crc32.

(** What [encoding/gob] promises for [WALRecord]. *)
Class Gob := {
  gob_encode : WALRecord -> option (list byte);
  gob_decode : list byte -> option WALRecord;
  gob_roundtrip : forall r d, gob_encode r = Some d -> gob_decode d = Some r }.

(** Errors the package returns: [os.ErrClosed], gob's, or one of the system. *)
Inductive error := ErrClosed | ErrEncode | ErrIO.

Record File := mkFile { contents : list byte; offset : nat }.

(** [type WAL struct]: the descriptor, [None] once closed. *)
Record WAL := mkWAL { file : option File }.

(** [f.Write(data)]: writes at the offset, over what is there; with
    [Some k] only the first [k] bytes reach the file and an error returns. *)
Definition fwrite (f : File) (d : list byte) : File :=
  mkFile (take (offset f) (contents f)
            ++ replicate (offset f - length (contents f)) x00
            ++ d ++ drop (offset f + length d) (contents f))
         (offset f + length d).

Definition Write (fault : option nat) (f : File) (d : list byte) : File * option error :=
  match fault with
  | None => (fwrite f d, None)
  | Some k => (fwrite f (take k d), Some ErrIO)
  end.

Definition seekEnd (f : File) : File := mkFile (contents f) (length (contents f)).

(** [OpenWAL]: the disk holds the file's bytes, [None] when there is no file;
    [openFault] and [seekFault] are failures of the two system calls. *)
Definition OpenWAL (openFault seekFault : bool) (disk : option (list byte)) : WAL + error :=
  if openFault then inr ErrIO
  else
    let f := mkFile (default [] disk) 0 in
    if seekFault then inr ErrIO
    else inl (mkWAL (Some (seekEnd f))).

Definition Close (closeFault : bool) (w : WAL) : WAL * option error :=
  match file w with
  | Some _ => (mkWAL None, if closeFault then Some ErrIO else None)
  | None => (w, None)
  end.

Record AppendFaults := mkAppendFaults {
  header_fault : option nat; data_fault : option nat; sync_fault : bool }.
Definition no_faults : AppendFaults := mkAppendFaults None None false.

(** [uint32(len(data))] *)
Definition uint32_len (data : list byte) : N := (N.of_nat (length data) mod 2 ^ 32)%N.

Definition header_of (data : list byte) : list byte :=
  PutUint32 (uint32_len data) ++ PutUint32 (ChecksumIEEE data).

Section wal.
Context `{Gob}.

Definition Append (faults : AppendFaults) (w : WAL) (rec : WALRecord) : WAL * option error :=
  match file w with
  | None => (w, Some ErrClosed)
  | Some f =>
      match gob_encode rec with
      | None => (w, Some ErrEncode)
      | Some data =>
          let '(f, err) := Write (header_fault faults) f (header_of data) in
          match err with
          | Some e => (mkWAL (Some f), Some e)
          | None =>
              let '(f, err) := Write (data_fault faults) f data in
              match err with
              | Some e => (mkWAL (Some f), Some e)
              | None => (mkWAL (Some f), if sync_fault faults then Some ErrIO else None)
              end
          end
      end
  end.

(** [io.ReadFull(file, buf)] with [len(buf) = n], on the bytes left. *)
Inductive read_result :=
| ReadOK (buf rest : list byte)
| ReadEOF
| ReadUnexpectedEOF
| ReadErr.

Definition ReadFull (fails : bool) (rest : list byte) (n : N) : read_result :=
  if fails then ReadErr
  else if (n <=? N.of_nat (length rest))%N then
    ReadOK (take (N.to_nat n) rest) (drop (N.to_nat n) rest)
  else match rest with
       | [] => ReadEOF
       | _ => ReadUnexpectedEOF
       end.

(** Which system call fails, if any; reads are numbered by the record. *)
Inductive read_fault := NoReadFault | SeekFails | HeaderFails (k : nat) | DataFails (k : nat).

#[local] Instance read_fault_eq_dec : EqDecision read_fault.
Proof. solve_decision. Defined.

(** The [for] loop of [ReadAll]: the records, the error, and what was left
    unread when it stopped. *)
Fixpoint readLoop (fuel : nat) (fault : read_fault) (k : nat) (rest : list byte)
    (records : list WALRecord) : list WALRecord * option error * list byte :=
  match fuel with
  | O => (records, None, rest)
  | S fuel =>
      match ReadFull (bool_decide (fault = HeaderFails k)) rest 8 with
      | ReadEOF | ReadUnexpectedEOF => (records, None, rest)
      | ReadErr => (records, Some ErrIO, rest)
      | ReadOK header rest =>
          let length := Uint32 (take 4 header) in
          let expectedChecksum := Uint32 (take 4 (drop 4 header)) in
          match ReadFull (bool_decide (fault = DataFails k)) rest length with
          | ReadOK data rest =>
              if negb (ChecksumIEEE data =? expectedChecksum)%N then (records, None, rest)
              else match gob_decode data with
                   | None => (records, None, rest)
                   | Some rec => readLoop fuel fault (S k) rest (records ++ [rec])
                   end
          | _ => (records, None, rest)
          end
      end
  end.

(** Every iteration consumes the eight header bytes, so one unit of fuel per
    byte and one for the final read are enough ([readLoop_fuel]).  An I/O
    error returns before the write head is put back at the end. *)
Definition ReadAll (fault : read_fault) (w : WAL) : WAL * (list WALRecord * option error) :=
  match file w with
  | None => (w, ([], Some ErrClosed))
  | Some f =>
      if bool_decide (fault = SeekFails) then (w, ([], Some ErrIO))
      else
        let '(records, err, rest) :=
          readLoop (S (length (contents f))) fault 0 (contents f) [] in
        match err with
        | Some e => (mkWAL (Some (mkFile (contents f) (length (contents f) - length rest))),
                     (records, Some e))
        | None => (mkWAL (Some (seekEnd f)), (records, None))
        end
  end.

(** ** Frames *)

(** A record the log can hold: gob encodes it in less than 4 GiB. *)
Definition encodable (r : WALRecord) : Prop :=
  exists d, gob_encode r = Some d /\ (N.of_nat (length d) < 2 ^ 32)%N.

(** The bytes [Append] writes for a record. *)
Definition frame (r : WALRecord) : list byte :=
  match gob_encode r with
  | Some data => header_of data ++ data
  | None => []
  end.

Definition frames (rs : list WALRecord) : list byte := concat (map frame rs).

Lemma frames_app rs1 rs2 : frames (rs1 ++ rs2) = frames rs1 ++ frames rs2.
Proof. unfold frames. by rewrite map_app, concat_app. Qed.

Lemma frames_snoc rs r : frames (rs ++ [r]) = frames rs ++ frame r.
Proof. rewrite frames_app. unfold frames at 2. simpl. by rewrite app_nil_r. Qed.

Lemma length_header_of d : length (header_of d) = 8%nat.
Proof. done. Qed.

Lemma ReadFull_app n buf rest :
  N.of_nat (length buf) = n -> ReadFull false (buf ++ rest) n = ReadOK buf rest.
Proof.
  intros <-. unfold ReadFull. rewrite length_app, Nat2N.id.
  rewrite (proj2 (N.leb_le _ _)) by lia.
  by rewrite take_app_length, drop_app_length.
Qed.

(** A read that finds fewer bytes than it asks for stops the loop. *)
Definition read_stops (res : read_result) : Prop :=
  res = ReadEOF \/ res = ReadUnexpectedEOF.

Lemma ReadFull_short n rest :
  (N.of_nat (length rest) < n)%N -> read_stops (ReadFull false rest n).
Proof.
  intros Hl. unfold ReadFull, read_stops. rewrite (proj2 (N.leb_gt _ _)) by lia.
  destruct rest; auto.
Qed.

Lemma uint32_len_small d : (N.of_nat (length d) < 2 ^ 32)%N -> uint32_len d = N.of_nat (length d).
Proof. intros ?. unfold uint32_len. by apply N.mod_small. Qed.

Lemma header_length_field d :
  (N.of_nat (length d) < 2 ^ 32)%N -> Uint32 (take 4 (header_of d)) = N.of_nat (length d).
Proof.
  intros Hd. unfold header_of. rewrite (take_app_le _ _ 4) by (rewrite length_PutUint32; lia).
  rewrite take_ge by (rewrite length_PutUint32; lia).
  rewrite uint32_len_small by done. rewrite Uint32_PutUint32; [done|]. by apply word32_iff.
Qed.

Lemma header_checksum_field d :
  Uint32 (take 4 (drop 4 (header_of d))) = ChecksumIEEE d.
Proof.
  unfold header_of. rewrite (drop_app_length' _ _ 4) by done.
  rewrite take_ge by (rewrite length_PutUint32; lia).
  apply Uint32_PutUint32, word32_Checksum.
Qed.

(** One iteration on an intact frame delivers its record. *)
Lemma readLoop_frame fuel k r tail acc :
  encodable r ->
  readLoop (S fuel) NoReadFault k (frame r ++ tail) acc =
  readLoop fuel NoReadFault (S k) tail (acc ++ [r]).
Proof.
  intros (d & Hd & Hlen). unfold frame. rewrite Hd. cbn [readLoop].
  rewrite !bool_decide_eq_false_2 by done. rewrite <- (app_assoc (header_of d)).
  rewrite (ReadFull_app 8) by done. cbv zeta.
  rewrite header_length_field, header_checksum_field by done.
  rewrite ReadFull_app by done. rewrite N.eqb_refl. simpl.
  by rewrite (gob_roundtrip r d).
Qed.

Lemma readLoop_frames rs : forall fuel k tail acc,
  Forall encodable rs -> (length rs <= fuel)%nat ->
  readLoop fuel NoReadFault k (frames rs ++ tail) acc =
  readLoop (fuel - length rs) NoReadFault (k + length rs) tail (acc ++ rs).
Proof.
  induction rs as [|r rs IH]; intros fuel k tail acc Hf Hl.
  - simpl. by rewrite Nat.sub_0_r, Nat.add_0_r, app_nil_r.
  - apply Forall_cons_1 in Hf as [Hr Hf]. simpl in Hl. destruct fuel as [|fuel]; [lia|].
    change (frames (r :: rs)) with (frame r ++ frames rs).
    rewrite <- (app_assoc (frame r)), readLoop_frame by done.
    rewrite IH by (done || lia). simpl. rewrite <- (app_assoc acc). simpl.
    f_equal. lia.
Qed.

Lemma length_frame r : encodable r -> (8 <= length (frame r))%nat.
Proof.
  intros (d & Hd & _). unfold frame. rewrite Hd, length_app, length_header_of. lia.
Qed.

Lemma length_frames rs : Forall encodable rs -> (8 * length rs <= length (frames rs))%nat.
Proof.
  induction 1 as [|r rs Hr _ IH]; [done|].
  change (frames (r :: rs)) with (frame r ++ frames rs).
  rewrite length_app. apply length_frame in Hr. simpl. lia.
Qed.

(** What stops the loop at the start of a tail: too few bytes for a header,
    too few for the payload it announces, or a checksum that does not match. *)
Definition unreadable (tail : list byte) : Prop :=
  (length tail < 8)%nat \/
  exists h rest, tail = h ++ rest /\ length h = 8%nat /\
    ((N.of_nat (length rest) < Uint32 (take 4 h))%N \/
     exists d more, rest = d ++ more /\ N.of_nat (length d) = Uint32 (take 4 h) /\
       ChecksumIEEE d <> Uint32 (take 4 (drop 4 h))).

Lemma readLoop_unreadable fuel k tail acc :
  unreadable tail ->
  exists rest, readLoop fuel NoReadFault k tail acc = (acc, None, rest).
Proof.
  destruct fuel as [|fuel]; [by eexists|]. cbn [readLoop].
  rewrite !bool_decide_eq_false_2 by done.
  intros [Hs|(h & rest & -> & Hh & Hr)].
  - destruct (ReadFull_short 8 tail ltac:(lia)) as [->| ->]; by eexists.
  - rewrite ReadFull_app by lia. destruct Hr as [Hs|(d & more & -> & Hd & Hc)].
    + destruct (ReadFull_short _ _ Hs) as [->| ->]; by eexists.
    + rewrite ReadFull_app by done. rewrite (proj2 (N.eqb_neq _ _)) by done. by eexists.
Qed.

Lemma unreadable_nil : unreadable [].
Proof. left. simpl. lia. Qed.

(** A proper prefix of a frame is unreadable: the torn write of a crash. *)
Lemma unreadable_torn r k :
  encodable r -> (k < length (frame r))%nat -> unreadable (take k (frame r)).
Proof.
  intros (d & Hd & Hlen) Hk. unfold frame in *. rewrite Hd in *.
  rewrite length_app, length_header_of in Hk.
  destruct (decide (k < 8)%nat) as [?|Hge].
  - left. rewrite length_take, length_app, length_header_of. lia.
  - right. exists (header_of d), (take (k - 8) d). split.
    { rewrite take_app, length_header_of. by rewrite (take_ge (header_of d)) by (rewrite length_header_of; lia). }
    split; [done|]. left. rewrite header_length_field by done. rewrite length_take. lia.
Qed.

(** A frame whose payload has one wrong byte is unreadable, whatever follows. *)
Lemma unreadable_flip p v w s more :
  v <> w -> (N.of_nat (length (p ++ v :: s)) < 2 ^ 32)%N ->
  unreadable (header_of (p ++ v :: s) ++ (p ++ w :: s) ++ more).
Proof.
  intros Hne Hlen. right. exists (header_of (p ++ v :: s)), ((p ++ w :: s) ++ more).
  split; [done|]. split; [done|]. right. exists (p ++ w :: s), more.
  rewrite header_length_field, header_checksum_field by done.
  split; [done|]. split; [by rewrite !length_app|].
  by apply Checksum_one_byte.
Qed.

(** Reading frames followed by an unreadable tail gives the records. *)
Lemma readLoop_stops rs tail :
  Forall encodable rs -> unreadable tail ->
  exists rest, readLoop (S (length (frames rs ++ tail))) NoReadFault 0 (frames rs ++ tail) [] =
               (rs, None, rest).
Proof.
  intros Hrs Ht. pose proof (length_frames rs Hrs) as Hl.
  rewrite readLoop_frames by (done || len_lia).
  by apply readLoop_unreadable.
Qed.

(** ** Invariant *)

(** The log is open, its bytes are the frames of [rs] followed by [tail], and
    its write head is at the end. *)
Definition holds (w : WAL) (rs : list WALRecord) (tail : list byte) : Prop :=
  exists f, file w = Some f /\ contents f = frames rs ++ tail /\
    offset f = length (contents f) /\ Forall encodable rs.

Lemma fwrite_end f d : offset f = length (contents f) ->
  fwrite f d = mkFile (contents f ++ d) (length (contents f ++ d)).
Proof.
  intros Ho. unfold fwrite. rewrite Ho, Nat.sub_diag, take_ge by lia.
  rewrite drop_ge by lia. simpl. by rewrite app_nil_r, length_app.
Qed.

Lemma ReadAll_holds w rs tail :
  holds w rs tail -> unreadable tail ->
  holds (fst (ReadAll NoReadFault w)) rs tail /\
  snd (ReadAll NoReadFault w) = (rs, None).
Proof.
  intros (f & Hf & Hc & Ho & Hrs) Ht. unfold ReadAll. rewrite Hf.
  rewrite bool_decide_eq_false_2 by done. rewrite Hc.
  destruct (readLoop_stops rs tail Hrs Ht) as [rest ->]. simpl.
  split; [|done]. exists (seekEnd f). split_and!; done.
Qed.

Lemma Append_holds w rs tail r data :
  holds w rs tail -> gob_encode r = Some data ->
  exists w', Append no_faults w r = (w', None) /\
    exists f', file w' = Some f' /\ contents f' = frames rs ++ tail ++ frame r /\
      offset f' = length (contents f').
Proof.
  intros (f & Hf & Hc & Ho & Hrs) Hd. unfold Append. rewrite Hf, Hd.
  cbn [header_fault data_fault sync_fault no_faults Write].
  rewrite (fwrite_end f) by done. rewrite fwrite_end by done. cbn [contents].
  eexists. split; [done|]. eexists. split; [done|]. simpl. split; [|done].
  unfold frame. rewrite Hd, Hc, <- !app_assoc. done.
Qed.

Lemma Append_intact w rs r :
  holds w rs [] -> encodable r -> holds (fst (Append no_faults w r)) (rs ++ [r]) [].
Proof.
  intros Hw (d & Hd & Hlen). pose proof Hw as (f & _ & _ & _ & Hrs).
  destruct (Append_holds w rs [] r d Hw Hd) as (w' & -> & f' & Hf' & Hc' & Ho').
  exists f'. rewrite frames_snoc, app_nil_r. split_and!; [done|done|done|].
  apply Forall_app. split; [done|]. apply Forall_singleton. by exists d.
Qed.


(** Whatever fails inside [Append], the bytes it adds are a prefix of the
    frame; the whole frame when it returns nil. *)
Lemma Append_prefix faults w rs r w' err :
  holds w rs [] -> encodable r -> Append faults w r = (w', err) ->
  exists f' m, file w' = Some f' /\ contents f' = frames rs ++ take m (frame r) /\
    (err = None -> (length (frame r) <= m)%nat).
Proof.
  intros (f & Hf & Hc & Ho & _) (d & Hd & _). unfold Append, frame. rewrite Hf, Hd.
  rewrite app_nil_r in Hc. destruct faults as [hf df sf]; cbn [header_fault data_fault sync_fault].
  destruct hf as [k|]; cbn [Write]; rewrite (fwrite_end f) by done.
  { intros [= <- <-]. eexists _, (min k 8). split; [done|]. split; [|done]. cbn [contents].
    rewrite Hc, take_app_le by (rewrite length_header_of; lia). f_equal.
    rewrite <- take_take. f_equal. }
  destruct df as [k|]; cbn [Write]; rewrite fwrite_end by done; intros [= <- <-].
  - eexists _, (8 + k)%nat. split; [done|]. split; [|done]. cbn [contents].
    rewrite Hc, <- app_assoc, take_app, length_header_of. f_equal.
    rewrite (take_ge (header_of d)) by (rewrite length_header_of; lia).
    do 2 f_equal. lia.
  - eexists _, (length (header_of d ++ d)). split; [done|]. split; [|lia]. cbn [contents].
    by rewrite Hc, <- app_assoc, take_ge by lia.
Qed.

(** ** Fuel *)

Lemma ReadFull_OK b rest n buf rest' :
  ReadFull b rest n = ReadOK buf rest' -> (length rest' = length rest - N.to_nat n)%nat.
Proof.
  unfold ReadFull. destruct b; [done|]. destruct (n <=? _)%N; [|by destruct rest].
  intros [= _ <-]. by rewrite length_drop.
Qed.

Lemma readLoop_fuel fault fuel1 : forall fuel2 k rest acc,
  (length rest < fuel1)%nat -> (length rest < fuel2)%nat ->
  readLoop fuel1 fault k rest acc = readLoop fuel2 fault k rest acc.
Proof.
  induction fuel1 as [|fuel1 IH]; intros [|fuel2] k rest acc H1 H2; [lia..|].
  cbn [readLoop]. destruct (ReadFull _ rest 8) as [hd rest1| | |] eqn:E1; try done.
  cbv zeta. destruct (ReadFull _ rest1 _) as [data rest2| | |] eqn:E2; try done.
  destruct (negb _); [done|]. destruct (gob_decode data); [|done].
  assert (8 <= length rest)%nat.
  { unfold ReadFull in E1. destruct (bool_decide _); [done|].
    destruct (N.leb_spec 8 (N.of_nat (length rest))); [lia|by destruct rest]. }
  apply ReadFull_OK in E1, E2. apply IH; lia.
Qed.

(** The bytes on disk behind an open log. *)
Definition disk (w : WAL) : list byte :=
  match file w with Some f => contents f | None => [] end.

(** [ReadAll] after the process restarts on a disk. *)
Definition readDisk (bytes : list byte) : list WALRecord * option error :=
  match OpenWAL false false (Some bytes) with
  | inl w => snd (ReadAll NoReadFault w)
  | inr e => ([], Some e)
  end.

Definition appendAll (w : WAL) (rs : list WALRecord) : WAL :=
  foldl (fun w r => fst (Append no_faults w r)) w rs.

Lemma open_holds rs tail :
  Forall encodable rs ->
  holds (mkWAL (Some (seekEnd (mkFile (frames rs ++ tail) 0)))) rs tail.
Proof. intros Hrs. eexists. split; [done|]. by split_and!. Qed.

Lemma readDisk_holds rs tail :
  Forall encodable rs -> unreadable tail -> readDisk (frames rs ++ tail) = (rs, None).
Proof.
  intros Hrs Ht. unfold readDisk, OpenWAL. simpl default.
  by destruct (ReadAll_holds _ rs tail (open_holds rs tail Hrs) Ht) as [_ ->].
Qed.

Lemma readDisk_frames rs : Forall encodable rs -> readDisk (frames rs) = (rs, None).
Proof.
  intros Hrs. rewrite <- (app_nil_r (frames rs)). by apply readDisk_holds, unreadable_nil.
Qed.

(** Appends go to the end of the file, whatever stands there. *)
Lemma appendAll_extends w rs0 tail rs :
  holds w rs0 tail -> Forall encodable rs ->
  holds (appendAll w rs) rs0 (tail ++ frames rs).
Proof.
  intros Hw Hrs. revert w tail Hw. induction Hrs as [|r rs Hr _ IH]; intros w tail Hw; simpl.
  - by rewrite app_nil_r.
  - change (frames (r :: rs)) with (frame r ++ frames rs).
    rewrite app_assoc. apply IH. destruct Hr as (d & Hd & _).
    destruct (Append_holds _ _ _ _ _ Hw Hd) as (w' & -> & f' & Hf' & Hc' & Ho').
    destruct Hw as (_ & _ & _ & _ & Hrs0). by exists f'.
Qed.

Lemma holds_disk w rs tail : holds w rs tail -> disk w = frames rs ++ tail.
Proof. intros (f & Hf & Hc & _). unfold disk. by rewrite Hf. Qed.

(** ** Properties *)

(** C18: What is appended to the write-ahead log is read back: opening a log that holds
    some records, appending more and reading the file from the start gives all of them
    in order, with no error. *)
Theorem wal_persistence disk0 w0 rs0 rs :
  OpenWAL false false disk0 = inl w0 -> default [] disk0 = frames rs0 ->
  Forall encodable rs0 -> Forall encodable rs ->
  readDisk (disk (appendAll w0 rs)) = (rs0 ++ rs, None).
Proof.
  unfold OpenWAL. intros [= <-] Hd Hrs0 Hrs. rewrite Hd.
  pose proof (open_holds rs0 [] Hrs0) as Hw. rewrite app_nil_r in Hw.
  pose proof (holds_disk _ _ _ (appendAll_extends _ _ _ _ Hw Hrs)) as Hall.
  rewrite Hall, app_nil_l, <- frames_app. apply readDisk_frames. by apply Forall_app.
Qed.

(** C19: A write that fails or is cut short after any number of bytes of header or
    payload leaves the earlier records readable and adds the new one entirely or not at
    all; Append returns no error only if the record is readable. *)
Theorem wal_torn_write faults w rs r w' err :
  holds w rs [] -> encodable r -> Append faults w r = (w', err) ->
  (readDisk (disk w') = (rs, None) \/ readDisk (disk w') = (rs ++ [r], None)) /\
  (err = None -> readDisk (disk w') = (rs ++ [r], None)).
Proof.
  intros Hw Hr Ha. pose proof Hw as (_ & _ & _ & _ & Hrs).
  destruct (Append_prefix _ _ _ _ _ _ Hw Hr Ha) as (f' & m & Hf & Hc & He).
  unfold disk. rewrite Hf, Hc.
  destruct (decide (length (frame r) <= m)%nat) as [Hm|Hm].
  - rewrite take_ge by done. rewrite <- frames_snoc.
    assert (readDisk (frames (rs ++ [r])) = (rs ++ [r], None)) as ->; [|by auto].
    apply readDisk_frames, Forall_app. by rewrite Forall_singleton.
  - split; [left|intros Hn; by apply He in Hn].
    apply readDisk_holds; [done|]. apply unreadable_torn; [done|lia].
Qed.

(** C20: A payload with one changed byte is detected by its checksum: reading stops
    before the damaged record and returns the records in front of it. *)
Theorem wal_corrupt_payload rs1 r rs2 p v w s :
  Forall encodable rs1 -> encodable r -> gob_encode r = Some (p ++ v :: s) -> v <> w ->
  readDisk (frames rs1 ++ header_of (p ++ v :: s) ++ (p ++ w :: s) ++ frames rs2) = (rs1, None).
Proof.
  intros Hrs (d & Hd & Hlen) Hg Hne. apply readDisk_holds; [done|].
  apply unreadable_flip; [done|]. by simplify_eq.
Qed.

(** C23: The log does not cut off a damaged tail: after recovery has stopped at a record
    with a damaged byte, everything appended later is written behind it and is never
    read again. *)
Theorem wal_append_after_corruption_lost rs1 p v w s rs :
  Forall encodable rs1 -> v <> w -> (N.of_nat (length (p ++ v :: s)) < 2 ^ 32)%N ->
  Forall encodable rs ->
  let damaged := frames rs1 ++ header_of (p ++ v :: s) ++ p ++ w :: s in
  exists w0 w1, OpenWAL false false (Some damaged) = inl w0 /\
    ReadAll NoReadFault w0 = (w1, (rs1, None)) /\
    readDisk (disk (appendAll w1 rs)) = (rs1, None).
Proof.
  intros Hrs1 Hne Hlen Hrs damaged.
  set (bad := header_of (p ++ v :: s) ++ p ++ w :: s) in damaged.
  assert (forall more, unreadable (bad ++ more)) as Hu.
  { intros more. unfold bad. rewrite <- (app_assoc (header_of _)). by apply unreadable_flip. }
  pose proof (open_holds rs1 bad Hrs1) as Hw0. specialize (Hu []) as Hu0. rewrite app_nil_r in Hu0.
  destruct (ReadAll_holds _ _ _ Hw0 Hu0) as [Hw1 Hres].
  eexists _, _. split; [done|]. split; [by rewrite <- Hres, <- surjective_pairing|].
  apply (appendAll_extends _ _ _ _ Hw1) in Hrs as Hw2.
  rewrite (holds_disk _ _ _ Hw2). by apply readDisk_holds.
Qed.

End wal.

(** ** A concrete encoder

    The hypotheses of [Gob] can hold: records are countable, and the bits of
    the code of a record, one per byte, are an encoding.  Used to run the log
    on concrete records. *)

Fixpoint bits_of (p : positive) : list byte :=
  match p with xH => [] | xO p => x00 :: bits_of p | xI p => x01 :: bits_of p end.

Fixpoint of_bits (d : list byte) : positive :=
  match d with [] => xH | b :: d => if Byte.eqb b x01 then xI (of_bits d) else xO (of_bits d) end.

Lemma of_bits_of p : of_bits (bits_of p) = p.
Proof. induction p as [p IH|p IH|]; simpl; congruence. Qed.

Definition bit_gob : Gob.
Proof.
  refine {| gob_encode r := Some (bits_of (encode r)); gob_decode d := decode (of_bits d) |}.
  intros r d [= <-]. by rewrite of_bits_of, decode_encode.
Defined.

Definition rec1 : WALRecord := stateRecord 1 "n1".
Definition rec2 : WALRecord := entryRecord (LogEntry.mk 0 1 OpSet "x" "1").
Definition rec3 : WALRecord := commitRecord 0.

Lemma wal_persistence_witness :
  @readDisk bit_gob (disk (@appendAll bit_gob (mkWAL (Some (seekEnd (mkFile (@frames bit_gob [rec1]) 0)))) [rec2; rec3]))
  = ([rec1; rec2; rec3], None).
Proof.
  apply (@wal_persistence bit_gob (Some (@frames bit_gob [rec1])) _ [rec1] [rec2; rec3]);
    [reflexivity|reflexivity|..]; repeat constructor; eexists; (split; [reflexivity|vm_compute; reflexivity]).
Defined.


(** A log file that holds [rec1], open for appending. *)
Definition wal1 : WAL := mkWAL (Some (seekEnd (mkFile (@frames bit_gob [rec1]) 0))).

Lemma rec_encodable : Forall (@encodable bit_gob) [rec1; rec2; rec3].
Proof. repeat constructor; eexists; (split; [reflexivity|vm_compute; reflexivity]). Qed.

Lemma rec1_encodable : Forall (@encodable bit_gob) [rec1].
Proof. by apply (Forall_app _ [rec1] [rec2; rec3]), rec_encodable. Qed.

(** The disk is full after three bytes of the payload. *)
Lemma wal_torn_write_witness :
  let w' := fst (@Append bit_gob (mkAppendFaults None (Some 3%nat) false) wal1 rec2) in
  @readDisk bit_gob (disk w') = ([rec1], None) \/ @readDisk bit_gob (disk w') = ([rec1; rec2], None).
Proof.
  apply (@wal_torn_write bit_gob (mkAppendFaults None (Some 3%nat) false) wal1 [rec1] rec2 _ (Some ErrIO)).
  - pose proof (@open_holds bit_gob [rec1] [] rec1_encodable) as Hw. by rewrite app_nil_r in Hw.
  - eexists. split; [reflexivity|vm_compute; reflexivity].
  - reflexivity.
Defined.

Definition payload2 : list byte := bits_of (encode rec2).
Definition tail2 : list byte := tail payload2.

(** The first byte of the second payload is damaged. *)
Lemma wal_corrupt_payload_witness :
  @readDisk bit_gob (@frames bit_gob [rec1] ++ header_of payload2 ++ (x02 :: tail2) ++ @frames bit_gob [rec3])
  = ([rec1], None).
Proof.
  apply (@wal_corrupt_payload bit_gob [rec1] rec2 [rec3] [] (hd x00 payload2) x02 tail2).
  - apply rec1_encodable.
  - eexists. split; [reflexivity|vm_compute; reflexivity].
  - vm_compute. reflexivity.
  - vm_compute. discriminate.
Defined.

Lemma wal_append_after_corruption_lost_witness :
  exists w0 w1,
    OpenWAL false false (Some (@frames bit_gob [rec1] ++ header_of payload2 ++ x02 :: tail2)) = inl w0 /\
    @ReadAll bit_gob NoReadFault w0 = (w1, ([rec1], None)) /\
    @readDisk bit_gob (disk (@appendAll bit_gob w1 [rec3])) = ([rec1], None).
Proof.
  apply (@wal_append_after_corruption_lost bit_gob [rec1] [] (hd x00 payload2) x02 tail2 [rec3]).
  - apply rec1_encodable.
  - vm_compute. discriminate.
  - vm_compute. reflexivity.
  - by apply (Forall_app _ [rec1; rec2] [rec3]), rec_encodable.
Defined.
