(* ===== verification/State.v ===== *)
(** * The Raft node ([internal/raft/state.go]) and its log interface

    The [Node] struct, its accessors, and the interface through which the
    consensus code uses the write-ahead log.  [WalOps] is what the code calls
    ([Append] with its error dropped, [ReadAll], [Close], and reopening the
    file when the process restarts); [WalLaws] is what it relies on.  The
    byte-level log of [Wal] is one instance, the list of records [MemWal] the
    other; the theorems on nodes are proved against the interface. *)

From Stdlib Require Import NArith Strings.Byte.
From stdpp Require Import base gmap strings list.
From S2P Require Import Prelude Types Kv Crc32 Wal.

(** ** The log as the node sees it *)

Class WalOps (W : Type) := {
  wal_append : W -> WALRecord -> W;                (* _ = n.wal.Append(rec) *)
  wal_read : W -> W * (list WALRecord * option error);  (* n.wal.ReadAll() *)
  wal_close : W -> W;                              (* _ = n.wal.Close() *)
  wal_reopen : W -> W }.                           (* OpenWAL after a restart *)

(** [wal_view w rs]: the log is open and durably holds exactly [rs];
    [rec_ok r]: the log can hold [r]. *)
Class WalLaws (W : Type) `{WalOps W} := {
  wal_view : W -> list WALRecord -> Prop;
  rec_ok : WALRecord -> Prop;
  wal_append_view w rs r :
    wal_view w rs -> rec_ok r -> wal_view (wal_append w r) (rs ++ [r]);
  wal_read_view w rs :
    wal_view w rs -> wal_view (fst (wal_read w)) rs /\ snd (wal_read w) = (rs, None);
  wal_reopen_view w rs : wal_view w rs -> wal_view (wal_reopen w) rs }.

(** The byte-level log, when the operating system does not fail. *)
#[export] Instance byte_wal_ops `{Gob} : WalOps WAL := {|
  wal_append w r := fst (Append no_faults w r);
  wal_read w := ReadAll NoReadFault w;
  wal_close w := fst (Close false w);
  wal_reopen w :=
    match OpenWAL false false (Some (disk w)) with
    | inl w' => w'
    | inr _ => w
    end |}.

#[export] Instance byte_wal_laws `{Gob} : WalLaws WAL.
Proof.
  refine {| wal_view w rs := holds w rs []; rec_ok := encodable |}.
  - intros w rs r. apply Append_intact.
  - intros w rs Hw. by apply ReadAll_holds, unreadable_nil.
  - intros w rs Hw. simpl. unfold wal_reopen, byte_wal_ops, OpenWAL. simpl default.
    rewrite (holds_disk _ _ _ Hw). apply open_holds. by destruct Hw as (_ & _ & _ & _ & ?).
Defined.

(** A list of records, with the open flag: the log's abstract state. *)
Record MemWal := mkMemWal { records : list WALRecord; is_open : bool }.

#[export] Instance mem_wal_ops : WalOps MemWal := {|
  wal_append w r := if is_open w then mkMemWal (records w ++ [r]) true else w;
  wal_read w := (w, if is_open w then (records w, None) else ([], Some ErrClosed));
  wal_close w := mkMemWal (records w) false;
  wal_reopen w := mkMemWal (records w) true |}.

#[export] Instance mem_wal_laws : WalLaws MemWal.
Proof.
  refine {| wal_view w rs := w = mkMemWal rs true; rec_ok _ := True |}.
  - by intros w rs r ->.
  - by intros w rs ->.
  - by intros w rs ->.
Defined.

(** ** Node state *)

Inductive NodeState := Follower | Candidate | Leader.

#[export] Instance NodeState_eq_dec : EqDecision NodeState.
Proof. solve_decision. Defined.

(** [func (s NodeState) String()]; the "UNKNOWN" default is for integers that
    are none of the three constants, which the program never stores. *)
Definition NodeState_String (s : NodeState) : string :=
  match s with
  | Follower => "FOLLOWER"
  | Candidate => "CANDIDATE"
  | Leader => "LEADER"
  end.

(** A client's request; its reply channel is a number. *)
Module ClientReq.
Record t := mk { Op : OpType; Key : string; Value : string; ResCh : nat }.
End ClientReq.

Abbreviation ClientReq := ClientReq.t.

(** [electionTimer] is the generation of the timer armed last; [stopped] is
    whether [stopCh] is closed; [clientCh] and [applyNotify] are the contents
    of the two buffered channels (the second holds at most one token). *)
Record Node (W : Type) := mkNode {
  ID : string;
  Addr : string;
  Peers : gmap string string;
  State : NodeState;
  CurrentTerm : Z;
  VotedFor : string;
  Log : list LogEntry;
  CommitIndex : Z;
  LastApplied : Z;
  NextIndex : gmap string Z;
  MatchIndex : gmap string Z;
  KVStore : Store;
  electionTimer : option nat;
  wal : W;
  stopped : bool;
  clientCh : list ClientReq;
  applyNotify : bool }.
Arguments mkNode {W}.
Arguments ID {W}.
Arguments Addr {W}.
Arguments Peers {W}.
Arguments State {W}.
Arguments CurrentTerm {W}.
Arguments VotedFor {W}.
Arguments Log {W}.
Arguments CommitIndex {W}.
Arguments LastApplied {W}.
Arguments NextIndex {W}.
Arguments MatchIndex {W}.
Arguments KVStore {W}.
Arguments electionTimer {W}.
Arguments wal {W}.
Arguments stopped {W}.
Arguments clientCh {W}.
Arguments applyNotify {W}.

(** ** Field updates *)

Section setters.
Context {W : Type}.

Definition set_State (x : NodeState) (n : Node W) : Node W :=
  mkNode (ID n) (Addr n) (Peers n) x (CurrentTerm n) (VotedFor n) (Log n) (CommitIndex n)
    (LastApplied n) (NextIndex n) (MatchIndex n) (KVStore n) (electionTimer n) (wal n)
    (stopped n) (clientCh n) (applyNotify n).
Definition set_CurrentTerm (x : Z) (n : Node W) : Node W :=
  mkNode (ID n) (Addr n) (Peers n) (State n) x (VotedFor n) (Log n) (CommitIndex n)
    (LastApplied n) (NextIndex n) (MatchIndex n) (KVStore n) (electionTimer n) (wal n)
    (stopped n) (clientCh n) (applyNotify n).
Definition set_VotedFor (x : string) (n : Node W) : Node W :=
  mkNode (ID n) (Addr n) (Peers n) (State n) (CurrentTerm n) x (Log n) (CommitIndex n)
    (LastApplied n) (NextIndex n) (MatchIndex n) (KVStore n) (electionTimer n) (wal n)
    (stopped n) (clientCh n) (applyNotify n).
Definition set_Log (x : list LogEntry) (n : Node W) : Node W :=
  mkNode (ID n) (Addr n) (Peers n) (State n) (CurrentTerm n) (VotedFor n) x (CommitIndex
    n) (LastApplied n) (NextIndex n) (MatchIndex n) (KVStore n) (electionTimer n) (wal n)
    (stopped n) (clientCh n) (applyNotify n).
Definition set_CommitIndex (x : Z) (n : Node W) : Node W :=
  mkNode (ID n) (Addr n) (Peers n) (State n) (CurrentTerm n) (VotedFor n) (Log n) x
    (LastApplied n) (NextIndex n) (MatchIndex n) (KVStore n) (electionTimer n) (wal n)
    (stopped n) (clientCh n) (applyNotify n).
Definition set_LastApplied (x : Z) (n : Node W) : Node W :=
  mkNode (ID n) (Addr n) (Peers n) (State n) (CurrentTerm n) (VotedFor n) (Log n)
    (CommitIndex n) x (NextIndex n) (MatchIndex n) (KVStore n) (electionTimer n) (wal n)
    (stopped n) (clientCh n) (applyNotify n).
Definition set_NextIndex (x : gmap string Z) (n : Node W) : Node W :=
  mkNode (ID n) (Addr n) (Peers n) (State n) (CurrentTerm n) (VotedFor n) (Log n)
    (CommitIndex n) (LastApplied n) x (MatchIndex n) (KVStore n) (electionTimer n) (wal n)
    (stopped n) (clientCh n) (applyNotify n).
Definition set_MatchIndex (x : gmap string Z) (n : Node W) : Node W :=
  mkNode (ID n) (Addr n) (Peers n) (State n) (CurrentTerm n) (VotedFor n) (Log n)
    (CommitIndex n) (LastApplied n) (NextIndex n) x (KVStore n) (electionTimer n) (wal n)
    (stopped n) (clientCh n) (applyNotify n).
Definition set_KVStore (x : Store) (n : Node W) : Node W :=
  mkNode (ID n) (Addr n) (Peers n) (State n) (CurrentTerm n) (VotedFor n) (Log n)
    (CommitIndex n) (LastApplied n) (NextIndex n) (MatchIndex n) x (electionTimer n) (wal
    n) (stopped n) (clientCh n) (applyNotify n).
Definition set_electionTimer (x : option nat) (n : Node W) : Node W :=
  mkNode (ID n) (Addr n) (Peers n) (State n) (CurrentTerm n) (VotedFor n) (Log n)
    (CommitIndex n) (LastApplied n) (NextIndex n) (MatchIndex n) (KVStore n) x (wal n)
    (stopped n) (clientCh n) (applyNotify n).
Definition set_wal (x : W) (n : Node W) : Node W :=
  mkNode (ID n) (Addr n) (Peers n) (State n) (CurrentTerm n) (VotedFor n) (Log n)
    (CommitIndex n) (LastApplied n) (NextIndex n) (MatchIndex n) (KVStore n)
    (electionTimer n) x (stopped n) (clientCh n) (applyNotify n).
Definition set_stopped (x : bool) (n : Node W) : Node W :=
  mkNode (ID n) (Addr n) (Peers n) (State n) (CurrentTerm n) (VotedFor n) (Log n)
    (CommitIndex n) (LastApplied n) (NextIndex n) (MatchIndex n) (KVStore n)
    (electionTimer n) (wal n) x (clientCh n) (applyNotify n).
Definition set_clientCh (x : list ClientReq) (n : Node W) : Node W :=
  mkNode (ID n) (Addr n) (Peers n) (State n) (CurrentTerm n) (VotedFor n) (Log n)
    (CommitIndex n) (LastApplied n) (NextIndex n) (MatchIndex n) (KVStore n)
    (electionTimer n) (wal n) (stopped n) x (applyNotify n).
Definition set_applyNotify (x : bool) (n : Node W) : Node W :=
  mkNode (ID n) (Addr n) (Peers n) (State n) (CurrentTerm n) (VotedFor n) (Log n)
    (CommitIndex n) (LastApplied n) (NextIndex n) (MatchIndex n) (KVStore n)
    (electionTimer n) (wal n) (stopped n) (clientCh n) x.

End setters.

(** ** Accessors *)

Section accessors.
Context {W : Type}.
Implicit Types n : Node W.

Definition GetState n (key : string) : string * bool := Get (KVStore n) key.
Definition GetRole n : string := NodeState_String (State n).
Definition GetTerm n : Z := CurrentTerm n.
Definition GetCommit n : Z := CommitIndex n.
Definition GetLastApplied n : Z := LastApplied n.
(** [make] and [copy] into a slice of the same length. *)
Definition GetLogEntries n : list LogEntry := Log n.
Definition GetAllKeys n : gmap string string := GetAll (KVStore n).

(** [_ = n.wal.Append(rec)] *)
Definition walAppend `{WalOps W} (rec : WALRecord) n : Node W :=
  set_wal (wal_append (wal n) rec) n.

(** [resetElectionTimer]: stop the timer and arm a new one.  Timeouts are not
    modelled: an armed timer may fire at any moment. *)
Definition resetElectionTimer n : Node W :=
  set_electionTimer (Some (S (default 0%nat (electionTimer n)))) n.

(** [len(n.Peers) + 1] *)
Definition peersCount n : Z := Z.of_nat (size (Peers n)) + 1.

(** The index and term of the last entry ([election.go:21-26],
    [replication.go:218-223]). *)
Definition lastLog n : Z * Z :=
  match last (Log n) with
  | Some e => (LogEntry.Index e, LogEntry.Term e)
  | None => (-1, 0)
  end.

End accessors.
