(* ===== verification/Recovery.v ===== *)
(** * Construction and recovery ([internal/raft/node.go])

    [NewNode], [recoverState] and [Stop].  The part of a node that must
    survive a crash is [Persistent]; [replayRecord] is what one record of the
    log does to it. *)

From stdpp Require Import base gmap strings list.
From S2P Require Import Prelude Types Kv Wal State.

Section recovery.
Context {W : Type} `{WalOps W}.
Implicit Types n : Node W.

(** The composite literal of [NewNode]. *)
Definition freshNode (id addr : string) (peers : gmap string string) (w : W) : Node W :=
  mkNode id addr peers Follower 0 "" [] (-1) (-1) ∅ ∅ NewStore None w false [] false.

(** One iteration of the record loop of [recoverState].  A TRUNCATE record
    carries a slice position minus one, so the sum stays in range. *)
Definition recoverRecord n (rec : WALRecord) : Node W :=
  if bool_decide (WALRecord.Type_ rec = RecordState) then
    set_VotedFor (WALRecord.VotedFor rec) (set_CurrentTerm (WALRecord.Term rec) n)
  else if bool_decide (WALRecord.Type_ rec = RecordEntry) then
    match WALRecord.Entry rec with
    | Some e => set_Log (Log n ++ [e]) n
    | None => n
    end
  else if bool_decide (WALRecord.Type_ rec = RecordTruncate) then
    let truncIdx := WALRecord.CommitIndex rec + 1 in
    if (0 <=? truncIdx) && (truncIdx <? len (Log n)) then
      set_Log (take (Z.to_nat truncIdx) (Log n)) n
    else if truncIdx <=? 0 then set_Log [] n
    else n
  else if bool_decide (WALRecord.Type_ rec = RecordCommit) then
    if WALRecord.CommitIndex rec >? CommitIndex n then
      set_CommitIndex (WALRecord.CommitIndex rec) n
    else n
  else n.

(** The replay loop: [es] is [n.Log[i:]]. *)
Fixpoint replayLoop (i : Z) (es : list LogEntry) n : Node W :=
  match es with
  | [] => n
  | entry :: es =>
      if i <=? CommitIndex n then
        replayLoop (i + 1) es (set_LastApplied i (set_KVStore (applyEntry (KVStore n) entry) n))
      else n
  end.

Definition recoverState n : Node W :=
  let '(w, (records, err)) := wal_read (wal n) in
  let n := set_wal w n in
  match err with
  | Some _ => n
  | None =>
      let n := foldl recoverRecord n records in
      replayLoop 0 (Log n) n
  end.

(** [opened] is what [OpenWAL] returned.  The three goroutines it starts are
    the event sources of the cluster model. *)
Definition NewNode (id addr : string) (peers : gmap string string) (opened : W + error)
    : Node W + error :=
  match opened with
  | inr err => inr err
  | inl w => inl (resetElectionTimer (recoverState (freshNode id addr peers w)))
  end.

(** [Stop] *)
Definition Stop n : Node W :=
  if stopped n then n
  else
    let n := set_stopped true n in
    let n := set_electionTimer None n in
    set_wal (wal_close (wal n)) n.

(** The process dies and is started again on the same log file. *)
Definition restart n : Node W :=
  resetElectionTimer
    (recoverState (freshNode (ID n) (Addr n) (Peers n) (wal_reopen (wal n)))).

End recovery.

(** ** The persistent state as a function of the log *)


Record Persistent := mkPersistent {
  pTerm : Z; pVote : string; pLog : list LogEntry; pCommit : Z }.

Definition persistentInit : Persistent := mkPersistent 0 "" [] (-1).

Definition persistentOf {W} (n : Node W) : Persistent :=
  mkPersistent (CurrentTerm n) (VotedFor n) (Log n) (CommitIndex n).

Lemma persistentOf_inv {W} (n : Node W) t v l c :
  persistentOf n = mkPersistent t v l c ->
  CurrentTerm n = t /\ VotedFor n = v /\ Log n = l /\ CommitIndex n = c.
Proof. by intros [= -> -> -> ->]. Qed.

(** [n.Log[:t]] with the recovery's treatment of out-of-range bounds. *)
Definition truncateTo (t : Z) (l : list LogEntry) : list LogEntry :=
  if (0 <=? t) && (t <? len l) then take (Z.to_nat t) l
  else if t <=? 0 then [] else l.

Definition replayRecord (p : Persistent) (rec : WALRecord) : Persistent :=
  if bool_decide (WALRecord.Type_ rec = RecordState) then
    mkPersistent (WALRecord.Term rec) (WALRecord.VotedFor rec) (pLog p) (pCommit p)
  else if bool_decide (WALRecord.Type_ rec = RecordEntry) then
    mkPersistent (pTerm p) (pVote p) (pLog p ++ option_list (WALRecord.Entry rec)) (pCommit p)
  else if bool_decide (WALRecord.Type_ rec = RecordTruncate) then
    mkPersistent (pTerm p) (pVote p) (truncateTo (WALRecord.CommitIndex rec + 1) (pLog p)) (pCommit p)
  else if bool_decide (WALRecord.Type_ rec = RecordCommit) then
    mkPersistent (pTerm p) (pVote p) (pLog p) (Z.max (pCommit p) (WALRecord.CommitIndex rec))
  else p.

Definition replayAll (rs : list WALRecord) : Persistent := foldl replayRecord persistentInit rs.

Lemma replayAll_snoc rs r : replayAll (rs ++ [r]) = replayRecord (replayAll rs) r.
Proof. unfold replayAll. by rewrite foldl_app. Qed.

Section recovery_lemmas.
Context {W : Type} `{WalLaws W}.
Implicit Types n : Node W.

Lemma recoverRecord_persistent n rec :
  persistentOf (recoverRecord n rec) = replayRecord (persistentOf n) rec.
Proof.
  unfold recoverRecord, replayRecord, truncateTo, persistentOf.
  repeat (case_bool_decide; [|]); try done; simpl.
  - destruct (WALRecord.Entry rec); simpl; [done|]. by rewrite app_nil_r.
  - repeat (case_if; try done).
  - case_if; simpl; f_equal; lia.
Qed.

Lemma foldl_recoverRecord_persistent rs n :
  persistentOf (foldl recoverRecord n rs) = foldl replayRecord (persistentOf n) rs.
Proof.
  revert n. induction rs as [|r rs IH]; intros n; simpl; [done|].
  by rewrite IH, recoverRecord_persistent.
Qed.

(** Fields the record loop leaves alone. *)
Lemma recoverRecord_frame n rec :
  ID (recoverRecord n rec) = ID n /\ Peers (recoverRecord n rec) = Peers n /\
  State (recoverRecord n rec) = State n /\ KVStore (recoverRecord n rec) = KVStore n /\
  LastApplied (recoverRecord n rec) = LastApplied n /\ wal (recoverRecord n rec) = wal n /\
  NextIndex (recoverRecord n rec) = NextIndex n /\ MatchIndex (recoverRecord n rec) = MatchIndex n.
Proof.
  unfold recoverRecord. repeat (case_bool_decide; [|]); try done.
  - by destruct (WALRecord.Entry rec).
  - cbv zeta. repeat (case_match; try done).
  - case_match; done.
Qed.

Lemma foldl_recoverRecord_frame rs n :
  ID (foldl recoverRecord n rs) = ID n /\ Peers (foldl recoverRecord n rs) = Peers n /\
  State (foldl recoverRecord n rs) = State n /\ KVStore (foldl recoverRecord n rs) = KVStore n /\
  LastApplied (foldl recoverRecord n rs) = LastApplied n /\ wal (foldl recoverRecord n rs) = wal n /\
  NextIndex (foldl recoverRecord n rs) = NextIndex n /\ MatchIndex (foldl recoverRecord n rs) = MatchIndex n.
Proof.
  revert n. induction rs as [|r rs IH]; intros n; simpl; [done|].
  destruct (IH (recoverRecord n r)) as (?&?&?&?&?&?&?&?), (recoverRecord_frame n r) as (?&?&?&?&?&?&?&?).
  split_and!; congruence.
Qed.

(** The replay loop applies the committed entries and counts them. *)
Lemma replayLoop_spec es : forall i n,
  let m := Z.to_nat (CommitIndex n + 1 - i) in
  let n' := replayLoop i es n in
  persistentOf n' = persistentOf n /\ ID n' = ID n /\ Peers n' = Peers n /\
  State n' = State n /\ wal n' = wal n /\ NextIndex n' = NextIndex n /\ MatchIndex n' = MatchIndex n /\
  KVStore n' = foldl applyEntry (KVStore n) (take m es) /\
  LastApplied n' = (if (0 <? len (take m es))%Z then i + len (take m es) - 1 else LastApplied n).
Proof.
  induction es as [|e es IH]; intros i n m n'; unfold n', m; simpl.
  { rewrite take_nil. done. }
  destruct (i <=? CommitIndex n) eqn:E; bool_to_prop; simpl.
  - destruct (IH (i + 1) (set_LastApplied i (set_KVStore (applyEntry (KVStore n) e) n)))
      as (?&?&?&?&?&?&?&Hk&Hl). simpl in Hk, Hl.
    replace (Z.to_nat (CommitIndex n + 1 - i)) with (S (Z.to_nat (CommitIndex n + 1 - (i + 1)))) by lia.
    simpl. split_and!; try done. rewrite Hl. repeat case_if; lia.
  - replace (Z.to_nat (CommitIndex n + 1 - i)) with 0%nat by lia. done.
Qed.

Lemma recoverState_view n rs :
  wal_view (wal n) rs ->
  recoverState n = (let m := foldl recoverRecord (set_wal (fst (wal_read (wal n))) n) rs in
                    replayLoop 0 (Log m) m).
Proof.
  intros Hv. unfold recoverState. destruct (wal_read_view (wal n) rs Hv) as [_ Hr].
  destruct (wal_read (wal n)) as [w [recs err]]. simpl in *. by simplify_eq.
Qed.

(** What a node is after it restarts on a log that holds [rs]. *)
Lemma restart_spec n rs :
  wal_view (wal n) rs ->
  let p := replayAll rs in
  let n' := restart n in
  persistentOf n' = p /\ ID n' = ID n /\ Peers n' = Peers n /\ State n' = Follower /\
  wal_view (wal n') rs /\ NextIndex n' = ∅ /\ MatchIndex n' = ∅ /\
  KVStore n' = replay (take (Z.to_nat (pCommit p + 1)) (pLog p)) /\
  LastApplied n' = Z.min (Z.max (-1) (pCommit p)) (len (pLog p) - 1).
Proof.
  intros Hv p n'. unfold n', restart. apply wal_reopen_view in Hv.
  set (n0 := freshNode (ID n) (Addr n) (Peers n) (wal_reopen (wal n))).
  rewrite (recoverState_view n0 rs) by done. cbv zeta.
  set (n1 := set_wal (fst (wal_read (wal n0))) n0).
  pose proof (foldl_recoverRecord_persistent rs n1) as Hp.
  destruct (foldl_recoverRecord_frame rs n1) as (Hid&Hpe&Hst&Hkv&Hla&Hw&Hni&Hmi).
  set (n2 := foldl recoverRecord n1 rs) in *.
  unfold n1, n0 in Hid, Hpe, Hst, Hkv, Hla, Hni, Hmi; simpl in Hid, Hpe, Hst, Hkv, Hla, Hni, Hmi.
  change (persistentOf n1) with persistentInit in Hp.
  change (foldl replayRecord persistentInit rs) with p in Hp.
  destruct (replayLoop_spec (Log n2) 0 n2) as (Hp'&Hid'&Hpe'&Hst'&Hw'&Hni'&Hmi'&Hkv'&Hla').
  assert (Log n2 = pLog p) as Hlog by by rewrite <- Hp.
  assert (CommitIndex n2 = pCommit p) as Hci by by rewrite <- Hp.
  unfold resetElectionTimer. rewrite Hlog, Hci, Z.sub_0_r in *.
  split_and!; simpl; try congruence.
  - change (persistentOf (set_electionTimer ?x ?y)) with (persistentOf y). congruence.
  - rewrite Hw', Hw. by destruct (wal_read_view _ _ Hv) as [? _].
  - rewrite Hkv', Hkv. done.
  - rewrite Hla', Hla. simpl. rewrite length_take. case_if; lia.
Qed.

End recovery_lemmas.

(** ** A node recovered from a small log, to run the theorems on *)

Definition sampleRecords : list WALRecord :=
  [stateRecord 1 "n1"; entryRecord (LogEntry.mk 0 1 OpSet "x" "1");
   entryRecord (LogEntry.mk 1 1 OpSet "y" "2"); commitRecord 0].

Definition sampleNode : Node MemWal :=
  resetElectionTimer (recoverState
    (freshNode "n1" "n1:9000" {["n2" := "n2:9000"; "n3" := "n3:9000"]} (mkMemWal sampleRecords true))).

Example sampleNode_state :
  (CurrentTerm sampleNode, VotedFor sampleNode, len (Log sampleNode), CommitIndex sampleNode,
   LastApplied sampleNode, GetState sampleNode "x", GetState sampleNode "y")
  = (1, "n1", 2, 0, 0, ("1", true), ("", false)).
Proof. vm_compute. reflexivity. Qed.

