(* ===== verification/Election.v ===== *)
(** * Leader election ([internal/raft/election.go], and the vote handler of
      [internal/raft/replication.go])

    [startElection] runs in three kinds of critical sections: the one under
    [n.mu] that starts the candidacy, the two of each vote goroutine, and the
    final check after [wg.Wait]; each is a function of the node. *)

From stdpp Require Import base gmap strings list.
From S2P Require Import Prelude Types Kv Wal State Recovery.

Section election.
Context {W : Type} `{WalOps W}.
Implicit Types n : Node W.

Definition stepDown (term : Z) n : Node W :=
  let n := set_State Follower n in
  let n := set_CurrentTerm term n in
  let n := set_VotedFor "" n in
  let n := walAppend (stateRecord term "") n in
  resetElectionTimer n.

(** [for id := range n.Peers { m[id] = v }] *)
Definition assignAll (peers : gmap string string) (v : Z) (m : gmap string Z) : gmap string Z :=
  map_fold (fun id _ m => <[id := v]> m) m peers.

(** The goroutine [go n.sendHeartbeats()] it starts is an event of the
    cluster model. *)
Definition becomeLeader n : Node W :=
  if bool_decide (State n = Leader) then n
  else
    let n := set_State Leader n in
    let nextIdx := len (Log n) in
    let n := set_NextIndex (assignAll (Peers n) nextIdx (NextIndex n)) n in
    let n := set_MatchIndex (assignAll (Peers n) (-1) (MatchIndex n)) n in
    resetElectionTimer n.

(** The request every vote goroutine sends, from the locals of the first
    critical section. *)
Definition startElection n : Node W * option RequestVoteRequest :=
  if bool_decide (State n = Leader) then (n, None)
  else
    let n := set_State Candidate n in
    let n := set_CurrentTerm (wrap64 (CurrentTerm n + 1)) n in
    let n := set_VotedFor (ID n) n in
    let term := CurrentTerm n in
    let '(lastLogIndex, lastLogTerm) := lastLog n in
    let n := walAppend (stateRecord (CurrentTerm n) (VotedFor n)) n in
    let n := resetElectionTimer n in
    (n, Some (RequestVoteRequest.mk term (ID n) lastLogIndex lastLogTerm)).

(** First critical section of a vote goroutine (lines 60-72): [true] when it
    goes on to count the vote. *)
Definition voteReply (term : Z) (resp : RequestVoteResponse) n : Node W * bool :=
  if negb (CurrentTerm n =? term) || negb (bool_decide (State n = Candidate)) then (n, false)
  else if RequestVoteResponse.Term resp >? CurrentTerm n then
    (stepDown (RequestVoteResponse.Term resp) n, false)
  else (n, RequestVoteResponse.VoteGranted resp).

(** [votes > peersCount/2] *)
Definition hasMajority n (votes : Z) : bool := votes >? Z.quot (peersCount n) 2.

(** Second critical section (lines 75-85), under [voteMu]: the new count. *)
Definition countVote (term votes : Z) n : Node W * Z :=
  let votes := votes + 1 in
  if hasMajority n votes then
    (if bool_decide (State n = Candidate) && (CurrentTerm n =? term) then becomeLeader n else n, votes)
  else (n, votes).

(** After [wg.Wait] (lines 92-103). *)
Definition finishElection (term votes : Z) n : Node W :=
  if negb (bool_decide (State n = Candidate)) || negb (CurrentTerm n =? term) then n
  else if hasMajority n votes then becomeLeader n
  else resetElectionTimer n.

(** [logUpToDate] of [HandleRequestVote] (lines 226-231). *)
Definition logUpToDate (reqLastTerm reqLastIndex lastLogTerm lastLogIdx : Z) : bool :=
  if reqLastTerm >? lastLogTerm then true
  else if (reqLastTerm =? lastLogTerm) && (reqLastIndex >=? lastLogIdx) then true
  else false.

Definition HandleRequestVote n (req : RequestVoteRequest) : Node W * RequestVoteResponse :=
  if RequestVoteRequest.Term req <? CurrentTerm n then
    (n, RequestVoteResponse.mk (CurrentTerm n) false)
  else
    let n := if RequestVoteRequest.Term req >? CurrentTerm n
             then stepDown (RequestVoteRequest.Term req) n else n in
    let canVote := bool_decide (VotedFor n = "") ||
                   bool_decide (VotedFor n = RequestVoteRequest.CandidateID req) in
    let '(lastLogIdx, lastLogTerm) := lastLog n in
    let upToDate := logUpToDate (RequestVoteRequest.LastLogTerm req)
                      (RequestVoteRequest.LastLogIndex req) lastLogTerm lastLogIdx in
    if canVote && upToDate then
      let n := set_VotedFor (RequestVoteRequest.CandidateID req) n in
      let n := walAppend (stateRecord (CurrentTerm n) (VotedFor n)) n in
      let n := resetElectionTimer n in
      (n, RequestVoteResponse.mk (CurrentTerm n) true)
    else (n, RequestVoteResponse.mk (CurrentTerm n) false).

End election.

(** ** Lemmas *)

Lemma assignAll_lookup peers v m id :
  assignAll peers v m !! id = match peers !! id with Some _ => Some v | None => m !! id end.
Proof.
  unfold assignAll.
  apply (map_fold_weak_ind (fun (r : gmap string Z) (p : gmap string string) =>
    r !! id = match p !! id with Some _ => Some v | None => m !! id end)).
  - by rewrite lookup_empty.
  - intros i x p r Hi IH. destruct (decide (i = id)) as [->|Hne].
    + by rewrite !lookup_insert_eq.
    + by rewrite !lookup_insert_ne.
Qed.

Section election_lemmas.
Context {W : Type} `{WalOps W}.
Implicit Types n : Node W.

Lemma hasMajority_iff n votes : hasMajority n votes = true <-> peersCount n < 2 * votes.
Proof. unfold hasMajority. rewrite Z.gtb_lt, quot2_lt; [done|]. unfold peersCount. lia. Qed.

(** Everything a vote request can do to a node. *)
Inductive vote_outcome n (req : RequestVoteRequest) : Node W -> RequestVoteResponse -> Prop :=
| vote_stale :
    RequestVoteRequest.Term req < CurrentTerm n ->
    vote_outcome n req n (RequestVoteResponse.mk (CurrentTerm n) false)
| vote_refused n1 :
    (RequestVoteRequest.Term req = CurrentTerm n /\ n1 = n \/
     RequestVoteRequest.Term req > CurrentTerm n /\ n1 = stepDown (RequestVoteRequest.Term req) n) ->
    vote_outcome n req n1 (RequestVoteResponse.mk (RequestVoteRequest.Term req) false)
| vote_granted n1 :
    (RequestVoteRequest.Term req = CurrentTerm n /\ n1 = n \/
     RequestVoteRequest.Term req > CurrentTerm n /\ n1 = stepDown (RequestVoteRequest.Term req) n) ->
    VotedFor n1 = "" \/ VotedFor n1 = RequestVoteRequest.CandidateID req ->
    logUpToDate (RequestVoteRequest.LastLogTerm req) (RequestVoteRequest.LastLogIndex req)
      (snd (lastLog n)) (fst (lastLog n)) = true ->
    vote_outcome n req
      (resetElectionTimer (walAppend (stateRecord (RequestVoteRequest.Term req)
          (RequestVoteRequest.CandidateID req))
        (set_VotedFor (RequestVoteRequest.CandidateID req) n1)))
      (RequestVoteResponse.mk (RequestVoteRequest.Term req) true).

Lemma HandleRequestVote_outcome n req n' resp :
  HandleRequestVote n req = (n', resp) -> vote_outcome n req n' resp.
Proof.
  unfold HandleRequestVote. destruct (_ <? _) eqn:Hlt; bool_to_prop.
  { intros [= <- <-]. by constructor. }
  set (n1 := if _ >? _ then _ else n).
  assert (RequestVoteRequest.Term req = CurrentTerm n /\ n1 = n \/
          RequestVoteRequest.Term req > CurrentTerm n /\ n1 = stepDown (RequestVoteRequest.Term req) n) as Hn1.
  { unfold n1. destruct (_ >? _) eqn:Hgt; bool_to_prop; [right|left]; split; (lia || done). }
  assert (CurrentTerm n1 = RequestVoteRequest.Term req) as Ht
    by by destruct Hn1 as [[? ->]|[? ->]].
  assert (lastLog n1 = lastLog n) as -> by by destruct Hn1 as [[? ->]|[? ->]].
  destruct (lastLog n) as [li lt] eqn:Hll.
  destruct (_ && _) eqn:Hc; intros [= <- <-].
  - bool_to_prop. simpl. rewrite Ht. apply vote_granted; [done| |by rewrite Hll].
    match goal with H : _ \/ _ |- _ => destruct H; bool_to_prop; auto end.
  - rewrite Ht. by apply vote_refused.
Qed.

(** The candidate's log is at least as up to date as the node's. *)
Definition candidateUpToDate n (req : RequestVoteRequest) : Prop :=
  snd (lastLog n) < RequestVoteRequest.LastLogTerm req \/
  snd (lastLog n) = RequestVoteRequest.LastLogTerm req /\
  fst (lastLog n) <= RequestVoteRequest.LastLogIndex req.

Lemma logUpToDate_iff rt ri lt li :
  logUpToDate rt ri lt li = true <-> lt < rt \/ lt = rt /\ li <= ri.
Proof. unfold logUpToDate. repeat case_if; split; intros; try done; lia. Qed.

(** A newer term clears the vote: an up-to-date candidate gets it. *)
Lemma newer_vote_granted n req :
  CurrentTerm n < RequestVoteRequest.Term req -> candidateUpToDate n req ->
  RequestVoteResponse.VoteGranted (snd (HandleRequestVote n req)) = true.
Proof.
  intros Ht Hu%logUpToDate_iff. unfold HandleRequestVote.
  rewrite (proj2 (Z.ltb_ge _ _)), Z.gtb_ltb, (proj2 (Z.ltb_lt _ _)) by lia.
  change (lastLog (stepDown _ n)) with (lastLog n). destruct (lastLog n) as [li lt].
  simpl in Hu. by rewrite Hu.
Qed.

(** C15: The vote handler on every branch: the vote is granted exactly when the
    request's term is not older, the node has not voted for another candidate in it, and
    the candidate's last entry is not older than the node's; the term, vote and role
    afterwards are as Raft prescribes and the log is untouched. *)
Theorem HandleRequestVote_correct n req :
  let '(n', resp) := HandleRequestVote n req in
  let newer := CurrentTerm n <? RequestVoteRequest.Term req in
  (RequestVoteResponse.VoteGranted resp = true <->
     CurrentTerm n <= RequestVoteRequest.Term req /\
     (newer = true \/ VotedFor n = "" \/ VotedFor n = RequestVoteRequest.CandidateID req) /\
     candidateUpToDate n req) /\
  RequestVoteResponse.Term resp = CurrentTerm n' /\
  CurrentTerm n' = Z.max (CurrentTerm n) (RequestVoteRequest.Term req) /\
  VotedFor n' = (if RequestVoteResponse.VoteGranted resp then RequestVoteRequest.CandidateID req
                 else if newer then "" else VotedFor n) /\
  State n' = (if newer then Follower else State n) /\
  Log n' = Log n /\ CommitIndex n' = CommitIndex n.
Proof.
  unfold HandleRequestVote, candidateUpToDate. rewrite Z.gtb_ltb.
  destruct (RequestVoteRequest.Term req <? CurrentTerm n) eqn:Hlt; bool_to_prop.
  { rewrite (proj2 (Z.ltb_ge _ _)) by lia. simpl. split_and!; try done; try lia. }
  destruct (CurrentTerm n <? RequestVoteRequest.Term req) eqn:Hgt; bool_to_prop.
  - change (lastLog (stepDown _ n)) with (lastLog n). destruct (lastLog n) as [li lt].
    destruct (_ && _) eqn:Hc; simpl; split_and!; try done; try lia.
    + bool_to_prop. split; [|done]. intros _. split_and!; [lia|auto|by apply logUpToDate_iff].
    + split; [done|]. intros (_ & _ & Hu). apply logUpToDate_iff in Hu.
      rewrite Hu, andb_true_r in Hc. by bool_to_prop.
  - destruct (lastLog n) as [li lt].
    destruct (_ && _) eqn:Hc; simpl; split_and!; try done; try lia.
    + bool_to_prop. split; [|done]. intros _. split; [lia|]. split; [|by apply logUpToDate_iff].
      right. match goal with H : _ \/ _ |- _ => destruct H; bool_to_prop; auto end.
    + split; [done|]. intros (_ & [?|Hv] & Hu); [done|]. apply logUpToDate_iff in Hu.
      rewrite Hu, andb_true_r in Hc. bool_to_prop. by destruct Hv.
Qed.

(** C29: The start of an election on every term a Go int can hold: the node becomes a
    candidate that has voted for itself in the next term, in memory and on disk, and
    asks with its last log entry; from the largest int the term wraps around to the
    smallest. *)
Theorem startElection_correct n :
  in_int (CurrentTerm n) -> State n <> Leader ->
  let T := if CurrentTerm n =? maxInt then minInt else CurrentTerm n + 1 in
  exists n', startElection n = (n', Some (RequestVoteRequest.mk T (ID n) (fst (lastLog n)) (snd (lastLog n)))) /\
    State n' = Candidate /\ CurrentTerm n' = T /\ VotedFor n' = ID n /\ Log n' = Log n /\
    CommitIndex n' = CommitIndex n /\ wal n' = wal_append (wal n) (stateRecord T (ID n)).
Proof.
  intros Hi Hs T. assert (wrap64 (CurrentTerm n + 1) = T) as Hw.
  { unfold T. destruct (CurrentTerm n =? maxInt) eqn:E; bool_to_prop.
    - by rewrite E.
    - apply wrap64_id. unfold in_int in *. lia. }
  unfold startElection. rewrite bool_decide_eq_false_2 by done. cbv zeta.
  change (lastLog _) with (lastLog n). destruct (lastLog n) as [li lt].
  eexists. split; [simpl; by rewrite Hw|]. by split_and!.
Qed.

End election_lemmas.

(** A follower with the largest term starts an election. *)
Lemma startElection_correct_witness :
  exists n', startElection (set_CurrentTerm maxInt sampleNode)
    = (n', Some (RequestVoteRequest.mk minInt "n1" 1 1)) /\ CurrentTerm n' = minInt.
Proof.
  destruct (startElection_correct (set_CurrentTerm maxInt sampleNode)) as (n' & E & _ & Ht & _).
  - split; vm_compute; discriminate.
  - discriminate.
  - exists n'. split; [exact E|exact Ht].
Defined.
