(* ===== verification/Replication.v ===== *)
(** * Log replication ([internal/raft/replication.go])

    The leader's side ([sendHeartbeats], the two critical sections of
    [replicateToPeer], [advanceCommitIndex]) and the follower's
    ([HandleAppendEntries]).  [None] is a run-time panic (an index out of
    range). *)

From stdpp Require Import base gmap strings list.
From S2P Require Import Prelude Types Kv Wal State Recovery Election.

Section replication.
Context {W : Type} `{WalOps W}.
Implicit Types n : Node W.

(** The buffered channel keeps at most one token. *)
Definition notifyApply n : Node W := set_applyNotify true n.

Record peerInfo := mkPeerInfo { pi_id : string; pi_addr : string; pi_next : Z }.

(** The critical section of [sendHeartbeats]: term, commit index and peers. *)
Definition sendHeartbeats n : option (Z * Z * list peerInfo) :=
  if negb (bool_decide (State n = Leader)) then None
  else
    let term := CurrentTerm n in
    let commitIndex := CommitIndex n in
    let peers := map (fun '(id, addr) => mkPeerInfo id addr (go_map_int (NextIndex n) id))
                   (map_to_list (Peers n)) in
    Some (term, commitIndex, peers).

(** First critical section of [replicateToPeer] (lines 48-73). *)
Definition replicateToPeer n (nextIdx term commitIndex : Z) : option AppendEntriesRequest :=
  if negb (bool_decide (State n = Leader)) || negb (CurrentTerm n =? term) then None
  else
    let prevLogIndex := nextIdx - 1 in
    let prevLogTerm :=
      if (prevLogIndex >=? 0) && (prevLogIndex <? len (Log n)) then
        match go_index (Log n) prevLogIndex with Some e => LogEntry.Term e | None => 0 end
      else 0 in
    let entries :=
      if (nextIdx >=? 0) && (nextIdx <? len (Log n)) then
        default [] (go_slice_from (Log n) nextIdx)
      else [] in
    Some (AppendEntriesRequest.mk term (ID n) prevLogIndex prevLogTerm entries commitIndex).

(** [count]: self plus the peers whose match index reaches [N]. *)
Definition matchCount n (N : Z) : Z :=
  map_fold (fun _ m c => if m >=? N then c + 1 else c) 1 (MatchIndex n).

(** The loop of [advanceCommitIndex].  [N] runs from [len(n.Log)-1] down to
    [n.CommitIndex+1], so [len(n.Log)+1] units of fuel suffice: with
    [CommitIndex < -1] the iteration at [-1] panics. *)
Fixpoint advanceLoop (fuel : nat) (N : Z) n : option (Node W) :=
  if N >? CommitIndex n then
    match fuel with
    | O => Some n
    | S fuel =>
        e ← go_index (Log n) N;
        if negb (LogEntry.Term e =? CurrentTerm n) then advanceLoop fuel (N - 1) n
        else if matchCount n N >? Z.quot (peersCount n) 2 then
          let n := set_CommitIndex N n in
          let n := walAppend (commitRecord N) n in
          Some (notifyApply n)
        else advanceLoop fuel (N - 1) n
    end
  else Some n.

Definition advanceCommitIndex n : option (Node W) :=
  advanceLoop (S (length (Log n))) (len (Log n) - 1) n.

(** Second critical section of [replicateToPeer] (lines 81-104), with the
    locals of the first. *)
Definition replicateReply n (peerID : string) (nextIdx term prevLogIndex : Z)
    (entries : list LogEntry) (resp : AppendEntriesResponse) : option (Node W) :=
  if negb (bool_decide (State n = Leader)) || negb (CurrentTerm n =? term) then Some n
  else if AppendEntriesResponse.Term resp >? CurrentTerm n then
    Some (stepDown (AppendEntriesResponse.Term resp) n)
  else if AppendEntriesResponse.Success resp then
    if len entries >? 0 then
      let n := set_MatchIndex (<[peerID := prevLogIndex + len entries]> (MatchIndex n)) n in
      let n := set_NextIndex (<[peerID := go_map_int (MatchIndex n) peerID + 1]> (NextIndex n)) n in
      advanceCommitIndex n
    else Some n
  else if nextIdx >? 0 then Some (set_NextIndex (<[peerID := nextIdx - 1]> (NextIndex n)) n)
  else Some n.

(** [n.Log = append(n.Log, e)] and its log record. *)
Definition appendEntry n (e : LogEntry) : Node W :=
  walAppend (entryRecord e) (set_Log (Log n ++ [e]) n).

(** [n.Log = n.Log[:idx]] and its log record. *)
Definition truncateLog n (idx : Z) : option (Node W) :=
  l ← go_slice_to (Log n) idx;
  Some (walAppend (truncateRecord (idx - 1)) (set_Log l n)).

(** The loop over [req.Entries] (lines 167-184). *)
Fixpoint appendLoop (prevLogIndex i : Z) (entries : list LogEntry) n : option (Node W) :=
  match entries with
  | [] => Some n
  | entry :: rest =>
      let idx := prevLogIndex + 1 + i in
      if idx <? len (Log n) then
        e ← go_index (Log n) idx;
        if negb (LogEntry.Term e =? LogEntry.Term entry) then
          n ← truncateLog n idx;
          Some (foldl appendEntry n (entry :: rest))
        else appendLoop prevLogIndex (i + 1) rest n
      else appendLoop prevLogIndex (i + 1) rest (appendEntry n entry)
  end.

(** Lines 147-164: [inl] is the early return with [Success: false]. *)
Definition checkPrev n (req : AppendEntriesRequest) : option (Node W + Node W) :=
  let prev := AppendEntriesRequest.PrevLogIndex req in
  if prev >=? 0 then
    mismatch ← (if prev >=? len (Log n) then Some true
                else e ← go_index (Log n) prev;
                     Some (negb (LogEntry.Term e =? AppendEntriesRequest.PrevLogTerm req)));
    if mismatch : bool then
      let truncateIdx := if prev >? len (Log n) then len (Log n) else prev in
      n ← truncateLog n truncateIdx;
      Some (inl n)
    else Some (inr n)
  else if prev =? -1 then
    match AppendEntriesRequest.Entries req, Log n with
    | entry0 :: _, e0 :: _ =>
        if negb (LogEntry.Term e0 =? LogEntry.Term entry0) then
          n ← truncateLog n 0;
          Some (inr n)
        else Some (inr n)
    | _, _ => Some (inr n)
    end
  else Some (inr n).

(** Lines 187-199. *)
Definition followCommit (leaderCommit : Z) n : Node W :=
  if leaderCommit >? CommitIndex n then
    let lastLogIdx := len (Log n) - 1 in
    let n := if leaderCommit <? lastLogIdx then set_CommitIndex leaderCommit n
             else set_CommitIndex lastLogIdx n in
    let n := walAppend (commitRecord (CommitIndex n)) n in
    notifyApply n
  else n.

Definition HandleAppendEntries n (req : AppendEntriesRequest)
    : option (Node W * AppendEntriesResponse) :=
  if AppendEntriesRequest.Term req <? CurrentTerm n then
    Some (n, AppendEntriesResponse.mk (CurrentTerm n) false 0)
  else
    let n := if AppendEntriesRequest.Term req >? CurrentTerm n
             then stepDown (AppendEntriesRequest.Term req) n
             else set_State Follower n in
    let n := resetElectionTimer n in
    checked ← checkPrev n req;
    match checked with
    | inl n => Some (n, AppendEntriesResponse.mk (CurrentTerm n) false 0)
    | inr n =>
        n ← appendLoop (AppendEntriesRequest.PrevLogIndex req) 0 (AppendEntriesRequest.Entries req) n;
        let n := followCommit (AppendEntriesRequest.LeaderCommit req) n in
        Some (n, AppendEntriesResponse.mk (CurrentTerm n) true (len (Log n) - 1))
    end.

End replication.

(** ** The follower's log as a list function *)

(** What the entry loop makes of a log: entries that are there with the same
    term are kept, the first conflict replaces the rest, entries beyond the
    end are appended. *)
Fixpoint merge (l : list LogEntry) (idx : nat) (es : list LogEntry) : list LogEntry :=
  match es with
  | [] => l
  | e :: rest =>
      match l !! idx with
      | Some x => if LogEntry.Term x =? LogEntry.Term e then merge l (S idx) rest
                  else take idx l ++ e :: rest
      | None => merge (l ++ [e]) (S idx) rest
      end
  end.

(** Entries beyond the end are appended. *)
Lemma merge_end l es : merge l (length l) es = l ++ es.
Proof.
  revert l. induction es as [|e es IH]; intros l; simpl; [by rewrite app_nil_r|].
  rewrite (proj2 (lookup_ge_None l _)) by lia.
  replace (S (length l)) with (length (l ++ [e])) by len_lia.
  by rewrite IH, <- app_assoc.
Qed.

Section replication_lemmas.
Context {W : Type} `{WalOps W}.
Implicit Types n : Node W.

(** The two nodes differ at most in their log, on disk and in memory. *)
Definition log_frame n n' : Prop :=
  ID n' = ID n /\ Peers n' = Peers n /\ State n' = State n /\ CurrentTerm n' = CurrentTerm n /\
  VotedFor n' = VotedFor n /\ CommitIndex n' = CommitIndex n /\ LastApplied n' = LastApplied n /\
  NextIndex n' = NextIndex n /\ MatchIndex n' = MatchIndex n /\ KVStore n' = KVStore n.

#[global] Instance log_frame_preorder : PreOrder log_frame.
Proof.
  split; [done|]. intros a b c (?&?&?&?&?&?&?&?&?&?) (?&?&?&?&?&?&?&?&?&?).
  unfold log_frame. split_and!; congruence.
Qed.

(** The successful outcome of [truncateLog]. *)
Definition cutLog n (idx : Z) : Node W :=
  walAppend (truncateRecord (idx - 1)) (set_Log (take (Z.to_nat idx) (Log n)) n).

Lemma truncateLog_cut n idx : 0 <= idx <= len (Log n) -> truncateLog n idx = Some (cutLog n idx).
Proof. intros Hi. unfold truncateLog. by rewrite go_slice_to_range. Qed.

Lemma cutLog_frame n idx : log_frame n (cutLog n idx).
Proof. done. Qed.

Lemma foldl_appendEntry es n :
  Log (foldl appendEntry n es) = Log n ++ es /\ log_frame n (foldl appendEntry n es).
Proof.
  revert n. induction es as [|e es IH]; intros n; simpl.
  - by rewrite app_nil_r.
  - destruct (IH (appendEntry n e)) as [-> Hf]. simpl. rewrite <- app_assoc. split; [done|].
    by transitivity (appendEntry n e).
Qed.

Lemma appendLoop_spec prev es : forall i n,
  0 <= prev + 1 + i ->
  exists n', appendLoop prev i es n = Some n' /\ log_frame n n' /\
    Log n' = merge (Log n) (Z.to_nat (prev + 1 + i)) es.
Proof.
  induction es as [|e es IH]; intros i n Hi; cbn [appendLoop merge]; [by eexists|].
  destruct (_ <? _) eqn:Hlt; bool_to_prop.
  - destruct (go_index_range (Log n) (prev + 1 + i) ltac:(lia)) as [x Hx].
    rewrite Hx. apply go_index_Some in Hx as [_ Hx]. cbn [mbind option_bind]. rewrite Hx.
    destruct (LogEntry.Term x =? LogEntry.Term e); cbn [negb].
    + destruct (IH (i + 1) n ltac:(lia)) as (n' & -> & Hf & Hm). exists n'. split_and!; try done.
      rewrite Hm. f_equal. lia.
    + rewrite truncateLog_cut by lia. cbn [mbind option_bind]. eexists. split; [done|].
      destruct (foldl_appendEntry (e :: es) (cutLog n (prev + 1 + i))) as [-> Hf].
      split; [|done]. by etransitivity; [apply cutLog_frame|].
  - destruct (IH (i + 1) (appendEntry n e) ltac:(lia)) as (n' & -> & Hf & Hm).
    exists n'. split; [done|]. split; [by transitivity (appendEntry n e)|]. rewrite Hm.
    rewrite (proj2 (lookup_ge_None (Log n) _)) by lia. simpl. f_equal. lia.
Qed.

Lemma appendLoop_frame prev es : forall i n n',
  appendLoop prev i es n = Some n' -> log_frame n n'.
Proof.
  induction es as [|e es IH]; intros i n n'; cbn [appendLoop]; [by intros [= ->]|].
  destruct (_ <? _).
  - destruct (go_index _ _) as [x|]; cbn [mbind option_bind]; [|done].
    destruct (negb _); [|by apply IH]. unfold truncateLog.
    destruct (go_slice_to _ _); cbn [mbind option_bind]; [|done]. intros [= <-].
    etransitivity; [|apply (foldl_appendEntry (e :: es))]. done.
  - intros Hl%IH. by transitivity (appendEntry n e).
Qed.

Lemma appendLoop_commit prev es i n n' :
  appendLoop prev i es n = Some n' -> CommitIndex n' = CommitIndex n.
Proof. intros Hl%appendLoop_frame. apply Hl. Qed.

(** What the consistency check decides (lines 147-164). *)
Inductive prev_outcome n (req : AppendEntriesRequest) : Node W + Node W -> Prop :=
| prev_beyond :
    len (Log n) <= AppendEntriesRequest.PrevLogIndex req ->
    prev_outcome n req (inl (cutLog n (len (Log n))))
| prev_conflict e :
    0 <= AppendEntriesRequest.PrevLogIndex req ->
    Log n !! Z.to_nat (AppendEntriesRequest.PrevLogIndex req) = Some e ->
    LogEntry.Term e <> AppendEntriesRequest.PrevLogTerm req ->
    prev_outcome n req (inl (cutLog n (AppendEntriesRequest.PrevLogIndex req)))
| prev_match e :
    0 <= AppendEntriesRequest.PrevLogIndex req ->
    Log n !! Z.to_nat (AppendEntriesRequest.PrevLogIndex req) = Some e ->
    LogEntry.Term e = AppendEntriesRequest.PrevLogTerm req ->
    prev_outcome n req (inr n)
| prev_first_conflict e0 l entry0 rest :
    AppendEntriesRequest.PrevLogIndex req = -1 ->
    Log n = e0 :: l -> AppendEntriesRequest.Entries req = entry0 :: rest ->
    LogEntry.Term e0 <> LogEntry.Term entry0 ->
    prev_outcome n req (inr (cutLog n 0))
| prev_start :
    AppendEntriesRequest.PrevLogIndex req < 0 ->
    prev_outcome n req (inr n).

Lemma checkPrev_outcome n req : exists r, checkPrev n req = Some r /\ prev_outcome n req r.
Proof.
  unfold checkPrev. set (prev := AppendEntriesRequest.PrevLogIndex req).
  destruct (prev >=? 0) eqn:H0; bool_to_prop.
  - destruct (prev >=? len (Log n)) eqn:Hl; bool_to_prop.
    + simpl. rewrite truncateLog_cut by (destruct (_ >? _) eqn:?; bool_to_prop; lia).
      eexists. split; [done|].
      replace (if prev >? len (Log n) then len (Log n) else prev) with (len (Log n))
        by (destruct (_ >? _) eqn:?; bool_to_prop; lia).
      by apply prev_beyond.
    + destruct (go_index_range (Log n) prev ltac:(lia)) as [e He]. rewrite He.
      apply go_index_Some in He as [_ He]. cbn [mbind option_bind].
      destruct (Z.eqb_spec (LogEntry.Term e) (AppendEntriesRequest.PrevLogTerm req)); cbn [negb].
      * eexists. split; [done|]. by eapply prev_match.
      * rewrite Z.gtb_ltb, (proj2 (Z.ltb_ge _ _)) by lia.
        rewrite truncateLog_cut by lia. eexists. split; [done|]. by eapply prev_conflict.
  - destruct (prev =? -1) eqn:H1; bool_to_prop; [|eexists; split; [done|by apply prev_start]].
    destruct (AppendEntriesRequest.Entries req) as [|en es] eqn:He;
      [eexists; split; [done|by apply prev_start]|].
    destruct (Log n) as [|e0 l] eqn:Hlog; [eexists; split; [done|by apply prev_start]|].
    destruct (Z.eqb_spec (LogEntry.Term e0) (LogEntry.Term en)); cbn [negb].
    + eexists; split; [done|by apply prev_start].
    + rewrite truncateLog_cut by lia. eexists. split; [done|]. by eapply prev_first_conflict.
Qed.

(** ** What the handler does, branch by branch *)

(** The request is answered with success. *)
Definition accepts n (req : AppendEntriesRequest) : bool :=
  (CurrentTerm n <=? AppendEntriesRequest.Term req) &&
  ((AppendEntriesRequest.PrevLogIndex req <? 0) ||
   match Log n !! Z.to_nat (AppendEntriesRequest.PrevLogIndex req) with
   | Some e => LogEntry.Term e =? AppendEntriesRequest.PrevLogTerm req
   | None => false
   end).

(** The log afterwards. *)
Definition followerLog n (req : AppendEntriesRequest) : list LogEntry :=
  if AppendEntriesRequest.Term req <? CurrentTerm n then Log n
  else if accepts n req then
    merge (Log n) (Z.to_nat (AppendEntriesRequest.PrevLogIndex req + 1)) (AppendEntriesRequest.Entries req)
  else take (Z.to_nat (AppendEntriesRequest.PrevLogIndex req)) (Log n).

(** The commit index afterwards. *)
Definition followerCommit n (req : AppendEntriesRequest) : Z :=
  if accepts n req && (CommitIndex n <? AppendEntriesRequest.LeaderCommit req)
  then Z.min (AppendEntriesRequest.LeaderCommit req) (len (followerLog n req) - 1)
  else CommitIndex n.

Lemma followCommit_spec lc n :
  CommitIndex (followCommit lc n) =
    (if CommitIndex n <? lc then Z.min lc (len (Log n) - 1) else CommitIndex n) /\
  Log (followCommit lc n) = Log n /\ CurrentTerm (followCommit lc n) = CurrentTerm n /\
  VotedFor (followCommit lc n) = VotedFor n /\ State (followCommit lc n) = State n /\
  LastApplied (followCommit lc n) = LastApplied n /\ KVStore (followCommit lc n) = KVStore n.
Proof. unfold followCommit. repeat case_if; split_and!; try done; lia. Qed.

(** The consistency check and the loop, for a node of the request's term. *)
Lemma checked_append n req :
  -1 <= AppendEntriesRequest.PrevLogIndex req -> CurrentTerm n <= AppendEntriesRequest.Term req ->
  (exists n2, checkPrev n req = Some (inl n2) /\ accepts n req = false /\ log_frame n n2 /\
     Log n2 = take (Z.to_nat (AppendEntriesRequest.PrevLogIndex req)) (Log n)) \/
  (exists n2 n3, checkPrev n req = Some (inr n2) /\ accepts n req = true /\
     appendLoop (AppendEntriesRequest.PrevLogIndex req) 0 (AppendEntriesRequest.Entries req) n2 = Some n3 /\
     log_frame n n3 /\
     Log n3 = merge (Log n) (Z.to_nat (AppendEntriesRequest.PrevLogIndex req + 1)) (AppendEntriesRequest.Entries req)).
Proof.
  intros Hp Ht. destruct (checkPrev_outcome n req) as (r & Hr & Hout). unfold accepts.
  rewrite (proj2 (Z.leb_le _ _)) by done. cbn [andb].
  assert (forall n2, log_frame n n2 -> Log n2 = Log n -> exists n3,
    appendLoop (AppendEntriesRequest.PrevLogIndex req) 0 (AppendEntriesRequest.Entries req) n2 = Some n3 /\
    log_frame n n3 /\ Log n3 = merge (Log n) (Z.to_nat (AppendEntriesRequest.PrevLogIndex req + 1))
                                (AppendEntriesRequest.Entries req)) as Hloop.
  { intros n2 Hf Hl. destruct (appendLoop_spec (AppendEntriesRequest.PrevLogIndex req)
      (AppendEntriesRequest.Entries req) 0 n2) as (n3 & E & Hf3 & Hm); [lia|].
    exists n3. rewrite Z.add_0_r, Hl in Hm. split; [done|]. split; [by transitivity n2|done]. }
  destruct Hout as [Hb|e H0 He Hne|e H0 He Heq|e0 l en rest H1 Hlog Hen Hne|H1].
  - left. eexists. split; [done|]. rewrite (proj2 (Z.ltb_ge _ _)), (proj2 (lookup_ge_None (Log n) _)) by lia.
    split; [done|]. split; [apply cutLog_frame|]. simpl. by rewrite !take_ge by lia.
  - left. eexists. split; [done|]. rewrite (proj2 (Z.ltb_ge _ _)), He, (proj2 (Z.eqb_neq _ _)) by done.
    split; [done|]. by split; [apply cutLog_frame|].
  - right. destruct (Hloop n) as (n3 & ? & ? & ?); [done..|]. exists n, n3.
    rewrite (proj2 (Z.ltb_ge _ _)), He, (proj2 (Z.eqb_eq _ _)) by done. done.
  - right. destruct (appendLoop_spec (AppendEntriesRequest.PrevLogIndex req)
      (AppendEntriesRequest.Entries req) 0 (cutLog n 0)) as (n3 & E & Hf3 & Hm); [lia|].
    exists (cutLog n 0), n3. rewrite (proj2 (Z.ltb_lt _ _)) by lia.
    split; [done|]. split; [done|]. split; [done|]. split; [by transitivity (cutLog n 0)|].
    rewrite Hm, H1. change (Log (cutLog n 0)) with (take 0 (Log n)). rewrite Hlog, Hen. simpl.
    rewrite (proj2 (Z.eqb_neq _ _)) by done.
    apply (merge_end [en]).
  - right. destruct (Hloop n) as (n3 & ? & ? & ?); [done..|]. exists n, n3.
    rewrite (proj2 (Z.ltb_lt _ _)) by lia. done.
Qed.

Lemma HandleAppendEntries_spec n req :
  -1 <= AppendEntriesRequest.PrevLogIndex req ->
  exists n' resp, HandleAppendEntries n req = Some (n', resp) /\
    AppendEntriesResponse.Success resp = accepts n req /\
    AppendEntriesResponse.Term resp = CurrentTerm n' /\
    CurrentTerm n' = Z.max (CurrentTerm n) (AppendEntriesRequest.Term req) /\
    Log n' = followerLog n req /\ CommitIndex n' = followerCommit n req /\
    VotedFor n' = (if CurrentTerm n <? AppendEntriesRequest.Term req then "" else VotedFor n) /\
    State n' = (if AppendEntriesRequest.Term req <? CurrentTerm n then State n else Follower) /\
    LastApplied n' = LastApplied n /\ KVStore n' = KVStore n.
Proof.
  intros Hp. unfold HandleAppendEntries, followerCommit, followerLog.
  destruct (AppendEntriesRequest.Term req <? CurrentTerm n) eqn:Hlt; bool_to_prop.
  { assert (accepts n req = false) as -> by (unfold accepts; by rewrite (proj2 (Z.leb_gt _ _)) by lia).
    eexists _, _. split; [done|].
    rewrite (proj2 (Z.ltb_ge (CurrentTerm n) (AppendEntriesRequest.Term req))) by lia.
    split_and!; try done; simpl; lia. }
  set (n0 := resetElectionTimer _).
  assert (CurrentTerm n0 = AppendEntriesRequest.Term req /\ State n0 = Follower /\ Log n0 = Log n /\
    CommitIndex n0 = CommitIndex n /\ LastApplied n0 = LastApplied n /\ KVStore n0 = KVStore n /\
    VotedFor n0 = (if CurrentTerm n <? AppendEntriesRequest.Term req then "" else VotedFor n))
    as (Ht & Hs & Hl & Hc & Hla & Hkv & Hv).
  { unfold n0. rewrite Z.gtb_ltb. destruct (_ <? _) eqn:Hgt; bool_to_prop; simpl; split_and!; try done; lia. }
  assert (accepts n0 req = accepts n req) as Hacc.
  { unfold accepts. rewrite Hl, Ht. by rewrite !(proj2 (Z.leb_le _ _)) by lia. }
  destruct (checked_append n0 req Hp ltac:(lia)) as [(n2 & -> & Ha & Hf & Hlog)|(n2 & n3 & -> & Ha & Hloop & Hf & Hlog)];
    rewrite <- Hacc, Ha; cbn [mbind option_bind]; destruct Hf as (_&_&F3&F4&F5&F6&F7&_&_&F10).
  - eexists _, _. split; [done|]. rewrite Hl in Hlog. cbn [andb].
    split_and!; try done; try congruence. rewrite F4, Ht. lia.
  - rewrite Hloop. cbn [mbind option_bind]. eexists _, _. split; [done|].
    destruct (followCommit_spec (AppendEntriesRequest.LeaderCommit req) n3) as (E1&E2&E3&E4&E5&E6&E7).
    split; [done|]. split; [done|]. rewrite E1, E2, E3, E4, E5, E6, E7, F6, Hc, Hlog, Hl.
    split_and!; try done; try congruence. rewrite F4, Ht. lia.
Qed.

(** C14: The append handler on every branch: it never panics for a previous index of at
    least -1, answers success exactly when the term is current and the previous entry
    matches, and leaves the log, commit index, term, vote and role the reference
    definitions followerLog, followerCommit say. *)
Theorem HandleAppendEntries_correct n req :
  -1 <= AppendEntriesRequest.PrevLogIndex req ->
  exists n' resp, HandleAppendEntries n req = Some (n', resp) /\
    AppendEntriesResponse.Success resp = accepts n req /\
    AppendEntriesResponse.Term resp = CurrentTerm n' /\
    CurrentTerm n' = Z.max (CurrentTerm n) (AppendEntriesRequest.Term req) /\
    Log n' = followerLog n req /\ CommitIndex n' = followerCommit n req /\
    VotedFor n' = (if CurrentTerm n <? AppendEntriesRequest.Term req then "" else VotedFor n) /\
    State n' = (if AppendEntriesRequest.Term req <? CurrentTerm n then State n else Follower) /\
    LastApplied n' = LastApplied n /\ KVStore n' = KVStore n.
Proof. apply HandleAppendEntries_spec. Qed.

End replication_lemmas.

(** ** Commit index *)

Section commit_lemmas.
Context {W : Type} `{WalOps W}.
Implicit Types n : Node W.

(** The peers that acknowledged index [N]. *)
Definition matchers n (N : Z) : gset string :=
  dom (filter (fun '(_, m) => N <= m) (MatchIndex n)).

Lemma elem_of_matchers n N p :
  p ∈ matchers n N <-> exists m, MatchIndex n !! p = Some m /\ N <= m.
Proof.
  unfold matchers. rewrite elem_of_dom. unfold is_Some.
  setoid_rewrite map_lookup_filter_Some. done.
Qed.

Lemma matchCount_size n N : matchCount n N = 1 + Z.of_nat (size (matchers n N)).
Proof.
  unfold matchCount, matchers. rewrite size_dom.
  apply (map_fold_weak_ind (fun (c : Z) (m : gmap string Z) =>
    c = 1 + Z.of_nat (size (filter (fun '(_, m) => N <= m) m)))).
  - by rewrite map_filter_empty, map_size_empty.
  - intros i x m r Hi ->. rewrite Z.geb_leb. destruct (N <=? x) eqn:E; bool_to_prop.
    + rewrite map_filter_insert_True by done.
      rewrite map_size_insert_None; [lia|]. rewrite map_lookup_filter_None. auto.
    + rewrite map_filter_insert_not'; [done|lia|]. intros y Hy. by simplify_eq.
Qed.

(** [N] is an index the leader may commit: an entry of its own term above the
    commit index, acknowledged by a majority (itself included). *)
Definition committable n (N : Z) : Prop :=
  CommitIndex n < N /\
  (exists e, go_index (Log n) N = Some e /\ LogEntry.Term e = CurrentTerm n) /\
  peersCount n < 2 * (1 + Z.of_nat (size (matchers n N))).

Definition commitAt n (N : Z) : Node W :=
  notifyApply (walAppend (commitRecord N) (set_CommitIndex N n)).

Lemma advanceLoop_spec fuel : forall N n,
  -1 <= CommitIndex n -> N < len (Log n) -> N < Z.of_nat fuel ->
  (forall M, N < M -> ~ committable n M) ->
  (exists M, committable n M /\ (forall M', M < M' -> ~ committable n M') /\
     advanceLoop fuel N n = Some (commitAt n M)) \/
  ((forall M, ~ committable n M) /\ advanceLoop fuel N n = Some n).
Proof.
  induction fuel as [|fuel IH]; intros N n Hci HN Hf Hup; cbn [advanceLoop];
    destruct (N >? CommitIndex n) eqn:E; bool_to_prop.
  2,4: right; split; [|done]; intros M Hc; destruct (decide (N < M)) as [|];
       [by apply (Hup M)|destruct Hc; lia].
  { lia. }
  destruct (go_index_range (Log n) N ltac:(lia)) as [e He]. rewrite He. cbn [mbind option_bind].
  assert (~ committable n N -> forall M, N - 1 < M -> ~ committable n M) as Hdown.
  { intros Hnc M HM. destruct (decide (M = N)) as [->|]; [done|]. apply Hup. lia. }
  destruct (Z.eqb_spec (LogEntry.Term e) (CurrentTerm n)) as [Ht|Ht]; cbn [negb].
  2: { apply IH; [lia..|]. apply Hdown. intros (_ & (e' & He' & Ht') & _). congruence. }
  destruct (_ >? _) eqn:Hm; rewrite Z.gtb_ltb in Hm; bool_to_prop;
    rewrite matchCount_size in Hm.
  - left. exists N. apply quot2_lt in Hm; [|unfold peersCount; lia].
    split; [|done]. split; [done|]. split; [by eauto|done].
  - apply IH; [lia..|]. apply Hdown. intros (_ & _ & Hq).
    apply quot2_lt in Hq; [lia|unfold peersCount; lia].
Qed.

Lemma advanceCommitIndex_spec n :
  -1 <= CommitIndex n ->
  (exists M, committable n M /\ (forall M', M < M' -> ~ committable n M') /\
     advanceCommitIndex n = Some (commitAt n M)) \/
  ((forall M, ~ committable n M) /\ advanceCommitIndex n = Some n).
Proof.
  intros Hci. apply advanceLoop_spec; [done|lia|lia|].
  intros M HM (_ & (e & He & _) & _). apply go_index_Some in He as [_ He%lookup_lt_Some]. lia.
Qed.

(** C16: The leader's commit rule: advanceCommitIndex moves the commit index to the
    largest index above it that holds an entry of the current term and is acknowledged
    by a majority, writes one COMMIT record and wakes the apply loop; when there is none
    it changes nothing. *)
Theorem advanceCommitIndex_correct n :
  -1 <= CommitIndex n ->
  (exists M, committable n M /\ (forall M', M < M' -> ~ committable n M') /\
     advanceCommitIndex n = Some (commitAt n M)) \/
  ((forall M, ~ committable n M) /\ advanceCommitIndex n = Some n).
Proof. apply advanceCommitIndex_spec. Qed.

End commit_lemmas.

(** ** Concrete runs *)

(** A leader with two entries, the first committed, the second acknowledged
    by n2. *)
Definition sampleLeader : Node MemWal :=
  set_MatchIndex {["n2" := 1; "n3" := -1]} (set_State Leader sampleNode).

Lemma advanceCommitIndex_correct_witness :
  (exists M, committable sampleLeader M /\ (forall M', M < M' -> ~ committable sampleLeader M') /\
     advanceCommitIndex sampleLeader = Some (commitAt sampleLeader M)) \/
  ((forall M, ~ committable sampleLeader M) /\ advanceCommitIndex sampleLeader = Some sampleLeader).
Proof. apply (advanceCommitIndex_correct sampleLeader). vm_compute. discriminate. Defined.

(** A request that replaces the second entry of the sample node. *)
Definition sampleAppend : AppendEntriesRequest :=
  AppendEntriesRequest.mk 2 "n2" 0 1 [LogEntry.mk 1 2 OpDelete "x" ""] 1.

Lemma HandleAppendEntries_correct_witness :
  exists n' resp, HandleAppendEntries sampleNode sampleAppend = Some (n', resp) /\
    AppendEntriesResponse.Success resp = true /\ CommitIndex n' = 1 /\
    Log n' = [LogEntry.mk 0 1 OpSet "x" "1"; LogEntry.mk 1 2 OpDelete "x" ""].
Proof.
  destruct (HandleAppendEntries_correct sampleNode sampleAppend) as (n' & resp & E & Hs & _ & _ & Hl & Hc & _).
  { vm_compute. discriminate. }
  exists n', resp. split; [exact E|]. rewrite Hs, Hl, Hc. vm_compute. split_and!; reflexivity.
Defined.
