(* ===== verification/CatchUp.v ===== *)
(** * Replication makes progress ([internal/raft/replication.go])

    What the heartbeat loop achieves when a leader and a follower can talk to
    each other: [exchange] is one undisturbed run of [replicateToPeer] with the
    follower's [HandleAppendEntries] as the RPC.  Every failed exchange lowers
    [NextIndex], so a bounded number of exchanges brings the follower's log up
    to the leader's; when a majority has been brought up, the leader has
    committed its log. *)

From stdpp Require Import base gmap strings list fin_sets.
From S2P Require Import Prelude Types Kv Wal State Recovery Election Replication.

Section exchange.
Context {W : Type} `{WalOps W}.
Implicit Types L F : Node W.

(** One call of [replicateToPeer] as the heartbeat loop makes it. *)
Definition exchange (peer : string) (s : Node W * Node W) : option (Node W * Node W) :=
  let '(L, F) := s in
  let nextIdx := go_map_int (NextIndex L) peer in
  match replicateToPeer L nextIdx (CurrentTerm L) (CommitIndex L) with
  | None => Some (L, F)
  | Some req =>
      '(F, resp) ← HandleAppendEntries F req;
      L ← replicateReply L peer nextIdx (AppendEntriesRequest.Term req)
            (AppendEntriesRequest.PrevLogIndex req) (AppendEntriesRequest.Entries req) resp;
      Some (L, F)
  end.

Fixpoint exchanges (k : nat) (peer : string) (s : Node W * Node W) : option (Node W * Node W) :=
  match k with
  | O => Some s
  | S k => s ← exchange peer s; exchanges k peer s
  end.

(** The leader talks to several followers, one after the other. *)
Fixpoint visitAll (k : nat) L (followers : list (string * Node W)) : option (Node W * list (Node W)) :=
  match followers with
  | [] => Some (L, [])
  | (peer, F) :: rest =>
      '(L, F) ← exchanges k peer (L, F);
      '(L, Fs) ← visitAll k L rest;
      Some (L, F :: Fs)
  end.

End exchange.

(** ** Logs *)

(** Log matching, between two logs. *)
Definition logs_match (l1 l2 : list LogEntry) : Prop :=
  forall i x y, l1 !! i = Some x -> l2 !! i = Some y -> LogEntry.Term x = LogEntry.Term y ->
    take (S i) l1 = take (S i) l2.

Lemma logs_match_take l1 l2 k : logs_match l1 l2 -> logs_match l1 (take k l2).
Proof.
  intros Hm i x y Hx Hy Ht. apply lookup_take_Some in Hy as [Hy Hk].
  rewrite take_take, Nat.min_l by lia. by apply (Hm i x y).
Qed.

Lemma logs_match_prefix l1 l2 : l1 `prefix_of` l2 -> logs_match l1 l2.
Proof.
  intros [r ->] i x y Hx Hy _. apply lookup_lt_Some in Hx. by rewrite take_app_le by lia.
Qed.

(** The entry loop, when the logs agree up to where the entries start. *)
Lemma merge_catches_up l f idx :
  logs_match l f -> (idx <= length f)%nat -> take idx l = take idx f -> (idx <= length l)%nat ->
  l `prefix_of` merge f idx (drop idx l).
Proof.
  intros Hm. remember (length l - idx)%nat as m eqn:Em. revert idx Em.
  induction m as [|m IH]; intros idx Em Hf Ht Hl.
  - rewrite drop_ge by lia. simpl. rewrite take_ge in Ht by lia. rewrite Ht. apply prefix_take.
  - destruct (lookup_lt_is_Some_2 l idx ltac:(lia)) as [e He].
    destruct (f !! idx) as [x|] eqn:Hx.
    + rewrite (drop_S l e) by done. cbn [merge]. rewrite Hx.
      destruct (Z.eqb_spec (LogEntry.Term x) (LogEntry.Term e)) as [Hterm|Hterm].
      * apply IH; [lia|by apply lookup_lt_Some in Hx| |lia]. by eapply Hm.
      * rewrite <- Ht, <- (drop_S l e), take_drop by done. done.
    + apply lookup_ge_None in Hx. assert (idx = length f) as -> by lia.
      rewrite merge_end, <- (take_ge f (length f)) at 1 by lia. rewrite <- Ht, take_drop. done.
Qed.

(** ** One exchange *)

Section progress.
Context {W : Type} `{WalOps W}.
Implicit Types L F : Node W.

Definition lastIdx L : Z := len (Log L) - 1.

(** A leader and a follower it may replicate to. *)
Definition ready (peer : string) L F : Prop :=
  State L = Leader /\ CurrentTerm F <= CurrentTerm L /\ -1 <= CommitIndex L <= lastIdx L /\
  logs_match (Log L) (Log F) /\ 0 <= go_map_int (NextIndex L) peer <= len (Log L).

(** What an exchange with [peer] leaves alone. *)
Definition kept (peer : string) L L' : Prop :=
  Peers L' = Peers L /\ State L' = Leader /\ CurrentTerm L' = CurrentTerm L /\ Log L' = Log L /\
  CommitIndex L <= CommitIndex L' <= lastIdx L /\
  forall p, p <> peer -> NextIndex L' !! p = NextIndex L !! p /\ MatchIndex L' !! p = MatchIndex L !! p.

(** The leader has committed its log, or has no majority for it. *)
Definition settled L : Prop :=
  (exists e, last (Log L) = Some e /\ LogEntry.Term e = CurrentTerm L) ->
  CommitIndex L = lastIdx L \/ ~ peersCount L < 2 * (1 + Z.of_nat (size (matchers L (lastIdx L)))).

(** The follower has the leader's log and the leader knows. *)
Definition in_sync (peer : string) L F : Prop :=
  Log L `prefix_of` Log F /\ NextIndex L !! peer = Some (len (Log L)) /\
  MatchIndex L !! peer = Some (lastIdx L) /\ settled L.

Lemma replicateToPeer_some L next :
  State L = Leader -> 0 <= next <= len (Log L) ->
  exists pt, replicateToPeer L next (CurrentTerm L) (CommitIndex L) =
    Some (AppendEntriesRequest.mk (CurrentTerm L) (ID L) (next - 1) pt (drop (Z.to_nat next) (Log L)) (CommitIndex L)) /\
    forall e, 0 < next -> Log L !! Z.to_nat (next - 1) = Some e -> pt = LogEntry.Term e.
Proof.
  intros Hs Hn. unfold replicateToPeer. rewrite Hs, bool_decide_eq_true_2, Z.eqb_refl by done. cbn [negb orb].
  eexists. split.
  - f_equal. f_equal. destruct ((next >=? 0) && _) eqn:E; bool_to_prop.
    + unfold go_slice_from. by replace ((0 <=? next) && (next <=? len (Log L))) with true by lia.
    + rewrite drop_ge; [done|lia].
  - intros e H0 He. pose proof (lookup_lt_Some _ _ _ He).
    replace ((next - 1 >=? 0) && (next - 1 <? len (Log L))) with true by lia.
    by rewrite (proj2 (go_index_Some (Log L) (next - 1) e)) by (split; [lia|done]).
Qed.

(** The handler's answer to that request. *)
Lemma handle_ready peer L F next pt :
  ready peer L F -> 0 <= next <= len (Log L) ->
  (forall e, 0 < next -> Log L !! Z.to_nat (next - 1) = Some e -> pt = LogEntry.Term e) ->
  let req := AppendEntriesRequest.mk (CurrentTerm L) (ID L) (next - 1) pt (drop (Z.to_nat next) (Log L)) (CommitIndex L) in
  exists F' resp, HandleAppendEntries F req = Some (F', resp) /\
    CurrentTerm F' = CurrentTerm L /\ AppendEntriesResponse.Term resp = CurrentTerm L /\ logs_match (Log L) (Log F') /\
    AppendEntriesResponse.Success resp = accepts F req /\
    (accepts F req = false -> 0 < next) /\
    (accepts F req = true -> Log L `prefix_of` Log F') /\
    (Log L `prefix_of` Log F -> accepts F req = true).
Proof.
  intros (Hs & Ht & _ & Hm & _) Hn Hpt req.
  destruct (HandleAppendEntries_spec F req ltac:(simpl; lia)) as (F' & resp & -> & Hsu & Htr & Htf & Hl & _).
  assert (CurrentTerm F' = CurrentTerm L) as HtF by (rewrite Htf; simpl; lia).
  assert (Log L `prefix_of` followerLog F req \/ accepts F req = false) as Hacc.
  { destruct (accepts F req) eqn:Ea; [left|by right]. unfold followerLog. rewrite Ea. simpl.
    rewrite (proj2 (Z.ltb_ge _ _)) by done. replace (next - 1 + 1) with next by lia.
    unfold accepts in Ea. simpl in Ea. apply andb_true_iff in Ea as [_ Ea].
    destruct (decide (next = 0)) as [->|Hne]; [by apply merge_catches_up; simpl; try lia|].
    rewrite (proj2 (Z.ltb_ge _ _)) in Ea by lia. cbn [orb] in Ea.
    destruct (Log F !! Z.to_nat (next - 1)) as [x|] eqn:Hx; [|done]. apply Z.eqb_eq in Ea.
    destruct (lookup_lt_is_Some_2 (Log L) (Z.to_nat (next - 1)) ltac:(lia)) as [e He].
    pose proof (Hm _ _ _ He Hx ltac:(rewrite Ea; symmetry; apply Hpt; [lia|done])) as Htk.
    replace (S (Z.to_nat (next - 1))) with (Z.to_nat next) in Htk by lia. apply lookup_lt_Some in Hx.
    apply merge_catches_up; [done|lia|done|lia]. }
  exists F', resp. split; [done|]. split; [done|]. split; [congruence|]. rewrite Hl, Hsu. split; [|split; [done|split]].
  - destruct Hacc as [Hp|Ha]; [by apply logs_match_prefix|]. unfold followerLog. rewrite Ha. simpl.
    rewrite (proj2 (Z.ltb_ge _ _)) by done. by apply logs_match_take.
  - intros Ha. destruct (decide (0 < next)) as [|Hle]; [done|]. unfold accepts in Ha. simpl in Ha.
    by rewrite (proj2 (Z.leb_le _ _)), (proj2 (Z.ltb_lt _ _)) in Ha by lia.
  - split; [intros Ha; by destruct Hacc; [|congruence]|]. intros Hp. unfold accepts. simpl.
    rewrite (proj2 (Z.leb_le _ _)) by done. destruct (decide (next = 0)) as [->|Hne]; [done|].
    rewrite (proj2 (Z.ltb_ge _ _)) by lia. destruct (lookup_lt_is_Some_2 (Log L) (Z.to_nat (next - 1)) ltac:(lia)) as [e He].
    rewrite (prefix_lookup_Some _ _ _ _ He Hp), (Hpt e) by (lia || done). simpl. by rewrite Z.eqb_refl.
Qed.

(** The commit rule, on a leader whose commit index is within its log. *)
Lemma advance_settles L :
  State L = Leader -> -1 <= CommitIndex L <= lastIdx L ->
  exists L', advanceCommitIndex L = Some L' /\ Peers L' = Peers L /\ State L' = Leader /\
    CurrentTerm L' = CurrentTerm L /\ Log L' = Log L /\ NextIndex L' = NextIndex L /\ MatchIndex L' = MatchIndex L /\
    CommitIndex L <= CommitIndex L' <= lastIdx L /\ settled L'.
Proof.
  intros Hs Hc. destruct (advanceCommitIndex_spec L ltac:(lia)) as [(M & HM & Hmax & ->)|[Hno ->]].
  - destruct HM as (Hgt & (e & He%go_index_Some & Het) & Hq). destruct He as [HM0 He].
    apply lookup_lt_Some in He as Hlt. unfold lastIdx in *.
    exists (commitAt L M). split; [done|]. split_and!; try done; simpl; try lia.
    intros (x & Hx & Hxt). change (CommitIndex (commitAt L M)) with M. unfold lastIdx.
    change (Log (commitAt L M)) with (Log L) in *. rewrite last_lookup in Hx.
    destruct (decide (M = len (Log L) - 1)) as [|Hne]; [by left|right]. intros Hmaj.
    apply (Hmax (len (Log L) - 1)); [lia|]. split; [lia|]. split; [|done]. exists x. split; [|done].
    apply go_index_Some. split; [lia|]. replace (Z.to_nat (len (Log L) - 1)) with (pred (length (Log L))) by lia. done.
  - exists L. split; [done|]. split_and!; try done; try lia. intros (x & Hx & Hxt).
    destruct (decide (CommitIndex L = lastIdx L)) as [|Hne]; [by left|right]. intros Hmaj.
    apply (Hno (lastIdx L)). split; [lia|]. split; [|done]. exists x. split; [|done]. rewrite last_lookup in Hx.
    apply lookup_lt_Some in Hx as Hl. unfold lastIdx. apply go_index_Some. split; [lia|].
    by replace (Z.to_nat (len (Log L) - 1)) with (pred (length (Log L))) by lia.
Qed.

Lemma go_map_insert (m : gmap string Z) k v : go_map_int (<[k := v]> m) k = v.
Proof. unfold go_map_int. by rewrite lookup_insert_eq. Qed.

(** An exchange with a follower that is behind. *)
Lemma exchange_step peer L F :
  ready peer L F -> go_map_int (NextIndex L) peer < len (Log L) ->
  exists L' F', exchange peer (L, F) = Some (L', F') /\ kept peer L L' /\ ready peer L' F' /\
    (0 < go_map_int (NextIndex L) peer /\ go_map_int (NextIndex L') peer = go_map_int (NextIndex L) peer - 1 \/
     in_sync peer L' F').
Proof.
  intros Hr Hlt. set (next := go_map_int (NextIndex L) peer) in *.
  pose proof Hr as (Hs & Ht & Hc & Hm & Hn). fold next in Hn.
  destruct (replicateToPeer_some L next Hs Hn) as (pt & Hreq & Hpt).
  destruct (handle_ready peer L F next pt Hr Hn Hpt) as (F' & resp & HF & HtF & Htr & Hm' & Hsu & Hrej & Hacc & _).
  unfold exchange. fold next. rewrite Hreq, HF. cbn [mbind option_bind AppendEntriesRequest.Term
    AppendEntriesRequest.PrevLogIndex AppendEntriesRequest.Entries].
  unfold replicateReply. rewrite Hs, bool_decide_eq_true_2, Z.eqb_refl, Htr, Hsu by done. cbn [negb orb].
  rewrite Z.gtb_ltb, Z.ltb_irrefl. destruct (accepts F _) eqn:Ea.
  - rewrite length_drop. assert (0 < Z.of_nat (length (Log L) - Z.to_nat next)) as Hpos by lia.
    rewrite Z.gtb_ltb, (proj2 (Z.ltb_lt _ _) Hpos).
    match goal with |- context [advanceCommitIndex ?n] => set (L1 := n) end.
    assert (go_map_int (MatchIndex (set_MatchIndex (<[peer := next - 1 + Z.of_nat (length (Log L) - Z.to_nat next)]>
      (MatchIndex L)) L)) peer = lastIdx L) as Hmi by (simpl; rewrite go_map_insert; unfold lastIdx; lia).
    destruct (advance_settles L1 Hs Hc) as (L' & -> & Hp' & Hs' & Ht' & Hl' & Hn' & Hmi' & Hc' & Hse).
    change (Log L1) with (Log L) in *. cbn [mbind option_bind]. exists L', F'. split; [done|].
    assert (NextIndex L' !! peer = Some (len (Log L))) as Hni.
    { rewrite Hn'. simpl. rewrite lookup_insert_eq, go_map_insert. f_equal. lia. }
    split; [|split].
    + split; [done|]. split; [done|]. split; [done|]. split; [done|]. split; [done|]. intros p Hp.
      rewrite Hn', Hmi'. simpl. by rewrite !lookup_insert_ne by done.
    + unfold ready. rewrite Ht', Hl', HtF. unfold go_map_int. rewrite Hni. unfold lastIdx in *. rewrite Hl'.
      change (CommitIndex L1) with (CommitIndex L) in *. change (Log L1) with (Log L) in *.
      change (CurrentTerm L1) with (CurrentTerm L). split_and!; try done; simpl; lia.
    + right. unfold in_sync, lastIdx. rewrite Hl', Hni, Hmi'. split; [by apply Hacc|]. split; [done|].
      split; [|done]. simpl. rewrite lookup_insert_eq. f_equal. lia.
  - specialize (Hrej eq_refl). rewrite Z.gtb_ltb, (proj2 (Z.ltb_lt _ _)) by done. cbn [mbind option_bind].
    eexists _, F'. split; [done|]. split; [|split; [|left]].
    + split_and!; try done; simpl; try lia. intros p Hp. by rewrite lookup_insert_ne.
    + unfold ready. simpl. rewrite go_map_insert. unfold lastIdx in *. simpl. split_and!; try done; lia.
    + simpl. by rewrite go_map_insert.
Qed.

(** An exchange with a follower that is up to date. *)
Lemma exchange_idle peer L F :
  ready peer L F -> in_sync peer L F ->
  exists F', exchange peer (L, F) = Some (L, F') /\ ready peer L F' /\ in_sync peer L F'.
Proof.
  intros Hr (Hp & Hni & Hmi & Hse). pose proof Hr as (Hs & Ht & Hc & Hm & Hn).
  assert (go_map_int (NextIndex L) peer = len (Log L)) as Hnext by (unfold go_map_int; by rewrite Hni).
  rewrite Hnext in Hn. destruct (replicateToPeer_some L _ Hs Hn) as (pt & Hreq & Hpt).
  destruct (handle_ready peer L F _ pt Hr Hn Hpt) as (F' & resp & HF & HtF & Htr & Hm' & Hsu & _ & Hacc & Hyes).
  specialize (Hyes Hp). rewrite Hyes in Hsu, Hacc. unfold exchange. rewrite Hnext, Hreq, HF.
  cbn [mbind option_bind AppendEntriesRequest.Term AppendEntriesRequest.PrevLogIndex AppendEntriesRequest.Entries].
  unfold replicateReply. rewrite Hs, bool_decide_eq_true_2, Z.eqb_refl, Htr, Hsu by done. cbn [negb orb].
  rewrite Z.gtb_ltb, Z.ltb_irrefl, drop_ge by lia. cbn [mbind option_bind length Z.of_nat Z.gtb Z.compare].
  exists F'. split; [done|]. split; [|split_and!; try done; by apply Hacc].
  unfold ready. rewrite HtF, Hnext. split_and!; try done; lia.
Qed.

Lemma kept_trans peer L1 L2 L3 : kept peer L1 L2 -> kept peer L2 L3 -> kept peer L1 L3.
Proof.
  intros (P1&S1&T1&G1&C1&K1) (P2&S2&T2&G2&C2&K2). unfold kept, lastIdx in *. rewrite G1 in *.
  split_and!; try congruence; try lia. intros p Hp. destruct (K1 p Hp), (K2 p Hp). split; congruence.
Qed.

Lemma kept_refl peer L : State L = Leader -> CommitIndex L <= lastIdx L -> kept peer L L.
Proof. intros. unfold kept. split_and!; try done; lia. Qed.

Lemma exchanges_idle k peer L F :
  ready peer L F -> in_sync peer L F ->
  exists F', exchanges k peer (L, F) = Some (L, F') /\ ready peer L F' /\ in_sync peer L F'.
Proof.
  revert F. induction k as [|k IH]; intros F Hr Hi; cbn [exchanges]; [by exists F|].
  destruct (exchange_idle peer L F Hr Hi) as (F1 & -> & Hr1 & Hi1). by apply IH.
Qed.

(** As many exchanges as there are entries below [NextIndex], and one more. *)
Lemma exchanges_sync k : forall peer L F,
  ready peer L F -> go_map_int (NextIndex L) peer < len (Log L) ->
  go_map_int (NextIndex L) peer < Z.of_nat k ->
  exists L' F', exchanges k peer (L, F) = Some (L', F') /\ kept peer L L' /\ ready peer L' F' /\ in_sync peer L' F'.
Proof.
  induction k as [|k IH]; intros peer L F Hr Hlt Hk; pose proof Hr as (_ & _ & _ & _ & Hn); [lia|].
  cbn [exchanges]. destruct (exchange_step peer L F Hr Hlt) as (L1 & F1 & -> & Hk1 & Hr1 & Hcase). cbn [mbind option_bind].
  destruct Hcase as [[H0 Hnext]|Hi].
  - assert (Log L1 = Log L) as HL by apply Hk1.
    destruct (IH peer L1 F1 Hr1) as (L2 & F2 & -> & Hk2 & Hr2 & Hi2); [rewrite HL; lia|lia|].
    exists L2, F2. split; [done|]. split; [by eapply kept_trans|done].
  - destruct (exchanges_idle k peer L1 F1 Hr1 Hi) as (F2 & -> & Hr2 & Hi2). by exists L1, F2.
Qed.

(** C10: Catching up terminates: if a leader and a follower of no newer term have logs
    that match where their terms agree, and the leader still has something to send, then
    after more exchanges than the leader's next index for the follower, each answered,
    the follower's log starts with the leader's whole log, the leader's log is unchanged
    and the leader has recorded it as replicated. *)
Theorem catch_up_terminates peer L F k :
  ready peer L F -> go_map_int (NextIndex L) peer < len (Log L) -> go_map_int (NextIndex L) peer < Z.of_nat k ->
  exists L' F', exchanges k peer (L, F) = Some (L', F') /\ Log L' = Log L /\ Log L `prefix_of` Log F' /\
    NextIndex L' !! peer = Some (len (Log L)) /\ MatchIndex L' !! peer = Some (lastIdx L).
Proof.
  intros Hr Hlt Hk. destruct (exchanges_sync k peer L F Hr Hlt Hk) as (L' & F' & -> & Hkept & _ & Hp & Hn & Hm & _).
  assert (Log L' = Log L) as HL by apply Hkept. unfold lastIdx in *. rewrite HL in *. by exists L', F'.
Qed.

(** Any number of followers. *)
Lemma visitAll_sync k followers : forall L,
  State L = Leader -> CommitIndex L <= lastIdx L -> NoDup (followers.*1) ->
  Forall (fun '(peer, F) => ready peer L F /\ go_map_int (NextIndex L) peer < len (Log L) /\
    go_map_int (NextIndex L) peer < Z.of_nat k) followers ->
  exists L' Fs, visitAll k L followers = Some (L', Fs) /\
    Peers L' = Peers L /\ State L' = Leader /\ CurrentTerm L' = CurrentTerm L /\ Log L' = Log L /\
    CommitIndex L <= CommitIndex L' <= lastIdx L /\ Forall (fun F => Log L `prefix_of` Log F) Fs /\ length Fs = length followers /\
    Forall (fun p => MatchIndex L' !! p = Some (lastIdx L)) (followers.*1) /\
    (forall p, p ∉ followers.*1 -> MatchIndex L' !! p = MatchIndex L !! p) /\
    (followers <> [] \/ settled L -> settled L').
Proof.
  induction followers as [|[peer F] rest IH]; intros L Hs Hc Hnd Hall; cbn [visitAll].
  { exists L, []. split_and!; try done. by intros [?|?]. }
  apply Forall_cons in Hall as [(Hr & Hlt & Hk) Hall]. apply NoDup_cons in Hnd as [Hnew Hnd].
  destruct (exchanges_sync k peer L F Hr Hlt Hk) as (L1 & F1 & -> & Hk1 & Hr1 & Hp1 & Hn1 & Hm1 & Hse1).
  cbn [mbind option_bind]. destruct Hk1 as (HP & HS & HT & HL & HC & HK).
  destruct (IH L1 HS) as (L2 & Fs & -> & EP & ES & ET & EL & EC & Hpre & Hlen & Hmi & Hother & Hse).
  - unfold lastIdx in *. rewrite HL. lia.
  - done.
  - eapply Forall_impl; [apply Forall_and; split; [exact Hall|apply Forall_forall; intros x Hx; exact Hx]|].
    intros [q G] [((_ & G2 & G3 & G4 & G5) & G6 & G7) Hin].
    assert (q <> peer) as Hq by (intros ->; apply Hnew, (list_elem_of_fmap_2 fst _ _ Hin)).
    destruct (HK q Hq) as [Hnq _]. unfold ready, go_map_int, lastIdx in *. rewrite HT, HL, Hnq.
    destruct Hr1 as (_ & _ & ? & _). rewrite HL in *. split_and!; try done; lia.
  - exists L2, (F1 :: Fs). split; [done|]. unfold lastIdx in *. rewrite HL in *.
    split; [congruence|]. split; [done|]. split; [congruence|]. split; [congruence|]. split; [lia|].
    split; [by constructor|]. split; [simpl; by rewrite Hlen|]. split; [|split].
    + constructor; [|done]. simpl. by rewrite Hother.
    + simpl. intros p Hp. rewrite Hother by set_solver. apply HK. set_solver.
    + intros _. by apply Hse; right.
Qed.

(** A leader that reaches a majority commits: when its exchanges with followers
    that together with it are a majority are answered, and its last entry is of its own
    term, its commit index becomes the index of that entry and every one of these
    followers has its log. *)
Lemma quorum_catch_up_commits k L followers e :
  State L = Leader -> CommitIndex L <= lastIdx L -> NoDup (followers.*1) ->
  Forall (fun '(peer, F) => ready peer L F /\ go_map_int (NextIndex L) peer < len (Log L) /\
    go_map_int (NextIndex L) peer < Z.of_nat k) followers ->
  followers <> [] -> peersCount L < 2 * (1 + len followers) ->
  last (Log L) = Some e -> LogEntry.Term e = CurrentTerm L ->
  exists L' Fs, visitAll k L followers = Some (L', Fs) /\ State L' = Leader /\ CurrentTerm L' = CurrentTerm L /\
    Log L' = Log L /\ CommitIndex L' = len (Log L) - 1 /\
    length Fs = length followers /\ Forall (fun F => Log L `prefix_of` Log F) Fs.
Proof.
  intros Hs Hc Hnd Hall Hne Hq He Ht.
  destruct (visitAll_sync k followers L Hs Hc Hnd Hall) as (L' & Fs & -> & EP & ES & ET & EL & EC & Hpre & Hlen & Hmi & _ & Hse).
  exists L', Fs. split; [done|]. split; [done|]. split; [done|]. split; [done|]. split; [|done].
  destruct (Hse (or_introl Hne)) as [E|Hno]; [exists e; by rewrite EL, ET|unfold lastIdx in E; by rewrite EL in E|].
  exfalso. apply Hno. unfold lastIdx in *. rewrite EL. unfold peersCount in *. rewrite EP.
  assert (length followers <= size (matchers L' (len (Log L) - 1)))%nat as Hsz; [|lia].
  rewrite <- (length_fmap fst), <- (size_list_to_set (C := gset string)) by done. apply subseteq_size.
  intros p Hp%elem_of_list_to_set. apply elem_of_matchers. exists (len (Log L) - 1).
  split; [|lia]. by apply (proj1 (Forall_forall _ _) Hmi p Hp).
Qed.
End progress.

(** ** A follower five exchanges behind *)

(** A leader of term 3 with four entries that assumes n2 to have three of them,
    and a follower whose log has one entry in common and a stale one. *)
Definition leader3 : Node MemWal :=
  let l := [LogEntry.mk 0 1 OpSet "x" "1"; LogEntry.mk 1 2 OpSet "y" "2"; LogEntry.mk 2 2 OpSet "z" "3";
            LogEntry.mk 3 3 OpDelete "x" ""] in
  set_NextIndex {["n2" := 3; "n3" := 3]} (set_MatchIndex {["n2" := -1; "n3" := -1]}
    (set_CurrentTerm 3 (set_State Leader (set_Log l sampleNode)))).

Definition behind : Node MemWal := sampleNode.

Lemma catch_up_ready : ready "n2" leader3 behind.
Proof.
  split; [reflexivity|]. split; [vm_compute; discriminate|]. split; [vm_compute; split; discriminate|].
  split; [|vm_compute; split; discriminate]. intros i x y Hx Hy Ht. destruct i as [|[|i]].
  - vm_compute. reflexivity.
  - vm_compute in Hx, Hy. injection Hx as <-. injection Hy as <-. discriminate Ht.
  - vm_compute in Hy. discriminate Hy.
Qed.

Lemma catch_up_terminates_witness :
  exists L' F', exchanges 4 "n2" (leader3, behind) = Some (L', F') /\ Log L' = Log leader3 /\
    Log leader3 `prefix_of` Log F' /\ NextIndex L' !! "n2" = Some 4 /\ MatchIndex L' !! "n2" = Some 3.
Proof. apply (catch_up_terminates "n2" leader3 behind 4 catch_up_ready); vm_compute; reflexivity. Defined.

Lemma quorum_catch_up_commits_witness :
  exists L' Fs, visitAll 4 leader3 [("n2", behind)] = Some (L', Fs) /\ State L' = Leader /\
    CurrentTerm L' = CurrentTerm leader3 /\ Log L' = Log leader3 /\ CommitIndex L' = 3 /\
    length Fs = 1%nat /\ Forall (fun F => Log leader3 `prefix_of` Log F) Fs.
Proof.
  refine (quorum_catch_up_commits 4 leader3 [("n2", behind)] (LogEntry.mk 3 3 OpDelete "x" "") _ _ _ _ _ _ _ _).
  - reflexivity.
  - vm_compute. discriminate.
  - apply NoDup_singleton.
  - constructor; [|constructor]. split; [exact catch_up_ready|]. split; vm_compute; reflexivity.
  - discriminate.
  - vm_compute. reflexivity.
  - reflexivity.
  - reflexivity.
Defined.
