(* ===== verification/Transport.v ===== *)
(** * RPC transport ([internal/transport/tcp.go])

    [SendRPC] on the caller's side and [handleConn] on the server's.  A
    connection is a function from the bytes the caller writes to the bytes it
    gets back before the deadline.  The gob codec of [RPC] values is a
    parameter ([RPCGob]).  [Handler] is the Go interface of the same name;
    the Raft node implements it. *)

From Stdlib Require Import Strings.Byte.
From stdpp Require Import base gmap strings list countable.
From S2P Require Import Prelude Types Kv Wal State Recovery Election Replication.

(** [type Handler interface]; [None] is a panic of the handler. *)
Class Handler (H : Type) := {
  onRequestVote : H -> RequestVoteRequest -> H * RequestVoteResponse;
  onAppendEntries : H -> AppendEntriesRequest -> option (H * AppendEntriesResponse) }.

#[export] Instance node_handler {W} `{WalOps W} : Handler (Node W) := {|
  onRequestVote := HandleRequestVote;
  onAppendEntries := HandleAppendEntries |}.

(** What [encoding/gob] promises for [RPC]: what is encoded can be decoded,
    and a connection that is closed without a byte gives an error. *)
Class RPCGob := {
  rpc_encode : RPC -> option (list byte);
  rpc_decode : list byte -> option RPC;
  rpc_roundtrip r d : rpc_encode r = Some d -> rpc_decode d = Some r;
  rpc_eof : rpc_decode [] = None }.

(** The dynamic types [SendRPC] is called with. *)
Definition request : Type := RequestVoteRequest + AppendEntriesRequest.
Definition response : Type := RequestVoteResponse + AppendEntriesResponse.

Inductive rpcError := DialError | EncodeError | DecodeError.

Definition emptyRPC : RPC := RPC.mk "" None None None None.

(** Lines 23-29. *)
Definition buildRequest (rpcType : RPCType) (req : request) : RPC :=
  match req with
  | inl v => RPC.mk rpcType (Some v) None None None
  | inr v => RPC.mk rpcType None None (Some v) None
  end.

(** Lines 42-51: [*resp] after the type switch. *)
Definition storeResponse (resp : response) (rpcResp : RPC) : response :=
  match resp with
  | inl v => inl (default v (RPC.RVResp rpcResp))
  | inr v => inr (default v (RPC.AEresp rpcResp))
  end.

Section transport.
Context `{RPCGob}.

(** [conn]: [None] when dialling fails. *)
Definition SendRPC (conn : option (list byte -> list byte)) (rpcType : RPCType) (req : request)
    (resp : response) : response + rpcError :=
  match conn with
  | None => inr DialError
  | Some peer =>
      match rpc_encode (buildRequest rpcType req) with
      | None => inr EncodeError
      | Some sent =>
          match rpc_decode (peer sent) with
          | None => inr DecodeError
          | Some rpcResp => inl (storeResponse resp rpcResp)
          end
      end
  end.

Section server.
Context {Srv : Type} `{Handler Srv}.

(** The dispatch of [handleConn] (lines 94-109). *)
Definition dispatch (h : Srv) (rpcReq : RPC) : option (Srv * RPC) :=
  if bool_decide (RPC.Type_ rpcReq = RPCRequestVoteReq) then
    match RPC.RVReq rpcReq with
    | Some req => let '(h, resp) := onRequestVote h req in
                  Some (h, RPC.mk RPCRequestVoteResp None (Some resp) None None)
    | None => Some (h, emptyRPC)
    end
  else if bool_decide (RPC.Type_ rpcReq = RPCAppendEntriesReq) then
    match RPC.AEreq rpcReq with
    | Some req => '(h, resp) ← onAppendEntries h req;
                  Some (h, RPC.mk RPCAppendEntriesResp None None None (Some resp))
    | None => Some (h, emptyRPC)
    end
  else Some (h, emptyRPC).

(** [handleConn]: the handler afterwards and the bytes written back; a failed
    encoding writes nothing. *)
Definition handleConn (h : Srv) (received : list byte) : option (Srv * list byte) :=
  match rpc_decode received with
  | None => Some (h, [])
  | Some rpcReq =>
      '(h, rpcResp) ← dispatch h rpcReq;
      Some (h, default [] (rpc_encode rpcResp))
  end.

(** A connection to a server with handler [h]; a panic closes it. *)
Definition serve (h : Srv) (sent : list byte) : list byte :=
  match handleConn h sent with Some (_, out) => out | None => [] end.

(** ** A call over the wire is a call of the handler *)

Definition callType (req : request) : RPCType :=
  match req with inl _ => RPCRequestVoteReq | inr _ => RPCAppendEntriesReq end.

(** The response variable of the caller before the call: zero values. *)
Definition zeroResponse (req : request) : response :=
  match req with
  | inl _ => inl (RequestVoteResponse.mk 0 false)
  | inr _ => inr (AppendEntriesResponse.mk 0 false 0)
  end.

(** The handler called in place. *)
Definition call (h : Srv) (req : request) : option (Srv * response) :=
  match req with
  | inl v => let '(h, resp) := onRequestVote h v in Some (h, inl resp)
  | inr v => '(h, resp) ← onAppendEntries h v; Some (h, inr resp)
  end.

(** The reply message of a call. *)
Definition replyRPC (resp : response) : RPC :=
  match resp with
  | inl v => RPC.mk RPCRequestVoteResp None (Some v) None None
  | inr v => RPC.mk RPCAppendEntriesResp None None None (Some v)
  end.

Lemma dispatch_call h req :
  dispatch h (buildRequest (callType req) req) =
  match call h req with Some (h', resp) => Some (h', replyRPC resp) | None => None end.
Proof.
  destruct req as [v|v]; unfold dispatch; simpl.
  - by destruct (onRequestVote h v).
  - destruct (onAppendEntries h v) as [[h' resp]|]; done.
Qed.

Lemma storeResponse_reply h req h' resp :
  call h req = Some (h', resp) -> storeResponse (zeroResponse req) (replyRPC resp) = resp.
Proof.
  destruct req as [v|v]; simpl.
  - destruct (onRequestVote h v). by intros [= <- <-].
  - destruct (onAppendEntries h v) as [[h1 r]|]; simpl; [|done]. by intros [= <- <-].
Qed.

(** C26: A call over the wire is a call of the handler: for a request that can be
    encoded, the server's handler state and the response the caller gets are those of
    calling the handler in place; if the handler panics the caller gets an error. *)
Theorem rpc_transparent h req sent :
  rpc_encode (buildRequest (callType req) req) = Some sent ->
  (forall h' resp, call h req = Some (h', resp) -> is_Some (rpc_encode (replyRPC resp))) ->
  match call h req with
  | Some (h', resp) =>
      fst <$> handleConn h sent = Some h' /\
      SendRPC (Some (serve h)) (callType req) req (zeroResponse req) = inl resp
  | None =>
      handleConn h sent = None /\
      SendRPC (Some (serve h)) (callType req) req (zeroResponse req) = inr DecodeError
  end.
Proof.
  intros Hs Henc. unfold SendRPC, serve, handleConn. rewrite Hs, (rpc_roundtrip _ _ Hs), dispatch_call.
  destruct (call h req) as [[h' resp]|] eqn:Hc; cbn [mbind option_bind]; [|by rewrite rpc_eof].
  destruct (Henc h' resp eq_refl) as [d Hd]. rewrite Hd. simpl.
  rewrite (rpc_roundtrip _ _ Hd), (storeResponse_reply h req h') by done. done.
Qed.

(** A message whose type does not match its payload is ignored by the server, and
    the caller gets its zero response and no error. *)
Lemma rpc_unknown_ignored h req rpcType sent :
  rpc_encode (buildRequest rpcType req) = Some sent -> is_Some (rpc_encode emptyRPC) ->
  rpcType <> callType req ->
  fst <$> handleConn h sent = Some h /\
  SendRPC (Some (serve h)) rpcType req (zeroResponse req) = inl (zeroResponse req).
Proof.
  intros Hs [d Hd] Hne. unfold SendRPC, serve, handleConn. rewrite Hs, (rpc_roundtrip _ _ Hs).
  assert (dispatch h (buildRequest rpcType req) = Some (h, emptyRPC)) as ->.
  { unfold dispatch. destruct req as [v|v]; simpl in *; repeat case_bool_decide; done. }
  simpl. rewrite Hd. simpl. rewrite (rpc_roundtrip _ _ Hd). by destruct req.
Qed.

End server.
End transport.

(** ** Concrete calls *)

(** A codec: a marker byte, then the bits of the code of the message. *)
Definition bit_rpc_gob : RPCGob.
Proof.
  refine {| rpc_encode r := Some (x02 :: bits_of (encode r));
            rpc_decode d := match d with [] => None | _ :: d => decode (of_bits d) end |}.
  - intros r d [= <-]. by rewrite of_bits_of, decode_encode.
  - reflexivity.
Defined.

(** n2 asks the sample node for its vote in term 2, over the wire. *)
Lemma rpc_transparent_witness :
  @SendRPC bit_rpc_gob (Some (@serve bit_rpc_gob _ _ sampleNode)) RPCRequestVoteReq
    (inl (RequestVoteRequest.mk 2 "n2" 1 1)) (inl (RequestVoteResponse.mk 0 false))
  = inl (inl (RequestVoteResponse.mk 2 true)).
Proof.
  pose proof (@rpc_transparent bit_rpc_gob (Node MemWal) _ sampleNode
    (inl (RequestVoteRequest.mk 2 "n2" 1 1)) _ eq_refl) as Hrpc.
  assert (snd <$> call sampleNode (inl (RequestVoteRequest.mk 2 "n2" 1 1))
          = Some (inl (RequestVoteResponse.mk 2 true))) as Hr by (vm_compute; reflexivity).
  destruct (call sampleNode (inl (RequestVoteRequest.mk 2 "n2" 1 1))) as [[h' resp]|]; [|discriminate Hr].
  injection Hr as ->. apply Hrpc. intros h1 resp1 _. by eexists.
Defined.

Lemma rpc_unknown_ignored_witness :
  @SendRPC bit_rpc_gob (Some (@serve bit_rpc_gob _ _ sampleNode)) "PING"
    (inl (RequestVoteRequest.mk 2 "n2" 1 1)) (inl (RequestVoteResponse.mk 0 false))
  = inl (inl (RequestVoteResponse.mk 0 false)).
Proof.
  apply (@rpc_unknown_ignored bit_rpc_gob (Node MemWal) _ sampleNode
    (inl (RequestVoteRequest.mk 2 "n2" 1 1)) "PING" _ eq_refl); [by eexists|discriminate].
Defined.
