(* ===== verification/Apply.v ===== *)
(** * Applying entries and serving clients ([internal/raft/apply.go],
      [internal/raft/client.go])

    [applyCommittedEntries] is one critical section.  [handleClientReq] is one
    that proposes the entry and then one per tick that looks for the outcome;
    the reply it sends on [req.ResCh] is a value of [reply]. *)

From stdpp Require Import base gmap strings list.
From S2P Require Import Prelude Types Kv Wal State Recovery Election Replication.

Section apply.
Context {W : Type} `{WalOps W}.
Implicit Types n : Node W.

(** The loop of [applyCommittedEntries]; it runs at most
    [len(n.Log)-1-n.LastApplied] times. *)
Fixpoint applyFor (fuel : nat) n : option (Node W) :=
  if (LastApplied n <? CommitIndex n) && (LastApplied n <? len (Log n) - 1) then
    match fuel with
    | O => Some n
    | S fuel =>
        let n := set_LastApplied (LastApplied n + 1) n in
        entry ← go_index (Log n) (LastApplied n);
        applyFor fuel (set_KVStore (applyEntry (KVStore n) entry) n)
    end
  else Some n.

Definition applyCommittedEntries n : option (Node W) :=
  applyFor (Z.to_nat (len (Log n) - 1 - LastApplied n)) n.

(** What the select of the goroutine [applyLoop] received, and one iteration of
    it: the node, and whether the goroutine goes on. *)
Inductive applyWake := WakeStop | WakeNotify | WakeTick.

Definition applyLoop n (wake : applyWake) : option (Node W * bool) :=
  match wake with
  | WakeStop => Some (n, false)
  | WakeNotify => n' ← applyCommittedEntries (set_applyNotify false n); Some (n', true)
  | WakeTick => n' ← applyCommittedEntries n; Some (n', true)
  end.

(** One tick of [heartbeatLoop]: the role is read in one critical section,
    [sendHeartbeats] is another, on a possibly different node [n']. *)
Definition heartbeatLoop n n' : option (Z * Z * list peerInfo) :=
  let isLeader := bool_decide (State n = Leader) in
  if isLeader then sendHeartbeats n' else None.

(** ** Client requests *)

Inductive clientError := ErrNotLeader | ErrLostLeadership | ErrTimeout | NodeStopped.

(** [err.Error()] *)
Definition clientError_String (e : clientError) : string :=
  match e with
  | ErrNotLeader => "NOT_LEADER"
  | ErrLostLeadership => "LOST_LEADERSHIP"
  | ErrTimeout => "TIMEOUT"
  | NodeStopped => "NODE_STOPPED"
  end.

(** What is sent on [req.ResCh]: nil or an error. *)
Definition reply := option clientError.

(** The proposal (lines 35-58): a refusal, or the index and term to watch. *)
Definition handleClientReq n (req : ClientReq) : Node W * (reply + Z * Z) :=
  if negb (bool_decide (State n = Leader)) then (n, inl (Some ErrNotLeader))
  else
    let idx := len (Log n) in
    let term := CurrentTerm n in
    let entry := LogEntry.mk idx term (ClientReq.Op req) (ClientReq.Key req) (ClientReq.Value req) in
    let n := set_Log (Log n ++ [entry]) n in
    let n := walAppend (entryRecord entry) n in
    (n, inr (idx, term)).

(** One iteration of the waiting loop (lines 69-91) on a tick; [late] is
    whether the deadline has passed.  [None]: keep waiting. *)
Definition pollClientReq n (idx term : Z) (late : bool) : option reply :=
  if negb (bool_decide (State n = Leader)) || negb (CurrentTerm n =? term) then
    Some (Some ErrLostLeadership)
  else if CommitIndex n >=? idx then Some None
  else if late then Some (Some ErrTimeout)
  else None.

(** The other branch of the select: [stopCh] is closed. *)
Definition pollStopped n : option reply :=
  if stopped n then Some (Some NodeStopped) else None.

(** [Submit]: the select's two ready branches; [preferStop] resolves the
    choice when both are.  [None]: the caller blocks. *)
Definition clientChCap : nat := 100.

Definition Submit n (req : ClientReq) (preferStop : bool) : option (Node W * option reply) :=
  let canSend := (length (clientCh n) <? clientChCap)%nat in
  if stopped n && (preferStop || negb canSend) then Some (n, Some (Some NodeStopped))
  else if canSend then Some (set_clientCh (clientCh n ++ [req]) n, None)
  else None.

(** [clientHandler] takes the oldest request. *)
Definition clientHandler n : option (Node W * ClientReq) :=
  match clientCh n with
  | [] => None
  | req :: rest => Some (set_clientCh rest n, req)
  end.

End apply.

(** ** Lemmas *)

Section apply_lemmas.
Context {W : Type} `{WalOps W}.
Implicit Types n : Node W.

(** Everything but the state machine and its counter is untouched. *)
Definition apply_frame n n' : Prop :=
  ID n' = ID n /\ Peers n' = Peers n /\ State n' = State n /\ CurrentTerm n' = CurrentTerm n /\
  VotedFor n' = VotedFor n /\ Log n' = Log n /\ CommitIndex n' = CommitIndex n /\
  NextIndex n' = NextIndex n /\ MatchIndex n' = MatchIndex n /\ wal n' = wal n.

(** The index [applyCommittedEntries] stops at. *)
Definition applyTarget n : Z := Z.min (CommitIndex n) (len (Log n) - 1).

Lemma applyFor_spec fuel : forall n,
  -1 <= LastApplied n -> (Z.to_nat (len (Log n) - 1 - LastApplied n) <= fuel)%nat ->
  exists n', applyFor fuel n = Some n' /\ apply_frame n n' /\
    LastApplied n' = Z.max (LastApplied n) (applyTarget n) /\
    KVStore n' = foldl applyEntry (KVStore n)
      (drop (Z.to_nat (LastApplied n + 1)) (take (Z.to_nat (applyTarget n + 1)) (Log n))).
Proof.
  induction fuel as [|fuel IH]; intros n Hla Hf; cbn [applyFor]; unfold applyTarget.
  all: destruct (_ && _) eqn:Hc; bool_to_prop.
  2,4: exists n; split_and!; try done; [lia|];
       rewrite drop_ge; [done|]; rewrite length_take; destruct Hc; bool_to_prop; lia.
  { exfalso; lia. }
  set (n1 := set_LastApplied (LastApplied n + 1) n).
  destruct (go_index_range (Log n1) (LastApplied n1)) as [e He]; [unfold n1; simpl; lia|].
  rewrite He. cbn [mbind option_bind]. apply go_index_Some in He as [_ He].
  set (n2 := set_KVStore (applyEntry (KVStore n1) e) n1).
  destruct (IH n2) as (n' & -> & Hfr & Hl & Hkv); [unfold n2, n1; simpl; lia..|].
  exists n'. split; [done|]. split; [apply Hfr|]. unfold applyTarget in *.
  unfold n2, n1 in Hl, Hkv, He; simpl in Hl, Hkv, He. split; [lia|]. rewrite Hkv.
  rewrite (drop_S _ e (Z.to_nat (LastApplied n + 1))).
  - simpl. do 3 f_equal. lia.
  - rewrite lookup_take_lt by lia. done.
Qed.

Lemma applyCommittedEntries_spec n :
  -1 <= LastApplied n ->
  exists n', applyCommittedEntries n = Some n' /\ apply_frame n n' /\
    LastApplied n' = Z.max (LastApplied n) (applyTarget n) /\
    KVStore n' = foldl applyEntry (KVStore n)
      (drop (Z.to_nat (LastApplied n + 1)) (take (Z.to_nat (applyTarget n + 1)) (Log n))).
Proof. intros Hla. by apply applyFor_spec. Qed.

Lemma applyFor_frame fuel : forall n n', applyFor fuel n = Some n' -> apply_frame n n'.
Proof.
  induction fuel as [|fuel IH]; intros n n'; cbn [applyFor]; destruct (_ && _); try by intros [= <-].
  destruct (go_index _ _); cbn [mbind option_bind]; [|done]. intros Hl%IH. apply Hl.
Qed.

Lemma applyFor_done fuel n :
  CommitIndex n <= LastApplied n \/ len (Log n) - 1 <= LastApplied n -> applyFor fuel n = Some n.
Proof.
  intros Hd. destruct fuel; cbn [applyFor];
    destruct (_ && _) eqn:Hc; try done; bool_to_prop; lia.
Qed.

(** The store is the replay of the entries applied so far. *)
Definition kv_synced n : Prop :=
  -1 <= LastApplied n < len (Log n) /\
  KVStore n = replay (take (Z.to_nat (LastApplied n + 1)) (Log n)).

Lemma foldl_drop_take_replay l i j :
  (i <= j)%nat -> foldl applyEntry (replay (take i l)) (drop i (take j l)) = replay (take j l).
Proof.
  intros Hij. unfold replay. rewrite <- foldl_app. f_equal.
  rewrite <- (take_drop i (take j l)) at 2. rewrite take_take. by rewrite Nat.min_l.
Qed.

Lemma applyCommittedEntries_synced n n' :
  kv_synced n -> applyCommittedEntries n = Some n' -> kv_synced n'.
Proof.
  intros [Hla Hkv] Hap.
  destruct (applyCommittedEntries_spec n ltac:(lia)) as (n1 & Hn1 & Hf & Hl & Hk). simplify_eq.
  unfold kv_synced. destruct Hf as (_&_&_&_&_&->&_). unfold applyTarget in *. split; [lia|].
  rewrite Hk, Hkv, Hl.
  destruct (decide (LastApplied n <= Z.min (CommitIndex n) (len (Log n) - 1))).
  - rewrite foldl_drop_take_replay by lia. do 2 f_equal. lia.
  - rewrite drop_ge by len_lia. simpl. do 2 f_equal. lia.
Qed.

(** C17: The apply step brings the store to the replay of the log up to the smaller of
    the commit index and the last index, without a panic, and applying again changes
    nothing. *)
Theorem applyCommittedEntries_correct n :
  kv_synced n ->
  exists n', applyCommittedEntries n = Some n' /\
    LastApplied n' = Z.max (LastApplied n) (Z.min (CommitIndex n) (len (Log n) - 1)) /\
    KVStore n' = replay (take (Z.to_nat (LastApplied n' + 1)) (Log n)) /\
    applyCommittedEntries n' = Some n'.
Proof.
  intros Hs. destruct (applyCommittedEntries_spec n) as (n' & Hn' & Hf & Hl & _);
    [destruct Hs; lia|].
  exists n'. split; [done|]. split; [done|].
  pose proof (applyCommittedEntries_synced _ _ Hs Hn') as [_ Hkv].
  destruct Hf as (_&_&_&_&_&Hlog&Hci&_). rewrite Hlog in Hkv. split; [done|].
  apply applyFor_done. rewrite Hci, Hlog, Hl. unfold applyTarget. lia.
Qed.

End apply_lemmas.

Lemma applyCommittedEntries_correct_witness :
  exists n', applyCommittedEntries (set_CommitIndex 1 sampleNode) = Some n' /\
    LastApplied n' = 1 /\ GetState n' "y" = ("2", true).
Proof.
  destruct (applyCommittedEntries_correct (set_CommitIndex 1 sampleNode)) as (n' & E & Hl & Hk & _).
  { vm_compute. split; [split; [discriminate|reflexivity]|reflexivity]. }
  exists n'. split; [exact E|]. split; [rewrite Hl; reflexivity|].
  unfold GetState. rewrite Hk, Hl. vm_compute. reflexivity.
Defined.
