(* ===== verification/Server.v ===== *)
(** * The client protocol ([internal/client/server.go])

    A connection is a stream of lines.  [scanLines] is [bufio.Scanner] with
    its line splitter and its limit on the length of a line; [TrimSpace],
    [SplitN] and [ToUpper] are the functions of package [strings] the server
    uses, on bytes; [handleLine] is the body of the loop of [handleClient].
    Go's map iteration order is arbitrary: KEYS takes the pairs in any order
    as an argument.  A command reads the node through accessors that take the
    lock one by one, so it may see a different node each time: [seen i] is the
    node at the [i]-th access. *)

From Stdlib Require Import Strings.Ascii DecimalString.
From stdpp Require Import base gmap strings list fin_maps.
From S2P Require Import Prelude Types Kv Wal State Recovery Election Replication Apply.

(** ** Strings as lists of bytes *)

Abbreviation bytes := (list ascii).
Abbreviation to_bytes := String.list_ascii_of_string.
Abbreviation of_bytes := String.string_of_list_ascii.

Definition nl : ascii := ascii_of_nat 10.
Definition cr : ascii := ascii_of_nat 13.
Definition sp : ascii := ascii_of_nat 32.

(** The UTF-8 encodings of the characters [unicode.IsSpace] accepts. *)
Definition spaces : list bytes :=
  map (map ascii_of_nat)
    ([[9]; [10]; [11]; [12]; [13]; [32]; [194; 133]; [194; 160]; [225; 154; 128];
      [226; 128; 168]; [226; 128; 169]; [226; 128; 175]; [226; 129; 159]; [227; 128; 128]] ++
     map (fun x => [226; 128; x]) (seq 128 11))%nat.

(** Drops any of [seqs] from the front as often as possible. *)
Fixpoint trimFront (fuel : nat) (seqs : list bytes) (s : bytes) : bytes :=
  match fuel with
  | O => s
  | S fuel =>
      match filter (fun q => q `prefix_of` s) seqs with
      | q :: _ => trimFront fuel seqs (drop (length q) s)
      | [] => s
      end
  end.

(** Every sequence is at least one byte long, so the length of the string is
    fuel enough. *)
Definition trimLeft (s : bytes) : bytes := trimFront (length s) spaces s.
Definition trimRight (s : bytes) : bytes :=
  reverse (trimFront (length s) (map reverse spaces) (reverse s)).
Definition TrimSpace (s : bytes) : bytes := trimRight (trimLeft s).

(** The bytes before the first [c] and after it. *)
Fixpoint cut (c : ascii) (s : bytes) : bytes * option bytes :=
  match s with
  | [] => ([], None)
  | x :: s => if bool_decide (x = c) then ([], Some s)
              else let '(a, b) := cut c s in (x :: a, b)
  end.

(** [strings.SplitN(line, " ", 3)] *)
Definition SplitN3 (s : bytes) : list bytes :=
  match cut sp s with
  | (a, None) => [a]
  | (a, Some rest) =>
      match cut sp rest with
      | (b, None) => [a; b]
      | (b, Some rest) => [a; b; rest]
      end
  end.

(** [strings.ToUpper], as far as a comparison with ASCII words can tell: the
    characters whose upper case is an ASCII letter are the ASCII letters, the
    dotless i (C4 B1) and the long s (C5 BF). *)
Definition upperByte (c : ascii) : ascii :=
  let k := nat_of_ascii c in
  if ((97 <=? k) && (k <=? 122))%nat then ascii_of_nat (k - 32) else c.

Fixpoint ToUpper (s : bytes) : bytes :=
  match s with
  | [] => []
  | c :: s' =>
      match s' with
      | d :: s'' =>
          if bool_decide (c = ascii_of_nat 196 /\ d = ascii_of_nat 177) then "I"%char :: ToUpper s''
          else if bool_decide (c = ascii_of_nat 197 /\ d = ascii_of_nat 191) then "S"%char :: ToUpper s''
          else upperByte c :: ToUpper s'
      | [] => [upperByte c]
      end
  end.

(** [bufio.ScanLines]: a trailing carriage return is not part of the line. *)
Definition dropCR (s : bytes) : bytes :=
  match last s with Some c => if bool_decide (c = cr) then take (length s - 1) s else s | None => s end.

(** [bufio.MaxScanTokenSize] *)
Definition maxTokenSize : Z := 64 * 1024.

(** The tokens of [scanner.Scan] on everything the client sends.  A line that
    does not fit the buffer ends the loop. *)
Fixpoint scanLines (fuel : nat) (input : bytes) : list bytes :=
  match fuel with
  | O => []
  | S fuel =>
      match input with
      | [] => []
      | _ =>
          match cut nl input with
          | (line, Some rest) =>
              if len line <? maxTokenSize then dropCR line :: scanLines fuel rest else []
          | (line, None) => if len line <? maxTokenSize then [dropCR line] else []
          end
      end
  end.

(** [%d] *)
Definition decimal (z : Z) : string := NilZero.string_of_int (Z.to_int z).

Definition newline : string := String nl EmptyString.

(** ** Commands *)

Inductive outcome :=
| Reply (resp : string)
| Propose (op : OpType) (key value : string).

(** The response once the node has answered on [req.ResCh]. *)
Definition submitResponse (r : reply) : string :=
  match r with
  | Some err => "ERR " ++ clientError_String err ++ newline
  | None => "OK COMMITTED" ++ newline
  end.

(** [strings.Join(items, " | ")] *)
Definition joinBar (items : list string) : string := String.concat " | " items.

(** [fmt.Sprintf("%s=%s", k, v)] *)
Definition keyItem (kv : string * string) : string := (fst kv ++ "=" ++ snd kv)%string.

(** [fmt.Sprintf("[%d]T%d:%s:%s=%s", ...)] *)
Definition logItem (e : LogEntry) : string :=
  ("[" ++ decimal (LogEntry.Index e) ++ "]T" ++ decimal (LogEntry.Term e) ++ ":" ++
   LogEntry.Operation e ++ ":" ++ LogEntry.Key e ++ "=" ++ LogEntry.Value e)%string.

Section server.
Context {W : Type}.
Implicit Types seen : nat -> Node W.

Definition statusLine seen : string :=
  ("NODE " ++ ID (seen 0%nat) ++ " ROLE " ++ GetRole (seen 0%nat) ++
   " TERM " ++ decimal (GetTerm (seen 1%nat)) ++ " COMMIT " ++ decimal (GetCommit (seen 2%nat)) ++
   " APPLIED " ++ decimal (GetLastApplied (seen 3%nat)) ++
   " LOGLEN " ++ decimal (len (GetLogEntries (seen 4%nat))) ++ newline)%string.

(** The switch on the command word; [pairs] is the content of the store in
    the order the iteration gives. *)
Definition handleCommand seen (pairs : list (string * string)) (cmd : string) (parts : list bytes) : outcome :=
  if bool_decide (cmd = "PING") then Reply ("PONG" ++ newline)
  else if bool_decide (cmd = "SET") then
    match parts with
    | _ :: k :: v :: _ => Propose OpSet (of_bytes k) (of_bytes v)
    | _ => Reply ("ERR INVALID_ARGS" ++ newline)
    end
  else if bool_decide (cmd = "DELETE" \/ cmd = "DEL") then
    match parts with
    | _ :: k :: _ => Propose OpDelete (of_bytes k) ""
    | _ => Reply ("ERR INVALID_ARGS" ++ newline)
    end
  else if bool_decide (cmd = "GET") then
    match parts with
    | _ :: k :: _ =>
        let '(val, ok) := GetState (seen 0%nat) (of_bytes k) in
        Reply (if ok : bool then "VALUE " ++ val ++ newline else "ERR NOT_FOUND" ++ newline)%string
    | _ => Reply ("ERR INVALID_ARGS" ++ newline)
    end
  else if bool_decide (cmd = "STATUS") then Reply (statusLine seen)
  else if bool_decide (cmd = "LEADER") then
    Reply ("ROLE " ++ GetRole (seen 0%nat) ++ " TERM " ++ decimal (GetTerm (seen 1%nat)) ++ newline)%string
  else if bool_decide (cmd = "KEYS") then
    match pairs with
    | [] => Reply ("KEYS (empty)" ++ newline)
    | _ => Reply ("KEYS " ++ joinBar (map keyItem pairs) ++ newline)%string
    end
  else if bool_decide (cmd = "LOGS") then
    match GetLogEntries (seen 0%nat) with
    | [] => Reply ("LOGS (empty)" ++ newline)
    | entries => Reply ("LOGS " ++ joinBar (map logItem entries) ++ newline)%string
    end
  else Reply ("ERR UNKNOWN_CMD" ++ newline).

(** One line; [None] for a blank one. *)
Definition handleLine seen (pairs : list (string * string)) (text : bytes) : option outcome :=
  match TrimSpace text with
  | [] => None
  | line =>
      let parts := SplitN3 line in
      Some (handleCommand seen pairs (of_bytes (ToUpper (default [] (head parts)))) parts)
  end.

(** The response written for a line, given the node's answer to a proposal. *)
Definition respond seen (pairs : list (string * string)) (answer : reply) (text : bytes) : option string :=
  match handleLine seen pairs text with
  | None => None
  | Some (Reply resp) => Some resp
  | Some (Propose _ _ _) => Some (submitResponse answer)
  end.

(** The loop of [handleClient] from line [i] on: what it writes until a write
    fails.  The node, the order of its keys and its answer may be others for
    every line. *)
Fixpoint answerLines (seen : nat -> nat -> Node W) (pairs : nat -> list (string * string)) (answer : nat -> reply)
    (written : nat -> bool) (i : nat) (texts : list bytes) : list string :=
  match texts with
  | [] => []
  | text :: texts =>
      match respond (seen i) (pairs i) (answer i) text with
      | None => answerLines seen pairs answer written (S i) texts
      | Some resp => if written i then resp :: answerLines seen pairs answer written (S i) texts else []
      end
  end.

Definition handleClient (seen : nat -> nat -> Node W) pairs answer written (input : bytes) : list string :=
  answerLines seen pairs answer written 0 (scanLines (S (length input)) input).

End server.

Example handle_examples :
  (handleLine (fun _ => sampleNode) [] (to_bytes " set greeting hello  world "),
   handleLine (fun _ => sampleNode) [] (to_bytes "Get x"), handleLine (fun _ => sampleNode) [] (to_bytes "DEL"),
   handleLine (fun _ => sampleNode) [] (to_bytes "   "), handleLine (fun _ => sampleNode) [] (to_bytes "STATUS"))
  = (Some (Propose OpSet "greeting" "hello  world"), Some (Reply ("VALUE 1" ++ newline)),
     Some (Reply ("ERR INVALID_ARGS" ++ newline)), None,
     Some (Reply ("NODE n1 ROLE FOLLOWER TERM 1 COMMIT 0 APPLIED 0 LOGLEN 2" ++ newline))).
Proof. vm_compute. reflexivity. Qed.

(** ** Lemmas on strings *)

Lemma to_bytes_app (a b : string) : to_bytes (a ++ b)%string = to_bytes a ++ to_bytes b.
Proof. induction a as [|c a IH]; simpl; [done|]. by rewrite IH. Qed.

Lemma string_app_assoc (a b c : string) : (a ++ (b ++ c) = (a ++ b) ++ c)%string.
Proof. induction a as [|x a IH]; [done|]. change (String x (a ++ (b ++ c)) = String x ((a ++ b) ++ c))%string. by f_equal. Qed.

Lemma of_to_bytes (a : string) : of_bytes (to_bytes a) = a.
Proof. apply String.string_of_list_ascii_of_string. Qed.

Lemma to_of_bytes (s : bytes) : to_bytes (of_bytes s) = s.
Proof. apply String.list_ascii_of_string_of_list_ascii. Qed.

Lemma cut_found c a b : c ∉ a -> cut c (a ++ c :: b) = (a, Some b).
Proof.
  induction a as [|x a IH]; simpl; intros Hn; [by rewrite bool_decide_eq_true_2|].
  apply not_elem_of_cons in Hn as [Hne Hn]. rewrite bool_decide_eq_false_2 by done. by rewrite IH.
Qed.

Lemma cut_absent c a : c ∉ a -> cut c a = (a, None).
Proof.
  induction a as [|x a IH]; simpl; intros Hn; [done|].
  apply not_elem_of_cons in Hn as [Hne Hn]. rewrite bool_decide_eq_false_2 by done. by rewrite IH.
Qed.

Lemma filter_none {A} (P : A -> Prop) `{forall x, Decision (P x)} (l : list A) :
  Forall (fun x => ~ P x) l -> filter P l = [].
Proof. induction 1 as [|q qs Hq _ IH]; [done|]. by rewrite filter_cons_False. Qed.

(** Nothing to drop. *)
Lemma trimFront_none fuel seqs s : Forall (fun q => ~ q `prefix_of` s) seqs -> trimFront fuel seqs s = s.
Proof.
  intros Hf. destruct fuel; simpl; [done|].
  by rewrite filter_none.
Qed.

(** A multi-byte space contains no space character. *)
Lemma spaces_spec q : q ∈ spaces -> (0 < length q)%nat /\ (sp ∈ q -> length q = 1%nat).
Proof.
  revert q. apply Forall_forall, (bool_decide_unpack _). vm_compute. exact I.
Qed.

(** A prefix of [r ++ sp :: s] that is a space is one of [r]. *)
Lemma space_prefix q r s :
  (0 < length q)%nat -> (sp ∈ q -> length q = 1%nat) -> r <> [] -> q `prefix_of` r ++ sp :: s -> q `prefix_of` r.
Proof.
  intros Hq Hsp Hr Hp.
  destruct (decide (length q <= length r)%nat) as [Hle|Hgt].
  - destruct Hp as [x Hx]. exists (drop (length q) r).
    assert (q = take (length q) r) as Hq'.
    { rewrite <- (take_app_length q x) at 1. rewrite <- Hx. by rewrite take_app_le. }
    rewrite Hq' at 1. symmetry. apply take_drop.
  - exfalso. destruct Hp as [x Hx].
    assert (q !! length r = Some sp) as Hl.
    { rewrite <- (lookup_app_l q x) by lia. rewrite <- Hx. by rewrite list_lookup_middle. }
    apply list_elem_of_lookup_2 in Hl. apply Hsp in Hl.
    destruct r; [done|]. simpl in Hgt. lia.
Qed.

(** No space at the end. *)
Definition endsClean (s : string) : Prop := Forall (fun q => ~ q `suffix_of` to_bytes s) spaces.

(** A command line without space around it is left alone. *)
Lemma TrimSpace_clean c a v :
  Forall (fun q => head q <> Some c) spaces -> v <> "" -> endsClean v ->
  TrimSpace (c :: a ++ sp :: to_bytes v) = c :: a ++ sp :: to_bytes v.
Proof.
  intros Hc Hv Hend. unfold TrimSpace, trimLeft, trimRight.
  rewrite (trimFront_none _ spaces).
  2: { apply Forall_forall. intros q Hq [x Hx]. rewrite Forall_forall in Hc.
       destruct (spaces_spec q Hq) as [Hl _]. destruct q as [|y q]; [simpl in Hl; lia|].
       injection Hx as Hy _. by apply (Hc _ Hq); subst. }
  assert (to_bytes v <> []) as Hvn by by destruct v.
  rewrite trimFront_none; [by rewrite reverse_involutive|].
  apply Forall_forall. intros q Hq Hp. apply list_elem_of_fmap in Hq as (q0 & -> & Hq0).
  destruct (spaces_spec q0 Hq0) as [Hl Hsp].
  rewrite reverse_cons, reverse_app, reverse_cons in Hp. rewrite <- !app_assoc in Hp. simpl in Hp.
  apply space_prefix in Hp; rewrite ?length_reverse; try done.
  - apply (proj1 (Forall_forall _ _) Hend q0 Hq0).
    apply prefix_suffix_reverse in Hp. by rewrite !reverse_involutive in Hp.
  - by rewrite elem_of_reverse.
  - intros Hn. apply Hvn. by rewrite <- (reverse_involutive (to_bytes v)), Hn.
Qed.

Lemma SplitN3_two a b : sp ∉ a -> sp ∉ b -> SplitN3 (a ++ sp :: b) = [a; b].
Proof. intros Ha Hb. unfold SplitN3. by rewrite cut_found, cut_absent. Qed.

Lemma SplitN3_three a b c : sp ∉ a -> sp ∉ b -> SplitN3 (a ++ sp :: b ++ sp :: c) = [a; b; c].
Proof. intros Ha Hb. unfold SplitN3. by rewrite !cut_found. Qed.

Section parsing.
Context {W : Type} (seen : nat -> Node W) (pairs : list (string * string)).

Lemma handleLine_parts text l :
  TrimSpace text = l -> l <> [] ->
  handleLine seen pairs text =
  Some (handleCommand seen pairs (of_bytes (ToUpper (default [] (head (SplitN3 l))))) (SplitN3 l)).
Proof. intros Ht Hl. unfold handleLine. rewrite Ht. by destruct l. Qed.

Lemma word_no_space (w : bytes) : bool_decide (sp ∉ w) = true -> sp ∉ w.
Proof. apply bool_decide_eq_true. Qed.

(** A SET line is parsed as it was written, spaces inside the value
    included. *)
Lemma set_command_parsed k v :
  sp ∉ to_bytes k -> v <> "" -> endsClean v ->
  handleLine seen pairs (to_bytes ("SET " ++ k ++ " " ++ v)) = Some (Propose OpSet k v).
Proof.
  intros Hk Hv Hend. set (line := to_bytes "SET" ++ sp :: to_bytes k ++ sp :: to_bytes v).
  assert (to_bytes ("SET " ++ k ++ " " ++ v) = line) as -> by (unfold line; by rewrite !to_bytes_app).
  rewrite (handleLine_parts line line); [|apply (TrimSpace_clean "S"%char (to_bytes "ET" ++ sp :: to_bytes k) v)|done].
  - unfold line. rewrite SplitN3_three; [|by apply word_no_space; vm_compute|done].
    unfold handleCommand. simpl. by rewrite !of_to_bytes.
  - by apply (bool_decide_unpack _); vm_compute.
  - done.
  - done.
Qed.

(** A GET line is answered from the node's store. *)
Lemma get_command_answered k :
  k <> "" -> sp ∉ to_bytes k -> endsClean k ->
  handleLine seen pairs (to_bytes ("GET " ++ k)) =
  Some (Reply (match Store.data (KVStore (seen 0%nat)) !! k with
               | Some v => "VALUE " ++ v ++ newline
               | None => "ERR NOT_FOUND" ++ newline
               end)%string).
Proof.
  intros Hk Hsp Hend. set (line := to_bytes "GET" ++ sp :: to_bytes k).
  assert (to_bytes ("GET " ++ k) = line) as -> by (unfold line; by rewrite !to_bytes_app).
  rewrite (handleLine_parts line line); [|apply (TrimSpace_clean "G"%char (to_bytes "ET") k)|done].
  - unfold line. rewrite SplitN3_two; [|by apply word_no_space; vm_compute|done].
    unfold handleCommand. simpl. rewrite of_to_bytes. unfold GetState, Get. by destruct (Store.data _ !! k).
  - by apply (bool_decide_unpack _); vm_compute.
  - done.
  - done.
Qed.

(** A DEL line proposes the removal of its key. *)
Lemma del_command_parsed k :
  k <> "" -> sp ∉ to_bytes k -> endsClean k ->
  handleLine seen pairs (to_bytes ("DEL " ++ k)) = Some (Propose OpDelete k "").
Proof.
  intros Hk Hsp Hend. set (line := to_bytes "DEL" ++ sp :: to_bytes k).
  assert (to_bytes ("DEL " ++ k) = line) as -> by (unfold line; by rewrite !to_bytes_app).
  rewrite (handleLine_parts line line); [|apply (TrimSpace_clean "D"%char (to_bytes "EL") k)|done]; try done.
  - unfold line. rewrite SplitN3_two; [|by apply word_no_space; vm_compute|done].
    unfold handleCommand. simpl. by rewrite of_to_bytes.
  - by apply (bool_decide_unpack _); vm_compute.
Qed.
End parsing.

(** ** Lines *)

Definition nlFree (s : string) : Prop := nl ∉ to_bytes s.

(** One line, as the clients read responses. *)
Definition oneLine (s : string) : Prop := exists t, s = (t ++ newline)%string /\ nlFree t.

Lemma nlFree_app a b : nlFree (a ++ b)%string <-> nlFree a /\ nlFree b.
Proof. unfold nlFree. rewrite to_bytes_app, not_elem_of_app. done. Qed.

Lemma nlFree_word a : bool_decide (nl ∉ to_bytes a) = true -> nlFree a.
Proof. apply bool_decide_eq_true. Qed.

Lemma nlFree_uint d : nlFree (NilEmpty.string_of_uint d).
Proof.
  unfold nlFree. induction d as [|d IH|d IH|d IH|d IH|d IH|d IH|d IH|d IH|d IH|d IH]; simpl;
    [apply not_elem_of_nil|..]; apply not_elem_of_cons; split; try done; discriminate.
Qed.

Lemma nlFree_decimal z : nlFree (decimal z).
Proof.
  unfold decimal. destruct (Z.to_int z) as [d|d]; simpl; unfold NilZero.string_of_uint.
  - destruct d; try apply nlFree_uint. by apply nlFree_word.
  - change (String "-" ?x) with ("-" ++ x)%string. apply nlFree_app. split; [by apply nlFree_word|].
    destruct d; try apply nlFree_uint. by apply nlFree_word.
Qed.

Lemma nlFree_join items : Forall nlFree items -> nlFree (joinBar items).
Proof.
  unfold joinBar. induction 1 as [|a items Ha Hi IH]; [by apply nlFree_word|].
  destruct items as [|b items]; [done|].
  change (String.concat " | " (a :: b :: items)) with (a ++ " | " ++ String.concat " | " (b :: items))%string.
  apply nlFree_app. split; [done|]. apply nlFree_app. split; [by apply nlFree_word|done].
Qed.

Lemma nlFree_role (s : NodeState) : nlFree (NodeState_String s).
Proof. by destruct s; apply nlFree_word. Qed.

Lemma nlFree_error e : nlFree (clientError_String e).
Proof. by destruct e; apply nlFree_word. Qed.

Create HintDb lines.
#[export] Hint Resolve nlFree_decimal nlFree_join nlFree_role nlFree_error : lines.
#[export] Hint Extern 1 (nlFree (String _ _)) => apply nlFree_word; vm_compute; reflexivity : lines.

(** Splits a response into its pieces. *)
Ltac one_line :=
  lazymatch goal with
  | |- oneLine (_ ++ newline)%string => eexists; split; [reflexivity|]; one_line
  | |- oneLine (?a ++ ?b)%string =>
      let H := fresh in
      assert (oneLine b) as H by one_line; destruct H as (? & -> & ?); rewrite string_app_assoc;
      eexists; split; [reflexivity|]; apply nlFree_app; split; [one_line|assumption]
  | |- nlFree (_ ++ _)%string => apply nlFree_app; split; one_line
  | |- _ => eauto with lines
  end.

Lemma submitResponse_line r : oneLine (submitResponse r).
Proof. unfold submitResponse. destruct r; one_line. Qed.

Lemma nlFree_logItem e :
  nlFree (LogEntry.Operation e) -> nlFree (LogEntry.Key e) -> nlFree (LogEntry.Value e) -> nlFree (logItem e).
Proof. intros. unfold logItem. one_line. Qed.

Lemma nlFree_keyItem kv : nlFree (fst kv) -> nlFree (snd kv) -> nlFree (keyItem kv).
Proof. intros. unfold keyItem. one_line. Qed.

Section responses.
Context {W : Type} (seen : nat -> Node W) (pairs : list (string * string)).
Context (Hid : forall i, nlFree (ID (seen i))).
Context (Hkv : forall i k v, Store.data (KVStore (seen i)) !! k = Some v -> nlFree v).
Context (Hpairs : Forall (fun kv => nlFree (fst kv) /\ nlFree (snd kv)) pairs).
Context (Hlog : forall i, Forall (fun e => nlFree (LogEntry.Operation e) /\ nlFree (LogEntry.Key e) /\
  nlFree (LogEntry.Value e)) (Log (seen i))).

Lemma keys_line : nlFree (joinBar (map keyItem pairs)).
Proof.
  apply nlFree_join, Forall_fmap. eapply Forall_impl; [exact Hpairs|].
  intros kv [? ?]. by apply nlFree_keyItem.
Qed.

Lemma logs_line i : nlFree (joinBar (map logItem (Log (seen i)))).
Proof.
  apply nlFree_join, Forall_fmap. eapply Forall_impl; [exact (Hlog i)|].
  intros e (? & ? & ?). by apply nlFree_logItem.
Qed.

(** C27: Every command is answered with exactly one line: if the node's name and the
    stored keys and values contain no newline, each response ends in a newline and has
    no other. *)
Theorem response_one_line answer text resp :
  respond seen pairs answer text = Some resp -> oneLine resp.
Proof.
  unfold respond, handleLine. destruct (TrimSpace text) as [|c l]; [done|].
  generalize (of_bytes (ToUpper (default [] (head (SplitN3 (c :: l)))))), (SplitN3 (c :: l)).
  intros cmd parts. unfold handleCommand.
  repeat (case_bool_decide; [|]).
  - intros [= <-]. one_line.
  - destruct parts as [|? [|? [|? ?]]]; intros [= <-]; try one_line; apply submitResponse_line.
  - destruct parts as [|? [|? ?]]; intros [= <-]; try one_line; apply submitResponse_line.
  - destruct parts as [|? [|k ?]]; [intros [= <-]; one_line..|]. unfold GetState, Get.
    destruct (Store.data _ !! of_bytes k) as [v|] eqn:Hv; intros [= <-]; [|one_line].
    apply Hkv in Hv. one_line.
  - intros [= <-]. unfold statusLine, GetRole. one_line.
  - intros [= <-]. unfold GetRole. one_line.
  - pose proof keys_line as Hk. destruct pairs; intros [= <-]; one_line.
  - pose proof (logs_line 0) as Hl. unfold GetLogEntries in *.
    destruct (Log (seen 0%nat)); intros [= <-]; one_line.
  - intros [= <-]. one_line.
Qed.
End responses.

(** ** Proposals *)

Lemma cut_spec c s a o :
  cut c s = (a, o) -> c ∉ a /\ a ⊆ s /\ (forall b, o = Some b -> b ⊆ s /\ (length b < length s)%nat).
Proof.
  revert a o. induction s as [|x s IH]; intros a o; simpl.
  { intros [= <- <-]. split; [apply not_elem_of_nil|]. done. }
  case_bool_decide as Hx.
  { intros [= <- <-]. split; [apply not_elem_of_nil|]. split; [apply list_subseteq_nil|].
    intros b [= <-]. split; [by apply list_subseteq_cons|lia]. }
  destruct (cut c s) as [a' o'] eqn:E. intros [= <- <-]. destruct (IH a' o' eq_refl) as (H1 & H2 & H3).
  split; [by apply not_elem_of_cons|]. split; [by apply list_subseteq_skip|].
  intros b Hb. destruct (H3 b Hb) as [? ?]. split; [by apply list_subseteq_cons|lia].
Qed.

Lemma drop_sub i (s : bytes) : drop i s ⊆ s.
Proof. intros x Hx. rewrite <- (take_drop i s). apply elem_of_app. by right. Qed.

Lemma take_sub i (s : bytes) : take i s ⊆ s.
Proof. intros x Hx. rewrite <- (take_drop i s). apply elem_of_app. by left. Qed.

Lemma trimFront_sub fuel seqs s : trimFront fuel seqs s ⊆ s.
Proof.
  revert s. induction fuel as [|fuel IH]; intros s; simpl; [done|].
  destruct (filter _ _) as [|q qs]; [done|]. etransitivity; [apply IH|]. apply drop_sub.
Qed.

Lemma TrimSpace_sub s : TrimSpace s ⊆ s.
Proof.
  unfold TrimSpace, trimRight. intros x Hx. rewrite elem_of_reverse in Hx.
  apply trimFront_sub in Hx. rewrite elem_of_reverse in Hx. by apply trimFront_sub in Hx.
Qed.

Lemma dropCR_sub s : dropCR s ⊆ s.
Proof.
  unfold dropCR. destruct (last s) as [c|]; [|done]. case_bool_decide; [|done]. apply take_sub.
Qed.

(** The arguments of a command are pieces of its line; keys have no space. *)
Lemma SplitN3_sub s i part : SplitN3 s !! i = Some part -> part ⊆ s /\ ((i < 2)%nat -> sp ∉ part).
Proof.
  unfold SplitN3. destruct (cut sp s) as [a [rest|]] eqn:E; destruct (cut_spec _ _ _ _ E) as (Ha & Has & Hb).
  2: { destruct i; [|done]. by intros [= <-]. }
  destruct (Hb rest eq_refl) as [Hrs _].
  destruct (cut sp rest) as [b [rest'|]] eqn:E2; destruct (cut_spec _ _ _ _ E2) as (Hb1 & Hb2 & Hb3).
  - destruct (Hb3 rest' eq_refl) as [Hr' _].
    destruct i as [|[|[|i]]]; try done; intros [= <-]; (split; [try done; etransitivity; eassumption|done || lia]).
  - destruct i as [|[|i]]; try done; intros [= <-]; (split; [try done; etransitivity; eassumption|done]).
Qed.

Lemma scanLines_nl fuel : forall input line, line ∈ scanLines fuel input -> nl ∉ line.
Proof.
  induction fuel as [|fuel IH]; intros input line; simpl; [by intros ?%not_elem_of_nil|].
  destruct input as [|x input]; [by intros ?%not_elem_of_nil|].
  destruct (cut nl (x :: input)) as [l [rest|]] eqn:E; destruct (cut_spec _ _ _ _ E) as (Hl & _ & _);
    destruct (_ <? _); try by intros ?%not_elem_of_nil.
  - intros [->|Hin]%elem_of_cons; [|by eapply IH]. intros Hn. by apply dropCR_sub in Hn.
  - intros ->%list_elem_of_singleton Hn. by apply dropCR_sub in Hn.
Qed.

(** C28: What the server proposes comes from one line of input: keys have no space, keys
    and values have no newline, and the operation is a SET or a DELETE without a value. *)
Theorem proposals_clean {W} (seen : nat -> Node W) pairs fuel input text op k v :
  text ∈ scanLines fuel input -> handleLine seen pairs text = Some (Propose op k v) ->
  (op = OpSet \/ op = OpDelete /\ v = "") /\ nlFree k /\ nlFree v /\ sp ∉ to_bytes k.
Proof.
  intros Hin%scanLines_nl Hh.
  assert (forall i part, SplitN3 (TrimSpace text) !! i = Some part -> nlFree (of_bytes part) /\
    ((i < 2)%nat -> sp ∉ to_bytes (of_bytes part))) as Hpart.
  { intros i part Hp. apply SplitN3_sub in Hp as [Hs Hk]. unfold nlFree. rewrite to_of_bytes.
    split; [|done]. intros Hn. by apply Hs, TrimSpace_sub in Hn. }
  assert (nlFree "") as Hempty by by apply nlFree_word.
  unfold handleLine in Hh. destruct (TrimSpace text) as [|c l]; [done|]. injection Hh as Hh. revert Hh.
  generalize (of_bytes (ToUpper (default [] (head (SplitN3 (c :: l)))))). intros cmd.
  destruct (SplitN3 (c :: l)) as [|p0 [|p1 ps]]; unfold handleCommand.
  1,2: repeat (case_bool_decide; [|]); try done; repeat case_match; done.
  destruct (Hpart 1%nat p1 eq_refl) as [Hk1 Hk2]. specialize (Hk2 ltac:(lia)).
  repeat (case_bool_decide; [|]); try done; try (repeat case_match; done).
  - destruct ps as [|p2 ps]; [done|]. intros [= <- <- <-]. destruct (Hpart 2%nat p2 eq_refl). auto.
  - intros [= <- <- <-]. auto.
Qed.

(** The length of the input is fuel enough for the scanner. *)
Lemma scanLines_fuel fuel : forall input,
  (length input <= fuel)%nat -> scanLines fuel input = scanLines (length input) input.
Proof.
  induction fuel as [fuel IH] using lt_wf_ind. intros input Hf.
  destruct input as [|x input]; [by destruct fuel|]. destruct fuel as [|fuel]; [simpl in Hf; lia|].
  change (length (x :: input)) with (S (length input)). cbn [scanLines].
  destruct (cut nl (x :: input)) as [l [rest|]] eqn:E; [|done].
  destruct (cut_spec _ _ _ _ E) as (_ & _ & Hr). destruct (Hr rest eq_refl) as [_ Hlen]. simpl in Hlen, Hf.
  destruct (_ <? _); [|done]. f_equal. rewrite (IH fuel) by lia. symmetry. apply IH; lia.
Qed.

(** ** Concrete lines *)

Definition seenSample : nat -> Node MemWal := fun _ => sampleNode.

Lemma set_command_parsed_witness :
  handleLine seenSample [] (to_bytes "SET greeting hello  world") = Some (Propose OpSet "greeting" "hello  world").
Proof.
  apply (set_command_parsed seenSample [] "greeting" "hello  world");
    [by apply word_no_space; vm_compute|done|by apply (bool_decide_unpack _); vm_compute].
Defined.

Lemma get_command_answered_witness :
  handleLine seenSample [] (to_bytes ("GET " ++ "y")) =
  Some (Reply (match Store.data (KVStore (seenSample 0%nat)) !! "y" with
               | Some v => "VALUE " ++ v ++ newline
               | None => "ERR NOT_FOUND" ++ newline
               end)%string).
Proof.
  apply (get_command_answered seenSample [] "y");
    [done|by apply word_no_space; vm_compute|by apply (bool_decide_unpack _); vm_compute].
Defined.

Lemma response_one_line_witness : oneLine ("VALUE 1" ++ newline).
Proof.
  apply (response_one_line seenSample [("x", "1")]) with (answer := None) (text := to_bytes "GET x").
  - intros i. by apply nlFree_word; vm_compute.
  - intros i k v Hv. assert (Store.data (KVStore (seenSample i)) = {["x" := "1"]}) as E by (vm_compute; reflexivity).
    rewrite E, lookup_singleton_Some in Hv. destruct Hv as [_ <-]. by apply nlFree_word; vm_compute.
  - repeat constructor; by apply nlFree_word; vm_compute.
  - intros i. repeat constructor; by apply nlFree_word; vm_compute.
  - vm_compute. reflexivity.
Defined.

Lemma proposals_clean_witness :
  (OpSet = OpSet \/ OpSet = OpDelete /\ "1" = "") /\ nlFree "x" /\ nlFree "1" /\ sp ∉ to_bytes "x".
Proof.
  apply (proposals_clean seenSample [] 20 (to_bytes ("SET x 1" ++ newline ++ "PING")) (to_bytes "SET x 1"));
    [|vm_compute; reflexivity].
  apply (list_elem_of_lookup_2 _ 0). vm_compute. reflexivity.
Defined.

