(* ===== verification/Text.v ===== *)
(** * Text processing of the command-line tools

    What [cmd/orrisd/main.go] and [cmd/orrisctl/main.go] use of the packages
    [strings], [strconv] and [path/filepath], on bytes, with the inversion lemmas of the
    parsers: splitting inverts joining, [Atoi] inverts [%d]. *)

From Stdlib Require Import Strings.Ascii DecimalString DecimalZ.
From stdpp Require Import base gmap strings list fin_maps.
From S2P Require Import Prelude Types Kv Wal State Recovery Election Replication Apply Server.

(** Closes a decidable goal without variables. *)
Ltac by_decision := apply (bool_decide_unpack _); vm_compute; exact I.

(** ** [strings] *)

Definition HasPrefix (s pre : bytes) : bool := bool_decide (pre `prefix_of` s).
Definition HasSuffix (s suf : bytes) : bool := bool_decide (suf `suffix_of` s).
Definition TrimPrefix (s pre : bytes) : bytes := if HasPrefix s pre then drop (length pre) s else s.

(** What is before the first occurrence of [sep] and after it. *)
Fixpoint cutStr (sep s : bytes) : bytes * option bytes :=
  if bool_decide (sep `prefix_of` s) then ([], Some (drop (length sep) s))
  else match s with
       | [] => ([], None)
       | x :: s => let '(a, b) := cutStr sep s in (x :: a, b)
       end.

(** [strings.Split(s, sep)] for a non-empty separator: every cut removes at
    least a byte. *)
Fixpoint splitFuel (fuel : nat) (sep s : bytes) : list bytes :=
  match fuel, cutStr sep s with
  | S fuel, (a, Some rest) => a :: splitFuel fuel sep rest
  | _, _ => [s]
  end.

Definition Split (s sep : bytes) : list bytes := splitFuel (length s) sep s.

(** [strings.SplitN(s, sep, 2)] *)
Definition SplitN2 (s : bytes) (sep : ascii) : list bytes :=
  match cut sep s with (a, Some b) => [a; b] | (a, None) => [a] end.

Definition Contains (s sub : bytes) : bool :=
  match cutStr sub s with (_, Some _) => true | (_, None) => false end.

(** [strings.Fields]: the maximal runs of non-space characters.  [spaceLen] is
    the length of the space the string starts with, 0 if none. *)
Definition spaceLen (s : bytes) : nat :=
  match filter (fun q => q `prefix_of` s) spaces with q :: _ => length q | [] => 0%nat end.

Fixpoint fieldsFuel (fuel : nat) (cur s : bytes) : list bytes :=
  match fuel, s with
  | S fuel, x :: s' =>
      match spaceLen s with
      | O => fieldsFuel fuel (cur ++ [x]) s'
      | k => (if cur is [] then [] else [cur]) ++ fieldsFuel fuel [] (drop k s)
      end
  | _, _ => if cur is [] then [] else [cur]
  end.

Definition Fields (s : bytes) : list bytes := fieldsFuel (length s) [] s.

(** [strings.ToLower], as far as a comparison with ASCII words can tell: the
    characters whose lower case is an ASCII letter are the ASCII letters, the
    capital I with a dot (C4 B0) and the Kelvin sign (E2 84 AA). *)
Definition lowerByte (c : ascii) : ascii :=
  let k := nat_of_ascii c in
  if ((65 <=? k) && (k <=? 90))%nat then ascii_of_nat (k + 32) else c.

Fixpoint ToLower (s : bytes) : bytes :=
  match s with
  | [] => []
  | c :: s1 =>
      match s1 with
      | d :: s2 =>
          if bool_decide (c = ascii_of_nat 196 /\ d = ascii_of_nat 176) then "i"%char :: ToLower s2
          else match s2 with
               | e :: s3 =>
                   if bool_decide (c = ascii_of_nat 226 /\ d = ascii_of_nat 132 /\ e = ascii_of_nat 170)
                   then "k"%char :: ToLower s3 else lowerByte c :: ToLower s1
               | [] => lowerByte c :: ToLower s1
               end
      | [] => [lowerByte c]
      end
  end.

(** ** [path/filepath], with the separator of Unix *)

(** One element of [Clean]; the stack holds the elements so far, last first. *)
Definition cleanStep (rooted : bool) (stack : list bytes) (elem : bytes) : list bytes :=
  if bool_decide (elem = [] \/ elem = ["."%char]) then stack
  else if bool_decide (elem = [".";"."]%char) then
    match stack with
    | top :: rest => if bool_decide (top = [".";"."]%char) then elem :: stack else rest
    | [] => if rooted then [] else [elem]
    end
  else elem :: stack.

Definition Clean (path : string) : string :=
  let rooted := HasPrefix (to_bytes path) ["/"%char] in
  let elems := reverse (foldl (cleanStep rooted) [] (Split (to_bytes path) ["/"%char])) in
  let out := String.concat "/" (map of_bytes elems) in
  if rooted then ("/" ++ out)%string else if bool_decide (elems = []) then "." else out.

(** Leading empty elements are left out. *)
Fixpoint Join (elems : list string) : string :=
  match elems with
  | [] => ""
  | e :: rest => if bool_decide (e = "") then Join rest else Clean (String.concat "/" elems)
  end.

(** ** [strconv.Atoi]

    The value and whether there was no error: 0 for a syntax error, the
    nearest integer when out of range.  [ParseUint] stops at the first digit
    that makes the number exceed 64 bits, without looking at the rest. *)

Definition maxUint64 : Z := 2 ^ 64 - 1.

Definition isDigit (c : ascii) : bool := ((48 <=? nat_of_ascii c) && (nat_of_ascii c <=? 57))%nat.
Definition digitVal (c : ascii) : Z := Z.of_nat (nat_of_ascii c) - 48.

Fixpoint uintLoop (n : Z) (s : bytes) : option (Z * bool) :=
  match s with
  | [] => Some (n, true)
  | c :: s =>
      if isDigit c then
        let n1 := 10 * n + digitVal c in
        if maxUint64 <? n1 then Some (maxUint64, false) else uintLoop n1 s
      else None
  end.

Definition ParseUint (s : bytes) : option (Z * bool) :=
  match s with [] => None | _ => uintLoop 0 s end.

Definition Atoi (s : bytes) : Z * bool :=
  let '(neg, body) :=
    match s with
    | c :: r => if bool_decide (c = "-"%char) then (true, r)
                else if bool_decide (c = "+"%char) then (false, r) else (false, s)
    | [] => (false, s)
    end in
  match ParseUint body with
  | None => (0, false)
  | Some (un, ok) =>
      if negb neg && (maxInt <? un) then (maxInt, false)
      else if neg && (- minInt <? un) then (minInt, false)
      else (if neg : bool then - un else un, ok)
  end.

Example text_examples :
  (map of_bytes (Fields (to_bytes " a  bc d ")), map of_bytes (Split (to_bytes "a,b,,c") (to_bytes ",")),
   map Join [["data"; "node1"; "wal.log"]; ["./data/node1"; "wal.log"]; [""; "a"; "../.."; "b"]; ["/../x/."]; ["a"; ".."]],
   of_bytes (ToLower (to_bytes "KILL-Node")), Split [] (to_bytes ","), Contains (to_bytes "ERR NOT_LEADER") (to_bytes "NOT_LEADER"),
   map (fun s => Atoi (to_bytes s))
     ["-17"; "+5"; "12a"; ""; "-"; "9223372036854775808"; "-9223372036854775808"; "99999999999999999999x"])
  = (["a"; "bc"; "d"], ["a"; "b"; ""; "c"],
     ["data/node1/wal.log"; "data/node1/wal.log"; "../b"; "/x"; "."], "kill-node", [[]], true,
     [(-17, true); (5, true); (0, false); (0, false); (0, false); (maxInt, false); (minInt, true);
      (maxInt, false)]).
Proof. vm_compute. reflexivity. Qed.

(** ** Fuel *)

Lemma cutStr_length sep s a rest : cutStr sep s = (a, Some rest) -> (length rest + length sep <= length s)%nat.
Proof.
  revert a. induction s as [|x s IH]; intros a; cbn [cutStr]; case_bool_decide as Hp;
    try (intros [= <- <-]; apply prefix_length in Hp; rewrite length_drop; lia).
  destruct (cutStr sep s) as [b [r|]]; [|done]. intros [= <- <-]. specialize (IH b eq_refl). simpl. lia.
Qed.

(** More fuel than the length of the string makes no difference. *)
Lemma splitFuel_enough sep f s :
  sep <> [] -> (length s <= f)%nat -> splitFuel f sep s = Split s sep.
Proof.
  intros Hsep. unfold Split. enough (forall g, (length s <= f)%nat -> (length s <= g)%nat ->
    splitFuel f sep s = splitFuel g sep s) by eauto.
  revert s. induction f as [|f IH]; intros s g Hf Hg.
  - destruct s; [|simpl in Hf; lia]. destruct g; [done|]. simpl.
    rewrite bool_decide_eq_false_2; [done|]. by intros ?%prefix_nil_inv.
  - destruct g as [|g].
    + destruct s; [|simpl in Hg; lia]. simpl. rewrite bool_decide_eq_false_2; [done|]. by intros ?%prefix_nil_inv.
    + cbn [splitFuel]. destruct (cutStr sep s) as [a [rest|]] eqn:E; [|done].
      apply cutStr_length in E. assert (0 < length sep)%nat by (destruct sep; [done|simpl; lia]).
      f_equal. apply IH; lia.
Qed.

Lemma fieldsFuel_enough f cur s :
  (length s <= f)%nat -> fieldsFuel f cur s = fieldsFuel (length s) cur s.
Proof.
  enough (forall g, (length s <= f)%nat -> (length s <= g)%nat -> fieldsFuel f cur s = fieldsFuel g cur s) by eauto.
  revert cur s. induction f as [|f IH]; intros cur s g Hf Hg.
  - destruct s; [|simpl in Hf; lia]. by destruct g.
  - destruct s as [|x s]; [by destruct g|]. destruct g as [|g]; [simpl in Hg; lia|].
    cbn [length] in *. cbn [fieldsFuel]. destruct (spaceLen (x :: s)) as [|k]; [apply IH; lia|].
    f_equal. apply IH; cbn [drop]; rewrite length_drop; lia.
Qed.

(** ** Splitting inverts joining *)

Lemma map_of_to_bytes (l : list string) : map of_bytes (map to_bytes l) = l.
Proof. induction l as [|s l IH]; [done|]. simpl. by rewrite of_to_bytes, IH. Qed.

(** The first separator is found: a byte [c] of it is neither in what comes
    before nor in the part of the separator in front of it. *)
Lemma cutStr_found p c q a b :
  c ∉ p -> c ∉ a -> cutStr (p ++ c :: q) (a ++ (p ++ c :: q) ++ b) = (a, Some b).
Proof.
  intros Hp. set (sep := p ++ c :: q). revert b. induction a as [|x a IH]; intros b Ha.
  - assert (sep `prefix_of` sep ++ b) by by exists b. simpl.
    destruct (sep ++ b) eqn:E; simpl; rewrite bool_decide_eq_true_2, <- ?E, ?drop_app_length by done; done.
  - simpl. apply not_elem_of_cons in Ha as [Hx Ha]. rewrite bool_decide_eq_false_2, IH; [done|done|].
    intros [y Hy]. assert ((x :: a ++ p) !! length p = Some c) as Hl.
    { rewrite <- (lookup_app_l _ (c :: q ++ b)) by (simpl; rewrite length_app; lia).
      simpl. rewrite <- app_assoc. unfold sep in Hy. rewrite <- !app_assoc in Hy. simpl in Hy. rewrite Hy.
      by rewrite list_lookup_middle. }
    apply list_elem_of_lookup_2, elem_of_cons in Hl as [->|[|]%elem_of_app]; done.
Qed.

Lemma cutStr_absent sep c a : c ∈ sep -> c ∉ a -> cutStr sep a = (a, None).
Proof.
  intros Hc. assert (forall a, c ∉ a -> ~ sep `prefix_of` a) as Hn.
  { intros a' Ha [y ->]. apply Ha, elem_of_app. by left. }
  induction a as [|x a IH]; intros Ha; simpl; rewrite bool_decide_eq_false_2 by eauto; [done|].
  apply not_elem_of_cons in Ha as [_ Ha]. by rewrite IH.
Qed.

Lemma concat_cons sep a b (l : list string) :
  to_bytes (String.concat sep (a :: b :: l)) = to_bytes a ++ to_bytes sep ++ to_bytes (String.concat sep (b :: l)).
Proof. change (String.concat sep (a :: b :: l)) with (a ++ sep ++ String.concat sep (b :: l))%string. by rewrite !to_bytes_app. Qed.

Lemma splitFuel_concat sep p c q fuel a (items : list string) :
  to_bytes sep = p ++ c :: q -> c ∉ p -> Forall (fun s => c ∉ to_bytes s) (a :: items) ->
  (length items <= fuel)%nat ->
  splitFuel fuel (to_bytes sep) (to_bytes (String.concat sep (a :: items))) = map to_bytes (a :: items).
Proof.
  intros Hsep Hp. revert fuel a. induction items as [|b items IH]; intros fuel a Hf Hlen.
  - apply Forall_cons in Hf as [Ha _]. destruct fuel; [done|].
    cbn [splitFuel String.concat]. rewrite (cutStr_absent _ c); [done| |done]. rewrite Hsep. set_solver.
  - apply Forall_cons in Hf as [Ha Hf]. destruct fuel as [|fuel]; [simpl in Hlen; lia|].
    cbn [splitFuel]. rewrite concat_cons. rewrite Hsep at 1 2. rewrite cutStr_found by done.
    rewrite IH; [done|done|]. simpl in Hlen. lia.
Qed.

Lemma length_concat sep a (items : list string) :
  (0 < length (to_bytes sep))%nat ->
  (length items <= length (to_bytes (String.concat sep (a :: items))))%nat.
Proof.
  intros Hs. revert a. induction items as [|b items IH]; intros a; [simpl; lia|].
  rewrite concat_cons, !length_app. specialize (IH b). cbn [length]. lia.
Qed.

Lemma Split_concat sep p c q (items : list string) :
  to_bytes sep = p ++ c :: q -> c ∉ p -> items <> [] -> Forall (fun s => c ∉ to_bytes s) items ->
  Split (to_bytes (String.concat sep items)) (to_bytes sep) = map to_bytes items.
Proof.
  intros Hsep Hp Hne Hf. destruct items as [|a items]; [done|].
  apply (splitFuel_concat sep p c q); try done. apply length_concat.
  rewrite Hsep, length_app. simpl. lia.
Qed.

Lemma not_elem_concat c sep (items : list string) :
  c ∉ to_bytes sep -> Forall (fun s => c ∉ to_bytes s) items -> c ∉ to_bytes (String.concat sep items).
Proof.
  intros Hs. induction 1 as [|a items Ha Hi IH]; [apply not_elem_of_nil|].
  destruct items as [|b items]; [done|]. rewrite concat_cons, !not_elem_of_app. done.
Qed.

Lemma SplitN2_pair c a b : c ∉ a -> SplitN2 (a ++ c :: b) c = [a; b].
Proof. intros Ha. unfold SplitN2. by rewrite cut_found. Qed.

Lemma TrimPrefix_app a b : TrimPrefix (a ++ b) a = b.
Proof. unfold TrimPrefix, HasPrefix. rewrite bool_decide_eq_true_2 by by exists b. apply drop_app_length. Qed.

(** ** Fields *)

(** A byte no space starts with. *)
Definition plainByte (c : ascii) : bool := forallb (fun q => negb (bool_decide (head q = Some c))) spaces.
Definition plain (s : string) : Prop := Forall (fun c => plainByte c = true) (to_bytes s).

#[global] Instance plain_dec s : Decision (plain s).
Proof. unfold plain. apply _. Defined.

Lemma spaceLen_plain c s : plainByte c = true -> spaceLen (c :: s) = 0%nat.
Proof.
  unfold plainByte, spaceLen. intros Hc. rewrite forallb_forall in Hc.
  rewrite filter_none; [done|]. apply Forall_forall. intros q Hq [x Hx]. destruct (spaces_spec q Hq) as [Hl _].
  destruct q as [|y q]; [simpl in Hl; lia|]. injection Hx as -> _.
  apply list_elem_of_In, Hc, negb_true_iff, bool_decide_eq_false in Hq. done.
Qed.

Lemma spaceLen_sp s : spaceLen (sp :: s) = 1%nat.
Proof. reflexivity. Qed.

Lemma fieldsFuel_word f cur w s :
  Forall (fun c => plainByte c = true) w -> fieldsFuel (length w + f) cur (w ++ s) = fieldsFuel f (cur ++ w) s.
Proof.
  intros Hw. revert cur. induction Hw as [|c w Hc Hw IH]; intros cur; simpl; [by rewrite app_nil_r|].
  rewrite spaceLen_plain by done. rewrite IH, <- app_assoc. done.
Qed.

Lemma fieldsFuel_words f (ws : list string) :
  Forall (fun s => plain s /\ s <> "") ws -> (length (to_bytes (String.concat " " ws)) <= f)%nat ->
  fieldsFuel f [] (to_bytes (String.concat " " ws)) = map to_bytes ws.
Proof.
  intros Hw. revert f. induction Hw as [|a ws [Ha Hne] Hw IH]; intros f Hf; [by destruct f|].
  assert (to_bytes a <> []) as Hna by by destruct a.
  destruct ws as [|b ws].
  - change (String.concat " " [a]) with a in *. rewrite <- (app_nil_r (to_bytes a)).
    replace f with (length (to_bytes a) + (f - length (to_bytes a)))%nat by lia.
    rewrite fieldsFuel_word by done. simpl. destruct (f - _)%nat; by destruct (to_bytes a).
  - rewrite concat_cons in *. rewrite !length_app in Hf. change (to_bytes " ") with [sp] in *.
    cbn [length] in Hf. destruct (f - length (to_bytes a))%nat as [|g] eqn:Eg; [lia|].
    replace f with (length (to_bytes a) + S g)%nat by lia. rewrite fieldsFuel_word by done.
    cbn [fieldsFuel app]. rewrite spaceLen_sp. cbn [drop]. rewrite IH by lia. simpl. by destruct (to_bytes a).
Qed.

Lemma Fields_words (ws : list string) :
  Forall (fun s => plain s /\ s <> "") ws -> Fields (to_bytes (String.concat " " ws)) = map to_bytes ws.
Proof. intros Hw. by apply fieldsFuel_words. Qed.

(** ** [Atoi] inverts [%d] *)

(** The number a string of digits stands for, behind the digits of [n]. *)
Definition decVal (n : Z) (s : bytes) : Z := foldl (fun n c => 10 * n + digitVal c) n s.

Lemma isDigit_val c : isDigit c = true -> 0 <= digitVal c.
Proof. unfold isDigit, digitVal. rewrite andb_true_iff, !Nat.leb_le. lia. Qed.

Lemma decVal_mono n s : 0 <= n -> Forall (fun c => isDigit c = true) s -> n <= decVal n s.
Proof.
  intros Hn Hs. revert n Hn. induction Hs as [|c s Hc Hs IH]; intros n Hn; [simpl; lia|].
  apply isDigit_val in Hc. specialize (IH (10 * n + digitVal c) ltac:(lia)).
  change (decVal n (c :: s)) with (decVal (10 * n + digitVal c) s). lia.
Qed.

Lemma uintLoop_digits n s :
  0 <= n -> Forall (fun c => isDigit c = true) s -> decVal n s <= maxUint64 ->
  uintLoop n s = Some (decVal n s, true).
Proof.
  intros Hn Hs. revert n Hn. induction Hs as [|c s Hc Hs IH]; intros n Hn Hb; [done|].
  simpl. rewrite Hc. pose proof (isDigit_val c Hc).
  pose proof (decVal_mono (10 * n + digitVal c) s ltac:(lia) Hs).
  change (decVal n (c :: s)) with (decVal (10 * n + digitVal c) s) in *.
  rewrite (proj2 (Z.ltb_ge _ _)) by lia. apply IH; lia.
Qed.

Lemma digits_uint d : Forall (fun c => isDigit c = true) (to_bytes (NilEmpty.string_of_uint d)).
Proof. induction d; simpl; by constructor. Qed.

Lemma decVal_acc acc d : decVal (Z.pos acc) (to_bytes (NilEmpty.string_of_uint d)) = Z.pos (Pos.of_uint_acc d acc).
Proof.
  revert acc. induction d as [|d IH|d IH|d IH|d IH|d IH|d IH|d IH|d IH|d IH|d IH]; intros acc; [done|..];
    simpl to_bytes; cbn [Pos.of_uint_acc]; rewrite <- IH; unfold decVal; cbn [foldl]; f_equal;
    match goal with |- _ + digitVal ?c = _ => let v := eval vm_compute in (digitVal c) in change (digitVal c) with v end; lia.
Qed.

Lemma decVal_uint d : decVal 0 (to_bytes (NilEmpty.string_of_uint d)) = Z.of_N (Pos.of_uint d).
Proof.
  induction d as [|d IH|d IH|d IH|d IH|d IH|d IH|d IH|d IH|d IH|d IH]; [done|exact IH|..];
    simpl to_bytes; cbn [Pos.of_uint Z.of_N]; rewrite <- decVal_acc; reflexivity.
Qed.

Lemma ParseUint_decimal d :
  Z.of_N (Pos.of_uint d) <= maxUint64 ->
  ParseUint (to_bytes (NilZero.string_of_uint d)) = Some (Z.of_N (Pos.of_uint d), true).
Proof.
  rewrite <- decVal_uint. intros Hb.
  pose proof (uintLoop_digits 0 _ ltac:(lia) (digits_uint d) Hb) as Hu.
  unfold NilZero.string_of_uint, ParseUint. by destruct d.
Qed.

(** The number without the bounds. *)
Definition parseZ (s : bytes) : Z :=
  match s with "-"%char :: r => - decVal 0 r | _ => decVal 0 s end.

Lemma NilZero_uint d :
  exists c r, to_bytes (NilZero.string_of_uint d) = c :: r /\ Forall (fun c => isDigit c = true) (c :: r) /\
    decVal 0 (c :: r) = Z.of_N (Pos.of_uint d).
Proof.
  pose proof (digits_uint d) as Hd. pose proof (decVal_uint d) as Hv. unfold NilZero.string_of_uint.
  destruct d; [exists "0"%char, []; split_and!; [done|by repeat constructor|done]|..];
    (eexists _, _; split_and!; [reflexivity|exact Hd|exact Hv]).
Qed.

Lemma digit_not_sign c : isDigit c = true -> c <> "-"%char /\ c <> "+"%char.
Proof. by intros Hc; split; intros ->. Qed.

Lemma decimal_cases z :
  exists c r, Forall (fun c => isDigit c = true) (c :: r) /\
    (to_bytes (decimal z) = c :: r /\ z = decVal 0 (c :: r) \/
     to_bytes (decimal z) = "-"%char :: c :: r /\ z = - decVal 0 (c :: r)).
Proof.
  pose proof (DecimalZ.of_to z) as Hz. unfold decimal. destruct (Z.to_int z) as [d|d];
    destruct (NilZero_uint d) as (c & r & E & Hd & Hv); exists c, r; (split; [done|]); rewrite Hv.
  - left. by split.
  - right. simpl. by rewrite E.
Qed.

Lemma parseZ_decimal z : parseZ (to_bytes (decimal z)) = z.
Proof.
  destruct (decimal_cases z) as (c & r & Hd & [[E Hz]|[E Hz]]); rewrite E; [|by rewrite Hz].
  apply Forall_cons in Hd as [Hc _]. rewrite Hz. unfold parseZ. repeat case_match; done.
Qed.

Lemma decimal_inj z1 z2 : decimal z1 = decimal z2 -> z1 = z2.
Proof. intros E. by rewrite <- (parseZ_decimal z1), E, parseZ_decimal. Qed.

Lemma Atoi_decimal z : in_int z -> Atoi (to_bytes (decimal z)) = (z, true).
Proof.
  unfold in_int, minInt, maxInt. intros Hz.
  destruct (decimal_cases z) as (c & r & Hd & Hcase).
  pose proof (decVal_mono 0 (c :: r) ltac:(lia) Hd) as H0.
  pose proof (digit_not_sign c (Forall_inv Hd)) as [Hm Hp].
  assert (ParseUint (c :: r) = Some (decVal 0 (c :: r), true)) as HP.
  { apply uintLoop_digits; [lia|done|]. unfold maxUint64. destruct Hcase as [[_ ?]|[_ ?]]; lia. }
  destruct Hcase as [[E Hv]|[E Hv]]; rewrite E; unfold Atoi.
  - rewrite !bool_decide_eq_false_2 by done. rewrite HP, <- Hv. cbn [negb andb].
    destruct (Z.ltb_spec maxInt z) as [Hb|]; [unfold maxInt in Hb; lia|done].
  - rewrite bool_decide_eq_true_2 by done. rewrite HP. cbn [negb andb].
    destruct (Z.ltb_spec (- minInt) (decVal 0 (c :: r))) as [Hb|]; [unfold minInt in Hb; lia|by rewrite Hv].
Qed.

(** The characters of a number. *)
Lemma decimal_bytes z : Forall (fun c => isDigit c || bool_decide (c = "-"%char) = true) (to_bytes (decimal z)).
Proof.
  destruct (decimal_cases z) as (c & r & Hd & [[-> _]|[-> _]]); [|constructor; [done|]];
    (eapply Forall_impl; [exact Hd|]); intros x ->; done.
Qed.

Lemma decimal_absent c z : isDigit c || bool_decide (c = "-"%char) = false -> c ∉ to_bytes (decimal z).
Proof. intros Hc Hin. pose proof (proj1 (Forall_forall _ _) (decimal_bytes z) c Hin) as H. simpl in H. congruence. Qed.

Lemma decimal_nonempty z : decimal z <> "".
Proof. intros E. destruct (decimal_cases z) as (c & r & _ & [[E' _]|[E' _]]); by rewrite E in E'. Qed.

Lemma decimal_plain z : plain (decimal z).
Proof.
  eapply Forall_impl; [exact (decimal_bytes z)|]. intros c [Hc|Hc]%orb_true_iff.
  - unfold isDigit in Hc. apply andb_true_iff in Hc as [H1 H2]. rewrite Nat.leb_le in H1, H2.
    rewrite <- (ascii_nat_embedding c). generalize (nat_of_ascii c) H1 H2. intros k.
    do 58 (destruct k as [|k]; [try lia; intros; vm_compute; reflexivity|]). lia.
  - apply bool_decide_eq_true in Hc as ->. reflexivity.
Qed.

(** ** Nothing to trim *)

Lemma TrimSpace_id s :
  Forall (fun q => ~ q `prefix_of` s) spaces -> Forall (fun q => ~ q `suffix_of` s) spaces -> TrimSpace s = s.
Proof.
  intros Hp Hs. unfold TrimSpace, trimLeft, trimRight. rewrite (trimFront_none _ spaces) by done.
  rewrite trimFront_none; [apply reverse_involutive|].
  apply Forall_fmap. eapply Forall_impl; [exact Hs|]. intros q Hq Hr.
  apply Hq. apply prefix_suffix_reverse in Hr. by rewrite !reverse_involutive in Hr.
Qed.

(** A suffix without [x] lies behind [x]. *)
Lemma suffix_behind x (q a v : bytes) : x ∉ q -> q `suffix_of` a ++ x :: v -> q `suffix_of` v.
Proof.
  intros Hx [y Hy]. assert (length (a ++ x :: v) = length (y ++ q)) as Hl by by rewrite Hy.
  rewrite !length_app in Hl. simpl in Hl.
  destruct (decide (length a < length y)%nat) as [Hlt|Hge].
  - exists (drop (S (length a)) y). rewrite <- drop_app_le, <- Hy by lia.
    replace (a ++ x :: v) with ((a ++ [x]) ++ v) by by rewrite <- app_assoc.
    rewrite drop_app_length'; [done|]. rewrite length_app. simpl. lia.
  - exfalso. apply Hx, (list_elem_of_lookup_2 _ (length a - length y)%nat).
    rewrite <- (lookup_app_r y q) by lia. rewrite <- Hy. by rewrite list_lookup_middle.
Qed.

(** ** Lists of key-value pairs

    Both tools turn a list of strings [k=v] into a map. *)

(** [kv := strings.SplitN(p, "=", 2); if len(kv) == 2 { m[kv[0]] = kv[1] }] *)
Definition addPair (m : gmap string string) (p : bytes) : gmap string string :=
  match SplitN2 p "="%char with
  | [k; v] => <[of_bytes k := of_bytes v]> m
  | _ => m
  end.

Lemma addPairs_items (pairs : list (string * string)) m0 :
  Forall (fun kv => "="%char ∉ to_bytes (fst kv)) pairs ->
  foldl addPair m0 (map to_bytes (map (fun kv => (fst kv ++ "=" ++ snd kv)%string) pairs)) =
  list_to_map (reverse pairs) ∪ m0.
Proof.
  intros Hp. revert m0. induction Hp as [|[k v] pairs Hk Hp IH]; intros m0; [symmetry; apply map_empty_union|].
  cbn [map foldl fst snd]. rewrite IH. unfold addPair. rewrite !to_bytes_app.
  change (to_bytes "=") with ["="%char]. cbn [app]. rewrite SplitN2_pair by done.
  rewrite !of_to_bytes, reverse_cons, list_to_map_app. simpl.
  by rewrite <- map_union_assoc, <- insert_union_l, map_empty_union.
Qed.

(** Distinct keys: the map the pairs describe, in any order. *)
Lemma addPairs_map (pairs : list (string * string)) (m : gmap string string) :
  Forall (fun kv => "="%char ∉ to_bytes (fst kv)) pairs -> pairs ≡ₚ map_to_list m ->
  foldl addPair ∅ (map to_bytes (map (fun kv => (fst kv ++ "=" ++ snd kv)%string) pairs)) = m.
Proof.
  intros Hk Hm. rewrite addPairs_items, map_union_empty by done.
  rewrite (list_to_map_proper _ (map_to_list m)); [apply list_to_map_to_list| |].
  - rewrite reverse_Permutation, Hm. apply NoDup_fst_map_to_list.
  - by rewrite reverse_Permutation.
Qed.

(** ** The words of a line *)

(** No space character anywhere. *)
Definition spaceFree (w : bytes) : Prop := forall q a b, q ∈ spaces -> w <> a ++ q ++ b.

Lemma spaceLen_prefix q s : q ∈ spaces -> q `prefix_of` s -> spaceLen s <> 0%nat.
Proof.
  intros Hq Hp. unfold spaceLen. destruct (filter _ _) as [|r rs] eqn:E.
  - assert (q ∈ filter (fun q => q `prefix_of` s) spaces) as Hin by (apply list_elem_of_filter; done).
    rewrite E in Hin. by apply not_elem_of_nil in Hin.
  - assert (r ∈ filter (fun q => q `prefix_of` s) spaces) as Hin by (rewrite E; left).
    apply list_elem_of_filter in Hin as [_ Hin]. destruct (spaces_spec r Hin). simpl. lia.
Qed.

Lemma fieldsFuel_spec fuel cur s w :
  (forall i, (i < length cur)%nat -> spaceLen (drop i (cur ++ s)) = 0%nat) ->
  w ∈ fieldsFuel fuel cur s -> w <> [] /\ spaceFree w /\ w ⊆ cur ++ s.
Proof.
  assert (forall cur s, (forall i, (i < length cur)%nat -> spaceLen (drop i (cur ++ s)) = 0%nat) ->
    w ∈ (if cur is [] then [] else [cur]) -> w <> [] /\ spaceFree w /\ w ⊆ cur ++ s) as Hend.
  { clear cur s. intros cur s Hc Hw. destruct cur as [|c cur]; [by apply not_elem_of_nil in Hw|].
    apply list_elem_of_singleton in Hw as ->. split_and!; [done| |set_solver].
    intros q a b Hq E. destruct (spaces_spec q Hq) as [Hl _].
    apply (spaceLen_prefix q (drop (length a) ((c :: cur) ++ s)) Hq).
    - rewrite E, <- !app_assoc, drop_app_length. by exists (b ++ s).
    - apply Hc. rewrite E, !length_app. lia. }
  revert cur s. induction fuel as [|fuel IH]; intros cur s Hc Hw; [by apply Hend|].
  destruct s as [|x s]; [by apply Hend|]. cbn [fieldsFuel] in Hw.
  destruct (spaceLen (x :: s)) as [|k] eqn:E.
  - replace (cur ++ x :: s) with ((cur ++ [x]) ++ s) by by rewrite <- app_assoc.
    apply IH; [|done]. rewrite length_app, <- app_assoc. simpl. intros i Hi.
    destruct (decide (i < length cur)%nat); [by apply Hc|]. replace i with (length cur) by lia.
    by rewrite drop_app_length.
  - apply elem_of_app in Hw as [Hw|Hw]; [by apply Hend|].
    apply IH in Hw as (? & ? & Hs); [|simpl; lia]. split_and!; [done..|].
    intros c Hin%Hs. apply elem_of_app. right. exact (drop_sub (S k) (x :: s) c Hin).
Qed.

Lemma Fields_spec s w : w ∈ Fields s -> w <> [] /\ spaceFree w /\ w ⊆ s.
Proof. intros Hw. by apply (fieldsFuel_spec (length s) [] s) in Hw; [|simpl; lia]. Qed.

Lemma spaceFree_byte w c : [c] ∈ spaces -> spaceFree w -> c ∉ w.
Proof. intros Hc Hw (a & b & E)%list_elem_of_split. by apply (Hw [c] a b). Qed.

Lemma spaceFree_ends w : spaceFree w -> Forall (fun q => ~ q `suffix_of` w) spaces.
Proof.
  intros Hw. apply Forall_forall. intros q Hq [a E]. apply (Hw q a []); [done|]. by rewrite app_nil_r.
Qed.
