(* ===== verification/Format.v ===== *)
(** * Formatting ([fmt] as [cmd/orrisctl/main.go] uses it)

    [Printf] with the verbs [%s], [%d] and their left-justified forms.  Go pads
    to a width counted in characters, so the UTF-8 decoding of a string into
    characters is modelled; slicing a string counts bytes. *)

From Stdlib Require Import Strings.Ascii.
From stdpp Require Import base gmap strings list.
From S2P Require Import Prelude Types Kv Wal State Recovery Election Replication Apply Server Text.

(** ** [utf8.RuneCountInString] *)

(** For the first byte of a character: its length and the range of its second
    byte.  Everything else is one character per byte. *)
Definition runeStart (c : nat) : option (nat * nat * nat) :=
  (if (194 <=? c) && (c <=? 223) then Some (2, 128, 191)
  else if c =? 224 then Some (3, 160, 191)
  else if c =? 237 then Some (3, 128, 159)
  else if (225 <=? c) && (c <=? 239) then Some (3, 128, 191)
  else if c =? 240 then Some (4, 144, 191)
  else if (241 <=? c) && (c <=? 243) then Some (4, 128, 191)
  else if c =? 244 then Some (4, 128, 143)
  else None)%nat.

Definition continuation (c : nat) : bool := ((128 <=? c) && (c <=? 191))%nat.

(** The length in bytes of the first character. *)
Definition runeSize (s : list nat) : nat :=
  (match s with
  | [] => 0
  | c :: rest =>
      match runeStart c, rest with
      | Some (size, lo, hi), c1 :: rest =>
          if (lo <=? c1) && (c1 <=? hi) && (size - 2 <=? length rest)
             && forallb continuation (take (size - 2) rest)
          then size else 1
      | _, _ => 1
      end
  end)%nat.

(** Every character is at least one byte long. *)
Fixpoint runeFuel (fuel : nat) (s : list nat) : nat :=
  match fuel, s with
  | S fuel, _ :: _ => S (runeFuel fuel (drop (runeSize s) s))
  | _, _ => 0%nat
  end.

Definition runeCount (s : string) : nat :=
  let codes := map nat_of_ascii (to_bytes s) in runeFuel (length codes) codes.

(** ** Padding *)

Definition spacesN (k : nat) : string := of_bytes (repeat sp k).

(** [%-ws] *)
Definition padTo (w : nat) (s : string) : string := (s ++ spacesN (w - runeCount s))%string.

(** [%-wd] *)
Definition padD (w : nat) (z : Z) : string := padTo w (decimal z).

(** [strings.Repeat("-", k)] *)
Definition dashes (k : nat) : string := of_bytes (repeat "-"%char k).

(** [s[:k] + "..."] when [len(s) > limit]; the slice is in bytes. *)
Definition shorten (limit k : nat) (s : string) : string :=
  if (limit <? length (to_bytes s))%nat then (of_bytes (take k (to_bytes s)) ++ "...")%string else s.

(** ** ANSI codes *)

Definition esc (code : string) : string := String (ascii_of_nat 27) ("[" ++ code)%string.

Definition colorReset : string := esc "0m".
Definition colorBold : string := esc "1m".
Definition colorDim : string := esc "2m".
Definition colorRed : string := esc "31m".
Definition colorGreen : string := esc "32m".
Definition colorYellow : string := esc "33m".
Definition colorBlue : string := esc "34m".
Definition colorPurple : string := esc "35m".
Definition colorCyan : string := esc "36m".
Definition colorWhite : string := esc "37m".
Definition bgGreen : string := (esc "42m" ++ esc "30m")%string.
Definition bgBlue : string := (esc "44m" ++ esc "37m")%string.
Definition bgYellow : string := (esc "43m" ++ esc "30m")%string.
Definition bgRed : string := (esc "41m" ++ esc "37m")%string.
Definition clearScreen : string := (esc "H" ++ esc "2J")%string.

Example format_examples :
  (padTo 5 "ab", padTo 1 "ab", padD 4 (-7), runeCount "a•é", shorten 3 2 "abcd", shorten 3 2 "abc")
  = ("ab   ", "ab", "-7  ", 3%nat, "ab...", "abc").
Proof. vm_compute. reflexivity. Qed.

(** More fuel than bytes makes no difference. *)
Lemma runeSize_pos c s : (1 <= runeSize (c :: s))%nat.
Proof.
  unfold runeSize, runeStart. repeat case_match; simplify_eq; lia.
Qed.

Lemma runeFuel_enough f s : (length s <= f)%nat -> runeFuel f s = runeFuel (length s) s.
Proof.
  enough (forall g, (length s <= f)%nat -> (length s <= g)%nat -> runeFuel f s = runeFuel g s) by eauto.
  revert s. induction f as [|f IH]; intros s g Hf Hg.
  - destruct s; [|simpl in Hf; lia]. by destruct g.
  - destruct s as [|c s]; [by destruct g|]. destruct g as [|g]; [simpl in Hg; lia|].
    cbn [runeFuel length] in *. pose proof (runeSize_pos c s). f_equal.
    apply IH; rewrite length_drop; cbn [length]; lia.
Qed.
