(* ===== verification/Durability.v ===== *)
(** * The log on disk and the node in memory

    [durable n c]: replaying the node's log gives back its term, vote and log
    entries, and [c] as commit index.  Every operation preserves it, with the
    recovered commit index following the largest one the node ever had.
    Proved against the interface [WalLaws], hence for the byte-level log. *)

From stdpp Require Import base gmap strings list.
From S2P Require Import Prelude Types Kv Wal State Recovery Election Replication Apply.

Section durability.
Context {W : Type} `{WalLaws W}.
Implicit Types n : Node W.

Definition durable n (c : Z) : Prop :=
  exists rs, wal_view (wal n) rs /\
    replayAll rs = mkPersistent (CurrentTerm n) (VotedFor n) (Log n) c.

(** Fields the log does not record. *)
Lemma durable_ext n n' c :
  wal n' = wal n -> CurrentTerm n' = CurrentTerm n -> VotedFor n' = VotedFor n ->
  Log n' = Log n -> durable n c -> durable n' c.
Proof. unfold durable. by intros -> -> -> ->. Qed.

Lemma durable_state n n' t v c :
  wal n' = wal_append (wal n) (stateRecord t v) -> CurrentTerm n' = t -> VotedFor n' = v ->
  Log n' = Log n -> rec_ok (stateRecord t v) -> durable n c -> durable n' c.
Proof.
  intros Hw Ht Hv Hl Hok (rs & Hrs & Hp). exists (rs ++ [stateRecord t v]).
  rewrite Hw, replayAll_snoc, Hp, Ht, Hv, Hl. split; [by apply wal_append_view|done].
Qed.

Lemma durable_entry n e c :
  rec_ok (entryRecord e) -> durable n c -> durable (appendEntry n e) c.
Proof.
  intros Hok (rs & Hrs & Hp). exists (rs ++ [entryRecord e]).
  rewrite replayAll_snoc, Hp. split; [by apply wal_append_view|done].
Qed.

Lemma durable_entries es n c :
  Forall (fun e => rec_ok (entryRecord e)) es -> durable n c -> durable (foldl appendEntry n es) c.
Proof.
  intros Hok. revert n. induction Hok as [|e es He _ IH]; intros n Hn; simpl; [done|].
  by apply IH, durable_entry.
Qed.

Lemma durable_truncate n n' idx c :
  truncateLog n idx = Some n' -> rec_ok (truncateRecord (idx - 1)) -> durable n c -> durable n' c.
Proof.
  unfold truncateLog. destruct (go_slice_to (Log n) idx) as [l|] eqn:Hl; [|done].
  simpl. intros [= <-] Hok (rs & Hrs & Hp). apply go_slice_to_Some in Hl as [-> Hr].
  exists (rs ++ [truncateRecord (idx - 1)]). rewrite replayAll_snoc, Hp.
  split; [by apply wal_append_view|]. unfold replayRecord. simpl. f_equal.
  unfold truncateTo. replace (idx - 1 + 1) with idx by lia.
  repeat case_if; try done; try lia;
    [by replace (Z.to_nat idx) with 0%nat by lia|by rewrite take_ge by lia].
Qed.

Lemma durable_commit n n' k c :
  wal n' = wal_append (wal n) (commitRecord k) -> CurrentTerm n' = CurrentTerm n ->
  VotedFor n' = VotedFor n -> Log n' = Log n -> rec_ok (commitRecord k) ->
  durable n c -> durable n' (Z.max c k).
Proof.
  intros Hw Ht Hv Hl Hok (rs & Hrs & Hp). exists (rs ++ [commitRecord k]).
  rewrite Hw, replayAll_snoc, Hp, Ht, Hv, Hl. split; [by apply wal_append_view|done].
Qed.

(** ** Election *)

Lemma durable_stepDown t n c :
  rec_ok (stateRecord t "") -> durable n c -> durable (stepDown t n) c.
Proof. intros Hok. by apply (durable_state n _ t ""). Qed.

Lemma durable_startElection n c :
  rec_ok (stateRecord (wrap64 (CurrentTerm n + 1)) (ID n)) -> durable n c ->
  durable (fst (startElection n)) c.
Proof.
  intros Hok Hn. unfold startElection. case_bool_decide; [done|]. cbv zeta.
  destruct (lastLog _). simpl. by apply (durable_state n _ (wrap64 (CurrentTerm n + 1)) (ID n)).
Qed.

Lemma durable_becomeLeader n c : durable n c -> durable (becomeLeader n) c.
Proof. unfold becomeLeader. case_bool_decide; [done|]. by apply durable_ext. Qed.

Lemma durable_voteReply t resp n c :
  rec_ok (stateRecord (RequestVoteResponse.Term resp) "") -> durable n c ->
  durable (fst (voteReply t resp n)) c.
Proof. intros Hok Hn. unfold voteReply. repeat case_match; simpl; auto using durable_stepDown. Qed.

Lemma durable_countVote t votes n c : durable n c -> durable (fst (countVote t votes n)) c.
Proof. intros Hn. unfold countVote. repeat case_match; simpl; auto using durable_becomeLeader. Qed.

Lemma durable_finishElection t votes n c : durable n c -> durable (finishElection t votes n) c.
Proof.
  intros Hn. unfold finishElection. repeat case_match; auto using durable_becomeLeader.
Qed.

Lemma durable_HandleRequestVote n req c :
  rec_ok (stateRecord (RequestVoteRequest.Term req) "") ->
  rec_ok (stateRecord (RequestVoteRequest.Term req) (RequestVoteRequest.CandidateID req)) ->
  durable n c -> durable (fst (HandleRequestVote n req)) c.
Proof.
  intros Hok1 Hok2 Hn. destruct (HandleRequestVote n req) as [n' resp] eqn:E.
  apply HandleRequestVote_outcome in E. simpl.
  assert (forall n1, (RequestVoteRequest.Term req = CurrentTerm n /\ n1 = n \/
     RequestVoteRequest.Term req > CurrentTerm n /\ n1 = stepDown (RequestVoteRequest.Term req) n) ->
     durable n1 c /\ CurrentTerm n1 = RequestVoteRequest.Term req) as Hn1.
  { intros n1 [[? ->]|[? ->]]; split; auto using durable_stepDown. }
  destruct E as [|n1 H1|n1 H1]; [done|by apply Hn1|].
  destruct (Hn1 n1 H1) as [Hd Ht]. by apply (durable_state n1 _ (RequestVoteRequest.Term req) (RequestVoteRequest.CandidateID req)).
Qed.

(** ** Replication *)

Lemma durable_advanceLoop fuel : forall N n n' c,
  (forall k, rec_ok (commitRecord k)) -> CommitIndex n <= c ->
  advanceLoop fuel N n = Some n' -> durable n c -> durable n' (Z.max c (CommitIndex n')).
Proof.
  induction fuel as [|fuel IH]; intros N n n' c Hok Hc; simpl; case_if;
    intros Hr Hn; simplify_eq/=; try by rewrite Z.max_l by lia.
  destruct (go_index (Log n) N) as [e|]; simpl in Hr; [|done].
  destruct (negb _); [by eapply IH|]. destruct (_ >? _); [|by eapply IH]. simplify_eq.
  by apply (durable_commit n _ N).
Qed.

Lemma durable_advanceCommitIndex n n' c :
  (forall k, rec_ok (commitRecord k)) -> CommitIndex n <= c ->
  advanceCommitIndex n = Some n' -> durable n c -> durable n' (Z.max c (CommitIndex n')).
Proof. apply durable_advanceLoop. Qed.

Lemma durable_replicateReply n p nx t prev es resp n' c :
  rec_ok (stateRecord (AppendEntriesResponse.Term resp) "") ->
  (forall k, rec_ok (commitRecord k)) -> CommitIndex n <= c ->
  replicateReply n p nx t prev es resp = Some n' ->
  durable n c -> durable n' (Z.max c (CommitIndex n')).
Proof.
  intros Hok Hokc Hc Hr Hn. unfold replicateReply in Hr.
  repeat case_if; try (rewrite Z.max_l by (simpl; lia);
    first [done | by apply durable_stepDown | by apply (durable_ext n)]).
  apply durable_advanceCommitIndex with (c := c) in Hr; [done..|]. by apply (durable_ext n).
Qed.

(** What the records of an append request may be. *)
Definition ae_ok (req : AppendEntriesRequest) : Prop :=
  rec_ok (stateRecord (AppendEntriesRequest.Term req) "") /\
  (forall k, rec_ok (truncateRecord k)) /\ (forall k, rec_ok (commitRecord k)) /\
  Forall (fun e => rec_ok (entryRecord e)) (AppendEntriesRequest.Entries req).

Lemma durable_cutLog n idx c :
  0 <= idx <= len (Log n) -> rec_ok (truncateRecord (idx - 1)) -> durable n c ->
  durable (cutLog n idx) c.
Proof. intros Hi. apply durable_truncate. by apply truncateLog_cut. Qed.

Lemma durable_checkPrev n req r c :
  (forall k, rec_ok (truncateRecord k)) -> prev_outcome n req r -> durable n c ->
  durable (match r with inl n' => n' | inr n' => n' end) c.
Proof.
  intros Hok Hr Hn. destruct Hr as [?|e ? He ?|e ? ? ?|? ? ? ? ? ? ? ?|?];
    try done; apply durable_cutLog; auto; try lia.
  apply lookup_lt_Some in He. lia.
Qed.

Lemma durable_appendLoop prev es : forall i n n' c,
  (forall k, rec_ok (truncateRecord k)) -> Forall (fun e => rec_ok (entryRecord e)) es ->
  appendLoop prev i es n = Some n' -> durable n c -> durable n' c.
Proof.
  induction es as [|e es IH]; intros i n n' c Ht Hes; cbn [appendLoop]; [naive_solver|].
  pose proof Hes as [He Hes']%Forall_cons_1.
  destruct (_ <? _); [|eauto using durable_entry].
  destruct (go_index _ _) as [x|]; cbn [mbind option_bind]; [|done].
  destruct (negb _); [|by apply IH].
  destruct (truncateLog n _) as [n1|] eqn:Hn1; cbn [mbind option_bind]; [|done].
  intros [= <-] Hn. apply (durable_entries (e :: es)); [done|]. by eapply durable_truncate.
Qed.

Lemma durable_followCommit lc n c :
  (forall k, rec_ok (commitRecord k)) -> CommitIndex n <= c -> durable n c ->
  durable (followCommit lc n) (Z.max c (CommitIndex (followCommit lc n))).
Proof.
  intros Hok Hc Hn. unfold followCommit. destruct (_ >? _); [|by rewrite Z.max_l by lia].
  destruct (_ <? _); by eapply (durable_commit n).
Qed.

Lemma durable_HandleAppendEntries n req n' resp c :
  ae_ok req -> CommitIndex n <= c -> HandleAppendEntries n req = Some (n', resp) ->
  durable n c -> durable n' (Z.max c (CommitIndex n')).
Proof.
  intros (Hs & Ht & Hc & Hes) Hci Hr Hn. unfold HandleAppendEntries in Hr.
  destruct (_ <? _); [simplify_eq; by rewrite Z.max_l by lia|].
  set (n1 := resetElectionTimer _) in Hr.
  assert (durable n1 c /\ CommitIndex n1 = CommitIndex n) as [Hn1 Hci1].
  { unfold n1. destruct (_ >? _); split; try done. by apply durable_stepDown. }
  destruct (checkPrev_outcome n1 req) as (r & Hchk & Hout). rewrite Hchk in Hr.
  pose proof (durable_checkPrev _ _ _ _ Ht Hout Hn1) as Hn2.
  assert (CommitIndex (match r with inl n' => n' | inr n' => n' end) = CommitIndex n1) as Hci2
    by by destruct Hout.
  cbn [mbind option_bind] in Hr. destruct r as [n2|n2]; simplify_eq/=.
  { rewrite Z.max_l by lia. done. }
  destruct (appendLoop _ _ _ n2) as [n3|] eqn:Hloop; simplify_eq/=.
  apply durable_followCommit; [done| |by eapply durable_appendLoop].
  rewrite (appendLoop_commit _ _ _ _ _ Hloop). lia.
Qed.

(** ** Clients and state machine *)

Lemma durable_handleClientReq n req c :
  (forall i t, rec_ok (entryRecord (LogEntry.mk i t (ClientReq.Op req) (ClientReq.Key req) (ClientReq.Value req)))) ->
  durable n c -> durable (fst (handleClientReq n req)) c.
Proof.
  intros Hok Hn. unfold handleClientReq. destruct (negb _); [done|]. simpl.
  by apply (durable_entry n).
Qed.

Lemma durable_restart n c :
  durable n c -> durable (restart n) c /\ CommitIndex (restart n) = c.
Proof.
  intros (rs & Hrs & Hp). destruct (restart_spec n rs Hrs) as (Hp' & _ & _ & _ & Hv & _).
  rewrite Hp in Hp'. apply persistentOf_inv in Hp' as (Ht & Hvo & Hl & Hc).
  split; [|done]. exists rs. split; [done|]. by rewrite Hp, Ht, Hvo, Hl.
Qed.

End durability.
