(* ===== verification/NodeRun.v ===== *)
(** * One node under any environment

    A node as a state machine over the events its goroutines, its peers and
    its clients produce, crashes included.  Nothing is assumed of the peers:
    requests and responses carry arbitrary contents.  The theorems hold for
    any log that satisfies [WalLaws]. *)

From stdpp Require Import base gmap strings list.
From S2P Require Import Prelude Types Kv Wal State Recovery Election Replication Apply Durability.

(** ** Events *)

Inductive event :=
| EvTimeout                                  (* the election timer fires *)
| EvVoteReply (term : Z) (resp : RequestVoteResponse)
| EvCountVote (term votes : Z)
| EvFinishElection (term votes : Z)
| EvRequestVote (req : RequestVoteRequest)
| EvAppendEntries (req : AppendEntriesRequest)
| EvReplicateReply (peerID : string) (nextIdx term prevLogIndex : Z)
    (entries : list LogEntry) (resp : AppendEntriesResponse)
| EvClient (req : ClientReq)
| EvApply
| EvRestart.

Section run.
Context {W : Type} `{WalLaws W}.
Implicit Types n : Node W.

(** [None] is a panic of the handler. *)
Definition handle n (ev : event) : option (Node W) :=
  match ev with
  | EvTimeout => Some (fst (startElection n))
  | EvVoteReply term resp => Some (fst (voteReply term resp n))
  | EvCountVote term votes => Some (fst (countVote term votes n))
  | EvFinishElection term votes => Some (finishElection term votes n)
  | EvRequestVote req => Some (fst (HandleRequestVote n req))
  | EvAppendEntries req => fst <$> HandleAppendEntries n req
  | EvReplicateReply p nx t prev es resp => replicateReply n p nx t prev es resp
  | EvClient req => Some (fst (handleClientReq n req))
  | EvApply => applyCommittedEntries n
  | EvRestart => Some (restart n)
  end.

(** The vote the event makes the node cast: for itself or for a peer. *)
Definition castVote n (ev : event) : option (Z * string) :=
  match ev with
  | EvTimeout =>
      match snd (startElection n) with
      | Some req => Some (RequestVoteRequest.Term req, RequestVoteRequest.CandidateID req)
      | None => None
      end
  | EvRequestVote req =>
      if RequestVoteResponse.VoteGranted (snd (HandleRequestVote n req))
      then Some (RequestVoteRequest.Term req, RequestVoteRequest.CandidateID req)
      else None
  | _ => None
  end.

(** The records the event may write fit the log. *)
Definition event_ok n (ev : event) : Prop :=
  match ev with
  | EvTimeout => rec_ok (stateRecord (wrap64 (CurrentTerm n + 1)) (ID n))
  | EvVoteReply _ resp => rec_ok (stateRecord (RequestVoteResponse.Term resp) "")
  | EvRequestVote req =>
      rec_ok (stateRecord (RequestVoteRequest.Term req) "") /\
      rec_ok (stateRecord (RequestVoteRequest.Term req) (RequestVoteRequest.CandidateID req))
  | EvAppendEntries req => ae_ok req
  | EvReplicateReply _ _ _ _ _ resp =>
      rec_ok (stateRecord (AppendEntriesResponse.Term resp) "") /\ (forall k, rec_ok (commitRecord k))
  | EvClient req => forall i t, rec_ok (entryRecord
      (LogEntry.mk i t (ClientReq.Op req) (ClientReq.Key req) (ClientReq.Value req)))
  | _ => True
  end.

(** [runs P n votes n']: events that satisfy [P] where they happened took [n]
    to [n'], casting [votes] on the way. *)
Inductive runs (P : Node W -> event -> Prop) : Node W -> list (Z * string) -> Node W -> Prop :=
| runs_refl n : runs P n [] n
| runs_step n votes n1 ev n2 :
    runs P n votes n1 -> event_ok n1 ev -> P n1 ev -> handle n1 ev = Some n2 ->
    runs P n (votes ++ option_list (castVote n1 ev)) n2.

(** Any events; events of which none starts an election in the largest term. *)
Definition run : Node W -> list (Z * string) -> Node W -> Prop := runs (fun _ _ => True).

Definition term_fits n (ev : event) : Prop := ev = EvTimeout -> CurrentTerm n < maxInt.

(** ** Invariants *)

(** Terms and commit indices are in range, and the log on disk gives the node
    back with a commit index at least as large. *)
Definition node_ok n : Prop :=
  -1 <= CommitIndex n /\ -1 <= LastApplied n /\ minInt <= CurrentTerm n /\
  exists c, CommitIndex n <= c /\ durable n c.

(** A cast vote is remembered as long as the node is in its term. *)
Definition remembers n (votes : list (Z * string)) : Prop :=
  forall t c, (t, c) ∈ votes -> c <> "" -> t <= CurrentTerm n /\ (t = CurrentTerm n -> VotedFor n = c).

Lemma remembers_ext n n' votes :
  CurrentTerm n' = CurrentTerm n -> VotedFor n' = VotedFor n -> remembers n votes -> remembers n' votes.
Proof. unfold remembers. by intros -> ->. Qed.

Lemma remembers_newer n n' votes :
  CurrentTerm n < CurrentTerm n' -> remembers n votes -> remembers n' votes.
Proof. intros Hlt Hr t c Hin Hc. destruct (Hr t c Hin Hc). split; [lia|]. intros; lia. Qed.

(** A grant is for the node's current term, to the candidate it records, and
    does not contradict an earlier vote in that term. *)
Lemma HandleRequestVote_remembers n req votes :
  remembers n votes ->
  remembers (fst (HandleRequestVote n req)) (votes ++ option_list (castVote n (EvRequestVote req))).
Proof.
  intros Hr. simpl. destruct (HandleRequestVote n req) as [n' resp] eqn:E.
  apply HandleRequestVote_outcome in E.
  assert (forall n1, (RequestVoteRequest.Term req = CurrentTerm n /\ n1 = n \/
     RequestVoteRequest.Term req > CurrentTerm n /\ n1 = stepDown (RequestVoteRequest.Term req) n) ->
     remembers n1 votes /\ CurrentTerm n1 = RequestVoteRequest.Term req) as Hn1.
  { intros n1 [[? ->]|[? ->]]; split; try done. apply (remembers_newer n); [simpl; lia|done]. }
  destruct E as [|n1 H1|n1 H1 Hv _]; simpl; rewrite ?app_nil_r; [done|by apply Hn1|].
  destruct (Hn1 n1 H1) as [Hrem Ht]. intros t c [Hin|Hin]%elem_of_app Hc; simpl.
  - destruct (Hrem t c Hin Hc) as [Hle Heq]. rewrite Ht in *. split; [lia|]. intros ->.
    destruct Hv as [Hv|Hv]; rewrite Heq in Hv by done; congruence.
  - apply list_elem_of_singleton in Hin. simplify_eq. split; [lia|done].
Qed.

Lemma startElection_remembers n votes :
  CurrentTerm n < maxInt -> minInt <= CurrentTerm n -> remembers n votes ->
  remembers (fst (startElection n)) (votes ++ option_list (castVote n EvTimeout)).
Proof.
  intros Hmax Hmin Hr. unfold castVote, startElection. case_bool_decide; simpl.
  { by rewrite app_nil_r. }
  destruct (lastLog _). simpl.
  assert (wrap64 (CurrentTerm n + 1) = CurrentTerm n + 1) as Hw
    by (apply wrap64_id; unfold in_int, maxInt, minInt in *; lia).
  intros t c [Hin|Hin]%elem_of_app Hc; simpl; rewrite Hw.
  - destruct (Hr t c Hin Hc). lia.
  - apply list_elem_of_singleton in Hin. simplify_eq. rewrite Hw. done.
Qed.

(** Operations that never cast a vote: the term grows, or term and vote stay. *)
Definition term_mono n n' : Prop :=
  CurrentTerm n < CurrentTerm n' \/ CurrentTerm n' = CurrentTerm n /\ VotedFor n' = VotedFor n.

Lemma term_mono_remembers n n' votes : term_mono n n' -> remembers n votes -> remembers n' votes.
Proof. intros [?|[??]]; [by apply remembers_newer|by apply remembers_ext]. Qed.

Lemma voteReply_term t resp n : term_mono n (fst (voteReply t resp n)).
Proof. unfold voteReply, term_mono. repeat case_if; simpl; lia || auto. Qed.

Lemma becomeLeader_term n : CurrentTerm (becomeLeader n) = CurrentTerm n /\ VotedFor (becomeLeader n) = VotedFor n.
Proof. unfold becomeLeader. by case_bool_decide. Qed.

Lemma countVote_term t v n : term_mono n (fst (countVote t v n)).
Proof. right. unfold countVote. repeat case_match; simpl; auto using becomeLeader_term. Qed.

Lemma finishElection_term t v n : term_mono n (finishElection t v n).
Proof. right. unfold finishElection. repeat case_match; simpl; auto using becomeLeader_term. Qed.

Lemma advanceCommitIndex_term n n' :
  advanceCommitIndex n = Some n' -> CurrentTerm n' = CurrentTerm n /\ VotedFor n' = VotedFor n.
Proof.
  unfold advanceCommitIndex. generalize (S (length (Log n))), (len (Log n) - 1).
  intros fuel. induction fuel as [|fuel IH]; intros N; cbn [advanceLoop];
    destruct (_ >? _); try by intros [= <-].
  destruct (go_index _ _); cbn [mbind option_bind]; [|done].
  destruct (negb _); [by apply IH|]. destruct (_ >? _); [by intros [= <-]|by apply IH].
Qed.

Lemma replicateReply_term n p nx t prev es resp n' :
  replicateReply n p nx t prev es resp = Some n' -> term_mono n n'.
Proof.
  unfold replicateReply, term_mono. repeat case_if; intros Hr; simplify_eq/=; try (by auto || lia).
  apply advanceCommitIndex_term in Hr. auto.
Qed.

Lemma HandleAppendEntries_term n req n' resp :
  HandleAppendEntries n req = Some (n', resp) -> term_mono n n'.
Proof.
  unfold HandleAppendEntries. destruct (_ <? _) eqn:Hlt; [by intros [= <- <-]; right|].
  set (n1 := resetElectionTimer _). bool_to_prop.
  assert (term_mono n n1) as Hn1.
  { unfold n1, term_mono. destruct (_ >? _) eqn:Hgt; bool_to_prop; simpl; lia || auto. }
  destruct (checkPrev_outcome n1 req) as (r & -> & Hout). cbn [mbind option_bind].
  assert (log_frame n1 (match r with inl n' => n' | inr n' => n' end)) as Hf
    by by destruct Hout; try apply cutLog_frame.
  destruct r as [n2|n2]; simpl in Hf.
  - intros [= <- <-]. unfold term_mono. by destruct Hf as (_&_&_&->&->&_).
  - destruct (appendLoop _ _ _ n2) as [n3|] eqn:Hl; cbn [mbind option_bind]; [|done].
    apply appendLoop_frame in Hl. intros [= <- _].
    assert (term_mono n n3) as Hn3.
    { unfold term_mono. destruct Hl as (_&_&_&->&->&_), Hf as (_&_&_&->&->&_). done. }
    unfold followCommit. repeat case_match; done.
Qed.

(** ** Preservation *)

Lemma advanceCommitIndex_commit n n' :
  -1 <= CommitIndex n -> advanceCommitIndex n = Some n' ->
  CommitIndex n <= CommitIndex n' /\ LastApplied n' = LastApplied n.
Proof.
  intros Hc Hr. destruct (advanceCommitIndex_spec n Hc) as [(M & (HM & _) & _ & E)|(_ & E)];
    rewrite E in Hr; simplify_eq/=; lia.
Qed.

Lemma replicateReply_commit_lb n p nx t prev es resp n' :
  -1 <= CommitIndex n -> -1 <= LastApplied n -> replicateReply n p nx t prev es resp = Some n' ->
  -1 <= CommitIndex n' /\ -1 <= LastApplied n'.
Proof.
  intros Hc Hl. unfold replicateReply. repeat case_match; intros Hr; simplify_eq/=; try done.
  apply advanceCommitIndex_commit in Hr as [? ?]; simpl in *; lia.
Qed.

Lemma followCommit_lb lc n : -1 <= CommitIndex n -> -1 <= CommitIndex (followCommit lc n).
Proof. intros Hc. unfold followCommit. repeat case_if; simpl; lia. Qed.

(** The handler as a pipeline: the reset node, the check, the loop. *)
Lemma HandleAppendEntries_commit_lb n req n' resp :
  -1 <= CommitIndex n -> -1 <= LastApplied n -> HandleAppendEntries n req = Some (n', resp) ->
  -1 <= CommitIndex n' /\ -1 <= LastApplied n'.
Proof.
  intros Hc Hl. unfold HandleAppendEntries. destruct (_ <? _); [by intros [= <- _]|].
  set (n1 := resetElectionTimer _).
  assert (CommitIndex n1 = CommitIndex n /\ LastApplied n1 = LastApplied n) as [Hc1 Hl1]
    by by unfold n1; destruct (_ >? _).
  destruct (checkPrev_outcome n1 req) as (r & -> & Hout). cbn [mbind option_bind].
  assert (log_frame n1 (match r with inl n' => n' | inr n' => n' end)) as Hf
    by by destruct Hout; try apply cutLog_frame.
  destruct r as [n2|n2]; destruct Hf as (_&_&_&_&_&Hc2&Hl2&_).
  - intros [= <- _]. lia.
  - destruct (appendLoop _ _ _ n2) as [n3|] eqn:Hlp; cbn [mbind option_bind]; [|done].
    apply appendLoop_frame in Hlp as (_&_&_&_&_&Hc3&Hl3&_). intros [= <- _].
    split; [apply followCommit_lb; lia|]. unfold followCommit. repeat case_match; simpl; lia.
Qed.

Lemma HandleAppendEntries_total n req :
  -1 <= AppendEntriesRequest.PrevLogIndex req -> is_Some (HandleAppendEntries n req).
Proof.
  intros Hp. unfold HandleAppendEntries. destruct (_ <? _); [by eexists|].
  set (n1 := resetElectionTimer _).
  destruct (checkPrev_outcome n1 req) as ([n2|n2] & -> & _); cbn [mbind option_bind]; [by eexists|].
  destruct (appendLoop_spec (AppendEntriesRequest.PrevLogIndex req)
              (AppendEntriesRequest.Entries req) 0 n2 ltac:(lia)) as (n3 & -> & _).
  by eexists.
Qed.

Lemma replicateReply_total n p nx t prev es resp :
  -1 <= CommitIndex n -> is_Some (replicateReply n p nx t prev es resp).
Proof.
  intros Hc. unfold replicateReply. repeat case_match; try by eexists.
  match goal with |- is_Some (advanceCommitIndex ?m) =>
    destruct (advanceCommitIndex_spec m Hc) as [(M & _ & _ & ->)|(_ & ->)] end; by eexists.
Qed.

Lemma granted_vote n req n' resp :
  HandleRequestVote n req = (n', resp) -> RequestVoteResponse.VoteGranted resp = true ->
  VotedFor n' = RequestVoteRequest.CandidateID req.
Proof. intros E%HandleRequestVote_outcome. by destruct E. Qed.

(** A vote is cast in the term the node is in afterwards. *)
Lemma castVote_current n ev n' t c :
  castVote n ev = Some (t, c) -> handle n ev = Some n' -> t = CurrentTerm n'.
Proof.
  destruct ev; try done; simpl.
  - unfold startElection. case_bool_decide; [done|]. cbv zeta. destruct (lastLog _). simpl.
    by intros [= <- _] [= <-].
  - destruct (HandleRequestVote n req) as [n1 resp] eqn:E. simpl.
    destruct (RequestVoteResponse.VoteGranted resp) eqn:Hg; [|done]. intros [= <- _] [= <-].
    apply HandleRequestVote_outcome in E. revert Hg.
    destruct E as [|n2 [[? ->]|[? ->]]|n2 [[? ->]|[? ->]]]; simpl; done || lia.
Qed.

Lemma handle_remembers n ev n' votes :
  node_ok n -> term_fits n ev -> handle n ev = Some n' -> remembers n votes ->
  remembers n' (votes ++ option_list (castVote n ev)).
Proof.
  intros (_ & _ & Hmin & c & _ & Hd) Hfit Hh Hr.
  destruct ev; simpl in Hh; simplify_eq; try (simpl; rewrite app_nil_r).
  - apply startElection_remembers; [by apply Hfit|done..].
  - eauto using term_mono_remembers, voteReply_term.
  - eauto using term_mono_remembers, countVote_term.
  - eauto using term_mono_remembers, finishElection_term.
  - by apply HandleRequestVote_remembers.
  - destruct (HandleAppendEntries n req) as [[n1 resp]|] eqn:E; simplify_eq/=.
    eauto using term_mono_remembers, HandleAppendEntries_term.
  - eauto using term_mono_remembers, replicateReply_term.
  - apply (remembers_ext n); [..|done]; unfold handleClientReq; by case_match.
  - destruct (applyFor_frame _ _ _ Hh) as (_&_&_&Ht&Hv&_). by apply (remembers_ext n).
  - destruct (durable_restart n c Hd) as [Hdr _]. destruct Hd as (rs & Hrs & Hp).
    destruct (restart_spec n rs Hrs) as (Hp' & _). rewrite Hp in Hp'.
    apply persistentOf_inv in Hp' as (Ht & Hv & _). by apply (remembers_ext n).
Qed.

(** The commit and apply counters never go below their initial -1. *)
Lemma handle_commit_lb n ev n' :
  node_ok n -> handle n ev = Some n' -> -1 <= CommitIndex n' /\ -1 <= LastApplied n'.
Proof.
  intros (Hc & Hl & _ & c & Hcc & Hd) Hh. destruct ev; simpl in Hh; simplify_eq.
  - unfold startElection. case_bool_decide; [done|]. cbv zeta. by destruct (lastLog _).
  - unfold voteReply. by repeat case_match.
  - unfold countVote, becomeLeader. by repeat case_match.
  - unfold finishElection, becomeLeader. by repeat case_match.
  - destruct (HandleRequestVote n req) as [n' resp] eqn:E.
    by apply HandleRequestVote_outcome in E as [|n1 [[? ->]|[? ->]]|n1 [[? ->]|[? ->]]].
  - destruct (HandleAppendEntries n req) as [[n1 resp]|] eqn:E; simplify_eq/=.
    by eapply HandleAppendEntries_commit_lb.
  - by eapply replicateReply_commit_lb.
  - unfold handleClientReq. by case_match.
  - destruct (applyCommittedEntries_spec n Hl) as (n1 & Hn1 & Hf & Hla & _). simplify_eq.
    destruct Hf as (_&_&_&_&_&_&->&_). lia.
  - destruct Hd as (rs & Hrs & Hp).
    destruct (restart_spec n rs Hrs) as (Hp' & _ & _ & _ & _ & _ & _ & _ & Hla).
    rewrite Hp in Hp', Hla. apply persistentOf_inv in Hp' as (_ & _ & _ & ->).
    cbn [pCommit pLog] in Hla. lia.
Qed.

Lemma handle_durable n ev n' c :
  CommitIndex n <= c -> durable n c -> event_ok n ev -> handle n ev = Some n' ->
  durable n' (Z.max c (CommitIndex n')).
Proof.
  intros Hc Hd Hok Hh. destruct ev; simpl in Hh, Hok; simplify_eq.
  - rewrite Z.max_l; [by apply durable_startElection|]. unfold startElection.
    case_bool_decide; [done|]. cbv zeta. by destruct (lastLog _).
  - rewrite Z.max_l; [by apply durable_voteReply|]. unfold voteReply. by repeat case_match.
  - rewrite Z.max_l; [by apply durable_countVote|]. unfold countVote, becomeLeader.
    by repeat case_match.
  - rewrite Z.max_l; [by apply durable_finishElection|]. unfold finishElection, becomeLeader.
    by repeat case_match.
  - rewrite Z.max_l; [by destruct Hok; apply durable_HandleRequestVote|].
    destruct (HandleRequestVote n req) as [n' resp] eqn:E.
    by apply HandleRequestVote_outcome in E as [|n1 [[? ->]|[? ->]]|n1 [[? ->]|[? ->]]].
  - destruct (HandleAppendEntries n req) as [[n1 resp]|] eqn:E; simplify_eq/=.
    by eapply durable_HandleAppendEntries.
  - destruct Hok. by eapply durable_replicateReply.
  - rewrite Z.max_l; [by apply durable_handleClientReq|]. unfold handleClientReq. by case_match.
  - destruct (applyFor_frame _ _ _ Hh) as (_&_&_&Ht&Hv&Hl&Hci&_&_&Hw). rewrite Hci, Z.max_l by lia.
    by apply (durable_ext n).
  - destruct (durable_restart n c Hd) as [Hd' Hc']. rewrite Hc'. by rewrite Z.max_id.
Qed.

Lemma handle_term_lb n ev n' :
  node_ok n -> event_ok n ev -> handle n ev = Some n' -> minInt <= CurrentTerm n'.
Proof.
  intros (_ & _ & Hmin & c & _ & Hd) Hok Hh.
  assert (term_mono n n' -> minInt <= CurrentTerm n') as Hm by (intros [?|[??]]; lia).
  destruct ev; simpl in Hh; simplify_eq; auto using voteReply_term, countVote_term, finishElection_term.
  - unfold startElection. case_bool_decide; [done|]. cbv zeta. destruct (lastLog _). apply wrap64_in_int.
  - destruct (HandleRequestVote n req) as [n' resp] eqn:E.
    by apply HandleRequestVote_outcome in E as [|n1 [[? ->]|[? ->]]|n1 [[? ->]|[? ->]]]; simpl; lia.
  - destruct (HandleAppendEntries n req) as [[n1 resp]|] eqn:E; simplify_eq/=.
    eauto using HandleAppendEntries_term.
  - eauto using replicateReply_term.
  - unfold handleClientReq. by case_match.
  - by destruct (applyFor_frame _ _ _ Hh) as (_&_&_&->&_).
  - destruct Hd as (rs & Hrs & Hp). destruct (restart_spec n rs Hrs) as (Hp' & _). rewrite Hp in Hp'.
    by apply persistentOf_inv in Hp' as (-> & _).
Qed.

Lemma handle_node_ok n ev n' :
  node_ok n -> event_ok n ev -> handle n ev = Some n' -> node_ok n'.
Proof.
  intros Hn Hok Hh. destruct (handle_commit_lb _ _ _ Hn Hh).
  split_and!; [done..|by eapply handle_term_lb|].
  destruct Hn as (_ & _ & _ & c & Hc & Hd).
  exists (Z.max c (CommitIndex n')). split; [lia|]. by eapply handle_durable.
Qed.

Lemma runs_node_ok P n votes n' : runs P n votes n' -> node_ok n -> node_ok n'.
Proof. induction 1; eauto using handle_node_ok. Qed.

Lemma runs_remembers n votes n' : runs term_fits n votes n' -> node_ok n -> remembers n' votes.
Proof.
  induction 1 as [n|n votes n1 ev n2 Hrun IH Hok Hfit Hh]; intros Hn.
  - intros t c Hin. by apply not_elem_of_nil in Hin.
  - eapply handle_remembers; eauto using runs_node_ok.
Qed.

(** A follower's commit index moves together with the wake-up token. *)
Lemma HandleAppendEntries_notifies n req n' resp :
  HandleAppendEntries n req = Some (n', resp) -> CommitIndex n' <> CommitIndex n -> applyNotify n' = true.
Proof.
  unfold HandleAppendEntries. destruct (_ <? _); [by intros [= <- _]|].
  set (n1 := resetElectionTimer _).
  assert (CommitIndex n1 = CommitIndex n) as Hc1 by by unfold n1; destruct (_ >? _).
  destruct (checkPrev_outcome n1 req) as (r & -> & Hout). cbn [mbind option_bind].
  assert (log_frame n1 (match r with inl n' => n' | inr n' => n' end)) as Hf
    by by destruct Hout; try apply cutLog_frame.
  destruct r as [n2|n2]; destruct Hf as (_&_&_&_&_&Hc2&_).
  - intros [= <- _] Hne. congruence.
  - destruct (appendLoop _ _ _ n2) as [n3|] eqn:Hlp; cbn [mbind option_bind]; [|done].
    apply appendLoop_frame in Hlp as (_&_&_&_&_&Hc3&_). intros [= <- _]. unfold followCommit.
    repeat case_match; try done. intros Hne. congruence.
Qed.

(** ** Properties *)

(** C13: A node whose term, vote and log are on disk, such as a started one, votes for
    at most one candidate in a term from then on, for any log that keeps what it was
    given, whatever its peers send and however often it crashes between two critical
    sections and recovers, provided that the records it writes fit the log, that no
    election of its own starts while its term is the largest int (where the increment
    would wrap around, see term_overflow_votes_again) and that candidates have non-empty
    names. Stop is not an event of the run. *)
Theorem vote_at_most_once n votes n' t c1 c2 :
  node_ok n -> runs term_fits n votes n' -> c1 <> "" -> c2 <> "" ->
  (t, c1) ∈ votes -> (t, c2) ∈ votes -> c1 = c2.
Proof.
  intros Hn Hrun. revert t c1 c2.
  induction Hrun as [n|n votes n1 ev n2 Hrun IH Hok Hfit Hh]; intros t c1 c2 Hc1 Hc2 Hi1 Hi2.
  { by apply not_elem_of_nil in Hi1. }
  specialize (IH Hn). pose proof (runs_node_ok _ _ _ _ Hrun Hn) as Hn1.
  pose proof (handle_remembers _ _ _ votes Hn1 Hfit Hh (runs_remembers _ _ _ Hrun Hn)) as Hr.
  destruct (Hr t c1 Hi1 Hc1) as [_ H1], (Hr t c2 Hi2 Hc2) as [_ H2].
  destruct (decide (t = CurrentTerm n2)) as [Heq|Hne]; [by rewrite <- H1, <- H2 by done|].
  apply elem_of_app in Hi1, Hi2.
  assert (forall c, c <> "" -> (t, c) ∈ option_list (castVote n1 ev) -> t = CurrentTerm n2) as Hnew.
  { intros c Hc Hin. destruct (castVote n1 ev) as [[t' c']|] eqn:Hcv; [|by apply not_elem_of_nil in Hin].
    apply list_elem_of_singleton in Hin as [= -> ->]. by eapply castVote_current. }
  destruct Hi1 as [Hi1|Hi1]; [|by apply Hnew in Hi1]. destruct Hi2 as [Hi2|Hi2]; [|by apply Hnew in Hi2].
  by eapply IH.
Qed.

(** C12: Crash recovery, for any log that keeps what it was given, the byte-level log
    included. After any sequence of events with arbitrary peers, a node that crashes and
    restarts has its term, vote and log back, a commit index at least as large, and the
    store that replays the committed entries. *)
Theorem crash_recovery n votes n' :
  node_ok n -> run n votes n' ->
  let m := restart n' in
  State m = Follower /\ CurrentTerm m = CurrentTerm n' /\ VotedFor m = VotedFor n' /\
  Log m = Log n' /\ CommitIndex n' <= CommitIndex m /\
  KVStore m = replay (take (Z.to_nat (CommitIndex m + 1)) (Log n')).
Proof.
  intros Hn Hrun. destruct (runs_node_ok _ _ _ _ Hrun Hn) as (_ & _ & _ & c & Hc & rs & Hrs & Hp).
  destruct (restart_spec n' rs Hrs) as (Hp' & _ & _ & Hst & _ & _ & _ & Hkv & _).
  rewrite Hp in Hp', Hkv. apply persistentOf_inv in Hp' as (Ht & Hv & Hl & Hci).
  cbv zeta. rewrite Hci. by split_and!.
Qed.

(** C21: With arbitrary peers, no event makes a node panic, provided append requests
    have a previous index of at least -1. *)
Theorem handlers_never_panic n ev :
  node_ok n ->
  (forall req, ev = EvAppendEntries req -> -1 <= AppendEntriesRequest.PrevLogIndex req) ->
  is_Some (handle n ev).
Proof.
  intros (Hc & Hl & _) Hae. destruct ev; simpl; try by eexists.
  - apply fmap_is_Some, HandleAppendEntries_total. by apply Hae.
  - by apply replicateReply_total.
  - destruct (applyCommittedEntries_spec n Hl) as (n1 & -> & _). by eexists.
Qed.

(** C25: No commit goes unnoticed: whenever an event changes a running node's commit
    index, the wake-up token of the apply loop is pending afterwards. *)
Theorem commit_wakes_apply n ev n' :
  node_ok n -> handle n ev = Some n' -> ev <> EvRestart -> CommitIndex n' <> CommitIndex n ->
  applyNotify n' = true.
Proof.
  intros (Hc & Hl & _) Hh Hne Hci. destruct ev; simpl in Hh; simplify_eq.
  - exfalso. apply Hci. unfold startElection. case_bool_decide; [done|]. cbv zeta. by destruct (lastLog _).
  - exfalso. apply Hci. unfold voteReply. by repeat case_match.
  - exfalso. apply Hci. unfold countVote, becomeLeader. by repeat case_match.
  - exfalso. apply Hci. unfold finishElection, becomeLeader. by repeat case_match.
  - exfalso. apply Hci. destruct (HandleRequestVote n req) as [n' resp] eqn:E.
    by apply HandleRequestVote_outcome in E as [|n1 [[? ->]|[? ->]]|n1 [[? ->]|[? ->]]].
  - destruct (HandleAppendEntries n req) as [[n1 resp]|] eqn:E; simplify_eq/=.
    by eapply HandleAppendEntries_notifies.
  - unfold replicateReply in Hh. repeat case_if; simplify_eq; try done.
    match type of Hh with advanceCommitIndex ?m = _ =>
      destruct (advanceCommitIndex_spec m Hc) as [(M & _ & _ & E)|(_ & E)] end;
      rewrite E in Hh; by simplify_eq.
  - exfalso. apply Hci. unfold handleClientReq. by case_match.
  - exfalso. apply Hci. by destruct (applyFor_frame _ _ _ Hh) as (_&_&_&_&_&_&->&_).
Qed.

(** C22: An append request of a current term with a previous index below -1 and at least
    one entry makes the handler index its log at a negative position: it panics, which
    stops the process. *)
Theorem negative_prev_index_panics n req :
  CurrentTerm n <= AppendEntriesRequest.Term req ->
  AppendEntriesRequest.PrevLogIndex req < -1 -> AppendEntriesRequest.Entries req <> [] ->
  handle n (EvAppendEntries req) = None.
Proof.
  intros Ht Hp He. cbn [handle]. unfold HandleAppendEntries.
  rewrite (proj2 (Z.ltb_ge _ _)) by lia.
  set (n1 := resetElectionTimer _). unfold checkPrev.
  rewrite Z.geb_leb, (proj2 (Z.leb_gt _ _)), (proj2 (Z.eqb_neq _ _)) by lia.
  cbn [mbind option_bind]. destruct (AppendEntriesRequest.Entries req) as [|e es]; [done|].
  cbn [appendLoop]. rewrite (proj2 (Z.ltb_lt _ _)) by lia.
  unfold go_index. by rewrite (proj2 (Z.leb_gt _ _)) by lia.
Qed.
End run.

(** ** Concrete runs *)

Lemma sampleNode_ok : node_ok sampleNode.
Proof.
  split_and!; [vm_compute; discriminate..|]. exists 0. split; [vm_compute; discriminate|].
  exists sampleRecords. split; reflexivity.
Qed.

(** The same candidate asks twice. *)
Definition sampleVote : RequestVoteRequest := RequestVoteRequest.mk 2 "n2" 1 1.
Definition votedOnce : Node MemWal := fst (HandleRequestVote sampleNode sampleVote).
Definition votedTwice : Node MemWal := fst (HandleRequestVote votedOnce sampleVote).

Lemma sample_runs (P : Node MemWal -> event -> Prop) :
  (forall n req, P n (EvRequestVote req)) -> runs P sampleNode [(2, "n2"); (2, "n2")] votedTwice.
Proof.
  intros HP.
  assert (forall n, castVote n (EvRequestVote sampleVote) = Some (2, "n2") ->
    [(2, "n2")] = [] ++ option_list (castVote n (EvRequestVote sampleVote)) /\
    [(2, "n2"); (2, "n2")] = [(2, "n2")] ++ option_list (castVote n (EvRequestVote sampleVote))) as Hv
    by by intros n ->.
  destruct (Hv votedOnce) as [_ ->]; [vm_compute; reflexivity|].
  apply (runs_step P sampleNode [(2, "n2")] votedOnce (EvRequestVote sampleVote) votedTwice);
    [|exact (conj I I)|apply HP|unfold votedTwice; cbn [handle]; reflexivity].
  destruct (Hv sampleNode) as [-> _]; [vm_compute; reflexivity|].
  apply (runs_step P sampleNode [] sampleNode (EvRequestVote sampleVote) votedOnce);
    [constructor|exact (conj I I)|apply HP|unfold votedOnce; cbn [handle]; reflexivity].
Qed.

Lemma sample_fits : runs term_fits sampleNode [(2, "n2"); (2, "n2")] votedTwice.
Proof. apply sample_runs. by intros n req. Qed.

Lemma vote_at_most_once_witness :
  runs term_fits sampleNode [(2, "n2"); (2, "n2")] votedTwice /\ "n2" = "n2".
Proof.
  split; [apply sample_fits|].
  apply (vote_at_most_once sampleNode [(2, "n2"); (2, "n2")] votedTwice 2 "n2" "n2");
    [apply sampleNode_ok|apply sample_fits|discriminate|discriminate|left|left].
Defined.

(** ** Where votes are forgotten *)

(** What is handled after [Stop] has closed the log leaves no trace on disk. *)
Lemma restart_stopped (n : Node MemWal) req :
  stopped n = false -> restart (fst (HandleRequestVote (Stop n) req)) = restart n.
Proof.
  intros Hs. destruct (HandleRequestVote (Stop n) req) as [n' resp] eqn:E. unfold Stop in E. rewrite Hs in E.
  by apply HandleRequestVote_outcome in E as [|n1 [[_ ->]|[_ ->]]|n1 [[_ ->]|[_ ->]]].
Qed.

(** C24: A node that is shutting down votes and forgets it, stated for the abstract log
    and any running node whose term, vote and log are on disk, as those of a started
    node always are: after Stop has closed the log, HandleRequestVote still grants an
    up-to-date candidate of a newer term its vote, but the dropped error of Append
    leaves nothing on disk, so the restarted node is back in its old term with its old
    vote and grants a vote of the same term to any other up-to-date candidate. *)
Theorem stopped_node_forgets_vote (n : Node MemWal) req1 req2 :
  node_ok n -> stopped n = false ->
  CurrentTerm n < RequestVoteRequest.Term req1 ->
  RequestVoteRequest.Term req2 = RequestVoteRequest.Term req1 ->
  candidateUpToDate n req1 -> candidateUpToDate n req2 ->
  let '(n1, resp1) := HandleRequestVote (Stop n) req1 in
  let '(n2, resp2) := HandleRequestVote (restart n1) req2 in
  RequestVoteResponse.VoteGranted resp1 = true /\ VotedFor n1 = RequestVoteRequest.CandidateID req1 /\
  VotedFor (restart n1) = VotedFor n /\ CurrentTerm (restart n1) = CurrentTerm n /\
  RequestVoteResponse.VoteGranted resp2 = true /\ VotedFor n2 = RequestVoteRequest.CandidateID req2.
Proof.
  intros (_ & _ & _ & c & _ & rs & Hrs & Hp) Hs Ht Heq Hu1 Hu2.
  destruct (restart_spec n rs Hrs) as (Hp' & _). rewrite Hp in Hp'.
  apply persistentOf_inv in Hp' as (Ht' & Hv' & Hl' & _).
  assert (CurrentTerm (Stop n) = CurrentTerm n /\ lastLog (Stop n) = lastLog n) as [HtS HlS]
    by (unfold Stop; by rewrite Hs).
  assert (lastLog (restart n) = lastLog n) as HlR by (unfold lastLog; by rewrite Hl').
  pose proof (newer_vote_granted (Stop n) req1) as G1. unfold candidateUpToDate in *. rewrite HtS, HlS in G1.
  pose proof (newer_vote_granted (restart n) req2) as G2. unfold candidateUpToDate in *. rewrite Ht', HlR in G2.
  specialize (G1 Ht Hu1). specialize (G2 ltac:(lia) Hu2). pose proof (restart_stopped n req1 Hs) as Hr.
  destruct (HandleRequestVote (Stop n) req1) as [n1 r1] eqn:E1. simpl in G1, Hr. rewrite Hr.
  destruct (HandleRequestVote (restart n) req2) as [n2 r2] eqn:E2. simpl in G2.
  pose proof (granted_vote _ _ _ _ E1 G1). pose proof (granted_vote _ _ _ _ E2 G2). by split_and!.
Qed.

(** The condition on terms in [vote_at_most_once] is needed: a peer that sends
    the largest term makes the next election start in the smallest, and the
    node votes again in terms it has voted in before. *)
Definition overflowEvents : list event :=
  [EvRequestVote sampleVote; EvRequestVote (RequestVoteRequest.mk maxInt "n3" 1 1); EvTimeout;
   EvRequestVote (RequestVoteRequest.mk 2 "n3" 1 1)].

Fixpoint handleAll (n : Node MemWal) (votes : list (Z * string)) (evs : list event) :
    option (Node MemWal * list (Z * string)) :=
  match evs with
  | [] => Some (n, votes)
  | ev :: evs => n' ← handle n ev; handleAll n' (votes ++ option_list (castVote n ev)) evs
  end.

Lemma handleAll_run evs n votes n0 n' votes' :
  Forall (fun ev => forall m, event_ok m ev) evs -> run n0 votes n ->
  handleAll n votes evs = Some (n', votes') -> run n0 votes' n'.
Proof.
  intros Hok. revert n votes. induction Hok as [|ev evs Hev _ IH]; intros n votes Hrun; cbn [handleAll].
  { by intros [= -> ->]. }
  destruct (handle n ev) as [n1|] eqn:E; cbn [mbind option_bind]; [|done]. apply IH.
  by eapply runs_step.
Qed.

Lemma term_overflow_votes_again :
  exists n', run sampleNode [(2, "n2"); (maxInt, "n3"); (minInt, "n1"); (2, "n3")] n'.
Proof.
  destruct (handleAll sampleNode [] overflowEvents) as [[n' votes]|] eqn:E; [|discriminate E].
  assert (votes = [(2, "n2"); (maxInt, "n3"); (minInt, "n1"); (2, "n3")]) as Hv.
  { change votes with (snd (default (n', votes) (Some (n', votes)))). rewrite <- E. vm_compute. reflexivity. }
  exists n'. rewrite <- Hv. apply (handleAll_run overflowEvents sampleNode [] sampleNode); [|constructor|done].
  by repeat constructor.
Qed.

Lemma crash_recovery_witness :
  let m := restart votedTwice in
  State m = Follower /\ CurrentTerm m = CurrentTerm votedTwice /\ VotedFor m = VotedFor votedTwice /\
  Log m = Log votedTwice /\ CommitIndex votedTwice <= CommitIndex m /\
  KVStore m = replay (take (Z.to_nat (CommitIndex m + 1)) (Log votedTwice)).
Proof.
  apply (crash_recovery sampleNode [(2, "n2"); (2, "n2")] votedTwice); [apply sampleNode_ok|by apply sample_runs].
Defined.

Lemma handlers_never_panic_witness : is_Some (handle sampleNode (EvAppendEntries sampleAppend)).
Proof.
  apply (handlers_never_panic sampleNode (EvAppendEntries sampleAppend)); [apply sampleNode_ok|].
  intros req [= <-]. vm_compute. discriminate.
Defined.

Lemma negative_prev_index_panics_witness :
  handle sampleNode (EvAppendEntries
    (AppendEntriesRequest.mk 1 "n2" (-2) 0 [LogEntry.mk 0 1 OpSet "x" "1"] (-1))) = None.
Proof.
  apply (negative_prev_index_panics sampleNode); [vm_compute; discriminate|reflexivity|discriminate].
Defined.

Definition sampleCommit : AppendEntriesRequest := AppendEntriesRequest.mk 1 "n2" 1 1 [] 1.

Lemma commit_wakes_apply_witness :
  exists n', handle sampleNode (EvAppendEntries sampleCommit) = Some n' /\ CommitIndex n' = 1 /\
    applyNotify n' = true.
Proof.
  destruct (handle sampleNode (EvAppendEntries sampleCommit)) as [n'|] eqn:E; [|discriminate E].
  exists n'. split; [reflexivity|].
  assert (CommitIndex n' = 1) as Hc.
  { change n' with (default n' (Some n')). rewrite <- E. reflexivity. }
  split; [exact Hc|]. apply (commit_wakes_apply sampleNode (EvAppendEntries sampleCommit) n');
    [apply sampleNode_ok|exact E|discriminate|]. rewrite Hc. vm_compute. discriminate.
Defined.

Lemma stopped_node_forgets_vote_witness :
  let '(n1, resp1) := HandleRequestVote (Stop sampleNode) (RequestVoteRequest.mk 2 "n2" 1 1) in
  let '(n2, resp2) := HandleRequestVote (restart n1) (RequestVoteRequest.mk 2 "n3" 1 1) in
  RequestVoteResponse.VoteGranted resp1 = true /\ VotedFor n1 = "n2" /\
  VotedFor (restart n1) = VotedFor sampleNode /\ CurrentTerm (restart n1) = CurrentTerm sampleNode /\
  RequestVoteResponse.VoteGranted resp2 = true /\ VotedFor n2 = "n3".
Proof.
  apply (stopped_node_forgets_vote sampleNode (RequestVoteRequest.mk 2 "n2" 1 1) (RequestVoteRequest.mk 2 "n3" 1 1));
    [apply sampleNode_ok|reflexivity|reflexivity|reflexivity|right; split; vm_compute; (reflexivity || discriminate)..].
Defined.
