(* ===== verification/Cluster.v ===== *)
(** * A cluster of nodes

    The nodes, the goroutines they have in flight and the messages between
    them, as a step relation.  Every step is one critical section of the code
    run by one node; the network may lose, delay, reorder and duplicate
    messages, and a node may crash and restart on its log at any moment, also
    between two log records that one critical section writes.

    A vote goroutine is tracked until it has been counted, because the code
    counts each one once; the responses to append requests need no tracking:
    processing one twice is allowed here, which only adds behaviours. *)

From stdpp Require Import base gmap strings list fin_sets.
From S2P Require Import Prelude Types Kv Wal State Recovery Election Replication Apply.

Abbreviation node := (Node MemWal).

(** The locals of a running [startElection]: [votes], the goroutines that
    wait for their response, and those between their two critical sections. *)
Record ballot := mkBallot { votes : Z; waiting : gset string; checked : gset string }.

(** A goroutine of [sendHeartbeats] about to run [replicateToPeer]. *)
Record task := mkTask { t_peer : string; t_next : Z; t_term : Z; t_commit : Z }.

Record proc := mkProc {
  p_node : node; p_ballots : gmap Z ballot; p_tasks : list task }.

(** Requests on their way and responses with the locals of their caller. *)
Inductive packet :=
| VoteReq (src dst : string) (req : RequestVoteRequest)
| VoteResp (src dst : string) (term : Z) (resp : RequestVoteResponse)
| AppendReq (src dst : string) (nextIdx : Z) (req : AppendEntriesRequest)
| AppendResp (src dst : string) (nextIdx : Z) (req : AppendEntriesRequest)
    (resp : AppendEntriesResponse).

Record world := mkWorld { procs : gmap string proc; net : list packet }.

Definition put (w : world) (id : string) (p : proc) (sent : list packet) : world :=
  mkWorld (<[id := p]> (procs w)) (sent ++ net w).

(** The membership and the addresses of its members. *)
Section cluster.
Context (M : gset string) (addr : string -> string).

Definition peersOf (id : string) : gmap string string :=
  set_to_map (fun p => (p, addr p)) (M ∖ {[id]}).

(** A node started on an empty log ([cmd/orrisd/main.go]). *)
Definition initNode (id : string) : node :=
  resetElectionTimer (recoverState (freshNode id (addr id) (peersOf id) (mkMemWal [] true))).

Definition initWorld : world :=
  mkWorld (set_to_map (fun id => (id, mkProc (initNode id) ∅ [])) M) [].

(** What is left of [n] when the process dies in the section that takes it to
    [n'], with the first [k] records of the log written. *)
Definition torn (n n' : node) (k : nat) : node := set_wal (mkMemWal (take k (records (wal n'))) true) n.

Definition newBallot (n : node) : ballot := mkBallot 1 (dom (Peers n)) ∅.

Definition voteReqs (n : node) (req : RequestVoteRequest) : list packet :=
  map (fun p => VoteReq (ID n) p req) (elements (dom (Peers n))).

Inductive step (w : world) : world -> Prop :=
(** the election timer fires; the term counter is not at its limit *)
| step_timeout id p n' req :
    procs w !! id = Some p -> CurrentTerm (p_node p) < maxInt ->
    startElection (p_node p) = (n', Some req) ->
    step w (put w id
      (mkProc n' (<[RequestVoteRequest.Term req := newBallot n']> (p_ballots p)) (p_tasks p))
      (voteReqs n' req))
| step_vote_request src dst req p n' resp :
    VoteReq src dst req ∈ net w -> procs w !! dst = Some p ->
    HandleRequestVote (p_node p) req = (n', resp) ->
    step w (put w dst (mkProc n' (p_ballots p) (p_tasks p))
      [VoteResp dst src (RequestVoteRequest.Term req) resp])
(** the first critical section of a vote goroutine *)
| step_vote_reply src id term resp p b n' go :
    VoteResp src id term resp ∈ net w -> procs w !! id = Some p ->
    p_ballots p !! term = Some b -> src ∈ waiting b ->
    voteReply term resp (p_node p) = (n', go) ->
    step w (put w id (mkProc n'
      (<[term := mkBallot (votes b) (waiting b ∖ {[src]})
                   (if go then checked b ∪ {[src]} else checked b)]> (p_ballots p)) (p_tasks p)) [])
(** its RPC fails *)
| step_vote_error src id term p b :
    procs w !! id = Some p -> p_ballots p !! term = Some b -> src ∈ waiting b ->
    step w (put w id (mkProc (p_node p)
      (<[term := mkBallot (votes b) (waiting b ∖ {[src]}) (checked b)]> (p_ballots p)) (p_tasks p)) [])
(** its second critical section *)
| step_count_vote src id term p b n' votes' :
    procs w !! id = Some p -> p_ballots p !! term = Some b -> src ∈ checked b ->
    countVote term (votes b) (p_node p) = (n', votes') ->
    step w (put w id (mkProc n'
      (<[term := mkBallot votes' (waiting b) (checked b ∖ {[src]})]> (p_ballots p)) (p_tasks p)) [])
(** all goroutines are done *)
| step_finish_election id term p b :
    procs w !! id = Some p -> p_ballots p !! term = Some b ->
    waiting b = ∅ -> checked b = ∅ ->
    step w (put w id (mkProc (finishElection term (votes b) (p_node p))
      (delete term (p_ballots p)) (p_tasks p)) [])
| step_heartbeats id p term commitIndex peers :
    procs w !! id = Some p ->
    sendHeartbeats (p_node p) = Some (term, commitIndex, peers) ->
    step w (put w id (mkProc (p_node p) (p_ballots p)
      (map (fun i => mkTask (pi_id i) (pi_next i) term commitIndex) peers ++ p_tasks p)) [])
| step_replicate id p t req :
    procs w !! id = Some p -> t ∈ p_tasks p ->
    replicateToPeer (p_node p) (t_next t) (t_term t) (t_commit t) = Some req ->
    step w (put w id p [AppendReq id (t_peer t) (t_next t) req])
| step_append_request src dst nextIdx req p n' resp :
    AppendReq src dst nextIdx req ∈ net w -> procs w !! dst = Some p ->
    HandleAppendEntries (p_node p) req = Some (n', resp) ->
    step w (put w dst (mkProc n' (p_ballots p) (p_tasks p)) [AppendResp dst src nextIdx req resp])
| step_append_reply src id nextIdx req resp p n' :
    AppendResp src id nextIdx req resp ∈ net w -> procs w !! id = Some p ->
    replicateReply (p_node p) src nextIdx (AppendEntriesRequest.Term req)
      (AppendEntriesRequest.PrevLogIndex req) (AppendEntriesRequest.Entries req) resp = Some n' ->
    step w (put w id (mkProc n' (p_ballots p) (p_tasks p)) [])
| step_client id p req :
    procs w !! id = Some p ->
    step w (put w id (mkProc (fst (handleClientReq (p_node p) req)) (p_ballots p) (p_tasks p)) [])
| step_apply id p n' :
    procs w !! id = Some p -> applyCommittedEntries (p_node p) = Some n' ->
    step w (put w id (mkProc n' (p_ballots p) (p_tasks p)) [])
(** crash and restart: goroutines are gone, the log file stays *)
| step_restart id p :
    procs w !! id = Some p ->
    step w (put w id (mkProc (restart (p_node p)) ∅ []) [])
(** a crash while a handler writes its log records, and restart; the other
    sections write at most one record *)
| step_crash_vote src dst req p n' resp k :
    VoteReq src dst req ∈ net w -> procs w !! dst = Some p ->
    HandleRequestVote (p_node p) req = (n', resp) -> (length (records (wal (p_node p))) <= k)%nat ->
    step w (put w dst (mkProc (restart (torn (p_node p) n' k)) ∅ []) [])
| step_crash_append src dst nextIdx req p n' resp k :
    AppendReq src dst nextIdx req ∈ net w -> procs w !! dst = Some p ->
    HandleAppendEntries (p_node p) req = Some (n', resp) -> (length (records (wal (p_node p))) <= k)%nat ->
    step w (put w dst (mkProc (restart (torn (p_node p) n' k)) ∅ []) []).

Definition reachable (w : world) : Prop := rtc step initWorld w.

End cluster.
