(* ===== verification/ClusterRun.v ===== *)
(** * Executing the cluster

    [exec] performs one step of the cluster chosen by an [action]; it is sound
    for the step relation, so that concrete schedules give reachable worlds
    by evaluation.  [demo] is such a schedule: an election among three nodes,
    a write that is replicated and committed, a crash of the follower that
    acknowledged it. *)

From stdpp Require Import base gmap strings list fin_sets.
From S2P Require Import Prelude Types Kv Wal State Recovery Election Replication Apply Cluster.

(** Messages and tasks are chosen by position. *)
Inductive action :=
| DoTimeout (id : string)
| DoVoteRequest (i : nat)
| DoVoteReply (i : nat)
| DoVoteError (id : string) (term : Z) (src : string)
| DoCountVote (id : string) (term : Z) (src : string)
| DoFinishElection (id : string) (term : Z)
| DoHeartbeats (id : string)
| DoReplicate (id : string) (k : nat)
| DoAppendRequest (i : nat)
| DoAppendReply (i : nat)
| DoClient (id : string) (req : ClientReq)
| DoApply (id : string)
| DoRestart (id : string)
| DoCrashVote (i k : nat)
| DoCrashAppend (i k : nat).

Definition exec (w : world) (act : action) : option world :=
  match act with
  | DoTimeout id =>
      p ← procs w !! id;
      if CurrentTerm (p_node p) <? maxInt then
        match startElection (p_node p) with
        | (n', Some req) => Some (put w id
            (mkProc n' (<[RequestVoteRequest.Term req := newBallot n']> (p_ballots p)) (p_tasks p))
            (voteReqs n' req))
        | (_, None) => None
        end
      else None
  | DoVoteRequest i =>
      match net w !! i with
      | Some (VoteReq src dst req) =>
          p ← procs w !! dst;
          let '(n', resp) := HandleRequestVote (p_node p) req in
          Some (put w dst (mkProc n' (p_ballots p) (p_tasks p))
                  [VoteResp dst src (RequestVoteRequest.Term req) resp])
      | _ => None
      end
  | DoVoteReply i =>
      match net w !! i with
      | Some (VoteResp src id term resp) =>
          p ← procs w !! id; b ← p_ballots p !! term;
          if decide (src ∈ waiting b) then
            let '(n', go) := voteReply term resp (p_node p) in
            Some (put w id (mkProc n'
              (<[term := mkBallot (votes b) (waiting b ∖ {[src]})
                 (if go then checked b ∪ {[src]} else checked b)]> (p_ballots p)) (p_tasks p)) [])
          else None
      | _ => None
      end
  | DoVoteError id term src =>
      p ← procs w !! id; b ← p_ballots p !! term;
      if decide (src ∈ waiting b) then
        Some (put w id (mkProc (p_node p)
          (<[term := mkBallot (votes b) (waiting b ∖ {[src]}) (checked b)]> (p_ballots p)) (p_tasks p)) [])
      else None
  | DoCountVote id term src =>
      p ← procs w !! id; b ← p_ballots p !! term;
      if decide (src ∈ checked b) then
        let '(n', votes') := countVote term (votes b) (p_node p) in
        Some (put w id (mkProc n'
          (<[term := mkBallot votes' (waiting b) (checked b ∖ {[src]})]> (p_ballots p)) (p_tasks p)) [])
      else None
  | DoFinishElection id term =>
      p ← procs w !! id; b ← p_ballots p !! term;
      if decide (waiting b = ∅ /\ checked b = ∅) then
        Some (put w id (mkProc (finishElection term (votes b) (p_node p))
          (delete term (p_ballots p)) (p_tasks p)) [])
      else None
  | DoHeartbeats id =>
      p ← procs w !! id;
      match sendHeartbeats (p_node p) with
      | Some (term, commitIndex, peers) =>
          Some (put w id (mkProc (p_node p) (p_ballots p)
            (map (fun i => mkTask (pi_id i) (pi_next i) term commitIndex) peers ++ p_tasks p)) [])
      | None => None
      end
  | DoReplicate id k =>
      p ← procs w !! id; t ← p_tasks p !! k;
      req ← replicateToPeer (p_node p) (t_next t) (t_term t) (t_commit t);
      Some (put w id p [AppendReq id (t_peer t) (t_next t) req])
  | DoAppendRequest i =>
      match net w !! i with
      | Some (AppendReq src dst nextIdx req) =>
          p ← procs w !! dst;
          '(n', resp) ← HandleAppendEntries (p_node p) req;
          Some (put w dst (mkProc n' (p_ballots p) (p_tasks p)) [AppendResp dst src nextIdx req resp])
      | _ => None
      end
  | DoAppendReply i =>
      match net w !! i with
      | Some (AppendResp src id nextIdx req resp) =>
          p ← procs w !! id;
          n' ← replicateReply (p_node p) src nextIdx (AppendEntriesRequest.Term req)
                 (AppendEntriesRequest.PrevLogIndex req) (AppendEntriesRequest.Entries req) resp;
          Some (put w id (mkProc n' (p_ballots p) (p_tasks p)) [])
      | _ => None
      end
  | DoClient id req =>
      p ← procs w !! id;
      Some (put w id (mkProc (fst (handleClientReq (p_node p) req)) (p_ballots p) (p_tasks p)) [])
  | DoApply id =>
      p ← procs w !! id; n' ← applyCommittedEntries (p_node p);
      Some (put w id (mkProc n' (p_ballots p) (p_tasks p)) [])
  | DoRestart id =>
      p ← procs w !! id; Some (put w id (mkProc (restart (p_node p)) ∅ []) [])
  | DoCrashVote i k =>
      match net w !! i with
      | Some (VoteReq src dst req) =>
          p ← procs w !! dst;
          if (length (records (wal (p_node p))) <=? k)%nat
          then Some (put w dst (mkProc (restart (torn (p_node p) (fst (HandleRequestVote (p_node p) req)) k)) ∅ []) [])
          else None
      | _ => None
      end
  | DoCrashAppend i k =>
      match net w !! i with
      | Some (AppendReq src dst nextIdx req) =>
          p ← procs w !! dst; r ← HandleAppendEntries (p_node p) req;
          if (length (records (wal (p_node p))) <=? k)%nat
          then Some (put w dst (mkProc (restart (torn (p_node p) (fst r) k)) ∅ []) [])
          else None
      | _ => None
      end
  end.

Fixpoint execAll (w : world) (acts : list action) : option world :=
  match acts with
  | [] => Some w
  | act :: acts => w' ← exec w act; execAll w' acts
  end.

Lemma exec_sound w act w' : exec w act = Some w' -> step w w'.
Proof.
  destruct act; cbn [exec]; intros He;
    repeat match goal with
    | H : context [match ?x with _ => _ end] |- _ =>
        lazymatch x with
        | Some _ => fail
        | _ => let E := fresh "E" in destruct x eqn:E; cbn [mbind option_bind] in H; try discriminate H
        end
    | H : (?x ≫= _) = Some _ |- _ =>
        let E := fresh "E" in destruct x eqn:E; cbn [mbind option_bind] in H; try discriminate H
    end; simplify_eq; bool_to_prop;
    repeat match goal with H : _ !! _ = Some _ |- _ =>
      first [apply list_elem_of_lookup_2 in H | fail] end.
  all: try (econstructor; eauto; fail).
  - by eapply (step_vote_reply w src dst term resp p0 b0 n true).
  - by eapply (step_vote_reply w src dst term resp p0 b0 n false).
  - match goal with H : _ /\ _ |- _ => destruct H end. by eapply step_finish_election.
  - apply (step_crash_vote w src dst req p0 _ (snd (HandleRequestVote (p_node p0) req)));
      [done|done|by destruct (HandleRequestVote _ _)|by apply Nat.leb_le].
  - match goal with H : HandleAppendEntries _ _ = Some ?r |- _ => destruct r as [n' resp] end.
    eapply (step_crash_append w src dst nextIdx req _ n' resp); [done|done|done|by apply Nat.leb_le].
Qed.

Lemma execAll_sound acts : forall w w', execAll w acts = Some w' -> rtc step w w'.
Proof.
  induction acts as [|act acts IH]; intros w w'; cbn [execAll]; [by intros [= ->]|].
  destruct (exec w act) as [w1|] eqn:E; cbn [mbind option_bind]; [|done]. intros Hr.
  eapply rtc_l; [by apply (exec_sound _ act)|by apply IH].
Qed.

(** ** A schedule *)

Definition three : gset string := {["n1"; "n2"; "n3"]}.
Definition local (id : string) : string := (id ++ ":9000")%string.
Definition setX : ClientReq := ClientReq.mk OpSet "x" "1" 0.

(** n1 wins term 1 with the vote of n3. *)
Definition electN1 : list action :=
  [DoTimeout "n1"; DoVoteRequest 0; DoVoteReply 0; DoCountVote "n1" 1 "n3"].
(** It replicates a write to n3, commits and applies it. *)
Definition writeX : list action :=
  [DoClient "n1" setX; DoHeartbeats "n1"; DoReplicate "n1" 0; DoAppendRequest 0; DoAppendReply 0;
   DoApply "n1"].
(** n3 learns of the commit, applies it, crashes and recovers. *)
Definition spreadX : list action :=
  [DoHeartbeats "n1"; DoReplicate "n1" 0; DoAppendRequest 0; DoApply "n3"; DoRestart "n3"].
(** n3 wins term 2 with the vote of n2. *)
Definition electN3 : list action :=
  [DoTimeout "n3"; DoVoteRequest 1; DoVoteReply 0; DoCountVote "n3" 2 "n2"].

Definition start3 : world := initWorld three local.
Definition after (w : world) (acts : list action) : world := default w (execAll w acts).

Lemma after_steps w acts : rtc step w (after w acts).
Proof.
  unfold after. destruct (execAll w acts) as [w'|] eqn:E; simpl; [|done].
  by apply (execAll_sound acts).
Qed.

Definition wElected : world := after start3 electN1.
Definition wProposed : world := after wElected (take 1 writeX).
Definition wWritten : world := after wProposed (drop 1 writeX).
Definition wSpread : world := after wWritten spreadX.
Definition wSecond : world := after wSpread electN3.

Lemma wElected_reachable : reachable three local wElected.
Proof. apply after_steps. Qed.

Lemma wWritten_steps : rtc step wElected wWritten.
Proof. etransitivity; apply after_steps. Qed.

Lemma wWritten_reachable : reachable three local wWritten.
Proof. unfold reachable; etransitivity; [apply wElected_reachable|apply wWritten_steps]. Qed.

Lemma wSecond_steps : rtc step wWritten wSecond.
Proof. etransitivity; apply after_steps. Qed.

Lemma wSecond_reachable : reachable three local wSecond.
Proof. unfold reachable; etransitivity; [apply wWritten_reachable|apply wSecond_steps]. Qed.

(** n2 dies while it handles the request: its new term is on disk, the entry
    is not. *)
Definition wTorn : world := after wProposed [DoHeartbeats "n1"; DoReplicate "n1" 1; DoCrashAppend 0 1].

Example torn_append :
  (fun p => (CurrentTerm (p_node p), Log (p_node p), records (wal (p_node p)))) <$> procs wTorn !! "n2"
  = Some (1, [], [stateRecord 1 ""]).
Proof. vm_compute. reflexivity. Qed.
