(* ===== verification/ClusterInv.v ===== *)
(** * The inductive invariant of the cluster

    History variables ([ghost]) record the log of the leader of every term,
    every vote with the voter's log at that moment, and how much of each
    leader's log every node has acknowledged.  [inv] ties them to the nodes
    and to the messages.  The heart of it is [safe]: as long as a prefix of
    the log of term [t] can still be acknowledged by a majority
    ([choosable]), every later leader has it. *)

From stdpp Require Import base gmap strings list fin_sets.
From S2P Require Import Prelude Types Kv Wal State Recovery Election Replication Apply Durability Cluster.

Record ghost := mkGhost {
  llog : gmap Z (list LogEntry);                      (* log of the term's leader *)
  lead : gmap Z string;                               (* the term's leader *)
  gvotes : gmap (string * Z) (string * list LogEntry); (* candidate, voter's log *)
  acks : gmap (string * Z) nat }.                     (* acknowledged length *)

Definition acked (g : ghost) (v : string) (t : Z) : nat := default 0%nat (acks g !! (v, t)).

(** The current term of every node. *)
Definition terms (w : world) (v : string) : Z :=
  match procs w !! v with Some p => CurrentTerm (p_node p) | None => 0 end.

(** Length [k] of the log of term [t] ends in an entry of term [t]. *)
Definition point (g : ghost) (t : Z) (k : nat) (G : list LogEntry) : Prop :=
  llog g !! t = Some G /\ (0 < k)%nat /\ exists e, G !! pred k = Some e /\ LogEntry.Term e = t.

(** Every entry stands on the prefix its leader's log had. *)
Definition log_ok (g : ghost) (L : list LogEntry) : Prop :=
  forall i e, L !! i = Some e ->
    LogEntry.Index e = Z.of_nat i /\
    exists G, llog g !! LogEntry.Term e = Some G /\ take (S i) L = take (S i) G.

Definition terms_below (L : list LogEntry) (t : Z) : Prop := Forall (fun e => LogEntry.Term e <= t) L.

(** Term and index of the last entry, as the code computes them. *)
Definition lastTerm (L : list LogEntry) : Z :=
  match last L with Some e => LogEntry.Term e | None => 0 end.

Definition upToDate (Lc Lv : list LogEntry) : Prop :=
  lastTerm Lv < lastTerm Lc \/ lastTerm Lv = lastTerm Lc /\ (length Lv <= length Lc)%nat.

Section invariant.
Context (M : gset string).

(** A majority has acknowledged length [k] of the log of term [t]. *)
Definition committed (g : ghost) (t : Z) (k : nat) : Prop :=
  exists Q, majority M Q /\ forall v, v ∈ Q -> (k <= acked g v t)%nat.

(** A majority has acknowledged it or may still do so. *)
Definition choosable (g : ghost) (tm : string -> Z) (t : Z) (k : nat) : Prop :=
  exists Q, majority M Q /\ forall v, v ∈ Q -> (k <= acked g v t)%nat \/ tm v <= t.

(** The first [c+1] entries of [L] are committed, in a term up to [T]. *)
Definition commit_ok (g : ghost) (T : Z) (L : list LogEntry) (c : Z) : Prop :=
  c < 0 \/ exists t k G, committed g t k /\ point g t k G /\ t <= T /\ c < Z.of_nat k /\
    take (Z.to_nat (c + 1)) L = take (Z.to_nat (c + 1)) G.

Record ghost_ok (g : ghost) (tm : string -> Z) : Prop := {
  g_lead T : is_Some (lead g !! T) <-> is_Some (llog g !! T);
  g_pos T G : llog g !! T = Some G -> 0 < T;
  g_quorum T c : lead g !! T = Some c ->
    exists Q, majority M Q /\ forall v, v ∈ Q -> exists L, gvotes g !! (v, T) = Some (c, L);
  g_log T G : llog g !! T = Some G -> log_ok g G /\ terms_below G T;
  g_safe T1 T2 k G1 G2 : T1 < T2 -> point g T1 k G1 -> choosable g tm T1 k ->
    llog g !! T2 = Some G2 -> take k G1 = take k G2;
  g_vote v T c L : gvotes g !! (v, T) = Some (c, L) ->
    0 < T <= tm v /\ c ∈ M /\ log_ok g L /\
    (exists Lc, gvotes g !! (c, T) = Some (c, Lc) /\ upToDate Lc L /\ terms_below Lc (T - 1)) /\
    (forall t k G, t < T -> point g t k G -> choosable g tm t k -> (k <= acked g v t)%nat ->
       take k L = take k G);
  g_ack v t : (0 < acked g v t)%nat ->
    t <= tm v /\ exists G, llog g !! t = Some G /\ (acked g v t <= length G)%nat }.

(** A running election of [id]: the votes counted are votes cast. *)
Definition ballot_ok (g : ghost) (id : string) (T : Z) (b : ballot) : Prop :=
  exists S : gset string,
    votes b = 1 + Z.of_nat (size S) /\ S ## waiting b /\ S ## checked b /\ waiting b ## checked b /\
    S ∪ waiting b ∪ checked b ⊆ M ∖ {[id]} /\
    (exists L, gvotes g !! (id, T) = Some (id, L)) /\
    (forall s, s ∈ S ∪ checked b -> exists L, gvotes g !! (s, T) = Some (id, L)).

(** A pending [replicateToPeer]. *)
Definition task_ok (g : ghost) (id : string) (n : node) (t : task) : Prop :=
  t_peer t ∈ M ∖ {[id]} /\ lead g !! t_term t = Some id /\
  exists G, llog g !! t_term t = Some G /\ 0 <= t_next t <= len G /\
    t_commit t < len G /\ commit_ok g (t_term t) G (t_commit t).

Record leader_ok (g : ghost) (id : string) (n : node) : Prop := {
  l_lead : lead g !! CurrentTerm n = Some id;
  l_log : llog g !! CurrentTerm n = Some (Log n);
  l_ack : acked g id (CurrentTerm n) = length (Log n);
  l_next p : p ∈ M ∖ {[id]} -> 0 <= go_map_int (NextIndex n) p <= len (Log n);
  l_match p m : MatchIndex n !! p = Some m -> m + 1 <= Z.of_nat (acked g p (CurrentTerm n)) }.

Record node_inv (g : ghost) (tm : string -> Z) (id : string) (n : node) : Prop := {
  n_id : ID n = id;
  n_mem : id ∈ M;
  n_peers : dom (Peers n) = M ∖ {[id]};
  n_tm : tm id = CurrentTerm n;
  n_term : 0 <= CurrentTerm n;
  n_wal : durable n (CommitIndex n);
  n_log : log_ok g (Log n);
  n_log_terms : terms_below (Log n) (CurrentTerm n);
  n_voted : VotedFor n <> "" -> exists L, gvotes g !! (id, CurrentTerm n) = Some (VotedFor n, L);
  n_vote c L : gvotes g !! (id, CurrentTerm n) = Some (c, L) -> VotedFor n = c;
  n_cand : State n = Candidate ->
    gvotes g !! (id, CurrentTerm n) = Some (id, Log n) /\ lead g !! CurrentTerm n <> Some id;
  n_lead : State n = Leader -> leader_ok g id n;
  n_led T : lead g !! T = Some id -> T <= CurrentTerm n;
  n_match : dom (MatchIndex n) ⊆ M ∖ {[id]};
  n_acks t k G : point g t k G -> choosable g tm t k -> (k <= acked g id t)%nat ->
    take k (Log n) = take k G;
  n_commit : -1 <= CommitIndex n < len (Log n) /\ commit_ok g (CurrentTerm n) (Log n) (CommitIndex n);
  n_kv : kv_synced n /\ LastApplied n <= CommitIndex n }.

Record proc_inv (g : ghost) (tm : string -> Z) (id : string) (p : proc) : Prop := {
  p_inv : node_inv g tm id (p_node p);
  p_bal T b : p_ballots p !! T = Some b -> ballot_ok g id T b;
  p_task t : t ∈ p_tasks p -> task_ok g id (p_node p) t }.

(** What an append request says about the log of its leader. *)
Definition append_ok (g : ghost) (src : string) (nextIdx : Z) (req : AppendEntriesRequest) : Prop :=
  let T := AppendEntriesRequest.Term req in
  let prev := AppendEntriesRequest.PrevLogIndex req in
  let es := AppendEntriesRequest.Entries req in
  lead g !! T = Some src /\ prev = nextIdx - 1 /\ -1 <= prev /\
  exists G, llog g !! T = Some G /\
    (0 <= prev -> exists e, G !! Z.to_nat prev = Some e /\
                  LogEntry.Term e = AppendEntriesRequest.PrevLogTerm req) /\
    (Z.to_nat (prev + 1) + length es <= length G)%nat /\
    es = take (length es) (drop (Z.to_nat (prev + 1)) G) /\
    AppendEntriesRequest.LeaderCommit req <= prev + len es /\
    commit_ok g T G (AppendEntriesRequest.LeaderCommit req).

Definition packet_ok (g : ghost) (pk : packet) : Prop :=
  match pk with
  | VoteReq src dst req =>
      RequestVoteRequest.CandidateID req = src /\
      exists L, gvotes g !! (src, RequestVoteRequest.Term req) = Some (src, L) /\
        RequestVoteRequest.LastLogIndex req = len L - 1 /\
        RequestVoteRequest.LastLogTerm req = lastTerm L
  | VoteResp src dst term resp =>
      RequestVoteResponse.VoteGranted resp = true ->
      exists L, gvotes g !! (src, term) = Some (dst, L)
  | AppendReq src dst nextIdx req => dst ∈ M ∖ {[src]} /\ append_ok g src nextIdx req
  | AppendResp src dst nextIdx req resp =>
      src ∈ M ∖ {[dst]} /\ append_ok g dst nextIdx req /\
      (AppendEntriesResponse.Success resp = true ->
       AppendEntriesRequest.PrevLogIndex req + 1 + len (AppendEntriesRequest.Entries req) <=
       Z.of_nat (acked g src (AppendEntriesRequest.Term req)))
  end.

Record inv (g : ghost) (w : world) : Prop := {
  i_dom : dom (procs w) = M;
  i_ghost : ghost_ok g (terms w);
  i_procs id p : procs w !! id = Some p -> proc_inv g (terms w) id p;
  i_net pk : pk ∈ net w -> packet_ok g pk }.

(** ** Growing histories *)

(** Node [a] acts: histories grow, and only at [a]. *)
Record ext (a : string) (g : ghost) (tm : string -> Z) (g' : ghost) (tm' : string -> Z) : Prop := {
  e_llog T G : llog g !! T = Some G -> exists G', llog g' !! T = Some G' /\ G `prefix_of` G';
  e_lead : lead g ⊆ lead g';
  e_gvotes : gvotes g ⊆ gvotes g';
  e_ack v t : (acked g v t <= acked g' v t)%nat;
  e_ack_new v t : (acked g v t < acked g' v t)%nat -> tm v <= t /\ v = a;
  e_tm v : tm v <= tm' v;
  e_tm_other v : v <> a -> tm' v = tm v;
  e_lead_other T v : v <> a -> lead g' !! T = Some v -> lead g !! T = Some v;
  e_llog_other T v : v <> a -> lead g !! T = Some v -> llog g' !! T = llog g !! T;
  e_votes_other T v : v <> a -> gvotes g' !! (v, T) = gvotes g !! (v, T) }.

(** What every later moment has: longer leader logs, the same leaders, more
    acknowledgements. *)
Record later (g g' : ghost) : Prop := {
  lt_llog T G : llog g !! T = Some G -> exists G', llog g' !! T = Some G' /\ G `prefix_of` G';
  lt_lead : lead g ⊆ lead g';
  lt_ack v t : (acked g v t <= acked g' v t)%nat }.

#[global] Instance later_preorder : PreOrder later.
Proof.
  split.
  - intros g. split; [eauto|done|done].
  - intros g1 g2 g3 [A1 B1 C1] [A2 B2 C2]. split.
    + intros T G HG. destruct (A1 T G HG) as (G' & HG' & ?), (A2 T G' HG') as (G'' & HG'' & ?).
      exists G''. split; [done|]. by transitivity G'.
    + by transitivity (lead g2).
    + intros v t. specialize (C1 v t). specialize (C2 v t). lia.
Qed.

Section later_lemmas.
Context {g g' : ghost} (E : later g g').

Lemma committed_later t k : committed g t k -> committed g' t k.
Proof.
  intros (Q & HQ & Ha). exists Q. split; [done|]. intros v Hv.
  pose proof (lt_ack _ _ E v t). specialize (Ha v Hv). lia.
Qed.

Lemma llog_later T G i : llog g !! T = Some G -> (i <= length G)%nat ->
  exists G', llog g' !! T = Some G' /\ take i G' = take i G /\ (length G <= length G')%nat.
Proof.
  intros HG Hi. destruct (lt_llog _ _ E T G HG) as (G' & HG' & [x ->]).
  exists (G ++ x). split; [done|]. rewrite length_app. split; [by rewrite take_app_le|lia].
Qed.

Lemma point_later t k G : point g t k G ->
  exists G', point g' t k G' /\ take k G' = take k G.
Proof.
  intros (HG & Hk & e & He & Ht). pose proof (lookup_lt_Some _ _ _ He) as Hl.
  destruct (llog_later t G k HG ltac:(lia)) as (G' & HG' & Htk & _).
  exists G'. split; [|done]. split; [done|]. split; [done|]. exists e. split; [|done].
  rewrite <- He. apply (take_eq_lookup k); [lia|done].
Qed.

Lemma log_ok_later L : log_ok g L -> log_ok g' L.
Proof.
  intros HL i e He. destruct (HL i e He) as (Hi & G & HG & Htk). split; [done|].
  assert (S i <= length G)%nat as Hlen.
  { apply (take_eq_length _ _ L); [|done]. apply lookup_lt_Some in He. lia. }
  destruct (llog_later _ _ _ HG Hlen) as (G' & HG' & Ht' & _).
  exists G'. split; [done|]. congruence.
Qed.

Lemma commit_ok_later T T' L c : T <= T' -> commit_ok g T L c -> commit_ok g' T' L c.
Proof.
  intros HT [?|(t & k & G & Hc & Hp & Ht & Hck & Htk)]; [by left|right].
  destruct (point_later _ _ _ Hp) as (G' & Hp' & Hk').
  exists t, k, G'. split; [by apply committed_later|]. split; [done|]. split; [lia|]. split; [done|].
  rewrite Htk. symmetry. apply (take_eq_le k); [lia|done].
Qed.

End later_lemmas.

Lemma ext_later a g tm g' tm' : ext a g tm g' tm' -> later g g'.
Proof. intros []. by split. Qed.

Section mono.
Context {a : string} {g g' : ghost} {tm tm' : string -> Z} (E : ext a g tm g' tm').

Lemma choosable_anti t k : choosable g' tm' t k -> choosable g tm t k.
Proof.
  intros (Q & HQ & Ha). exists Q. split; [done|]. intros v Hv.
  pose proof (e_tm _ _ _ _ _ E v). destruct (Ha v Hv) as [Hk|Ht]; [|right; lia].
  destruct (decide (k <= acked g v t)%nat) as [?|Hn]; [by left|right].
  destruct (e_ack_new _ _ _ _ _ E v t); lia.
Qed.

Lemma llog_take T G i : llog g !! T = Some G -> (i <= length G)%nat ->
  exists G', llog g' !! T = Some G' /\ take i G' = take i G /\ (length G <= length G')%nat.
Proof. apply llog_later, (ext_later _ _ _ _ _ E). Qed.

Lemma log_ok_mono L : log_ok g L -> log_ok g' L.
Proof. apply log_ok_later, (ext_later _ _ _ _ _ E). Qed.

Lemma commit_ok_mono T T' L c : T <= T' -> commit_ok g T L c -> commit_ok g' T' L c.
Proof. apply commit_ok_later, (ext_later _ _ _ _ _ E). Qed.

End mono.

Lemma commit_ok_take g T L L' c :
  take (Z.to_nat (c + 1)) L' = take (Z.to_nat (c + 1)) L -> commit_ok g T L c -> commit_ok g T L' c.
Proof.
  intros Ht [?|(t & k & G & Hc & Hp & HtT & Hck & Htk)]; [by left|right].
  exists t, k, G. by rewrite Ht.
Qed.

(** A point of the later history inside the earlier log. *)
Lemma point_back a g g' tm tm' t k G G' :
  ext a g tm g' tm' -> point g' t k G' -> llog g !! t = Some G -> (k <= length G)%nat ->
  point g t k G /\ take k G' = take k G.
Proof.
  intros E (HG' & Hk & e & He & Ht) HG Hl.
  destruct (llog_take E t G k HG Hl) as (G2 & HG2 & Htk & _). simplify_eq.
  split; [|done]. split; [done|]. split; [done|]. exists e. split; [|done].
  rewrite <- He. symmetry. apply (take_eq_lookup k); [lia|done].
Qed.

Lemma acked_other a g g' tm tm' v t :
  ext a g tm g' tm' -> v <> a -> acked g' v t = acked g v t.
Proof.
  intros E Hne. pose proof (e_ack _ _ _ _ _ E v t).
  destruct (decide (acked g v t < acked g' v t)%nat) as [Hlt|]; [|lia].
  by apply (e_ack_new _ _ _ _ _ E) in Hlt as [_ ->].
Qed.

Lemma leader_ok_mono a g g' tm tm' id n :
  ext a g tm g' tm' -> id <> a -> leader_ok g id n -> leader_ok g' id n.
Proof.
  intros E Hne [Hl Hg Ha Hn Hm]. split.
  - by apply (lookup_weaken _ _ _ _ Hl), (e_lead _ _ _ _ _ E).
  - by rewrite (e_llog_other _ _ _ _ _ E _ id).
  - by rewrite (acked_other _ _ _ _ _ _ _ E Hne).
  - done.
  - intros p m Hp. pose proof (e_ack _ _ _ _ _ E p (CurrentTerm n)). apply Hm in Hp. lia.
Qed.

(** The nodes that do not act. *)
Lemma node_inv_mono a g g' tm tm' id n :
  ext a g tm g' tm' -> ghost_ok g tm -> id <> a -> node_inv g tm id n -> node_inv g' tm' id n.
Proof.
  intros E Hg Hne [Hid Hmem Hpe Htm Hte Hw Hlog Hlt Hvd Hv Hca Hle Hled Hma Hac Hco Hkv]. split; try done.
  - by rewrite (e_tm_other _ _ _ _ _ E).
  - by apply (log_ok_mono E).
  - intros Hn. destruct (Hvd Hn) as [L HL]. exists L.
    by rewrite (e_votes_other _ _ _ _ _ E).
  - intros c L. rewrite (e_votes_other _ _ _ _ _ E) by done. apply Hv.
  - intros Hs. destruct (Hca Hs) as [HL Hnl]. split; [by rewrite (e_votes_other _ _ _ _ _ E)|].
    intros Hl. by apply (e_lead_other _ _ _ _ _ E) in Hl.
  - intros Hs. by eapply leader_ok_mono; eauto.
  - intros T Hl. apply (e_lead_other _ _ _ _ _ E) in Hl; auto.
  - intros t k G Hp Hch Hk. rewrite (acked_other _ _ _ _ _ _ _ E Hne) in Hk.
    assert (0 < acked g id t)%nat as Hpos by (destruct Hp as (_ & ? & _); lia).
    destruct (g_ack _ _ Hg id t Hpos) as (_ & G0 & HG0 & Hl0).
    destruct (point_back _ _ _ _ _ _ _ _ _ E Hp HG0 ltac:(lia)) as [Hp0 ->].
    eapply Hac; [done| |done]. by apply (choosable_anti E).
  - destruct Hco as [? Hco]. split; [done|]. by apply (commit_ok_mono E (CurrentTerm n)).
Qed.

Lemma ballot_ok_mono g g' id T b : gvotes g ⊆ gvotes g' -> ballot_ok g id T b -> ballot_ok g' id T b.
Proof.
  intros Hsub (S & H1 & H2 & H3 & H4 & H5 & [L HL] & H6). exists S. split_and!; try done.
  - exists L. by eapply lookup_weaken.
  - intros s Hs. destruct (H6 s Hs) as [L' HL']. exists L'. by eapply lookup_weaken.
Qed.

Lemma task_ok_mono a g g' tm tm' id n n' t :
  ext a g tm g' tm' -> task_ok g id n t -> task_ok g' id n' t.
Proof.
  intros E (Hp & Hl & G & HG & Hn & Hc & Hco). split; [done|].
  split; [by apply (lookup_weaken _ _ _ _ Hl), (e_lead _ _ _ _ _ E)|].
  destruct (llog_take E _ _ (length G) HG ltac:(lia)) as (G' & HG' & Htk & Hlen).
  exists G'. split; [done|]. split; [lia|]. split; [lia|].
  apply (commit_ok_take _ _ G); [|by apply (commit_ok_mono E (t_term t))].
  apply (take_eq_le (length G)); [lia|done].
Qed.

Lemma append_ok_mono a g g' tm tm' src nx req :
  ext a g tm g' tm' -> append_ok g src nx req -> append_ok g' src nx req.
Proof.
  intros E (Hl & Hp & Hp1 & G & HG & Hpe & Hlen & Hes & Hlc & Hco).
  split; [by apply (lookup_weaken _ _ _ _ Hl), (e_lead _ _ _ _ _ E)|].
  split; [done|]. split; [done|].
  destruct (e_llog _ _ _ _ _ E _ _ HG) as (G' & HG' & [x ->]).
  exists (G ++ x). split; [done|]. split.
  { intros H0. destruct (Hpe H0) as (e & He & Ht). exists e. split; [|done].
    by apply lookup_app_l_Some. }
  split; [len_lia|]. split.
  { rewrite drop_app_le by lia. rewrite take_app_le by len_lia. done. }
  split; [done|]. apply (commit_ok_take _ _ G); [|by apply (commit_ok_mono E _ _ _ _ (Z.le_refl _))].
  rewrite take_app_le; [done|]. lia.
Qed.

Lemma packet_ok_mono a g g' tm tm' pk :
  ext a g tm g' tm' -> packet_ok g pk -> packet_ok g' pk.
Proof.
  intros E. destruct pk as [src dst req|src dst term resp|src dst nx req|src dst nx req resp]; simpl.
  - intros (Hc & L & HL & Hi & Ht). split; [done|]. exists L.
    split_and!; try done. by apply (lookup_weaken _ _ _ _ HL), (e_gvotes _ _ _ _ _ E).
  - intros Hv Hg. destruct (Hv Hg) as [L HL]. exists L.
    by apply (lookup_weaken _ _ _ _ HL), (e_gvotes _ _ _ _ _ E).
  - intros [? ?]. split; [done|]. by apply (append_ok_mono a g g' tm tm').
  - intros (? & Ha & Hs). split; [done|]. split; [by apply (append_ok_mono a g g' tm tm')|]. intros Hsu.
    pose proof (e_ack _ _ _ _ _ E src (AppendEntriesRequest.Term req)). apply Hs in Hsu. lia.
Qed.

(** ** Updating one node of a world *)

Lemma terms_put_eq w a p sent : terms (put w a p sent) a = CurrentTerm (p_node p).
Proof. unfold terms, put. simpl. by rewrite lookup_insert_eq. Qed.

Lemma terms_put_ne w a p sent v : v <> a -> terms (put w a p sent) v = terms w v.
Proof. intros ?. unfold terms, put. simpl. by rewrite lookup_insert_ne. Qed.

Lemma inv_put g g' w a p p' sent :
  inv g w -> procs w !! a = Some p ->
  ext a g (terms w) g' (terms (put w a p' sent)) ->
  ghost_ok g' (terms (put w a p' sent)) ->
  proc_inv g' (terms (put w a p' sent)) a p' ->
  Forall (packet_ok g') sent ->
  inv g' (put w a p' sent).
Proof.
  intros [Hdom Hgh Hpr Hnet] Hp E Hg' Hp' Hs. split.
  - simpl. rewrite dom_insert_L, Hdom. assert (a ∈ M); [|set_solver].
    rewrite <- Hdom. by apply elem_of_dom_2 in Hp.
  - done.
  - intros id q. simpl. destruct (decide (id = a)) as [->|Hne].
    { rewrite lookup_insert_eq. by intros [= <-]. }
    rewrite lookup_insert_ne by done. intros Hq. destruct (Hpr id q Hq) as [Hn Hb Ht]. split.
    + by eapply node_inv_mono.
    + intros T b Hb'. eapply ballot_ok_mono; [apply (e_gvotes _ _ _ _ _ E)|by apply Hb].
    + intros t Ht'. eapply task_ok_mono; [done|by apply Ht].
  - intros pk. simpl. intros [Hin|Hin]%elem_of_app.
    + rewrite Forall_forall in Hs. by apply Hs.
    + eapply packet_ok_mono; [done|by apply Hnet].
Qed.

(** Only the node of [a] changes; its goroutines carry over. *)
Definition setNode (w : world) (a : string) (p : proc) (n : node) : world :=
  put w a (mkProc n (p_ballots p) (p_tasks p)) [].

Lemma inv_setNode g g' w a p n' :
  inv g w -> procs w !! a = Some p ->
  ext a g (terms w) g' (terms (setNode w a p n')) ->
  ghost_ok g' (terms (setNode w a p n')) ->
  node_inv g' (terms (setNode w a p n')) a n' ->
  inv g' (setNode w a p n').
Proof.
  intros Hinv Hp E Hg Hn. apply (inv_put g g' w a p); [done..| |done].
  destruct (i_procs _ _ Hinv a p Hp) as [_ Hb Ht]. split; [done|..]; simpl.
  - intros T b HT. eapply ballot_ok_mono; [apply (e_gvotes _ _ _ _ _ E)|by apply Hb].
  - intros t Hti. eapply task_ok_mono; [done|by apply Ht].
Qed.

(** A history is an extension of itself when terms only grow at [a]. *)
Lemma ext_refl a g tm tm' :
  (forall v, tm v <= tm' v) -> (forall v, v <> a -> tm' v = tm v) -> ext a g tm g tm'.
Proof. intros H1 H2. split; try done; try lia. eauto. Qed.

Lemma ext_self g w a : ext a g (terms w) g (terms w).
Proof. by apply ext_refl. Qed.

Lemma ghost_ok_terms g tm tm' :
  ghost_ok g tm -> (forall v, tm v <= tm' v) -> ghost_ok g tm'.
Proof.
  intros [H1 H2 H3 H4 H5 H6 H7] Htm.
  assert (forall t k, choosable g tm' t k -> choosable g tm t k) as Hch.
  { intros t k (Q & HQ & Hv). exists Q. split; [done|]. intros v Hin.
    specialize (Htm v). destruct (Hv v Hin); [by left|right; lia]. }
  split; try done.
  - intros T1 T2 k G1 G2 HT Hp Hc. apply (H5 T1); auto.
  - intros v T c L HL. destruct (H6 v T c L HL) as (Ht & Hc & Hlo & Hup & Hpre).
    specialize (Htm v). split; [lia|]. split_and!; try done. intros t k G Hlt Hp Hcho. apply (Hpre t); auto.
  - intros v t Ha. destruct (H7 v t Ha). specialize (Htm v). split; [lia|done].
Qed.

Lemma ghost_ok_ext_eq g tm tm' : ghost_ok g tm -> (forall v, tm' v = tm v) -> ghost_ok g tm'.
Proof. intros Hg He. apply (ghost_ok_terms g tm); [done|]. intros v. rewrite He. lia. Qed.

(** [setNode] with a term that did not go down, histories unchanged. *)
Lemma inv_setNode_same g w a p n' :
  inv g w -> procs w !! a = Some p -> CurrentTerm (p_node p) <= CurrentTerm n' ->
  node_inv g (terms (setNode w a p n')) a n' ->
  inv g (setNode w a p n').
Proof.
  intros Hinv Hp Ht Hn.
  assert (forall v, terms w v <= terms (setNode w a p n') v) as Hle.
  { intros v. destruct (decide (v = a)) as [->|Hne].
    - unfold setNode. rewrite terms_put_eq. simpl. unfold terms. by rewrite Hp.
    - unfold setNode. rewrite terms_put_ne; [lia|done]. }
  apply (inv_setNode g g w a p n'); [done..| |by apply (ghost_ok_terms g (terms w)); [apply Hinv|]|done].
  apply ext_refl; [done|]. intros v Hv. by apply terms_put_ne.
Qed.
End invariant.
