(* ===== verification/ClusterSteps.v ===== *)
(** * Preservation of the cluster invariant

    One lemma per kind of change a critical section makes to a node: local
    bookkeeping, a newer term, a vote, a candidacy, a promotion, a proposal,
    an accepted or refused append request, a commit.  The steps of the
    cluster are compositions of these. *)

From stdpp Require Import base gmap strings list fin_sets.
From S2P Require Import Prelude Types Kv Wal State Recovery Election Replication Apply Durability Cluster ClusterInv.

Section steps.
Context (M : gset string) (HM : "" ∉ M).

Abbreviation inv := (inv M).
Abbreviation node_inv := (node_inv M).
Abbreviation ghost_ok := (ghost_ok M).
Abbreviation choosable := (choosable M).
Abbreviation leader_ok := (leader_ok M).

Lemma choosable_terms g tm tm' t k :
  (forall v, tm v <= tm' v) -> choosable g tm' t k -> choosable g tm t k.
Proof.
  intros Htm (Q & HQ & Hv). exists Q. split; [done|]. intros v Hin.
  specialize (Htm v). destruct (Hv v Hin); [by left|right; lia].
Qed.

Lemma setNode_lookup w a p n : procs (setNode w a p n) !! a = Some (mkProc n (p_ballots p) (p_tasks p)).
Proof. unfold setNode, put. simpl. by rewrite lookup_insert_eq. Qed.

Lemma setNode_setNode w a p n1 p1 n2 :
  procs (setNode w a p n1) !! a = Some p1 ->
  setNode (setNode w a p n1) a p1 n2 = setNode w a p n2.
Proof.
  rewrite setNode_lookup. intros [= <-]. unfold setNode, put. simpl.
  by rewrite insert_insert_eq.
Qed.

Section at_node.
Context (g : ghost) (w : world) (a : string) (p : proc).
Context (Hinv : inv g w) (Hp : procs w !! a = Some p).
Let n : node := p_node p.

Lemma Hnode : node_inv g (terms w) a n.
Proof. apply (i_procs _ _ _ Hinv a p Hp). Qed.

Lemma a_nonempty : a <> "".
Proof. intros Ha. apply HM. rewrite <- Ha. apply Hnode. Qed.

Lemma terms_setNode n' v :
  CurrentTerm n <= CurrentTerm n' -> terms w v <= terms (setNode w a p n') v.
Proof.
  intros Ht. unfold setNode. destruct (decide (v = a)) as [->|Hne].
  - rewrite terms_put_eq. simpl. unfold terms. by rewrite Hp.
  - rewrite terms_put_ne; [lia|done].
Qed.

Lemma terms_setNode_a n' : terms (setNode w a p n') a = CurrentTerm n'.
Proof. unfold setNode. by rewrite terms_put_eq. Qed.

(** Bookkeeping that touches neither term, vote, log nor commit index. *)
Lemma inv_local n' :
  ID n' = ID n -> Peers n' = Peers n -> CurrentTerm n' = CurrentTerm n -> VotedFor n' = VotedFor n ->
  Log n' = Log n -> CommitIndex n' = CommitIndex n -> durable n' (CommitIndex n) ->
  (State n' = State n \/ State n' = Follower) -> dom (MatchIndex n') ⊆ M ∖ {[a]} ->
  (State n' = Leader -> leader_ok g a n') -> kv_synced n' -> LastApplied n' <= CommitIndex n ->
  inv g (setNode w a p n').
Proof.
  intros Hid Hpe Hte Hvo Hlo Hci Hdu Hst Hma Hle Hkv Hla.
  apply inv_setNode_same; [done|done|fold n; lia|].
  pose proof (fun v => terms_setNode n' v ltac:(lia)) as Htm.
  destruct Hnode as [N1 N2 N3 N4 N5 N6 N7 N8 N9 N10 N11 N12 N13 N14 N15 N16 N17].
  split; rewrite ?Hid, ?Hpe, ?Hte, ?Hvo, ?Hlo, ?Hci; try done.
  - by rewrite terms_setNode_a.
  - intros Hs. apply N11. destruct Hst as [E|E]; congruence.
  - intros t k G Hpt Hch. apply (N15 t k G Hpt). by eapply choosable_terms.
Qed.

(** A higher term: the node forgets its role and its vote. *)
Lemma inv_stepDown t : CurrentTerm n < t -> inv g (setNode w a p (stepDown t n)).
Proof.
  intros Ht. apply inv_setNode_same; [done|done|simpl; fold n; lia|].
  pose proof (fun v => terms_setNode (stepDown t n) v ltac:(simpl; lia)) as Htm.
  destruct Hnode as [N1 N2 N3 N4 N5 N6 N7 N8 N9 N10 N11 N12 N13 N14 N15 N16 N17].
  split; try done; simpl.
  - by rewrite terms_setNode_a.
  - lia.
  - by apply durable_stepDown.
  - eapply Forall_impl; [done|]. simpl. intros; lia.
  - intros c L HL. apply (g_vote _ _ _ (i_ghost _ _ _ Hinv)) in HL as [Hle _].
    rewrite N4 in Hle. fold n in Hle. lia.
  - intros T HT. apply N13 in HT. fold n in HT. lia.
  - intros t' k G Hpt Hch. apply (N15 t' k G Hpt). by eapply choosable_terms.
  - destruct N16 as [? Hco]. split; [done|].
    apply (commit_ok_mono M (ext_self g w a) (CurrentTerm n)); [lia|done].
Qed.

(** ** Votes *)

Definition addVote (v : string) (T : Z) (c : string) (L : list LogEntry) : ghost :=
  mkGhost (llog g) (lead g) (<[(v, T) := (c, L)]> (gvotes g)) (acks g).

Lemma ghost_ok_addVote tm T c L :
  ghost_ok g tm -> gvotes g !! (a, T) = None -> 0 < T <= tm a -> c ∈ M -> log_ok g L ->
  (c = a /\ terms_below L (T - 1) \/
   exists Lc, gvotes g !! (c, T) = Some (c, Lc) /\ upToDate Lc L /\ terms_below Lc (T - 1)) ->
  (forall t k G, t < T -> point g t k G -> choosable g tm t k -> (k <= acked g a t)%nat ->
     take k L = take k G) ->
  ghost_ok (addVote a T c L) tm.
Proof.
  intros [G1 G2 G3 G4 G5 G6 G7] Hnone HT Hc HL Hup Hpre.
  assert (gvotes g ⊆ gvotes (addVote a T c L)) as Hsub by by apply insert_subseteq.
  split; try done.
  - intros T' c' Hl. destruct (G3 T' c' Hl) as (Q & HQ & Hv). exists Q. split; [done|].
    intros v Hin. destruct (Hv v Hin) as [L' HL']. exists L'. by eapply lookup_weaken.
  - intros v T' c' L' HL'. simpl in HL'. apply lookup_insert_Some in HL' as [[[= <- <-] [= <- <-]]|[Hne HL']].
    + split; [done|]. split; [done|]. split; [done|]. split; [|done].
      destruct Hup as [[-> Hb]|(Lc & HLc & Hu & Hb)].
      * exists L. simpl. rewrite lookup_insert_eq. split; [done|]. split; [by right|done].
      * exists Lc. split; [by eapply lookup_weaken|done].
    + destruct (G6 _ _ _ _ HL') as ([? ?] & ? & ? & (Lc & HLc & ?) & ?). split_and!; try done.
      exists Lc. split; [by eapply lookup_weaken|done].
Qed.

Lemma ext_addVote tm tm' T c L :
  gvotes g !! (a, T) = None -> (forall v, tm v <= tm' v) -> (forall v, v <> a -> tm' v = tm v) ->
  ext a g tm (addVote a T c L) tm'.
Proof.
  intros Hnone H1 H2. split; try done; try (intros v t; unfold acked; simpl; lia).
  - eauto.
  - by apply insert_subseteq.
  - intros T' v Hne. simpl. rewrite lookup_insert_ne; [done|]. congruence.
Qed.

Lemma no_vote_yet : VotedFor n = "" -> gvotes g !! (a, CurrentTerm n) = None.
Proof.
  intros Hv. destruct (gvotes g !! (a, CurrentTerm n)) as [[c L]|] eqn:E; [|done]. exfalso.
  apply (g_vote _ _ _ (i_ghost _ _ _ Hinv)) in E as HE. destruct HE as (_ & Hc & _).
  apply (n_vote _ _ _ _ _ Hnode) in E. apply HM. congruence.
Qed.

(** The node votes for [c] in its current term. *)
Lemma inv_cast c Lc :
  VotedFor n = "" -> c ∈ M -> gvotes g !! (c, CurrentTerm n) = Some (c, Lc) -> upToDate Lc (Log n) ->
  inv (addVote a (CurrentTerm n) c (Log n))
    (setNode w a p (resetElectionTimer
       (walAppend (stateRecord (CurrentTerm n) c) (set_VotedFor c n)))).
Proof.
  intros Hv Hc HLc Hup. set (n' := resetElectionTimer _).
  pose proof (no_vote_yet Hv) as Hnone.
  pose proof (fun v => terms_setNode n' v ltac:(simpl; lia)) as Htm.
  pose proof (ghost_ok_terms _ _ _ _ (i_ghost _ _ _ Hinv) Htm) as Hg.
  pose proof Hnode as [N1 N2 N3 N4 N5 N6 N7 N8 N9 N10 N11 N12 N13 N14 N15 N16 N17].
  assert (0 < CurrentTerm n /\ terms_below Lc (CurrentTerm n - 1)) as [Hpos Hbelow].
  { apply (g_vote _ _ _ Hg) in HLc as HL2. destruct HL2 as (? & _ & _ & (Lc' & HLc' & _ & ?) & _).
    rewrite HLc in HLc'; simplify_eq. split; [lia|done]. }
  apply (inv_setNode _ g _ w a p n'); [done|done| | |].
  - apply ext_addVote; [done..|]. intros v Hne. by apply terms_put_ne.
  - apply ghost_ok_addVote; try done.
    + rewrite terms_setNode_a. simpl. lia.
    + right. by exists Lc.
    + intros t k G _ Hpt Hch. apply (N15 t k G Hpt). by eapply choosable_terms.
  - split; try done; simpl.
    + by rewrite terms_setNode_a.
    + apply (durable_state n _ (CurrentTerm n) c); try done.
    + intros _. rewrite lookup_insert_eq. by eexists.
    + intros c' L'. rewrite lookup_insert_eq. by intros [= <- <-].
    + intros Hs. destruct (N11 Hs) as [HL _]. congruence.
    + intros Hs. destruct (N12 Hs) as [? ? ? ? ?]. by split.
    + intros t k G Hpt Hch. apply (N15 t k G Hpt). by eapply choosable_terms.
Qed.

(** The node starts an election in the next term. *)
Lemma inv_candidate :
  CurrentTerm n < maxInt ->
  let T := CurrentTerm n + 1 in
  let n' := resetElectionTimer (walAppend (stateRecord T (ID n))
              (set_VotedFor (ID n) (set_CurrentTerm T (set_State Candidate n)))) in
  inv (addVote a T a (Log n)) (setNode w a p n').
Proof.
  intros Hmax T n'.
  pose proof Hnode as [N1 N2 N3 N4 N5 N6 N7 N8 N9 N10 N11 N12 N13 N14 N15 N16 N17].
  assert (gvotes g !! (a, T) = None) as Hnone.
  { destruct (gvotes g !! (a, T)) as [[c L]|] eqn:E; [|done]. exfalso.
    apply (g_vote _ _ _ (i_ghost _ _ _ Hinv)) in E as [Hle _]. unfold T in Hle. lia. }
  pose proof (fun v => terms_setNode n' v ltac:(simpl; lia)) as Htm.
  pose proof (ghost_ok_terms _ _ _ _ (i_ghost _ _ _ Hinv) Htm) as Hg.
  apply (inv_setNode _ g _ w a p n'); [done|done| | |].
  - apply ext_addVote; [done..|]. intros v Hne. by apply terms_put_ne.
  - apply ghost_ok_addVote; try done.
    + rewrite terms_setNode_a. simpl. unfold T. lia.
    + left. split; [done|]. unfold T. by replace (CurrentTerm n + 1 - 1) with (CurrentTerm n) by lia.
    + intros t k G _ Hpt Hch. apply (N15 t k G Hpt). by eapply choosable_terms.
  - split; try done; simpl.
    + by rewrite terms_setNode_a.
    + lia.
    + by apply (durable_state n _ T (ID n)).
    + eapply Forall_impl; [done|]. simpl. intros; lia.
    + intros _. rewrite lookup_insert_eq, N1. by eexists.
    + intros c' L'. rewrite lookup_insert_eq, N1. by intros [= <- <-].
    + intros _. rewrite lookup_insert_eq. split; [done|]. intros Hl%N13. unfold T in Hl. lia.
    + intros T' Hl%N13. unfold T. lia.
    + intros t k G Hpt Hch. apply (N15 t k G Hpt). by eapply choosable_terms.
    + destruct N16 as [? Hco]. split; [done|].
      apply (commit_ok_mono M (ext_self g w a) (CurrentTerm n)); [unfold T; lia|done].
Qed.

(** ** Promotion *)

Lemma last_log L e :
  log_ok g L -> last L = Some e ->
  exists G, llog g !! LogEntry.Term e = Some G /\ L = take (length L) G /\ L !! pred (length L) = Some e.
Proof.
  intros HL He. rewrite last_lookup in He. destruct (HL _ _ He) as (_ & G & HG & Htk).
  pose proof (lookup_lt_Some _ _ _ He). exists G. split; [done|]. split; [|done].
  replace (S (pred (length L))) with (length L) in Htk by lia. by rewrite take_ge in Htk.
Qed.

(** A log at least as up to date as one that holds a choosable prefix holds
    it too. *)
Lemma upToDate_prefix tm t k G Lc Lv :
  ghost_ok g tm -> log_ok g Lc -> log_ok g Lv -> upToDate Lc Lv ->
  point g t k G -> choosable g tm t k -> take k Lv = take k G -> take k Lc = take k G.
Proof.
  intros Hg HLc HLv Hup Hpt Hch Hk. pose proof Hpt as (HG & Hk0 & e & He & Ht).
  pose proof (lookup_lt_Some _ _ _ He) as HeG.
  assert (k <= length Lv)%nat as HkLv by (apply (take_eq_length _ _ G); [lia|done]).
  destruct (last Lv) as [ev|] eqn:Hev; [|apply last_None in Hev; subst; simpl in *; lia].
  destruct (last_log Lv ev HLv Hev) as (Gv & HGv & HLvG & _).
  assert (take k Lv = take k Gv) as HkGv.
  { rewrite HLvG at 1. rewrite take_take. by rewrite Nat.min_l by lia. }
  assert (t <= LogEntry.Term ev) as Htv.
  { assert (Gv !! pred k = Some e) as HGe.
    { rewrite <- He. apply (take_eq_lookup k); [lia|congruence]. }
    destruct (g_log _ _ _ Hg _ _ HGv) as [_ Hb].
    by apply (Forall_lookup_1 _ _ _ _ Hb) in HGe as <-; rewrite Ht. }
  unfold upToDate, lastTerm in Hup. rewrite Hev in Hup.
  destruct (last Lc) as [ec|] eqn:Hec.
  2: { apply last_None in Hec. subst. destruct Hup as [Hlt|[_ Hle]]; [|simpl in *; lia].
       apply (g_pos _ _ _ Hg) in HGv. lia. }
  destruct (last_log Lc ec HLc Hec) as (Gc & HGc & HLcG & Hecl).
  destruct Hup as [Hlt|[Heq Hle]].
  - pose proof (g_safe _ _ _ Hg t (LogEntry.Term ec) k G Gc ltac:(lia) Hpt Hch HGc) as Hs.
    destruct (decide (k <= length Lc)%nat) as [Hkc|Hkc].
    + rewrite Hs, HLcG, take_take. by rewrite Nat.min_l by lia.
    + exfalso. assert (G !! pred (length Lc) = Some ec) as HGe.
      { pose proof (lookup_lt_Some _ _ _ Hecl). rewrite <- Hecl, (take_eq_lookup k _ G Gc) by (lia || done).
        symmetry. apply (take_eq_lookup (length Lc)); [lia|]. by rewrite take_ge by lia. }
      destruct (g_log _ _ _ Hg _ _ HG) as [_ Hb]. apply (Forall_lookup_1 _ _ _ _ Hb) in HGe. lia.
  - rewrite <- Heq in HGc. simplify_eq. rewrite <- Hk, HkGv. rewrite HLcG at 1. rewrite take_take.
    by rewrite Nat.min_l by lia.
Qed.

Definition addLeader (T : Z) (L : list LogEntry) : ghost :=
  mkGhost (<[T := L]> (llog g)) (<[T := a]> (lead g)) (gvotes g) (<[(a, T) := length L]> (acks g)).

Lemma acked_insert ll le gv T k v t :
  acked (mkGhost ll le gv (<[(a, T) := k]> (acks g))) v t =
  if decide ((v, t) = (a, T)) then k else acked g v t.
Proof.
  unfold acked. simpl. case_decide as Hd.
  - by rewrite Hd, lookup_insert_eq.
  - by rewrite lookup_insert_ne.
Qed.

Section promotion.
Context (Q : gset string) (Hcand : State n = Candidate) (HQ : majority M Q).
Context (Hvotes : forall v, v ∈ Q -> exists L, gvotes g !! (v, CurrentTerm n) = Some (a, L)).
Let T := CurrentTerm n.

(** Nobody leads the term yet: its leader's majority would meet ours. *)
Lemma no_leader_yet : lead g !! T = None.
Proof.
  destruct (lead g !! T) as [c|] eqn:E; [|done]. exfalso.
  destruct (n_cand _ _ _ _ _ Hnode Hcand) as [_ Hnl]. apply Hnl.
  destruct (g_quorum _ _ _ (i_ghost _ _ _ Hinv) T c E) as (Qc & HQc & Hvc).
  destruct (majority_intersect M Q Qc HQ HQc) as (v & Hv1 & Hv2).
  destruct (Hvotes v Hv1) as [L1 H1], (Hvc v Hv2) as [L2 H2]. unfold T in *. congruence.
Qed.

Lemma no_llog_yet : llog g !! T = None.
Proof.
  destruct (llog g !! T) eqn:E; [|done].
  destruct (proj2 (g_lead _ _ _ (i_ghost _ _ _ Hinv) T)) as [c Hc]; [by eexists|].
  by rewrite no_leader_yet in Hc.
Qed.

Lemma no_ack_yet v : acked g v T = 0%nat.
Proof.
  destruct (decide (0 < acked g v T)%nat) as [Hlt|]; [|lia].
  apply (g_ack _ _ _ (i_ghost _ _ _ Hinv)) in Hlt as (_ & G & HG & _). by rewrite no_llog_yet in HG.
Qed.

Lemma candidate_below : 0 < T /\ terms_below (Log n) (T - 1).
Proof.
  destruct (n_cand _ _ _ _ _ Hnode Hcand) as [HL _].
  destruct (g_vote _ _ _ (i_ghost _ _ _ Hinv) _ _ _ _ HL) as (HT & _ & _ & (Lc & HLc & _ & Hb) & _).
  unfold T. rewrite HL in HLc. simplify_eq. split; [lia|done].
Qed.

(** The new leader has every prefix that can still be chosen. *)
Lemma candidate_complete t k G :
  t < T -> point g t k G -> choosable g (terms w) t k -> take k (Log n) = take k G.
Proof.
  intros Ht Hpt Hch. pose proof (i_ghost _ _ _ Hinv) as Hg.
  pose proof Hch as (Qc & HQc & Hvc).
  destruct (majority_intersect M Q Qc HQ HQc) as (v & Hv1 & Hv2).
  destruct (Hvotes v Hv1) as [Lv HLv].
  destruct (g_vote _ _ _ Hg _ _ _ _ HLv) as (HTv & _ & HlogLv & (Lc & HLc & Hup & _) & Hpre).
  destruct (n_cand _ _ _ _ _ Hnode Hcand) as [HL _]. rewrite HL in HLc. simplify_eq.
  destruct (Hvc v Hv2) as [Hk|Hle]; [|unfold T in *; lia].
  eapply (upToDate_prefix (terms w)); [done|apply Hnode|done|done|done|done|]. by eapply Hpre.
Qed.

Let g' := addLeader T (Log n).
Let n' := becomeLeader n.

Lemma becomeLeader_eq :
  n' = resetElectionTimer (set_MatchIndex (assignAll (Peers n) (-1) (MatchIndex n))
         (set_NextIndex (assignAll (Peers n) (len (Log n)) (NextIndex n)) (set_State Leader n))).
Proof. unfold n', becomeLeader. rewrite bool_decide_eq_false_2 by congruence. done. Qed.

Lemma acked_leader v t : acked g' v t = if decide ((v, t) = (a, T)) then length (Log n) else acked g v t.
Proof. apply acked_insert. Qed.

Lemma terms_promote v : terms (setNode w a p n') v = terms w v.
Proof.
  unfold setNode. destruct (decide (v = a)) as [->|Hne]; [|by apply terms_put_ne].
  rewrite terms_put_eq, becomeLeader_eq. simpl. unfold terms. by rewrite Hp.
Qed.

Lemma ext_promote : ext a g (terms w) g' (terms (setNode w a p n')).
Proof.
  pose proof no_leader_yet as Hnl. pose proof no_llog_yet as Hnll. pose proof no_ack_yet as Hna.
  split; simpl.
  - intros T0 G HG. rewrite lookup_insert_ne by congruence. by exists G.
  - by apply insert_subseteq.
  - done.
  - intros v t. rewrite acked_leader. case_decide; simplify_eq; [rewrite Hna|]; lia.
  - intros v t. rewrite acked_leader. case_decide; simplify_eq; [|lia]. intros _.
    split; [|done]. rewrite (n_tm _ _ _ _ _ Hnode). done.
  - intros v. rewrite terms_promote. lia.
  - intros v _. apply terms_promote.
  - intros T0 v Hne. rewrite lookup_insert_Some. intros [[_ ?]|[_ ?]]; [congruence|done].
  - intros T0 v Hne Hl. rewrite lookup_insert_ne by congruence. done.
  - done.
Qed.

(** The new term has no entry of its own yet. *)
Lemma promote_point t k G : point g' t k G -> t <> T /\ point g t k G.
Proof.
  intros (HG & Hk & e & He & Ht). simpl in HG. apply lookup_insert_Some in HG as [[<- <-]|[Hne HG]].
  - exfalso. destruct candidate_below as [_ Hb]. apply (Forall_lookup_1 _ _ _ _ Hb) in He. lia.
  - split; [done|]. split; [done|]. split; [done|]. by exists e.
Qed.

Lemma promote_choosable t k :
  choosable g' (terms (setNode w a p n')) t k -> choosable g (terms w) t k.
Proof. apply (choosable_anti M ext_promote). Qed.

Lemma ghost_ok_promote : ghost_ok g' (terms (setNode w a p n')).
Proof.
  pose proof (i_ghost _ _ _ Hinv) as [G1 G2 G3 G4 G5 G6 G7]. pose proof no_llog_yet as Hnll.
  pose proof Hnode as HN. pose proof candidate_below as [Hpos Hbel]. split; simpl.
  - intros T0. destruct (decide (T0 = T)) as [->|Hne].
    + rewrite !lookup_insert_eq. split; by eexists.
    + by rewrite !lookup_insert_ne.
  - intros T0 G. rewrite lookup_insert_Some. intros [[<- _]|[_ HG]]; [done|by eapply G2].
  - intros T0 c. rewrite lookup_insert_Some. intros [[<- <-]|[_ Hl]]; [|by apply G3].
    by exists Q.
  - intros T0 G. rewrite lookup_insert_Some. intros [[<- <-]|[_ HG]].
    + split; [apply (log_ok_mono ext_promote), HN|]. apply HN.
    + destruct (G4 T0 G HG). split; [by apply (log_ok_mono ext_promote)|done].
  - intros T1 T2 k G H2 Hlt [Hne1 Hpt]%promote_point Hch%promote_choosable.
    rewrite lookup_insert_Some. intros [[<- <-]|[_ HG2]].
    + symmetry. by eapply candidate_complete.
    + by eapply G5.
  - intros v T0 c L HL. destruct (G6 v T0 c L HL) as (? & ? & ? & ? & Hpre).
    rewrite terms_promote. split; [done|]. split; [done|].
    split; [by apply (log_ok_mono ext_promote)|]. split; [done|].
    intros t k G Hlt [Hne Hpt]%promote_point Hch%promote_choosable. rewrite acked_leader.
    rewrite decide_False by congruence. by eapply Hpre.
  - intros v t. rewrite acked_leader, terms_promote. case_decide; simplify_eq.
    + intros _. rewrite (n_tm _ _ _ _ _ HN). split; [done|]. exists (Log n). by rewrite lookup_insert_eq.
    + intros Ha. destruct (G7 v t Ha) as (? & G & HG & ?). split; [done|]. exists G.
      rewrite lookup_insert_ne by congruence. done.
Qed.

Lemma inv_promote : inv g' (setNode w a p n').
Proof.
  apply (inv_setNode _ g _ w a p n'); [done|done|apply ext_promote|apply ghost_ok_promote|].
  pose proof Hnode as [N1 N2 N3 N4 N5 N6 N7 N8 N9 N10 N11 N12 N13 N14 N15 N16 N17].
  rewrite becomeLeader_eq. split; try done; simpl.
  - by rewrite <- becomeLeader_eq, terms_promote.
  - by apply (log_ok_mono ext_promote).
  - intros _. split; simpl.
    + by rewrite lookup_insert_eq.
    + by rewrite lookup_insert_eq.
    + rewrite acked_leader. by rewrite decide_True.
    + intros q Hq. unfold go_map_int. rewrite assignAll_lookup.
      destruct (Peers n !! q) eqn:E; simpl; [lia|].
      apply not_elem_of_dom in E. rewrite N3 in E. done.
    + intros q m. rewrite assignAll_lookup. destruct (Peers n !! q) eqn:E; [intros [= <-]; lia|].
      intros Hm. apply elem_of_dom_2 in Hm. apply not_elem_of_dom in E. set_solver.
  - intros T0. rewrite lookup_insert_Some. intros [[<- _]|[_ Hl]]; [done|by apply N13].
  - intros q. rewrite elem_of_dom, assignAll_lookup. intros [m Hm].
    destruct (Peers n !! q) eqn:E.
    + apply elem_of_dom_2 in E. set_solver.
    + apply elem_of_dom_2 in Hm. set_solver.
  - intros t k G [Hne Hpt]%promote_point Hch. rewrite <- becomeLeader_eq in Hch.
    apply promote_choosable in Hch. rewrite acked_leader, decide_False by congruence. by apply N15.
  - destruct N16 as [? Hco]. split; [done|].
    by apply (commit_ok_mono M ext_promote _ _ _ _ (Z.le_refl _)).
Qed.

End promotion.
End at_node.
End steps.
