(* ===== verification/ClusterLog.v ===== *)
(** * Proposals, append requests and commits

    The steps that change logs and commit indices, and the invariant: a
    leader's proposal, an append request that is accepted or refused by a
    follower, and a commit index that moves. *)

From stdpp Require Import base gmap strings list fin_sets.
From S2P Require Import Prelude Types Kv Wal State Recovery Election Replication Apply Durability Cluster ClusterInv ClusterSteps.

(** Entries of the same index and term stand on the same prefix. *)
Lemma log_matching g L1 L2 j x y :
  log_ok g L1 -> log_ok g L2 -> L1 !! j = Some x -> L2 !! j = Some y ->
  LogEntry.Term x = LogEntry.Term y -> take (S j) L1 = take (S j) L2.
Proof.
  intros H1 H2 Hx Hy Ht. destruct (H1 j x Hx) as (_ & G1 & HG1 & ->), (H2 j y Hy) as (_ & G2 & HG2 & ->).
  congruence.
Qed.

Lemma log_ok_take g L m : log_ok g L -> log_ok g (take m L).
Proof.
  intros HL i e He. apply lookup_take_Some in He as [He Hi].
  destruct (HL i e He) as (Hidx & G & HG & Htk). split; [done|]. exists G. split; [done|].
  rewrite take_take. by rewrite Nat.min_l by lia.
Qed.

(** Merging a segment of a log [G] that the log [L] agrees with up to it. *)
Lemma merge_segment L G es : forall idx,
  (forall j x y, L !! j = Some x -> G !! j = Some y -> LogEntry.Term x = LogEntry.Term y ->
     take (S j) L = take (S j) G) ->
  take idx L = take idx G -> es = take (length es) (drop idx G) ->
  (idx + length es <= length G)%nat ->
  merge L idx es =
    if decide (take (idx + length es) L = take (idx + length es) G) then L
    else take (idx + length es) G.
Proof.
  induction es as [|e es IH]; intros idx Hmat Hpre Hes Hlen; cbn [merge length] in *.
  { rewrite Nat.add_0_r. by rewrite decide_True. }
  assert (idx <= length L)%nat as HL by (apply (take_eq_length _ _ G); [lia|done]).
  assert (take (idx + S (length es)) G = take idx G ++ e :: es) as Hseg.
  { rewrite <- take_take_drop. by rewrite <- Hes. }
  assert (G !! idx = Some e) as He.
  { rewrite <- (lookup_take_lt G (idx + S (length es))) by lia. rewrite Hseg.
    rewrite lookup_app_r by len_lia.
    rewrite length_take, Nat.min_l by lia. by rewrite Nat.sub_diag. }
  destruct (L !! idx) as [x|] eqn:Hx.
  - destruct (Z.eqb_spec (LogEntry.Term x) (LogEntry.Term e)) as [Ht|Ht].
    + replace (idx + S (length es))%nat with (S idx + length es)%nat by lia.
      apply IH; [done|by eapply Hmat| |lia].
      rewrite (drop_S G e idx He) in Hes. simpl in Hes. congruence.
    + rewrite decide_False; [by rewrite Hseg, Hpre|]. intros Heq.
      assert (L !! idx = G !! idx) by (apply (take_eq_lookup (idx + S (length es))); [lia|done]).
      congruence.
  - apply lookup_ge_None in Hx. assert (idx = length L) as -> by lia.
    replace (S (length L)) with (length (L ++ [e])) by len_lia.
    rewrite merge_end, <- app_assoc. simpl. rewrite decide_False.
    + rewrite Hseg, <- Hpre, take_ge by lia. done.
    + intros Heq%take_eq_length; lia.
Qed.

(** Only the applied prefix matters to the store. *)
Lemma kv_synced_take (n n' : node) :
  LastApplied n' = LastApplied n -> KVStore n' = KVStore n ->
  take (Z.to_nat (LastApplied n + 1)) (Log n') = take (Z.to_nat (LastApplied n + 1)) (Log n) ->
  kv_synced n -> kv_synced n'.
Proof.
  intros Hla Hkv Ht [Hr Hs]. unfold kv_synced. rewrite Hla, Hkv, Ht. split; [|done].
  apply take_eq_length in Ht; lia.
Qed.

Section log_steps.
Context (M : gset string).

Abbreviation inv := (inv M).
Abbreviation node_inv := (node_inv M).
Abbreviation ghost_ok := (ghost_ok M).
Abbreviation choosable := (choosable M).
Abbreviation leader_ok := (leader_ok M).

Section at_node.
Context (g : ghost) (w : world) (a : string) (p : proc).
Context (Hinv : inv g w) (Hp : procs w !! a = Some p).
Let n : node := p_node p.

Lemma HN : node_inv g (terms w) a n.
Proof. apply (Hnode M g w a p Hinv Hp). Qed.

Lemma HG : ghost_ok g (terms w).
Proof. apply Hinv. Qed.

Lemma terms_a : terms w a = CurrentTerm n.
Proof. apply HN. Qed.

Lemma terms_same n' v : CurrentTerm n' = CurrentTerm n -> terms (setNode w a p n') v = terms w v.
Proof.
  intros Ht. unfold setNode. destruct (decide (v = a)) as [->|Hne]; [|by apply terms_put_ne].
  rewrite terms_put_eq. simpl. by rewrite Ht, terms_a.
Qed.

(** A prefix that counts as acknowledged by someone is old. *)
Lemma acked_point g' tm' v t k G :
  ext a g (terms w) g' tm' -> point g' t k G -> (k <= acked g v t)%nat ->
  exists G0, point g t k G0 /\ take k G = take k G0.
Proof.
  intros E Hpt Hk. pose proof Hpt as (_ & Hk0 & _).
  destruct (g_ack _ _ _ HG v t ltac:(lia)) as (_ & G0 & HG0 & Hl). exists G0.
  apply (point_back _ _ _ _ _ _ _ _ _ E Hpt HG0). lia.
Qed.

(** The node's acknowledgements after an extension that adds none. *)
Lemma acks_mono g' tm' t k G :
  ext a g (terms w) g' tm' -> point g' t k G -> choosable g' tm' t k -> (k <= acked g a t)%nat ->
  take k (Log n) = take k G /\ (k <= length (Log n))%nat.
Proof.
  intros E Hpt Hch Hk. destruct (acked_point _ _ _ _ _ _ E Hpt Hk) as (G0 & Hp0 & ->).
  assert (take k (Log n) = take k G0) as Heq.
  { apply (n_acks _ _ _ _ _ HN t k G0 Hp0); [|done]. by apply (choosable_anti M E). }
  split; [done|]. destruct Hp0 as (_ & ? & x & Hx & _). apply lookup_lt_Some in Hx.
  apply take_eq_length in Heq; lia.
Qed.

(** Votes survive an extension that acknowledges only in the node's term. *)
Lemma votes_mono g' tm' v T c L :
  ext a g (terms w) g' tm' -> gvotes g' = gvotes g ->
  (forall v t, t <> CurrentTerm n -> acked g' v t = acked g v t) ->
  gvotes g' !! (v, T) = Some (c, L) ->
  0 < T <= tm' v /\ c ∈ M /\ log_ok g' L /\
  (exists Lc, gvotes g' !! (c, T) = Some (c, Lc) /\ upToDate Lc L /\ terms_below Lc (T - 1)) /\
  (forall t k G, t < T -> point g' t k G -> choosable g' tm' t k -> (k <= acked g' v t)%nat ->
     take k L = take k G).
Proof.
  intros E Hgv Hack HL. rewrite Hgv in *. destruct (g_vote _ _ _ HG v T c L HL) as (HT & Hc & Hlog & Hup & Hpre).
  pose proof (e_tm _ _ _ _ _ E v) as Htm. split; [lia|]. split; [done|].
  split; [by apply (log_ok_mono E)|]. split; [done|]. intros t k G Hlt Hpt Hch Hk.
  assert (k <= acked g v t)%nat as Hk'.
  { destruct (decide (acked g v t < acked g' v t)%nat) as [Hl|]; [|lia].
    apply (e_ack_new _ _ _ _ _ E) in Hl as [Hl ->]. lia. }
  destruct (acked_point _ _ _ _ _ _ E Hpt Hk') as (G0 & Hp0 & ->).
  eapply Hpre; [done..| |done]. by apply (choosable_anti M E).
Qed.

(** ** A leader's proposal *)

Section propose.
Context (e : LogEntry) (Hlead : State n = Leader).
Context (Hidx : LogEntry.Index e = len (Log n)) (Hterm : LogEntry.Term e = CurrentTerm n).
Let T := CurrentTerm n.
Let L := Log n ++ [e].
Let g' := mkGhost (<[T := L]> (llog g)) (lead g) (gvotes g) (<[(a, T) := length L]> (acks g)).
Let n' := appendEntry n e.

Lemma propose_len : length L = S (length (Log n)).
Proof. unfold L. len_lia. Qed.

Lemma acked_propose v t : acked g' v t = if decide ((v, t) = (a, T)) then length L else acked g v t.
Proof. apply acked_insert. Qed.

Lemma ext_propose : ext a g (terms w) g' (terms (setNode w a p n')).
Proof.
  destruct (n_lead _ _ _ _ _ HN Hlead) as [Hl Hll Ha _ _].
  split; simpl; try done.
  - intros T0 G HG0. destruct (decide (T0 = T)) as [->|Hne].
    + rewrite lookup_insert_eq. exists L. split; [done|]. unfold T in HG0.
      rewrite Hll in HG0. simplify_eq. by exists [e].
    + rewrite lookup_insert_ne by done. by exists G.
  - intros v t. rewrite acked_propose. case_decide; simplify_eq; [|lia].
    unfold T. rewrite Ha. rewrite propose_len. lia.
  - intros v t. rewrite acked_propose. case_decide; simplify_eq; [|lia].
    intros _. rewrite terms_a. done.
  - intros v. rewrite terms_same by done. lia.
  - intros v _. by rewrite terms_same.
  - intros T0 v Hne Hv. rewrite lookup_insert_ne; [done|]. unfold T. congruence.
Qed.

(** Nobody but the leader has the new entry, so it is not choosable once a
    later leader exists. *)
Lemma propose_not_choosable T2 G2 k :
  T < T2 -> llog g !! T2 = Some G2 -> (length (Log n) < k)%nat ->
  choosable g' (terms (setNode w a p n')) T k -> False.
Proof.
  intros HT HG2 Hk (Qc & HQc & Hc).
  destruct (proj2 (g_lead _ _ _ HG T2)) as [c Hlc]; [by eexists|].
  destruct (g_quorum _ _ _ HG _ _ Hlc) as (Q & HQ & Hv).
  destruct (majority_intersect M Q Qc HQ HQc) as (v & Hv1 & Hv2).
  destruct (Hv v Hv1) as [Lv HLv]. destruct (g_vote _ _ _ HG _ _ _ _ HLv) as ([_ Htm] & _).
  destruct (Hc v Hv2) as [Hk'|Hle]; [|rewrite terms_same in Hle by done; lia].
  rewrite acked_propose in Hk'. case_decide; simplify_eq.
  { rewrite terms_a in Htm. lia. }
  destruct (n_lead _ _ _ _ _ HN Hlead) as [_ Hll _ _ _].
  destruct (g_ack _ _ _ HG v T ltac:(lia)) as (_ & G0 & HG0 & Hl0).
  unfold T in *. rewrite Hll in HG0. simplify_eq. lia.
Qed.

Lemma propose_safe T1 T2 k G1 G2 :
  T1 < T2 -> point g' T1 k G1 -> choosable g' (terms (setNode w a p n')) T1 k ->
  llog g' !! T2 = Some G2 -> take k G1 = take k G2.
Proof.
  intros Hlt Hpt Hch HG2.
  destruct (n_lead _ _ _ _ _ HN Hlead) as [_ Hll _ _ _].
  assert (exists G2o, llog g !! T2 = Some G2o /\ (T2 <> T -> G2o = G2)) as (G2o & HG2o & Hsame).
  { simpl in HG2. apply lookup_insert_Some in HG2 as [[<- _]|[Hne HG2]]; eauto.
    exists (Log n). split; [done|]. done. }
  assert (exists G1o, llog g !! T1 = Some G1o) as [G1o HG1o].
  { destruct Hpt as [HG1 _]. simpl in HG1. apply lookup_insert_Some in HG1 as [[<- _]|[Hne HG1]]; eauto. }
  destruct (decide (k <= length G1o)%nat) as [Hk|Hk].
  - destruct (point_back _ _ _ _ _ _ _ _ _ ext_propose Hpt HG1o Hk) as [Hpo ->].
    pose proof (g_safe _ _ _ HG _ _ _ _ _ Hlt Hpo (choosable_anti M ext_propose _ _ Hch) HG2o) as Hs.
    assert (k <= length G2o)%nat as Hk2 by by apply (take_eq_length _ _ G1o).
    destruct (llog_take ext_propose _ _ _ HG2o Hk2) as (G2' & HG2' & Ht2 & _).
    rewrite HG2 in HG2'. simplify_eq. congruence.
  - exfalso. assert (T1 = T) as ->.
    { destruct Hpt as (HG1 & _ & x & Hx & _). simpl in HG1.
      apply lookup_insert_Some in HG1 as [[<- _]|[Hne HG1]]; [done|].
      apply lookup_lt_Some in Hx. simplify_eq. lia. }
    unfold T in HG1o. rewrite Hll in HG1o. simplify_eq. eapply (propose_not_choosable T2 G2o k); [done..|lia|done].
Qed.

Lemma ghost_ok_propose : ghost_ok g' (terms (setNode w a p n')).
Proof.
  pose proof HG as [G1 G2 G3 G4 G5 G6 G7].
  destruct (n_lead _ _ _ _ _ HN Hlead) as [Hl Hll Ha _ _].
  pose proof ext_propose as E. split; simpl; try done.
  - intros T0. rewrite G1. destruct (decide (T0 = T)) as [->|Hne].
    + rewrite lookup_insert_eq. unfold T. rewrite Hll. split; by eexists.
    + by rewrite lookup_insert_ne.
  - intros T0 G. rewrite lookup_insert_Some. intros [[<- _]|[_ HG0]]; [|by eapply G2].
    by apply (G2 _ (Log n)).
  - intros T0 G. rewrite lookup_insert_Some. intros [[<- <-]|[_ HG0]].
    + split.
      * intros i x Hx. unfold L in Hx. apply lookup_app_Some in Hx as [Hx|[Hi Hx]].
        { destruct (log_ok_mono E _ (n_log _ _ _ _ _ HN) i x Hx) as (Hi & G & HG0 & Ht).
          split; [done|]. exists G. split; [done|]. rewrite <- Ht. unfold L.
          apply lookup_lt_Some in Hx. by rewrite take_app_le by lia. }
        apply list_lookup_singleton_Some in Hx as [Hi0 <-]. split; [lia|]. exists L.
        rewrite Hterm. simpl. by rewrite lookup_insert_eq.
      * apply Forall_app. split; [apply HN|]. rewrite Forall_singleton. unfold T. lia.
    + destruct (G4 T0 G HG0). split; [by apply (log_ok_mono E)|done].
  - apply propose_safe.
  - intros v T0 c Lv HL. apply (votes_mono g'); [done..| |done]. intros v' t Ht.
    rewrite acked_propose. rewrite decide_False; [done|]. unfold T. congruence.
  - intros v t. rewrite acked_propose, terms_same by done. case_decide; simplify_eq.
    + intros _. rewrite terms_a. split; [done|]. exists L. by rewrite lookup_insert_eq.
    + intros Hk. destruct (G7 v t Hk) as (? & G & HG0 & Hle). split; [done|].
      destruct (llog_take E _ _ _ HG0 Hle) as (G' & HG' & _ & ?). exists G'. split; [done|lia].
Qed.

Lemma inv_propose : inv g' (setNode w a p n').
Proof.
  pose proof ext_propose as E.
  apply (inv_setNode _ g _ w a p n'); [done|done|done|apply ghost_ok_propose|].
  pose proof HN as [N1 N2 N3 N4 N5 N6 N7 N8 N9 N10 N11 N12 N13 N14 N15 N16 N17].
  pose proof propose_len as Hlen. destruct (N12 Hlead) as [Hl Hll Ha Hni Hma].
  assert (forall i, (i <= length (Log n))%nat -> take i L = take i (Log n)) as Htk.
  { intros i Hi. unfold L. by rewrite take_app_le by lia. }
  split; try done; simpl.
  - by rewrite terms_same.
  - by apply (durable_entry n).
  - by apply (g_log _ _ _ ghost_ok_propose T L); simpl; rewrite lookup_insert_eq.
  - by apply (g_log _ _ _ ghost_ok_propose T L); simpl; rewrite lookup_insert_eq.
  - congruence.
  - intros _. split; simpl; try done.
    + by rewrite lookup_insert_eq.
    + rewrite acked_propose. by rewrite decide_True.
    + intros q Hq. apply Hni in Hq. fold L. lia.
    + intros q m Hm%Hma. pose proof (e_ack _ _ _ _ _ E q T). unfold T in *. fold g'. lia.
  - intros t k G Hpt Hch. rewrite acked_propose. case_decide as Hd.
    + injection Hd as Ht. intros _. destruct Hpt as [HG0 _]. simpl in HG0.
      rewrite Ht, lookup_insert_eq in HG0. by injection HG0 as <-.
    + intros Hk. destruct (acks_mono _ _ _ _ _ E Hpt Hch Hk) as [<- Hkl]. by apply Htk.
  - destruct N16 as [Hr Hco]. fold L. split; [lia|].
    apply (commit_ok_take _ _ _ (Log n)); [apply Htk; lia|].
    by apply (commit_ok_mono M E _ _ _ _ (Z.le_refl _)).
  - destruct N17 as [Hk Hle]. split; [|done]. apply (kv_synced_take n); [done..| |done].
    apply Htk. destruct Hk. lia.
Qed.

End propose.

(** The log of the current term's leader has what the node committed. *)
Lemma commit_prefix G :
  llog g !! CurrentTerm n = Some G ->
  take (Z.to_nat (CommitIndex n + 1)) (Log n) = take (Z.to_nat (CommitIndex n + 1)) G.
Proof.
  intros HGT. destruct (n_commit _ _ _ _ _ HN) as [Hr [Hneg|(t & k & Gt & Hc & Hpt & Ht & Hck & Htk)]].
  { by replace (Z.to_nat (CommitIndex n + 1)) with 0%nat by lia. }
  rewrite Htk. destruct (decide (t = CurrentTerm n)) as [->|Hne].
  { destruct Hpt as [HGt _]. rewrite HGT in HGt. by simplify_eq. }
  apply (take_eq_le k); [lia|]. apply (g_safe _ _ _ HG t (CurrentTerm n)); [lia|done| |done].
  destruct Hc as (Q & HQ & Hv). exists Q. split; [done|]. intros v Hin. left. auto.
Qed.

(** ** A follower's log follows the leader's *)

Section accept.
Context (n' : node) (G : list LogEntry) (m : nat).
Context (Hfol : State n = Follower) (HGT : llog g !! CurrentTerm n = Some G).
Context (Hfr : ID n' = ID n /\ Peers n' = Peers n /\ State n' = State n /\
  CurrentTerm n' = CurrentTerm n /\ VotedFor n' = VotedFor n /\ LastApplied n' = LastApplied n /\
  MatchIndex n' = MatchIndex n /\ KVStore n' = KVStore n).
Context (Hm : (m <= length G)%nat) (HmL : take m (Log n') = take m G).
Context (Hkeep : forall k, take k (Log n) = take k G -> take k (Log n') = take k G).
Context (Hlog : log_ok g (Log n')) (Hbel : terms_below (Log n') (CurrentTerm n)).
Context (Hdur : durable n' (CommitIndex n')).
Context (Hci : CommitIndex n' = CommitIndex n \/
  CommitIndex n <= CommitIndex n' < Z.of_nat m /\ commit_ok M g (CurrentTerm n) G (CommitIndex n')).
Let T := CurrentTerm n.
Let g' := mkGhost (llog g) (lead g) (gvotes g) (<[(a, T) := Nat.max (acked g a T) m]> (acks g)).

Lemma acked_accept v t :
  acked g' v t = if decide ((v, t) = (a, T)) then Nat.max (acked g a T) m else acked g v t.
Proof. apply acked_insert. Qed.

Lemma ext_accept : ext a g (terms w) g' (terms (setNode w a p n')).
Proof.
  destruct Hfr as (_ & _ & _ & Ht & _). split; try done; eauto.
  - intros v t. rewrite acked_accept. case_decide; simplify_eq; lia.
  - intros v t. rewrite acked_accept. case_decide; simplify_eq; [|lia]. intros _.
    by rewrite terms_a.
  - intros v. rewrite terms_same by done. lia.
  - intros v _. by rewrite terms_same.
Qed.

Lemma ghost_ok_accept : ghost_ok g' (terms (setNode w a p n')).
Proof.
  pose proof HG as [G1 G2 G3 G4 G5 G6 G7]. pose proof ext_accept as E.
  split; try done.
  - intros T1 T2 k Ga Gb Hlt Hpt Hch. apply (G5 T1 T2); [done..|]. by apply (choosable_anti M E).
  - intros v T0 c Lv HL. apply (votes_mono g'); [done..| |done]. intros v' t Ht.
    rewrite acked_accept. rewrite decide_False; [done|]. unfold T. congruence.
  - intros v t. rewrite acked_accept, terms_same by apply Hfr. case_decide as Hd; [|apply G7].
    injection Hd as -> Ht. rewrite Ht. intros _. rewrite terms_a. split; [done|].
    exists G. split; [done|]. destruct (decide (0 < acked g a T)%nat) as [Hpos|]; [|lia].
    destruct (G7 a T Hpos) as (_ & G0 & HG0 & Hle). unfold T in *.
    rewrite HGT in HG0. simplify_eq. lia.
Qed.

Lemma accept_commit :
  take (Z.to_nat (CommitIndex n + 1)) (Log n') = take (Z.to_nat (CommitIndex n + 1)) (Log n).
Proof. rewrite (commit_prefix G) by done. by apply Hkeep, commit_prefix. Qed.

Lemma inv_accept : inv g' (setNode w a p n').
Proof.
  pose proof ext_accept as E. pose proof accept_commit as Hac.
  apply (inv_setNode _ g _ w a p n'); [done|done|done|apply ghost_ok_accept|].
  pose proof HN as [N1 N2 N3 N4 N5 N6 N7 N8 N9 N10 N11 N12 N13 N14 N15 N16 N17].
  destruct Hfr as (F1 & F2 & F3 & F4 & F5 & F6 & F7 & F8).
  split; try done; rewrite ?F1, ?F2, ?F3, ?F4, ?F5, ?F6, ?F7; try done; try congruence.
  - by rewrite terms_same, terms_a.
  - intros t k Gt Hpt Hch. rewrite acked_accept. case_decide as Hd.
    + injection Hd as ->. intros Hk. destruct Hpt as [HG0 Hpt]. simpl in HG0.
      unfold T in HG0. rewrite HGT in HG0. injection HG0 as <-.
      destruct (decide (k <= m)%nat); [by apply (take_eq_le m)|].
      apply Hkeep. eapply (acks_mono _ _ T); [done|by split|done|lia].
    + intros Hk. destruct (acks_mono _ _ _ _ _ E Hpt Hch Hk) as [Heq _].
      assert (t < T) as Hlt.
      { destruct (g_ack _ _ _ HG a t) as [Hle _]; [destruct Hpt as (_ & ? & _); lia|].
        rewrite terms_a in Hle. fold T in Hle. assert (t <> T) by congruence. lia. }
      assert (take k Gt = take k G) as ->.
      { apply (g_safe _ _ _ ghost_ok_accept t T); done. }
      apply Hkeep. rewrite Heq. apply (g_safe _ _ _ ghost_ok_accept t T); done.
  - destruct N16 as [Hr Hco]. destruct Hci as [->|[Hlt Hcm]].
    + split; [|apply (commit_ok_take _ _ _ (Log n)); [done|];
               by apply (commit_ok_mono M E _ _ _ _ (Z.le_refl _))].
      apply take_eq_length in Hac; lia.
    + split; [apply take_eq_length in HmL; lia|]. apply (commit_ok_take _ _ _ G).
      { apply (take_eq_le m); [lia|done]. }
      by apply (commit_ok_mono M E _ _ _ _ (Z.le_refl _)).
  - destruct N17 as [Hk Hle]. split; [|destruct Hci; lia].
    apply (kv_synced_take n); [done..| |done]. by apply (take_eq_le (Z.to_nat (CommitIndex n + 1))); [lia|].
Qed.

End accept.

(** ** The commit index moves *)

Lemma inv_commit n' :
  ID n' = ID n -> Peers n' = Peers n -> CurrentTerm n' = CurrentTerm n -> VotedFor n' = VotedFor n ->
  Log n' = Log n -> State n' = State n -> MatchIndex n' = MatchIndex n -> NextIndex n' = NextIndex n ->
  KVStore n' = KVStore n -> LastApplied n' = LastApplied n ->
  CommitIndex n <= CommitIndex n' < len (Log n) -> durable n' (CommitIndex n') ->
  commit_ok M g (CurrentTerm n) (Log n) (CommitIndex n') ->
  inv g (setNode w a p n').
Proof.
  intros F1 F2 F3 F4 F5 F6 F7 F8 F9 F10 Hc Hdur Hco.
  apply inv_setNode_same; [done|done|fold n; lia|].
  assert (forall v, terms w v <= terms (setNode w a p n') v) as Htm by (intros v; rewrite terms_same; done).
  pose proof HN as [N1 N2 N3 N4 N5 N6 N7 N8 N9 N10 N11 N12 N13 N14 N15 N16 N17].
  split; rewrite ?F1, ?F2, ?F3, ?F4, ?F5, ?F6, ?F7; try done.
  - by rewrite terms_same, terms_a.
  - intros Hs. destruct (N12 Hs) as [? ? ? ? ?]. split; by rewrite ?F3, ?F5, ?F7, ?F8.
  - intros t k G Hpt Hch. apply (N15 t k G Hpt). by eapply choosable_terms.
  - split; [lia|done].
  - destruct N17 as [Hk Hle]. rewrite F10. split; [|lia]. apply (kv_synced_take n); try done. by rewrite F5.
Qed.

(** What a leader finds acknowledged by a majority is committed. *)
Lemma committable_ok N : State n = Leader -> committable n N -> commit_ok M g (CurrentTerm n) (Log n) N.
Proof.
  intros Hs (HN0 & (e & He & Ht) & Hq). apply go_index_Some in He as [H0 He].
  destruct (n_lead _ _ _ _ _ HN Hs) as [Hl Hll Ha Hni Hma].
  pose proof (lookup_lt_Some _ _ _ He) as Hlen.
  right. exists (CurrentTerm n), (S (Z.to_nat N)), (Log n). split_and!; try done; try lia.
  - exists ({[a]} ∪ matchers n N).
    assert (matchers n N ⊆ M ∖ {[a]}) as Hsub.
    { intros q (m & Hm & _)%elem_of_matchers. apply elem_of_dom_2 in Hm.
      by apply (n_match _ _ _ _ _ HN) in Hm. }
    pose proof (n_mem _ _ _ _ _ HN) as Hmem. split; [split; [set_solver|]|].
    + rewrite size_union by set_solver. rewrite size_singleton.
      unfold peersCount in Hq. rewrite <- size_dom, (n_peers _ _ _ _ _ HN), size_difference in Hq by set_solver.
      rewrite size_singleton in Hq. lia.
    + intros v [->%elem_of_singleton|Hv]%elem_of_union; [rewrite Ha; lia|].
      apply elem_of_matchers in Hv as (m & Hm & Hle). apply Hma in Hm. lia.
  - split; [done|]. split; [lia|]. by exists e.
Qed.

End at_node.
End log_steps.
