(* ===== verification/ClusterMoves.v ===== *)
(** * Every step of the cluster keeps the invariant

    One lemma per rule of [step], composed from the node-level lemmas of
    [ClusterSteps] and [ClusterLog]; [ClusterCrash] has the rules for crashes
    inside a critical section. *)

From stdpp Require Import base gmap strings list fin_sets.
From S2P Require Import Prelude Types Kv Wal State Recovery Election Replication Apply Durability Cluster ClusterInv ClusterSteps ClusterLog.

Section moves.
Context (M : gset string) (HM : "" ∉ M).

Abbreviation inv := (inv M).
Abbreviation ballot_ok := (ballot_ok M).
Abbreviation task_ok := (task_ok M).
Abbreviation packet_ok := (packet_ok M).

Lemma setNode_id w a p : procs w !! a = Some p -> setNode w a p (p_node p) = w.
Proof.
  intros Hp. unfold setNode, put. destruct w as [ps net], p as [n bs ts]; simpl in *.
  by rewrite insert_id.
Qed.

Lemma put_setNode w a p n' p' sent : put (setNode w a p n') a p' sent = put w a p' sent.
Proof. unfold setNode, put. simpl. by rewrite insert_insert_eq. Qed.

(** Goroutines come and go, messages are sent. *)
Lemma inv_resched g w a p n' bs ts sent :
  inv g (setNode w a p n') ->
  (forall T b, bs !! T = Some b -> ballot_ok g a T b) ->
  (forall t, t ∈ ts -> task_ok g a n' t) -> Forall (packet_ok g) sent ->
  inv g (put w a (mkProc n' bs ts) sent).
Proof.
  intros Hinv Hb Ht Hs. rewrite <- (put_setNode w a p n'). set (w' := setNode w a p n') in *.
  pose proof (setNode_lookup w a p n') as Hp. fold w' in Hp.
  assert (forall v, terms (put w' a (mkProc n' bs ts) sent) v = terms w' v) as Htm.
  { intros v. destruct (decide (v = a)) as [->|Hne]; [|by apply terms_put_ne].
    rewrite terms_put_eq. unfold terms. by rewrite Hp. }
  assert (forall v, terms w' v <= terms (put w' a (mkProc n' bs ts) sent) v) as Hle
    by (intros v; by rewrite Htm).
  eapply (inv_put M g g w'); [done|done|by apply ext_refl; [|auto]| | |done].
  - by apply (ghost_ok_terms M g (terms w')); [apply Hinv|].
  - destruct (i_procs _ _ _ Hinv a _ Hp) as [Hn _ _]. simpl in Hn. split; [|done|done]. simpl.
    destruct Hn as [N1 N2 N3 N4 N5 N6 N7 N8 N9 N10 N11 N12 N13 N14 N15 N16 N17]. split; try done.
    + by rewrite Htm.
    + intros t k G Hpt Hch. apply (N15 t k G Hpt). by eapply choosable_terms.
Qed.

(** The ballots and tasks of [a] stay as they are. *)
Lemma inv_send g w a p n' sent :
  inv g (setNode w a p n') -> Forall (packet_ok g) sent ->
  inv g (put w a (mkProc n' (p_ballots p) (p_tasks p)) sent).
Proof.
  intros Hinv Hs.
  destruct (i_procs _ _ _ Hinv a _ (setNode_lookup w a p n')) as [_ Hb Ht]. simpl in Hb, Ht.
  by apply (inv_resched g w a p).
Qed.

(** One ballot changes. *)
Lemma inv_ballot g w a p n' T b sent :
  inv g (setNode w a p n') -> ballot_ok g a T b -> Forall (packet_ok g) sent ->
  inv g (put w a (mkProc n' (<[T := b]> (p_ballots p)) (p_tasks p)) sent).
Proof.
  intros Hinv HT Hs.
  destruct (i_procs _ _ _ Hinv a _ (setNode_lookup w a p n')) as [_ Hb Ht]. simpl in Hb, Ht.
  apply (inv_resched g w a p); [done| |done|done].
  intros T' b' [[<- <-]|[_ Hl]]%lookup_insert_Some; auto.
Qed.

Lemma later_addVote g v T c L : later g (addVote g v T c L).
Proof. split; [eauto|done|done]. Qed.

Section at_node.
Context (g : ghost) (w : world) (a : string) (p : proc).
Context (Hinv : inv g w) (Hp : procs w !! a = Some p).
Let n : node := p_node p.

Lemma Hn : node_inv M g (terms w) a n.
Proof. apply (Hnode M g w a p Hinv Hp). Qed.

Lemma Hballot T b : p_ballots p !! T = Some b -> ballot_ok g a T b.
Proof. apply (i_procs _ _ _ Hinv a p Hp). Qed.

Lemma lastLog_ok : lastLog n = (len (Log n) - 1, lastTerm (Log n)).
Proof.
  unfold lastLog, lastTerm. destruct (last (Log n)) as [e|] eqn:He.
  - rewrite last_lookup in He. destruct (n_log _ _ _ _ _ Hn _ _ He) as [-> _].
    apply lookup_lt_Some in He. f_equal. lia.
  - apply last_None in He. by rewrite He.
Qed.

Lemma inv_unchanged : inv g (setNode w a p n).
Proof. by rewrite setNode_id. Qed.

(** A timer reset. *)
Lemma inv_timer : inv g (setNode w a p (resetElectionTimer n)).
Proof.
  pose proof Hn as [N1 N2 N3 N4 N5 N6 N7 N8 N9 N10 N11 N12 N13 N14 N15 N16 N17].
  apply inv_local; try done; [by left| |apply N17|apply N17].
  intros Hs. by destruct (N12 Hs); split.
Qed.

Lemma peersCount_M : peersCount n = Z.of_nat (size M).
Proof.
  pose proof (n_mem _ _ _ _ _ Hn). unfold peersCount.
  rewrite <- size_dom, (n_peers _ _ _ _ _ Hn), size_difference, size_singleton by set_solver.
  assert (size M <> 0)%nat; [|lia]. intros Hz%size_empty_iff. set_solver.
Qed.

(** ** Elections *)

Lemma inv_timeout n' req :
  CurrentTerm n < maxInt -> startElection n = (n', Some req) ->
  exists g', later g g' /\ inv g' (put w a
      (mkProc n' (<[RequestVoteRequest.Term req := newBallot n']> (p_ballots p)) (p_tasks p))
      (voteReqs n' req)).
Proof.
  intros Hmax. pose proof Hn as HN. unfold startElection. case_bool_decide; [done|].
  pose proof (n_term _ _ _ _ _ HN) as H0.
  rewrite wrap64_id by (unfold in_int, minInt, maxInt in *; simpl; lia).
  change (lastLog _) with (lastLog n). rewrite lastLog_ok. intros [= <- <-]. simpl.
  pose proof (inv_candidate M g w a p Hinv Hp Hmax) as Hc. fold n in Hc. cbv zeta in Hc.
  set (n1 := resetElectionTimer (W := MemWal) _) in Hc. set (g' := addVote _ _ _ _ _) in Hc.
  change (resetElectionTimer _) with n1. exists g'. split; [by apply later_addVote|].
  assert (gvotes g' !! (a, CurrentTerm n + 1) = Some (a, Log n)) as Hv
    by (simpl; by rewrite lookup_insert_eq).
  pose proof (n_id _ _ _ _ _ HN) as Hid.
  apply (inv_ballot g' w a p n1); [done| |].
  - exists ∅. unfold newBallot. cbn [votes waiting checked]. change (Peers n1) with (Peers n).
    rewrite size_empty, (n_peers _ _ _ _ _ HN).
    split_and!; try done; set_solver.
  - unfold voteReqs. apply Forall_forall. intros pk (q & -> & _)%list_elem_of_fmap. simpl.
    split; [done|]. exists (Log n). by rewrite Hid.
Qed.

Lemma inv_newer t : CurrentTerm n <= t -> exists n1,
  inv g (setNode w a p n1) /\ CurrentTerm n1 = t /\ Log n1 = Log n /\
  (t = CurrentTerm n -> n1 = n) /\ (CurrentTerm n < t -> n1 = stepDown t n).
Proof.
  intros Ht. destruct (decide (t = CurrentTerm n)) as [->|Hne].
  - exists n. split; [apply inv_unchanged|]. split_and!; try done. lia.
  - exists (stepDown t n). split; [by apply (inv_stepDown M g w a p Hinv Hp); fold n; lia|].
    by split_and!.
Qed.

(** The vote handler's comparison is [upToDate]. *)
Lemma logUpToDate_ok Lc :
  logUpToDate (lastTerm Lc) (len Lc - 1) (snd (lastLog n)) (fst (lastLog n)) = true -> upToDate Lc (Log n).
Proof.
  rewrite lastLog_ok. unfold logUpToDate, upToDate. simpl.
  destruct (_ >? _) eqn:H1; bool_to_prop; [auto|].
  destruct (_ && _) eqn:H2; bool_to_prop; [|done]. intros _. right. lia.
Qed.
End at_node.

(** Granting a vote, for the first time or again. *)
Lemma inv_grant g w a p c Lc :
  inv g w -> procs w !! a = Some p ->
  let n := p_node p in
  (VotedFor n = "" \/ VotedFor n = c) -> gvotes g !! (c, CurrentTerm n) = Some (c, Lc) ->
  upToDate Lc (Log n) ->
  exists g', later g g' /\ inv g' (setNode w a p (resetElectionTimer
       (walAppend (stateRecord (CurrentTerm n) c) (set_VotedFor c n)))) /\
    exists L, gvotes g' !! (a, CurrentTerm n) = Some (c, L).
Proof.
  intros Hinv Hp n Hv HLc Hup. pose proof (Hn g w a p Hinv Hp) as HN. fold n in HN.
  destruct (g_vote _ _ _ (i_ghost _ _ _ Hinv) _ _ _ _ HLc) as (_ & HcM & _).
  destruct (decide (VotedFor n = "")) as [He|Hne].
  { eexists. split; [|split; [by apply (inv_cast M HM g w a p Hinv Hp c Lc)|]].
    { by apply later_addVote. }
    simpl. fold n. rewrite lookup_insert_eq. by eexists. }
  destruct Hv as [|Hc]; [done|]. exists g.
  destruct (n_voted _ _ _ _ _ HN Hne) as [L HL]. rewrite Hc in HL. split; [done|]. split; [|by eexists].
  destruct HN as [N1 N2 N3 N4 N5 N6 N7 N8 N9 N10 N11 N12 N13 N14 N15 N16 N17].
  apply inv_local; try done; [by apply (durable_state n _ (CurrentTerm n) c)|by left| |apply N17|apply N17].
  intros Hs. by destruct (N12 Hs); split.
Qed.

Lemma inv_vote_request g w src a req p n' resp :
  inv g w -> VoteReq src a req ∈ net w -> procs w !! a = Some p ->
  HandleRequestVote (p_node p) req = (n', resp) ->
  exists g', later g g' /\ inv g' (put w a (mkProc n' (p_ballots p) (p_tasks p))
    [VoteResp a src (RequestVoteRequest.Term req) resp]).
Proof.
  intros Hinv Hin Hp Hh. apply (i_net _ _ _ Hinv) in Hin as (Hsrc & Lc & HLc & Hli & Hlt).
  apply HandleRequestVote_outcome in Hh.
  set (T := RequestVoteRequest.Term req) in *. set (n := p_node p) in *.
  assert (forall n1 r, inv g (setNode w a p n1) -> RequestVoteResponse.VoteGranted r = false ->
    exists g', later g g' /\ inv g' (put w a (mkProc n1 (p_ballots p) (p_tasks p)) [VoteResp a src T r])) as Hno.
  { intros n1 r Hi Hr. exists g. split; [done|]. apply inv_send; [done|]. apply Forall_singleton. simpl. congruence. }
  assert (forall n1, T = CurrentTerm n /\ n1 = n \/ T > CurrentTerm n /\ n1 = stepDown T n ->
    inv g (setNode w a p n1) /\ CurrentTerm n1 = T /\ Log n1 = Log n) as Hn1.
  { intros n1 H1. destruct (inv_newer g w a p Hinv Hp T) as (n2 & Hi & Ht & Hlog & He1 & He2);
      [destruct H1 as [[? _]|[? _]]; fold n; lia|].
    fold n in He1, He2. assert (n1 = n2) as ->; [|done].
    destruct H1 as [[H1 ->]|[H1 ->]]; symmetry; [by apply He1|apply He2; lia]. }
  destruct Hh as [Hstale|n1 H1|n1 H1 Hv Hup].
  - apply Hno; [|done]. by apply inv_unchanged.
  - apply Hno; [|done]. by apply Hn1.
  - destruct (Hn1 n1 H1) as (Hi & Ht & Hlog). rewrite Hsrc in *. rewrite Hli, Hlt in Hup.
    apply (logUpToDate_ok g w a p Hinv Hp) in Hup. fold n in Hup. rewrite <- Hlog in Hup.
    destruct (inv_grant g (setNode w a p n1) a _ src Lc Hi (setNode_lookup w a p n1)) as (g' & Hlt' & Hg' & L & HL);
      simpl; rewrite ?Ht; try done.
    simpl in Hg', HL. rewrite Ht in *. erewrite setNode_setNode in Hg' by apply setNode_lookup.
    exists g'. split; [done|]. apply inv_send; [done|]. apply Forall_singleton. simpl. by exists L.
Qed.

(** A ballot's bookkeeping. *)
Lemma ballot_ok_reply g a T b src (granted : bool) :
  ballot_ok g a T b -> src ∈ waiting b ->
  (granted = true -> exists L, gvotes g !! (src, T) = Some (a, L)) ->
  ballot_ok g a T (mkBallot (votes b) (waiting b ∖ {[src]})
                     (if granted then checked b ∪ {[src]} else checked b)).
Proof.
  intros (S & H1 & H2 & H3 & H4 & H5 & H6 & H7) Hw Hg. exists S. cbn [votes waiting checked].
  split; [done|]. split; [clear H6 H7 Hg; set_solver|]. split; [destruct granted; clear H6 H7 Hg; set_solver|].
  split; [destruct granted; clear H6 H7 Hg; set_solver|]. split; [destruct granted; clear H6 H7 Hg; set_solver|].
  split; [done|]. intros s Hs. destruct granted; [|by apply H7].
  destruct (decide (s = src)) as [->|Hne]; [by apply Hg|]. apply H7. clear - Hs Hne. set_solver.
Qed.

Lemma ballot_ok_count g a T b src :
  ballot_ok g a T b -> src ∈ checked b ->
  ballot_ok g a T (mkBallot (votes b + 1) (waiting b) (checked b ∖ {[src]})).
Proof.
  intros (S & H1 & H2 & H3 & H4 & H5 & H6 & H7) Hc. exists (S ∪ {[src]}). cbn [votes waiting checked].
  assert (src ∉ S) by (clear - H3 Hc; set_solver).
  split; [rewrite size_union, size_singleton by (clear H7 H6; set_solver); lia|].
  split; [clear H7 H6; set_solver|]. split; [clear H7 H6; set_solver|].
  split; [clear H7 H6; set_solver|]. split; [clear H7 H6; set_solver|]. split; [done|].
  intros s Hs. apply H7. clear - Hs Hc. set_solver.
Qed.

(** Enough votes make a candidate the leader. *)
Lemma inv_elected g w a p b :
  inv g w -> procs w !! a = Some p -> State (p_node p) = Candidate ->
  ballot_ok g a (CurrentTerm (p_node p)) b -> hasMajority (p_node p) (votes b) = true ->
  exists g', later g g' /\ inv g' (setNode w a p (becomeLeader (p_node p))) /\ gvotes g' = gvotes g.
Proof.
  intros Hinv Hp Hs (S & H1 & H2 & H3 & H4 & H5 & [La HLa] & H7) Hm.
  pose proof (Hn g w a p Hinv Hp) as HN. pose proof (n_mem _ _ _ _ _ HN) as Hmem.
  apply hasMajority_iff in Hm. rewrite (peersCount_M g w a p Hinv Hp) in Hm.
  assert (majority M (S ∪ {[a]})) as HQ.
  { clear H7. split; [set_solver|]. rewrite size_union, size_singleton by set_solver. lia. }
  assert (forall v, v ∈ S ∪ {[a]} -> exists L, gvotes g !! (v, CurrentTerm (p_node p)) = Some (a, L)) as Hv.
  { intros v [Hv| ->%elem_of_singleton]%elem_of_union; [|by eexists]. apply H7. set_solver. }
  exists (addLeader g a (CurrentTerm (p_node p)) (Log (p_node p))).
  split; [by eapply ext_later, (ext_promote M g w a p Hinv Hp (S ∪ {[a]}))|]. split; [|done].
  by apply (inv_promote M HM g w a p Hinv Hp (S ∪ {[a]})).
Qed.

Lemma inv_vote_reply g w src a term resp p b n' go :
  inv g w -> VoteResp src a term resp ∈ net w -> procs w !! a = Some p ->
  p_ballots p !! term = Some b -> src ∈ waiting b ->
  voteReply term resp (p_node p) = (n', go) ->
  inv g (put w a (mkProc n'
    (<[term := mkBallot (votes b) (waiting b ∖ {[src]})
                 (if go then checked b ∪ {[src]} else checked b)]> (p_ballots p)) (p_tasks p)) []).
Proof.
  intros Hinv Hin Hp Hb Hw Hr. apply (i_net _ _ _ Hinv) in Hin. simpl in Hin.
  pose proof (inv_unchanged g w a p Hinv Hp) as Hsame.
  assert (inv g (setNode w a p n') /\ (go = true -> RequestVoteResponse.VoteGranted resp = true)) as [Hi Hgo].
  { unfold voteReply in Hr. repeat case_if; try done.
    split; [|done]. by apply (inv_stepDown M g w a p Hinv Hp). }
  apply inv_ballot; [done| |done]. apply ballot_ok_reply; [|done|auto].
  by apply (Hballot g w a p Hinv Hp).
Qed.

Lemma inv_count_vote g w src a term p b n' votes' :
  inv g w -> procs w !! a = Some p -> p_ballots p !! term = Some b -> src ∈ checked b ->
  countVote term (votes b) (p_node p) = (n', votes') ->
  exists g', later g g' /\ inv g' (put w a (mkProc n'
    (<[term := mkBallot votes' (waiting b) (checked b ∖ {[src]})]> (p_ballots p)) (p_tasks p)) []).
Proof.
  intros Hinv Hp Hb Hc Hcv. unfold countVote in Hcv.
  pose proof (ballot_ok_count _ _ _ _ _ (Hballot g w a p Hinv Hp term b Hb) Hc) as Hok.
  assert (n' = p_node p /\ votes' = votes b + 1 -> exists g', later g g' /\ inv g' (put w a (mkProc n'
    (<[term := mkBallot votes' (waiting b) (checked b ∖ {[src]})]> (p_ballots p)) (p_tasks p)) [])) as Hsame.
  { intros [-> ->]. exists g. split; [done|]. apply inv_ballot; [by apply inv_unchanged|done|done]. }
  destruct (hasMajority _ _) eqn:Hm; [|apply Hsame; by simplify_eq].
  destruct (_ && _) eqn:Hs; [|apply Hsame; by simplify_eq]. bool_to_prop. simplify_eq.
  edestruct (inv_elected g w a p) as (g' & Hlt & Hg' & Hgv); [done|done|done|exact Hok|done|].
  exists g'. split; [done|]. apply inv_ballot; [done| |done]. by apply (ballot_ok_mono M g); [rewrite Hgv|].
Qed.

Lemma inv_finish_election g w a term p b :
  inv g w -> procs w !! a = Some p -> p_ballots p !! term = Some b ->
  exists g', later g g' /\ inv g' (put w a (mkProc (finishElection term (votes b) (p_node p))
      (delete term (p_ballots p)) (p_tasks p)) []).
Proof.
  intros Hinv Hp Hb. pose proof (Hballot g w a p Hinv Hp term b Hb) as Hok.
  assert (exists g', later g g' /\ inv g' (setNode w a p (finishElection term (votes b) (p_node p))))
    as (g' & Hlt & Hg').
  { unfold finishElection. destruct (_ || _) eqn:Hs; [exists g; split; [done|by apply inv_unchanged]|]. bool_to_prop.
    destruct (hasMajority _ _) eqn:Hm; [|exists g; split; [done|by apply inv_timer]].
    destruct (inv_elected g w a p b Hinv Hp) as (g' & Hlt & Hg' & _); [done|by subst|done|by exists g']. }
  exists g'. split; [done|]. destruct (i_procs _ _ _ Hg' a _ (setNode_lookup w a p _)) as [_ Hbs Hts].
  apply (inv_resched g' w a p); [done| |done|done]. intros T b' [_ Hl]%lookup_delete_Some. by apply Hbs.
Qed.

(** ** Replication *)

Lemma inv_heartbeats g w a p term commitIndex peers :
  inv g w -> procs w !! a = Some p ->
  sendHeartbeats (p_node p) = Some (term, commitIndex, peers) ->
  inv g (put w a (mkProc (p_node p) (p_ballots p)
      (map (fun i => mkTask (pi_id i) (pi_next i) term commitIndex) peers ++ p_tasks p)) []).
Proof.
  intros Hinv Hp Hs. pose proof (Hn g w a p Hinv Hp) as HN.
  destruct (i_procs _ _ _ Hinv a p Hp) as [_ Hb Ht].
  apply (inv_resched g w a p); [by apply inv_unchanged|done| |done].
  intros t [Hin|Hin]%elem_of_app; [|by apply Ht].
  unfold sendHeartbeats in Hs. destruct (negb _) eqn:Hl; [done|]. bool_to_prop. simplify_eq.
  destruct (n_lead _ _ _ _ _ HN Hl) as [Hle Hll Ha Hni Hma].
  apply list_elem_of_fmap in Hin as (i & -> & Hin).
  apply list_elem_of_fmap in Hin as ([q addr] & -> & Hin). apply elem_of_map_to_list in Hin.
  apply elem_of_dom_2 in Hin. rewrite (n_peers _ _ _ _ _ HN) in Hin.
  destruct (n_commit _ _ _ _ _ HN) as [Hr Hco].
  split; [done|]. split; [done|]. exists (Log (p_node p)). simpl. split; [done|].
  split; [by apply Hni|]. split; [lia|done].
Qed.

(** The request describes the leader's log. *)
Lemma replicateToPeer_ok g w a p t req :
  inv g w -> procs w !! a = Some p -> t ∈ p_tasks p ->
  replicateToPeer (p_node p) (t_next t) (t_term t) (t_commit t) = Some req ->
  append_ok M g a (t_next t) req.
Proof.
  intros Hinv Hp Hin Hr. pose proof (Hn g w a p Hinv Hp) as HN.
  destruct (i_procs _ _ _ Hinv a p Hp) as [_ _ Ht].
  destruct (Ht t Hin) as (_ & Hl & G & HG & Hnx & Hc & Hco).
  unfold replicateToPeer in Hr. destruct (_ || _) eqn:Hs; [done|]. bool_to_prop. injection Hr as <-.
  match goal with H : State _ = Leader |- _ => destruct (n_lead _ _ _ _ _ HN H) as [_ Hll _ _ _] end.
  match goal with H : CurrentTerm _ = t_term t |- _ => rewrite H in Hll end.
  rewrite HG in Hll. injection Hll as ->. set (L := Log (p_node p)) in *.
  split; [done|]. cbn [AppendEntriesRequest.PrevLogIndex AppendEntriesRequest.Entries
    AppendEntriesRequest.LeaderCommit AppendEntriesRequest.Term AppendEntriesRequest.PrevLogTerm].
  split; [done|]. split; [lia|]. exists L. split; [done|].
  replace (Z.to_nat (t_next t - 1 + 1)) with (Z.to_nat (t_next t)) by lia.
  assert ((if (t_next t >=? 0) && (t_next t <? len L) then default [] (go_slice_from L (t_next t)) else [])
    = drop (Z.to_nat (t_next t)) L) as ->.
  { destruct (_ && _) eqn:Hb; bool_to_prop.
    - unfold go_slice_from. by replace ((0 <=? t_next t) && (t_next t <=? len L)) with true by lia.
    - rewrite drop_ge; [done|]. destruct Hb; bool_to_prop; lia. }
  split.
  { intros Hpos. replace (t_next t - 1 >=? 0) with true by lia. replace (t_next t - 1 <? len L) with true by lia.
    cbn [andb]. destruct (go_index_range L (t_next t - 1) ltac:(lia)) as [e He]. rewrite He.
    apply go_index_Some in He as [_ He]. by exists e. }
  rewrite length_drop. split; [lia|]. split; [by rewrite take_ge by len_lia|].
  split; [lia|done].
Qed.

Lemma inv_replicate g w a p t req :
  inv g w -> procs w !! a = Some p -> t ∈ p_tasks p ->
  replicateToPeer (p_node p) (t_next t) (t_term t) (t_commit t) = Some req ->
  inv g (put w a p [AppendReq a (t_peer t) (t_next t) req]).
Proof.
  intros Hinv Hp Hin Hr. replace p with (mkProc (p_node p) (p_ballots p) (p_tasks p)) at 1 by by destruct p.
  apply inv_send; [by apply inv_unchanged|]. apply Forall_singleton. split.
  - destruct (i_procs _ _ _ Hinv a p Hp) as [_ _ Ht]. by destruct (Ht t Hin) as [? _].
  - by apply (replicateToPeer_ok g w a p).
Qed.

(** A node whose role is all that changes. *)
Lemma inv_follower g w a p :
  inv g w -> procs w !! a = Some p ->
  inv g (setNode w a p (resetElectionTimer (set_State Follower (p_node p)))).
Proof.
  intros Hinv Hp. destruct (Hn g w a p Hinv Hp) as [N1 N2 N3 N4 N5 N6 N7 N8 N9 N10 N11 N12 N13 N14 N15 N16 N17].
  apply inv_local; try done; [by right|apply N17|apply N17].
Qed.

Lemma inv_client g w a p req :
  inv g w -> procs w !! a = Some p ->
  exists g', later g g' /\ inv g' (put w a (mkProc (fst (handleClientReq (p_node p) req)) (p_ballots p) (p_tasks p)) []).
Proof.
  intros Hinv Hp. unfold handleClientReq. destruct (negb _) eqn:Hs; bool_to_prop.
  { exists g. split; [done|]. apply inv_send; [by apply inv_unchanged|done]. }
  eexists. split; [|apply inv_send; [|done]; simpl; by apply (inv_propose M g w a p Hinv Hp)].
  by eapply ext_later, (ext_propose M g w a p Hinv Hp).
Qed.

Lemma inv_apply g w a p n' :
  inv g w -> procs w !! a = Some p -> applyCommittedEntries (p_node p) = Some n' ->
  inv g (put w a (mkProc n' (p_ballots p) (p_tasks p)) []).
Proof.
  intros Hinv Hp Ha. pose proof (Hn g w a p Hinv Hp) as HN.
  destruct HN as [N1 N2 N3 N4 N5 N6 N7 N8 N9 N10 N11 N12 N13 N14 N15 N16 [Hkv Hle]].
  pose proof (applyCommittedEntries_synced _ _ Hkv Ha) as Hkv'.
  destruct (applyCommittedEntries_spec (p_node p)) as (n1 & Hn1 & Hf & Hla & _); [destruct Hkv; lia|].
  rewrite Ha in Hn1. injection Hn1 as <-. unfold applyTarget in Hla.
  destruct Hf as (F1 & F2 & F3 & F4 & F5 & F6 & F7 & F8 & F9 & F10).
  apply inv_send; [|done]. apply inv_local; try done.
  - by apply (durable_ext (p_node p)).
  - by left.
  - by rewrite F9.
  - rewrite F3. intros Hs. destruct (N12 Hs) as [? ? ? ? ?]. split; by rewrite ?F4, ?F6, ?F8, ?F9.
  - lia.
Qed.

Lemma inv_restart g w a p :
  inv g w -> procs w !! a = Some p -> inv g (put w a (mkProc (restart (p_node p)) ∅ []) []).
Proof.
  intros Hinv Hp. destruct (Hn g w a p Hinv Hp) as [N1 N2 N3 N4 N5 N6 N7 N8 N9 N10 N11 N12 N13 N14 N15 N16 N17].
  pose proof (durable_restart _ _ N6) as [Hd Hci]. destruct N6 as (rs & Hrs & Hpr).
  destruct (restart_spec _ rs Hrs) as (R1 & R2 & R3 & R4 & R5 & R6 & R7 & R8 & R9).
  rewrite Hpr in R1, R8, R9. apply persistentOf_inv in R1 as (Q1 & Q2 & Q3 & Q4). cbn [pCommit pLog] in R8, R9.
  apply (inv_resched g w a p); [|done|intros t Ht; by apply not_elem_of_nil in Ht|done].
  apply inv_local; try done.
  - by right.
  - rewrite R7. set_solver.
  - congruence.
  - unfold kv_synced. rewrite R9, Q3, R8. split; [lia|]. do 2 f_equal. lia.
  - lia.
Qed.

(** ** Append requests *)

(** The length of the leader's log an append request covers. *)
Definition covered (req : AppendEntriesRequest) : nat :=
  (Z.to_nat (AppendEntriesRequest.PrevLogIndex req + 1) + length (AppendEntriesRequest.Entries req))%nat.

(** The log after an accepted request: the leader's up to what the request
    covers, unless it had all that already. *)
Lemma accepted_log g (n n2 n3 : node) req G :
  log_ok g (Log n) -> log_ok g G -> -1 <= AppendEntriesRequest.PrevLogIndex req ->
  (0 <= AppendEntriesRequest.PrevLogIndex req ->
     exists e, G !! Z.to_nat (AppendEntriesRequest.PrevLogIndex req) = Some e /\
       LogEntry.Term e = AppendEntriesRequest.PrevLogTerm req) ->
  (covered req <= length G)%nat ->
  AppendEntriesRequest.Entries req = take (length (AppendEntriesRequest.Entries req))
    (drop (Z.to_nat (AppendEntriesRequest.PrevLogIndex req + 1)) G) ->
  prev_outcome n req (inr n2) ->
  appendLoop (AppendEntriesRequest.PrevLogIndex req) 0 (AppendEntriesRequest.Entries req) n2 = Some n3 ->
  log_frame n n3 /\
  Log n3 = if decide (take (covered req) (Log n) = take (covered req) G) then Log n else take (covered req) G.
Proof.
  intros HL HG Hprev Hpe Hlen Hes Hout Hloop.
  destruct (appendLoop_spec (AppendEntriesRequest.PrevLogIndex req) (AppendEntriesRequest.Entries req) 0 n2)
    as (n3' & Hl' & Hf & Hm); [lia|].
  rewrite Hloop in Hl'. injection Hl' as <-. rewrite Z.add_0_r in Hm. unfold covered in *.
  assert (forall j x y, Log n !! j = Some x -> G !! j = Some y -> LogEntry.Term x = LogEntry.Term y ->
     take (S j) (Log n) = take (S j) G) as Hmat by (intros; by eapply log_matching).
  inversion Hout as [| |e H0 He Ht Heq|e0 l en rest H1 Hlog Hen Ht Heq|H1 Heq]; subst.
  - split; [done|]. rewrite Hm. apply merge_segment; try done.
    destruct (Hpe H0) as (y & Hy & Hty).
    replace (Z.to_nat (AppendEntriesRequest.PrevLogIndex req + 1))
      with (S (Z.to_nat (AppendEntriesRequest.PrevLogIndex req))) by lia.
    eapply Hmat; [done..|congruence].
  - split; [by etransitivity; [apply (cutLog_frame n 0)|]|]. rewrite Hm. rewrite H1 in *. simpl Z.to_nat in *.
    change (Log (cutLog n 0)) with (take 0 (Log n)). rewrite take_0, (merge_end [] _). simpl.
    rewrite decide_False; [done|]. rewrite Hlog. rewrite drop_0 in Hes. rewrite <- Hes, Hen. simpl. congruence.
  - split; [done|]. rewrite Hm. apply merge_segment; try done.
    by replace (Z.to_nat (AppendEntriesRequest.PrevLogIndex req + 1)) with 0%nat by lia.
Qed.

(** What agreed with the leader's log still does. *)
Lemma accepted_keep (L G : list LogEntry) m k :
  take k L = take k G -> take k (if decide (take m L = take m G) then L else take m G) = take k G.
Proof.
  intros Hk. case_decide as Hd; [done|]. rewrite take_take.
  destruct (decide (k <= m)%nat) as [Hle|Hgt]; [by rewrite Nat.min_l|].
  exfalso. apply Hd, (take_eq_le k); [lia|done].
Qed.

(** A follower of the request's term handles it. *)
Section follower.
Context (g : ghost) (w : world) (a : string) (p : proc).
Context (Hinv : inv g w) (Hp : procs w !! a = Some p).
Let n : node := p_node p.
Context (src : string) (nx : Z) (req : AppendEntriesRequest).
Context (Hfol : State n = Follower) (HT : CurrentTerm n = AppendEntriesRequest.Term req).
Context (Happ : append_ok M g src nx req).

Lemma follower_node : node_inv M g (terms w) a n.
Proof. apply (Hn g w a p Hinv Hp). Qed.

Lemma inv_take_over n' G m :
  llog g !! CurrentTerm n = Some G ->
  (ID n' = ID n /\ Peers n' = Peers n /\ State n' = State n /\ CurrentTerm n' = CurrentTerm n /\
   VotedFor n' = VotedFor n /\ LastApplied n' = LastApplied n /\ MatchIndex n' = MatchIndex n /\
   KVStore n' = KVStore n) ->
  (m <= length G)%nat -> take m (Log n') = take m G ->
  (forall k, take k (Log n) = take k G -> take k (Log n') = take k G) ->
  log_ok g (Log n') -> terms_below (Log n') (CurrentTerm n) -> durable n' (CommitIndex n') ->
  (CommitIndex n' = CommitIndex n \/
   CommitIndex n <= CommitIndex n' < Z.of_nat m /\ commit_ok M g (CurrentTerm n) G (CommitIndex n')) ->
  exists g', later g g' /\ inv g' (setNode w a p n') /\ append_ok M g' src nx req /\
    (m <= acked g' a (AppendEntriesRequest.Term req))%nat.
Proof.
  intros HGT Hfr Hm HmL Hkeep Hlog Hbel Hdur Hci. eexists.
  split; [by eapply ext_later, (ext_accept M g w a p Hinv Hp n' G m)|].
  split; [by apply (inv_accept M g w a p Hinv Hp n' G m)|]. split.
  - by eapply append_ok_mono; [apply (ext_accept M g w a p Hinv Hp n' G m)|].
  - rewrite (acked_accept g a p m). rewrite decide_True by by rewrite <- HT. lia.
Qed.

(** The follower refuses: its log is cut where it conflicts. *)
Lemma inv_refused n2 :
  prev_outcome n req (inl n2) -> exists g', later g g' /\ inv g' (setNode w a p n2) /\ append_ok M g' src nx req.
Proof.
  intros Hout. pose proof Happ as (_ & _ & Hprev & G & HGT & Hpe & _). rewrite <- HT in HGT.
  pose proof follower_node as HN.
  pose proof (durable_checkPrev n req _ _ (fun _ => I) Hout (n_wal _ _ _ _ _ HN)) as Hdur. simpl in Hdur.
  assert (log_frame n n2 /\ exists i, Log n2 = take i (Log n) /\
    (forall k, take k (Log n) = take k G -> take k (Log n2) = take k G)) as (Hfr & i & Hi & Hkeep).
  { inversion Hout as [Hb Heq|e H0 He Ht Heq| | |].
    - split; [done|]. exists (Z.to_nat (len (Log n))). split; [done|]. intros k Hk. simpl.
      by rewrite (take_ge (Log n)) by lia.
    - split; [done|]. eexists. split; [done|]. intros k Hk. simpl. destruct (Hpe H0) as (y & Hy & Hty).
      destruct (decide (k <= Z.to_nat (AppendEntriesRequest.PrevLogIndex req))%nat).
      { rewrite take_take. by rewrite Nat.min_l. }
      exfalso. rewrite (take_eq_lookup k _ (Log n) G) in He by (lia || done). congruence. }
  destruct Hfr as (F1 & F2 & F3 & F4 & F5 & F6 & F7 & F8 & F9 & F10).
  destruct (inv_take_over n2 G 0) as (g' & Hlt & Hg' & Ha & _); try done; try lia.
  - rewrite Hi. apply log_ok_take, HN.
  - rewrite Hi. apply Forall_take, HN.
  - by rewrite F6.
  - by exists g'.
Qed.

(** The commit index after an accepted request. *)
Lemma followCommit_index (n3 : node) lc :
  lc < len (Log n3) -> CommitIndex (followCommit lc n3) = Z.max lc (CommitIndex n3).
Proof. intros Hlc. unfold followCommit. repeat case_if; lia. Qed.

Lemma followCommit_frame (n3 : node) lc :
  log_frame n3 (set_CommitIndex (CommitIndex n3) (followCommit lc n3)) /\
  Log (followCommit lc n3) = Log n3.
Proof. unfold followCommit. by repeat case_match. Qed.

Lemma inv_accepted n2 n3 :
  prev_outcome n req (inr n2) ->
  appendLoop (AppendEntriesRequest.PrevLogIndex req) 0 (AppendEntriesRequest.Entries req) n2 = Some n3 ->
  exists g', later g g' /\ inv g' (setNode w a p (followCommit (AppendEntriesRequest.LeaderCommit req) n3)) /\
    append_ok M g' src nx req /\ (covered req <= acked g' a (AppendEntriesRequest.Term req))%nat /\
    CommitIndex n <= CommitIndex (followCommit (AppendEntriesRequest.LeaderCommit req) n3).
Proof.
  intros Hout Hloop. pose proof Happ as (_ & _ & Hprev & G & HGT & Hpe & Hlen & Hes & Hlc & Hco).
  pose proof follower_node as HN. destruct (g_log _ _ _ (i_ghost _ _ _ Hinv) _ _ HGT) as [HGok HGb].
  rewrite <- HT in HGT, Hco, HGb.
  pose proof (durable_checkPrev n req _ _ (fun _ => I) Hout (n_wal _ _ _ _ _ HN)) as Hdur. simpl in Hdur.
  assert (durable n3 (CommitIndex n)) as Hd3.
  { eapply durable_appendLoop; [done| |done..]. by apply Forall_true. }
  destruct (accepted_log g n n2 n3 req G) as [(F1 & F2 & F3 & F4 & F5 & F6 & F7 & F8 & F9 & F10) Hlog3];
    try done; [apply HN|].
  assert (take (covered req) (Log n3) = take (covered req) G) as Hcov.
  { rewrite Hlog3. case_decide; [done|]. rewrite take_take. by rewrite Nat.min_id. }
  assert (covered req <= length (Log n3))%nat as Hl3 by by apply (take_eq_length _ _ G).
  assert (AppendEntriesRequest.LeaderCommit req < Z.of_nat (covered req)) as Hlc' by (unfold covered; lia).
  set (lc := AppendEntriesRequest.LeaderCommit req) in *. set (n4 := followCommit lc n3).
  pose proof (followCommit_index n3 lc ltac:(lia)) as Hci. fold n4 in Hci.
  destruct (followCommit_frame n3 lc) as [(E1 & E2 & E3 & E4 & E5 & _ & E7 & E8 & E9 & E10) E11].
  fold n4 in E1, E2, E3, E4, E5, E7, E8, E9, E10, E11. simpl in E1, E2, E3, E4, E5, E7, E8, E9, E10.
  destruct (inv_take_over n4 G (covered req)) as (g' & Hg' & Hi' & Ha' & Hk'); try done.
  - split_and!; congruence.
  - by rewrite E11.
  - intros k Hk. rewrite E11, Hlog3. by apply accepted_keep.
  - rewrite E11, Hlog3. case_decide; [apply HN|]. by apply log_ok_take.
  - rewrite E11, Hlog3. case_decide; [apply HN|]. by apply Forall_take.
  - pose proof (durable_followCommit lc n3 (CommitIndex n) (fun _ => I) ltac:(lia) Hd3) as Hd4.
    fold n4 in Hd4. by rewrite Z.max_r in Hd4 by lia.
  - destruct (decide (lc <= CommitIndex n)) as [Hle|Hgt]; [left; lia|right].
    rewrite Hci, F6, Z.max_l by lia. split; [lia|done].
  - exists g'. split_and!; try done. lia.
Qed.
End follower.

Lemma inv_append_request g w src a nextIdx req p n' resp :
  inv g w -> AppendReq src a nextIdx req ∈ net w -> procs w !! a = Some p ->
  HandleAppendEntries (p_node p) req = Some (n', resp) ->
  CommitIndex (p_node p) <= CommitIndex n' /\
  exists g', later g g' /\ inv g' (put w a (mkProc n' (p_ballots p) (p_tasks p)) [AppendResp a src nextIdx req resp]).
Proof.
  intros Hinv Hin Hp Hh. apply (i_net _ _ _ Hinv) in Hin as [Hmem Happ]. unfold HandleAppendEntries in Hh.
  destruct (_ <? _) eqn:Hlt; bool_to_prop.
  { injection Hh as <- <-. split; [done|]. exists g. split; [done|]. apply inv_send; [by apply inv_unchanged|]. apply Forall_singleton. done. }
  set (n0 := resetElectionTimer _) in Hh.
  assert (CommitIndex n0 = CommitIndex (p_node p)) as Hci0 by by unfold n0; destruct (_ >? _).
  assert (inv g (setNode w a p n0) /\ State n0 = Follower /\
    CurrentTerm n0 = AppendEntriesRequest.Term req) as (Hi & Hfol & HT).
  { unfold n0. destruct (_ >? _) eqn:Hgt; bool_to_prop.
    - split; [|done]. pose proof (inv_stepDown M g w a p Hinv Hp (AppendEntriesRequest.Term req) Hgt) as Hsd.
      pose proof (inv_timer g _ a _ Hsd (setNode_lookup _ _ _ _)) as Ht.
      by erewrite setNode_setNode in Ht by apply setNode_lookup.
    - split; [by apply inv_follower|]. split; [done|]. simpl. lia. }
  set (p0 := mkProc n0 (p_ballots p) (p_tasks p)).
  pose proof (setNode_lookup w a p n0) as Hp0. fold p0 in Hp0.
  assert (forall n1, setNode (setNode w a p n0) a p0 n1 = setNode w a p n1) as Hss
    by (intros n1; by apply setNode_setNode).
  destruct (checkPrev_outcome n0 req) as (r & Hr & Hout). rewrite Hr in Hh. cbn [mbind option_bind] in Hh.
  destruct r as [n2|n2].
  - injection Hh as <- <-.
    destruct (inv_refused g _ a p0 Hi Hp0 src nextIdx req Hfol HT Happ n2 Hout) as (g' & Hlt' & Hg' & Ha).
    rewrite Hss in Hg'. split; [rewrite <- Hci0; by inversion Hout|].
    exists g'. split; [done|]. apply inv_send; [done|]. by apply Forall_singleton.
  - destruct (appendLoop _ _ _ n2) as [n3|] eqn:Hloop; [|done]. injection Hh as <- <-.
    destruct (inv_accepted g _ a p0 Hi Hp0 src nextIdx req Hfol HT Happ n2 n3 Hout Hloop)
      as (g' & Hlt' & Hg' & Ha & Hack & Hcm).
    rewrite Hss in Hg'. split; [rewrite <- Hci0; exact Hcm|]. exists g'. split; [done|]. apply inv_send; [done|]. apply Forall_singleton. split; [done|]. split; [done|].
    intros _. destruct Ha as (_ & _ & Hprev & _). unfold covered in Hack. lia.
Qed.

(** Acknowledgements. *)
Lemma inv_advance g w a p n' :
  inv g w -> procs w !! a = Some p -> State (p_node p) = Leader ->
  advanceCommitIndex (p_node p) = Some n' -> inv g (setNode w a p n').
Proof.
  intros Hinv Hp Hs Ha. pose proof (Hn g w a p Hinv Hp) as HN.
  pose proof (n_commit _ _ _ _ _ HN) as [Hr _].
  destruct (advanceCommitIndex_spec (p_node p)) as [(N & HN1 & _ & HN2)|[_ HN2]];
    [lia| |]; rewrite Ha in HN2; injection HN2 as ->; [|by apply inv_unchanged].
  pose proof HN1 as (Hlt & (e & He & _) & _). apply go_index_Some in He as [H0 He%lookup_lt_Some].
  apply (inv_commit M g w a p Hinv Hp); try done; simpl.
  - lia.
  - replace N with (Z.max (CommitIndex (p_node p)) N) at 2 by lia.
    by apply (durable_commit (p_node p)); [..|apply HN].
  - by apply (committable_ok M g w a p Hinv Hp).
Qed.

Lemma inv_append_reply g w src a nextIdx req resp p n' :
  inv g w -> AppendResp src a nextIdx req resp ∈ net w -> procs w !! a = Some p ->
  replicateReply (p_node p) src nextIdx (AppendEntriesRequest.Term req)
    (AppendEntriesRequest.PrevLogIndex req) (AppendEntriesRequest.Entries req) resp = Some n' ->
  inv g (put w a (mkProc n' (p_ballots p) (p_tasks p)) []).
Proof.
  intros Hinv Hin Hp Hr. apply (i_net _ _ _ Hinv) in Hin as (Hmem & Happ & Hack).
  apply inv_send; [|done]. pose proof (Hn g w a p Hinv Hp) as HN. unfold replicateReply in Hr.
  destruct (_ || _) eqn:Hs; bool_to_prop; [injection Hr as <-; by apply inv_unchanged|].
  destruct (_ >? CurrentTerm _) eqn:Hgt; bool_to_prop;
    [injection Hr as <-; by apply (inv_stepDown M g w a p Hinv Hp)|].
  match goal with H : State _ = Leader |- _ => rename H into Hl end.
  match goal with H : CurrentTerm _ = _ |- _ => rename H into HT end.
  pose proof HN as [N1 N2 N3 N4 N5 N6 N7 N8 N9 N10 N11 N12 N13 N14 N15 N16 N17].
  destruct (N12 Hl) as [L1 L2 L3 L4 L5]. destruct Happ as (_ & Hnx & Hprev & G & HG & _ & Hlen & _).
  rewrite <- HT in HG, Hack. rewrite L2 in HG. injection HG as <-.
  assert (forall m k, (m = MatchIndex (p_node p) \/ m = <[src := k]> (MatchIndex (p_node p))) ->
    dom m ⊆ M ∖ {[a]}) as Hdom.
  { intros m k [->| ->]; [done|]. rewrite dom_insert. set_solver. }
  assert (forall x q, 0 <= x <= len (Log (p_node p)) -> q ∈ M ∖ {[a]} ->
    0 <= go_map_int (<[src := x]> (NextIndex (p_node p))) q <= len (Log (p_node p))) as Hnext.
  { intros x q Hx Hq. unfold go_map_int. destruct (decide (q = src)) as [->|Hne].
    - by rewrite lookup_insert_eq.
    - rewrite lookup_insert_ne by done. by apply L4. }
  destruct (AppendEntriesResponse.Success resp).
  - destruct (len _ >? 0) eqn:He; bool_to_prop; [|injection Hr as <-; by apply inv_unchanged].
    set (k := AppendEntriesRequest.PrevLogIndex req + len (AppendEntriesRequest.Entries req)) in *.
    set (n1 := set_NextIndex _ _) in Hr.
    assert (inv g (setNode w a p n1)) as Hi.
    { apply inv_local; try done; [by left|by eapply Hdom; right| |apply N17|apply N17].
      intros _. split; try done; simpl.
      - intros q. apply Hnext. unfold go_map_int. rewrite lookup_insert_eq. simpl. unfold k. lia.
      - intros q m. rewrite lookup_insert_Some. intros [[<- <-]|[_ Hm]]; [|by apply L5].
        specialize (Hack eq_refl). unfold k. lia. }
    erewrite <- setNode_setNode by apply setNode_lookup.
    by apply (inv_advance g _ a _ n' Hi (setNode_lookup w a p n1)).
  - destruct (nextIdx >? 0) eqn:He; bool_to_prop; injection Hr as <-; [|by apply inv_unchanged].
    apply inv_local; try done; [by left| |apply N17|apply N17].
    intros _. split; try done; simpl. intros q. apply Hnext. lia.
Qed.
End moves.
