(* ===== verification/ClusterCrash.v ===== *)
(** * Crashes inside a critical section

    The two handlers are the only critical sections that write more than one
    log record.  A node that dies while one of them writes recovers from a
    prefix of the records.  Such a prefix is what the handler would have
    written for another legitimate request: an append request with fewer
    entries, or one that the follower refuses.  So the invariant is kept. *)

From stdpp Require Import base gmap strings list fin_sets.
From S2P Require Import Prelude Types Kv Wal State Recovery Election Replication Apply Durability Cluster ClusterInv ClusterSteps ClusterLog ClusterMoves.

Abbreviation recs n := (records (wal n)).

(** ** Prefixes of what the entry loop writes *)

Lemma foldl_recs es (n : node) :
  is_open (wal n) = true ->
  recs (foldl appendEntry n es) = recs n ++ map entryRecord es /\ is_open (wal (foldl appendEntry n es)) = true.
Proof.
  revert n. induction es as [|e es IH]; intros n Ho; simpl; [by rewrite app_nil_r|].
  destruct (IH (appendEntry n e)) as [-> ->]; simpl; rewrite Ho; [done|]. simpl. by rewrite <- app_assoc.
Qed.

Lemma cutLog_recs (n : node) idx :
  is_open (wal n) = true ->
  recs (cutLog n idx) = recs n ++ [truncateRecord (idx - 1)] /\ is_open (wal (cutLog n idx)) = true.
Proof. intros Ho. simpl. by rewrite Ho. Qed.

Lemma appendEntry_recs (n : node) e :
  is_open (wal n) = true ->
  recs (appendEntry n e) = recs n ++ [entryRecord e] /\ is_open (wal (appendEntry n e)) = true.
Proof. intros Ho. simpl. by rewrite Ho. Qed.

(** Who the node is does not change. *)
Definition same_id (n m : node) : Prop := ID m = ID n /\ Addr m = Addr n /\ Peers m = Peers n.

#[global] Instance same_id_preorder : PreOrder same_id.
Proof. split; [done|]. intros a b c (?&?&?) (?&?&?). unfold same_id. split_and!; congruence. Qed.

Lemma foldl_same es (n : node) : same_id n (foldl appendEntry n es).
Proof. revert n. induction es as [|e es IH]; intros n; simpl; [done|]. by transitivity (appendEntry n e). Qed.

Lemma truncateLog_eq (n n' : node) idx : truncateLog n idx = Some n' -> n' = cutLog n idx.
Proof.
  unfold truncateLog. destruct (go_slice_to (Log n) idx) as [l|] eqn:E; [|done].
  intros [= <-]. by apply go_slice_to_Some in E as [-> _].
Qed.

Lemma appendLoop_same prev es : forall i (n n3 : node),
  appendLoop prev i es n = Some n3 -> is_open (wal n) = true ->
  same_id n n3 /\ recs n `prefix_of` recs n3 /\ is_open (wal n3) = true.
Proof.
  induction es as [|e es IH]; intros i n n3; cbn [appendLoop]; [by intros [= ->]|]. intros Hl Ho.
  destruct (_ <? _).
  - destruct (go_index _ _) as [x|]; cbn [mbind option_bind] in Hl; [|done].
    destruct (negb _); [|by apply (IH (i + 1))]. destruct (truncateLog _ _) as [n2|] eqn:Ht; [|done].
    apply truncateLog_eq in Ht as ->. destruct (cutLog_recs n (prev + 1 + i) Ho) as [Hr Ho2].
    injection Hl as <-. destruct (foldl_recs (e :: es) _ Ho2) as [Hf Hfo].
    change (foldl appendEntry (appendEntry (cutLog n (prev + 1 + i)) e) es)
      with (foldl appendEntry (cutLog n (prev + 1 + i)) (e :: es)).
    split; [by etransitivity; [|apply (foldl_same (e :: es))]|]. split; [|done]. rewrite Hf, Hr, <- app_assoc. by eexists.
  - destruct (appendEntry_recs n e Ho) as [Hr Ho2]. destruct (IH _ _ _ Hl Ho2) as (Hs & Hp & Ho3).
    split; [by transitivity (appendEntry n e)|]. split; [|done].
    transitivity (recs (appendEntry n e)); [|done]. rewrite Hr. by eexists.
Qed.

(** A prefix of the records of the loop is what it writes for fewer entries, or
    up to the truncation at the first conflict. *)
Lemma appendLoop_torn prev es : forall i (n n3 : node) k,
  0 <= prev + 1 + i -> is_open (wal n) = true -> appendLoop prev i es n = Some n3 ->
  (length (recs n) <= k)%nat ->
  (exists j m, appendLoop prev i (take j es) n = Some m /\ recs m = take k (recs n3)) \/
  (exists j e x, es !! j = Some e /\ Log n !! Z.to_nat (prev + 1 + i + Z.of_nat j) = Some x /\
     LogEntry.Term x <> LogEntry.Term e /\ recs (cutLog n (prev + 1 + i + Z.of_nat j)) = take k (recs n3)).
Proof.
  induction es as [|e es IH]; intros i n n3 k Hi Ho Hl Hk.
  { injection Hl as <-. left. exists 0%nat, n. split; [done|]. symmetry. by apply take_ge. }
  destruct (appendLoop_same _ _ _ _ _ Hl Ho) as (_ & Hpre & _).
  destruct (decide (k = length (recs n))) as [->|Hne].
  { left. exists 0%nat, n. split; [done|]. destruct Hpre as [r ->]. by rewrite take_app_length. }
  cbn [appendLoop] in Hl. destruct (_ <? _) eqn:Hlt; bool_to_prop.
  - destruct (go_index _ _) as [x|] eqn:Hx; cbn [mbind option_bind] in Hl; [|done].
    destruct (negb _) eqn:Hterm; bool_to_prop.
    + destruct (truncateLog _ _) as [n2|] eqn:Ht; [|done]. pose proof (truncateLog_eq _ _ _ Ht) as ->.
      destruct (cutLog_recs n (prev + 1 + i) Ho) as [Hr Ho2]. cbn [mbind option_bind] in Hl. injection Hl as <-.
      change (foldl appendEntry (appendEntry (cutLog n (prev + 1 + i)) e) es)
        with (foldl appendEntry (cutLog n (prev + 1 + i)) (e :: es)).
      destruct (foldl_recs (e :: es) _ Ho2) as [-> _]. rewrite Hr.
      destruct (decide (k = S (length (recs n)))) as [->|Hne2].
      * right. exists 0%nat, e, x. apply go_index_Some in Hx as [_ Hx]. rewrite Z.add_0_r.
        split; [done|]. split; [done|]. split; [done|]. rewrite Hr. symmetry. apply take_app_length'. len_lia.
      * left. destruct (k - S (length (recs n)))%nat as [|j] eqn:Ej; [lia|].
        exists (S j), (foldl appendEntry (cutLog n (prev + 1 + i)) (take (S j) (e :: es))).
        destruct (foldl_recs (take (S j) (e :: es)) _ Ho2) as [-> _]. rewrite Hr. split.
        -- cbn [take appendLoop]. rewrite (proj2 (Z.ltb_lt _ _)), Hx by done. cbn [mbind option_bind].
           rewrite (proj2 (Z.eqb_neq _ _)) by done. cbn [negb]. by rewrite Ht.
        -- rewrite <- firstn_map. symmetry. rewrite take_app_ge by len_lia. do 2 f_equal. len_lia.
    + destruct (IH (i + 1) n n3 k ltac:(lia) Ho Hl Hk) as [(j & m & Hm & Hrm)|(j & e' & x' & He & Hx' & Ht' & Hrm)].
      * left. exists (S j), m. split; [|done]. cbn [take appendLoop].
        rewrite (proj2 (Z.ltb_lt _ _)), Hx by done. cbn [mbind option_bind].
        by rewrite (proj2 (Z.eqb_eq _ _)) by done.
      * right. exists (S j), e', x'. replace (prev + 1 + i + Z.of_nat (S j)) with (prev + 1 + (i + 1) + Z.of_nat j) by lia.
        done.
  - destruct (appendEntry_recs n e Ho) as [Hr Ho2].
    destruct (IH (i + 1) (appendEntry n e) n3 k ltac:(lia) Ho2 Hl) as [(j & m & Hm & Hrm)|(j & e' & x' & _ & Hx' & _)].
    + rewrite Hr, length_app. simpl. lia.
    + left. exists (S j), m. split; [|done]. cbn [take appendLoop]. by rewrite (proj2 (Z.ltb_ge _ _)) by done.
    + exfalso. apply lookup_lt_Some in Hx'. simpl in Hx'. rewrite length_app in Hx'. simpl in Hx'. lia.
Qed.

(** ** Other requests that explain a prefix *)

Section crash.
Context (M : gset string) (HM : "" ∉ M).

Abbreviation inv := (inv M).

Definition fewer (req : AppendEntriesRequest) (j : nat) : AppendEntriesRequest :=
  AppendEntriesRequest.mk (AppendEntriesRequest.Term req) (AppendEntriesRequest.LeaderID req)
    (AppendEntriesRequest.PrevLogIndex req) (AppendEntriesRequest.PrevLogTerm req)
    (take j (AppendEntriesRequest.Entries req)) (-1).

Lemma append_ok_fewer g src nx req j : append_ok M g src nx req -> append_ok M g src nx (fewer req j).
Proof.
  intros (Hl & Hnx & Hp & G & HG & Hpe & Hlen & Hes & _). split; [done|]. split; [done|]. split; [done|].
  exists G. split; [done|]. split; [done|]. simpl. rewrite length_take. split; [lia|]. split; [|split; [lia|left; lia]].
  rewrite Hes at 1. by rewrite take_take.
Qed.

(** A probe at the position of an entry of the request. *)
Definition probe (req : AppendEntriesRequest) (idx : Z) (e : LogEntry) : AppendEntriesRequest :=
  AppendEntriesRequest.mk (AppendEntriesRequest.Term req) (AppendEntriesRequest.LeaderID req)
    idx (LogEntry.Term e) [] (-1).

Lemma append_ok_probe g src nx req j e :
  append_ok M g src nx req -> AppendEntriesRequest.Entries req !! j = Some e ->
  let idx := AppendEntriesRequest.PrevLogIndex req + 1 + Z.of_nat j in
  append_ok M g src (idx + 1) (probe req idx e).
Proof.
  intros (Hl & Hnx & Hp & G & HG & Hpe & Hlen & Hes & _) He idx. split; [done|]. split; [simpl; lia|].
  split; [simpl; lia|]. exists G. split; [done|]. apply lookup_lt_Some in He as Hj.
  assert (G !! Z.to_nat idx = Some e) as HGe.
  { rewrite Hes in He. apply lookup_take_Some in He as [He _]. rewrite lookup_drop in He.
    rewrite <- He. f_equal. unfold idx. lia. }
  apply lookup_lt_Some in HGe as HGl. simpl. split; [intros _; by exists e|]. split; [lia|]. split; [by rewrite take_0|].
  split; [unfold idx; lia|left; lia].
Qed.

Lemma wal_is_open g w a p : inv g w -> procs w !! a = Some p -> is_open (wal (p_node p)) = true.
Proof.
  intros Hinv Hp. destruct (n_wal _ _ _ _ _ (Hn M g w a p Hinv Hp)) as (rs & Hrs & _).
  by rewrite Hrs.
Qed.

Lemma followCommit_minus (n : node) : -1 <= CommitIndex n -> followCommit (-1) n = n.
Proof. intros H. unfold followCommit. by rewrite Z.gtb_ltb, (proj2 (Z.ltb_ge _ _)). Qed.

(** The intermediate node of a prefix of [k] records. *)
Definition midway g w a p (n' : node) k g' (m : node) : Prop :=
  later g g' /\ inv g' (setNode w a p m) /\ same_id (p_node p) m /\ recs m = take k (recs n') /\
  CommitIndex (p_node p) <= CommitIndex m.

(** A follower of the request's term, after the check of its term. *)
Section follower.
Context (g : ghost) (w : world) (a : string) (p : proc).
Context (Hinv : inv g w) (Hp : procs w !! a = Some p).
Let n : node := p_node p.
Context (src : string) (nx : Z) (req : AppendEntriesRequest).
Context (Hfol : State n = Follower) (HT : CurrentTerm n = AppendEntriesRequest.Term req).
Context (Happ : append_ok M g src nx req).

Let Ho : is_open (wal n) = true := wal_is_open g w a p Hinv Hp.

Lemma commit_low : -1 <= CommitIndex n.
Proof using Hinv Hp. apply (n_commit _ _ _ _ _ (Hn M g w a p Hinv Hp)). Qed.

Lemma midway_start n' k : recs n `prefix_of` recs n' -> k = length (recs n) -> exists g' m, midway g w a p n' k g' m.
Proof using Hinv Hp.
  intros [r Hr] ->. exists g, n. split; [done|]. split; [by apply inv_unchanged|]. split; [done|].
  split; [|done]. rewrite Hr. symmetry. apply take_app_length.
Qed.

(** The log was cut at an entry that conflicts with one of the request. *)
Lemma midway_cut j e x n' k :
  AppendEntriesRequest.Entries req !! j = Some e ->
  let idx := AppendEntriesRequest.PrevLogIndex req + 1 + Z.of_nat j in
  Log n !! Z.to_nat idx = Some x -> LogEntry.Term x <> LogEntry.Term e ->
  recs (cutLog n idx) = take k (recs n') -> exists g' m, midway g w a p n' k g' m.
Proof.
  intros He idx Hx Hne Hr. pose proof Happ as (_ & _ & Hprev & _).
  destruct (inv_refused M g w a p Hinv Hp src (idx + 1) (probe req idx e) Hfol HT) with (n2 := cutLog n idx)
    as (g' & Hlt & Hg' & _).
  - by apply (append_ok_probe g src nx).
  - apply (prev_conflict n (probe req idx e) x); simpl; [unfold idx; lia|done|done].
  - by exists g', (cutLog n idx).
Qed.

Lemma midway_refused n2 k :
  prev_outcome n req (inl n2) -> (length (recs n) <= k)%nat -> exists g' m, midway g w a p n2 k g' m.
Proof.
  intros Hout Hk. assert (exists idx, n2 = cutLog n idx) as [idx ->] by (inversion Hout; by eexists).
  destruct (cutLog_recs n idx Ho) as [Hr _].
  destruct (decide (k = length (recs n))) as [->|Hne]; [apply midway_start; [rewrite Hr; by eexists|done]|].
  destruct (inv_refused M g w a p Hinv Hp src nx req Hfol HT Happ _ Hout) as (g' & Hlt & Hg' & _).
  exists g', (cutLog n idx). split; [done|]. split; [done|]. split; [done|]. split; [|done].
  symmetry. apply take_ge. rewrite Hr. len_lia.
Qed.

Lemma midway_accepted n2 n3 k :
  prev_outcome n req (inr n2) ->
  appendLoop (AppendEntriesRequest.PrevLogIndex req) 0 (AppendEntriesRequest.Entries req) n2 = Some n3 ->
  (length (recs n) <= k)%nat ->
  exists g' m, midway g w a p (followCommit (AppendEntriesRequest.LeaderCommit req) n3) k g' m.
Proof.
  intros Hout Hloop Hk. set (n4 := followCommit _ n3).
  pose proof Happ as (_ & _ & Hprev & _). pose proof commit_low as Hc.
  assert (same_id n n2 /\ is_open (wal n2) = true /\ CommitIndex n2 = CommitIndex n /\ recs n `prefix_of` recs n2 /\
    (n2 = n \/ exists e0 l entry0 rest, n2 = cutLog n 0 /\ AppendEntriesRequest.PrevLogIndex req = -1 /\ Log n = e0 :: l /\
       AppendEntriesRequest.Entries req = entry0 :: rest /\ LogEntry.Term e0 <> LogEntry.Term entry0))
    as (Hid2 & Ho2 & Hc2 & Hpre2 & Hn2).
  { inversion Hout; subst; [by split_and!; [..|left]| |by split_and!; [..|left]].
    destruct (cutLog_recs n 0 Ho) as [Hr ?]. split_and!; try done; [rewrite Hr; by eexists|]. right. by eexists _, _, _, _. }
  destruct (appendLoop_same _ _ _ _ _ Hloop Ho2) as (Hid3 & Hpre3 & Ho3).
  pose proof (appendLoop_commit _ _ _ _ _ Hloop) as Hc3.
  assert (recs n3 `prefix_of` recs n4 /\ same_id n3 n4 /\ (length (recs n4) <= S (length (recs n3)))%nat) as (Hpre4 & Hid4 & Hlen4).
  { unfold n4, followCommit. case_match; [|split_and!; [done|done|lia]]. case_match; simpl; rewrite Ho3; simpl;
      (split_and!; [by eexists|done|len_lia]). }
  assert (recs n `prefix_of` recs n4) as Hpre by (transitivity (recs n2); [done|by transitivity (recs n3)]).
  destruct (decide (k = length (recs n))) as [|Hne]; [by apply midway_start|].
  destruct (decide (length (recs n3) < k)%nat) as [Hgt|Hle].
  { destruct (inv_accepted M g w a p Hinv Hp src nx req Hfol HT Happ n2 n3 Hout Hloop) as (g' & Hlt & Hg' & _ & _ & Hcm).
    exists g', n4. split; [done|]. split; [done|]. split; [by etransitivity; [|exact Hid4]; etransitivity|].
    split; [|done]. symmetry. apply take_ge. lia. }
  assert (take k (recs n4) = take k (recs n3)) as Htk.
  { destruct Hpre4 as [r ->]. apply take_app_le. lia. }
  assert (length (recs n2) <= k)%nat as Hk2.
  { destruct Hn2 as [->|(? & ? & ? & ? & -> & _)]; [done|]. destruct (cutLog_recs n 0 Ho) as [Hr _].
    apply (f_equal length) in Hr. rewrite length_app in Hr. cbn [length] in Hr. lia. }
  destruct (appendLoop_torn (AppendEntriesRequest.PrevLogIndex req) _ 0 n2 n3 k ltac:(lia) Ho2 Hloop Hk2) as [(j & m & Hm & Hrm)|(j & e & x & He & Hx & Hterm & Hrm)].
  - assert (prev_outcome n (fewer req j) (inr n2) \/
      j = 0%nat /\ exists e0 l en rest, n2 = cutLog n 0 /\ AppendEntriesRequest.PrevLogIndex req = -1 /\ Log n = e0 :: l /\
        AppendEntriesRequest.Entries req = en :: rest /\ LogEntry.Term e0 <> LogEntry.Term en)
      as [Hout'|[-> (e0 & l & en & rest & -> & H1 & Hl & Hes & Hterm)]].
    { inversion Hout as [| |e H0 He Ht Heq|e0 l en rest H1 Hlog Hen Ht Heq|H1 Heq]; subst.
      - left. by eapply prev_match.
      - destruct j as [|j]; [right; split; [done|]; by eexists _, _, _, _|left].
        apply (prev_first_conflict _ _ e0 l en (take j rest)); simpl; rewrite ?Hen; done.
      - left. by apply prev_start. }
    + destruct (inv_accepted M g w a p Hinv Hp src nx (fewer req j) Hfol HT (append_ok_fewer g src nx req j Happ) n2 m Hout' Hm)
        as (g' & Hlt & Hg' & _ & _ & Hcm).
      assert (CommitIndex m = CommitIndex n) as Hcim by by rewrite (appendLoop_commit _ _ _ _ _ Hm).
      simpl in Hg', Hcm. rewrite followCommit_minus in Hg' by lia.
      destruct (appendLoop_same _ _ _ _ _ Hm Ho2) as (Hidm & _ & _).
      exists g', m. split; [done|]. split; [done|]. split; [by transitivity n2|]. split; [congruence|]. fold n. lia.
    + injection Hm as <-. apply (midway_cut 0 en e0); rewrite ?H1, ?Hl, ?Hes; try done. by rewrite <- Htk in Hrm.
  - destruct Hn2 as [->|(e0 & l & en & rest & -> & H1 & Hl & Hes & _)].
    + apply (midway_cut j e x); rewrite ?Htk, ?Z.add_0_r in *; done.
    + change (Log (cutLog n 0)) with (take 0 (Log n)) in Hx. by rewrite take_0 in Hx.
Qed.
End follower.

(** ** The two handlers *)

Lemma midway_setNode g w a p n0 n' k g' m :
  procs w !! a = Some p -> same_id (p_node p) n0 -> CommitIndex n0 = CommitIndex (p_node p) ->
  midway g (setNode w a p n0) a (mkProc n0 (p_ballots p) (p_tasks p)) n' k g' m -> midway g w a p n' k g' m.
Proof.
  intros Hp Hid Hc (Hlt & Hg' & Hs & Hr & Hcm). simpl in Hs, Hcm.
  split; [done|]. split; [by erewrite setNode_setNode in Hg' by apply setNode_lookup|].
  split; [by transitivity n0|]. split; [done|]. lia.
Qed.

Lemma stepDown_recs t (n : node) :
  is_open (wal n) = true -> recs (stepDown t n) = recs n ++ [stateRecord t ""].
Proof. intros Ho. simpl. by rewrite Ho. Qed.

Lemma midway_append g w src a nx req p n' resp k :
  inv g w -> AppendReq src a nx req ∈ net w -> procs w !! a = Some p ->
  HandleAppendEntries (p_node p) req = Some (n', resp) -> (length (recs (p_node p)) <= k)%nat ->
  exists g' m, midway g w a p n' k g' m.
Proof.
  intros Hinv Hin Hp Hh Hk. apply (i_net _ _ _ Hinv) in Hin as [Hmem Happ]. unfold HandleAppendEntries in Hh.
  pose proof (wal_is_open g w a p Hinv Hp) as Ho.
  destruct (_ <? _) eqn:Hlt; bool_to_prop.
  { injection Hh as <- _. exists g, (p_node p). split; [done|]. split; [by apply inv_unchanged|]. split; [done|].
    split; [|done]. symmetry. by apply take_ge. }
  set (n0 := resetElectionTimer _) in Hh.
  assert (inv g (setNode w a p n0) /\ State n0 = Follower /\ CurrentTerm n0 = AppendEntriesRequest.Term req /\
    same_id (p_node p) n0 /\ CommitIndex n0 = CommitIndex (p_node p) /\
    recs (p_node p) `prefix_of` recs n0 /\ (length (recs n0) <= S (length (recs (p_node p))))%nat)
    as (Hi & Hfol & HT & Hid & Hc & Hpre & Hlen).
  { unfold n0. destruct (_ >? _) eqn:Hgt; bool_to_prop.
    - pose proof (inv_stepDown M g w a p Hinv Hp (AppendEntriesRequest.Term req) Hgt) as Hsd.
      pose proof (inv_timer M g _ a _ Hsd (setNode_lookup _ _ _ _)) as Ht.
      erewrite setNode_setNode in Ht by apply setNode_lookup. split; [exact Ht|].
      change (recs (resetElectionTimer ?x)) with (recs x). rewrite stepDown_recs by done.
      split_and!; try done; [by eexists|len_lia].
    - split; [by apply inv_follower|]. split_and!; try done; simpl; lia. }
  set (p0 := mkProc n0 (p_ballots p) (p_tasks p)).
  pose proof (setNode_lookup w a p n0) as Hp0. fold p0 in Hp0.
  assert (recs n0 `prefix_of` recs n' /\ ((length (recs n0) <= k)%nat ->
    exists g' m, midway g (setNode w a p n0) a p0 n' k g' m)) as [Hpre' Hmid].
  { pose proof (wal_is_open g _ a p0 Hi Hp0) as Ho0. simpl in Ho0.
    destruct (checkPrev_outcome n0 req) as (r & Hr & Hout). rewrite Hr in Hh. cbn [mbind option_bind] in Hh.
    destruct r as [n2|n2].
    - injection Hh as <- _. split; [|by apply (midway_refused g _ a p0 Hi Hp0 src nx req Hfol HT Happ)].
      assert (exists idx, n2 = cutLog n0 idx) as [idx ->] by (inversion Hout; by eexists).
      destruct (cutLog_recs n0 idx Ho0) as [-> _]. by eexists.
    - destruct (appendLoop _ _ _ n2) as [n3|] eqn:Hloop; [|done]. injection Hh as <- _.
      split; [|by apply (midway_accepted g _ a p0 Hi Hp0 src nx req Hfol HT Happ n2)].
      assert (recs n0 `prefix_of` recs n2 /\ is_open (wal n2) = true) as [Hp2 Ho2].
      { inversion Hout; subst; try done. destruct (cutLog_recs n0 0 Ho0) as [-> ->]. split; [by eexists|done]. }
      destruct (appendLoop_same _ _ _ _ _ Hloop Ho2) as (_ & Hp3 & Ho3).
      transitivity (recs n2); [done|]. transitivity (recs n3); [done|]. unfold followCommit.
      repeat case_match; simpl; rewrite ?Ho3; simpl; try done; by eexists. }
  destruct (decide (length (recs n0) <= k)%nat) as [Hle|Hgt].
  - destruct (Hmid Hle) as (g' & m & Hm). exists g', m. by apply (midway_setNode g w a p n0).
  - apply midway_start; [done|done|by transitivity (recs n0)|lia].
Qed.

(** A message that is lost. *)
Lemma inv_drop g w a p' sent : inv g (put w a p' sent) -> inv g (put w a p' []).
Proof. intros [I1 I2 I3 I4]. split; [done..|]. intros pk Hpk. apply I4. simpl in *. set_solver. Qed.

Lemma midway_vote g w src a req p n' resp k :
  inv g w -> VoteReq src a req ∈ net w -> procs w !! a = Some p ->
  HandleRequestVote (p_node p) req = (n', resp) -> (length (recs (p_node p)) <= k)%nat ->
  exists g' m, midway g w a p n' k g' m.
Proof.
  intros Hinv Hin Hp Hh Hk. pose proof (wal_is_open g w a p Hinv Hp) as Ho.
  assert (exists g', later g g' /\ inv g' (setNode w a p n')) as Hfull.
  { destruct (inv_vote_request M HM g w src a req p n' resp Hinv Hin Hp Hh) as (g' & Hlt & Hg').
    exists g'. split; [done|]. by apply inv_drop in Hg'. }
  apply HandleRequestVote_outcome in Hh.
  assert (same_id (p_node p) n' /\ CommitIndex n' = CommitIndex (p_node p) /\ (recs n' = recs (p_node p) \/
    exists r1, recs n' = recs (p_node p) ++ [r1] \/
    exists r2, r1 = stateRecord (RequestVoteRequest.Term req) "" /\ RequestVoteRequest.Term req > CurrentTerm (p_node p) /\
      recs n' = recs (p_node p) ++ [r1; r2])) as (Hid & Hc & Hr).
  { destruct Hh as [|n1 [[_ ->]|[? ->]]|n1 [[_ ->]|[? ->]]]; (split; [done|]; split; [done|]); simpl; rewrite ?Ho; simpl.
    - by left.
    - by left.
    - right. eexists. by left.
    - right. eexists. by left.
    - right. eexists. right. eexists. split; [done|]. split; [done|]. by rewrite <- app_assoc. }
  assert ((length (recs n') <= k)%nat -> exists g' m, midway g w a p n' k g' m) as Hend.
  { intros Hle. destruct Hfull as (g' & Hlt & Hg'). exists g', n'. split; [done|]. split; [done|]. split; [done|].
    split; [|lia]. symmetry. by apply take_ge. }
  destruct (decide (k = length (recs (p_node p)))) as [->|Hne].
  { apply midway_start; try done. destruct Hr as [->|(r1 & [->|(r2 & _ & _ & ->)])]; [done|by eexists..]. }
  destruct Hr as [Hr|(r1 & [Hr|(r2 & -> & Hgt & Hr)])]; try (apply Hend; rewrite Hr; len_lia).
  destruct (decide (k = S (length (recs (p_node p))))) as [->|Hne2]; [|apply Hend; rewrite Hr; len_lia].
  exists g, (stepDown (RequestVoteRequest.Term req) (p_node p)). split; [done|].
  split; [apply (inv_stepDown M g w a p Hinv Hp); lia|]. split; [done|]. split; [|done].
  rewrite stepDown_recs, Hr by done. symmetry.
  change (recs (p_node p) ++ [stateRecord (RequestVoteRequest.Term req) ""; r2])
    with (recs (p_node p) ++ ([stateRecord (RequestVoteRequest.Term req) ""] ++ [r2])).
  rewrite app_assoc. apply take_app_length'. len_lia.
Qed.

(** Recovery from the prefix. *)
Lemma inv_torn g w a p n' k g' m :
  procs w !! a = Some p -> midway g w a p n' k g' m ->
  inv g' (put w a (mkProc (restart (torn (p_node p) n' k)) ∅ []) []) /\
  CommitIndex (p_node p) <= CommitIndex (restart (torn (p_node p) n' k)).
Proof.
  intros Hp (_ & Hg' & (I1 & I2 & I3) & Hr & Hc).
  assert (restart (torn (p_node p) n' k) = restart m) as ->.
  { unfold restart, torn. cbn [ID Addr Peers wal set_wal]. rewrite <- I1, <- I2, <- I3, <- Hr. done. }
  pose proof (setNode_lookup w a p m) as Hpm. split.
  - rewrite <- (put_setNode w a p m). by apply (inv_restart M HM g' _ a _ Hg' Hpm).
  - pose proof (durable_restart _ _ (n_wal _ _ _ _ _ (Hn M g' _ a _ Hg' Hpm))) as [_ Hci].
    cbn [p_node] in Hci. by rewrite Hci.
Qed.
End crash.
