(* ===== verification/ClusterReach.v ===== *)
(** * Reachable clusters

    The rules together ([inv_step]), the initial world, and [reachable_inv]: a
    reachable cluster has histories that satisfy the invariant. *)

From stdpp Require Import base gmap strings list fin_sets.
From S2P Require Import Prelude Types Kv Wal State Recovery Election Replication Apply Durability Cluster ClusterInv ClusterSteps ClusterLog ClusterMoves ClusterCrash.

Section reach.
Context (M : gset string) (HM : "" ∉ M).

Abbreviation inv := (inv M).

Lemma inv_step g w w' : inv g w -> step w w' -> exists g', later g g' /\ inv g' w'.
Proof.
  intros Hinv Hs. assert (inv g w' -> exists g', later g g' /\ inv g' w') as Hsame by (intros; by exists g).
  destruct Hs; eauto using inv_timeout, inv_vote_request, inv_vote_reply, inv_count_vote,
    inv_finish_election, inv_heartbeats, inv_replicate, inv_append_reply, inv_client,
    inv_apply, inv_restart.
  2: by eapply inv_append_request.
  2: { destruct (midway_vote M HM g w src dst req p n' resp k) as (g' & m & Hm); try done.
       exists g'. split; [by destruct Hm|]. by eapply inv_torn. }
  2: { destruct (midway_append M g w src dst nextIdx req p n' resp k) as (g' & m & Hm); try done.
       exists g'. split; [by destruct Hm|]. by eapply inv_torn. }
  (* a vote RPC failed *)
  apply Hsame, inv_ballot; [by apply inv_unchanged| |done].
  by apply (ballot_ok_reply M HM _ _ _ _ _ false); [apply (Hballot M g w id p)|..].
Qed.

Lemma inv_steps g w w' : rtc step w w' -> inv g w -> exists g', later g g' /\ inv g' w'.
Proof.
  intros Hr. revert g. induction Hr as [w|w1 w2 w3 Hs _ IH]; intros g Hg; [by exists g|].
  destruct (inv_step g w1 w2 Hg Hs) as (g2 & Hlt2 & Hg2), (IH g2 Hg2) as (g3 & Hlt3 & Hg3).
  exists g3. split; [by transitivity g2|done].
Qed.

(** No step lowers a commit index. *)
Lemma restart_commit g w a p :
  inv g w -> procs w !! a = Some p -> CommitIndex (restart (p_node p)) = CommitIndex (p_node p).
Proof. intros Hinv Hp. by apply durable_restart, (Hn M g w a p Hinv Hp). Qed.

Lemma replicateReply_commit g w a p src nx t prev es resp n' :
  inv g w -> procs w !! a = Some p -> replicateReply (p_node p) src nx t prev es resp = Some n' ->
  CommitIndex (p_node p) <= CommitIndex n'.
Proof.
  intros Hinv Hp. pose proof (n_commit _ _ _ _ _ (Hn M g w a p Hinv Hp)) as [Hr _].
  unfold replicateReply. repeat case_if; intros Hre; simplify_eq/=; try lia.
  match type of Hre with advanceCommitIndex ?m = _ =>
    destruct (advanceCommitIndex_spec m) as [(N & (HN & _) & _ & E)|[_ E]]; [simpl; lia|..] end;
    rewrite E in Hre; injection Hre as <-; simpl in *; lia.
Qed.

Lemma step_commit g w w' id p p' :
  inv g w -> step w w' -> procs w !! id = Some p -> procs w' !! id = Some p' ->
  CommitIndex (p_node p) <= CommitIndex (p_node p').
Proof.
  intros Hinv Hs Hp Hp'.
  assert (forall a q q' sent, procs w !! a = Some q -> w' = put w a q' sent ->
    CommitIndex (p_node q) <= CommitIndex (p_node q') -> CommitIndex (p_node p) <= CommitIndex (p_node p')) as Hput.
  { intros a q q' sent Hq -> Hle. simpl in Hp'. destruct (decide (id = a)) as [->|Hne].
    - rewrite lookup_insert_eq in Hp'. by simplify_eq.
    - rewrite lookup_insert_ne in Hp' by done. by simplify_eq. }
  destruct Hs; (eapply Hput; [|reflexivity|]; [eassumption|]); cbn [p_node]; try done.
  - match goal with H : startElection _ = _ |- _ => unfold startElection in H; revert H end.
    case_bool_decide; [done|]. cbv zeta. destruct (lastLog _). intros ?; simplify_eq; simpl; lia.
  - match goal with H : HandleRequestVote _ _ = _ |- _ => apply HandleRequestVote_outcome in H end.
    by match goal with H : vote_outcome _ _ _ _ |- _ =>
      destruct H as [|n1 [[? ->]|[? ->]]|n1 [[? ->]|[? ->]]] end.
  - match goal with H : voteReply _ _ _ = _ |- _ => revert H end. unfold voteReply. repeat case_match; intros ?; simplify_eq; simpl; lia.
  - match goal with H : countVote _ _ _ = _ |- _ => revert H end. unfold countVote, becomeLeader.
    repeat case_match; by intros [= <- _].
  - unfold finishElection, becomeLeader. by repeat case_match.
  - by eapply (inv_append_request M g w).
  - by eapply (replicateReply_commit g w).
  - unfold handleClientReq. by case_match.
  - match goal with H : applyCommittedEntries _ = _ |- _ => apply applyFor_frame in H; rename H into Hf end.
    by destruct Hf as (_&_&_&_&_&_&->&_).
  - by rewrite (restart_commit g w id0 p0).
  - destruct (midway_vote M HM g w src dst req p0 n' resp k) as (g' & m & Hm); try done. by eapply (inv_torn M HM).
  - destruct (midway_append M g w src dst nextIdx req p0 n' resp k) as (g' & m & Hm); try done. by eapply (inv_torn M HM).
Qed.

Section start.
Context (addr : string -> string).

Definition noHistory : ghost := mkGhost ∅ ∅ ∅ ∅.

Lemma initWorld_lookup id p :
  procs (initWorld M addr) !! id = Some p <-> id ∈ M /\ p = mkProc (initNode M addr id) ∅ [].
Proof.
  simpl. rewrite lookup_set_to_map by (simpl; intros; done). split.
  - by intros (y & Hy & [= <- <-]).
  - intros [Hy ->]. by exists id.
Qed.

Lemma peersOf_dom id : dom (peersOf M addr id) = M ∖ {[id]}.
Proof.
  unfold peersOf. apply set_eq. intros q. rewrite elem_of_dom. split.
  - intros [x Hx]. apply lookup_set_to_map in Hx as (y & Hy & [= <- _]); [done|]. simpl. by intros.
  - intros Hq. exists (addr q). apply lookup_set_to_map; [simpl; by intros|]. by exists q.
Qed.

Lemma init_terms v : terms (initWorld M addr) v = 0.
Proof.
  unfold terms. destruct (procs _ !! v) as [p|] eqn:E; [|done].
  by apply initWorld_lookup in E as [_ ->].
Qed.

Lemma inv_init : inv noHistory (initWorld M addr).
Proof.
  split.
  - apply set_eq. intros id. rewrite elem_of_dom. unfold is_Some. setoid_rewrite initWorld_lookup. naive_solver.
  - split; simpl; try done.
    { intros T. rewrite !lookup_empty. split; by intros [? ?]. }
    intros v t. unfold acked. simpl. rewrite lookup_empty. simpl. lia.
  - intros id p [Hid ->]%initWorld_lookup. split; simpl; [|done|intros t Ht; by apply not_elem_of_nil in Ht].
    split; simpl; try done.
    + apply peersOf_dom.
    + apply init_terms.
    + by exists [].
    + constructor.
    + intros t k G (HG & _). done.
    + split; [lia|]. left. lia.
  - intros pk Hpk. by apply not_elem_of_nil in Hpk.
Qed.

Lemma reachable_inv w : reachable M addr w -> exists g, inv g w.
Proof.
  intros Hr. destruct (inv_steps _ _ _ Hr inv_init) as (g & _ & Hg). by exists g.
Qed.
End start.
End reach.
