(* ===== verification/ClusterIdentity.v ===== *)
(** * Identities, lost messages and a restart of the whole cluster

    Who a node is (its name, address and peers) never changes; a step needs
    only the messages it receives, so more messages under way only add
    executions; and all nodes may crash and start again on their logs.  With
    them, processes started on the data of a cluster are that cluster. *)

From stdpp Require Import base gmap strings list fin_sets.
From S2P Require Import Prelude Types Kv Wal State Recovery Election Replication Apply Cluster ClusterRun ClusterInv ClusterCrash ClusterReach.

(** ** The operations keep the identity *)

Ltac same := unfold same_id; repeat case_match; intros; simplify_eq; done.

Lemma same_becomeLeader (n : node) : same_id n (becomeLeader n).
Proof. unfold becomeLeader. same. Qed.

Lemma same_startElection (n n' : node) o : startElection n = (n', o) -> same_id n n'.
Proof. unfold startElection. cbv zeta. same. Qed.

Lemma same_HandleRequestVote (n n' : node) req resp : HandleRequestVote n req = (n', resp) -> same_id n n'.
Proof. by intros [|n1 [[_ ->]|[_ ->]]|n1 [[_ ->]|[_ ->]]]%HandleRequestVote_outcome. Qed.

Lemma same_voteReply t resp (n n' : node) go : voteReply t resp n = (n', go) -> same_id n n'.
Proof. unfold voteReply. same. Qed.

Lemma same_countVote t v (n n' : node) v' : countVote t v n = (n', v') -> same_id n n'.
Proof. unfold countVote. repeat case_match; intros; simplify_eq; done || apply same_becomeLeader. Qed.

Lemma same_finishElection t v (n : node) : same_id n (finishElection t v n).
Proof. unfold finishElection. repeat case_match; done || apply same_becomeLeader. Qed.

Lemma same_advanceLoop fuel : forall N (n n' : node), advanceLoop fuel N n = Some n' -> same_id n n'.
Proof.
  induction fuel as [|fuel IH]; intros N n n'; simpl; case_if; try by intros [= <-].
  destruct (go_index (Log n) N); simpl; [|done]. repeat case_if; try apply IH. by intros [= <-].
Qed.

Lemma same_replicateReply (n n' : node) p nx t prev es resp :
  replicateReply n p nx t prev es resp = Some n' -> same_id n n'.
Proof.
  unfold replicateReply. repeat case_if; try by intros [= <-].
  unfold advanceCommitIndex. intros Hl%same_advanceLoop. exact Hl.
Qed.

Lemma same_appendLoop prev es : forall i (n n' : node), appendLoop prev i es n = Some n' -> same_id n n'.
Proof.
  induction es as [|e es IH]; intros i n n'; cbn [appendLoop]; [by intros [= <-]|]. destruct (_ <? _).
  - destruct (go_index _ _); cbn [mbind option_bind]; [|done]. destruct (negb _); [|by apply IH].
    destruct (truncateLog _ _) as [n1|] eqn:Ht; [|done]. apply truncateLog_eq in Ht as ->. intros [= <-].
    by etransitivity; [|apply (foldl_same (e :: es))].
  - intros Hl%IH. by transitivity (appendEntry n e).
Qed.

Lemma same_followCommit lc (n : node) : same_id n (followCommit lc n).
Proof. unfold followCommit. repeat case_match; done. Qed.

Lemma same_HandleAppendEntries (n n' : node) req resp :
  HandleAppendEntries n req = Some (n', resp) -> same_id n n'.
Proof.
  unfold HandleAppendEntries. destruct (_ <? _); [by intros [= <- _]|]. set (n0 := resetElectionTimer _).
  assert (same_id n n0) as H0 by by unfold n0; destruct (_ >? _).
  destruct (checkPrev_outcome n0 req) as (r & -> & Hout). cbn [mbind option_bind].
  assert (same_id n (match r with inl n' => n' | inr n' => n' end)) as Hr by by destruct Hout.
  destruct r as [n2|n2]; [by intros [= <- _]|].
  destruct (appendLoop _ _ _ n2) as [n3|] eqn:Hl; cbn [mbind option_bind]; [|done]. intros [= <- _].
  etransitivity; [exact Hr|]. etransitivity; [by eapply same_appendLoop|apply same_followCommit].
Qed.

Lemma same_applyFor fuel : forall n n' : node, applyFor fuel n = Some n' -> same_id n n'.
Proof.
  induction fuel as [|fuel IH]; intros n n'; cbn [applyFor]; destruct (_ && _); try by intros [= <-].
  destruct (go_index _ _); cbn [mbind option_bind]; [|done]. intros Hl%IH. exact Hl.
Qed.

Lemma same_handleClientReq (n : node) req : same_id n (fst (handleClientReq n req)).
Proof. unfold handleClientReq. by case_match. Qed.

Lemma same_recoverRecord rs : forall n : node, same_id n (foldl recoverRecord n rs).
Proof.
  induction rs as [|r rs IH]; intros n; [done|]. simpl. transitivity (recoverRecord n r); [|apply IH].
  unfold recoverRecord. cbv zeta. repeat case_match; done.
Qed.

Lemma same_replayLoop es : forall i (n : node), same_id n (replayLoop i es n).
Proof.
  induction es as [|e es IH]; intros i n; simpl; [done|]. case_if; [|done].
  etransitivity; [|apply IH]. done.
Qed.

Lemma same_restart (n : node) : same_id n (restart n).
Proof.
  unfold restart, recoverState. simpl. set (n0 := set_wal _ _).
  transitivity (foldl recoverRecord n0 (records (wal n))); [|apply same_replayLoop].
  transitivity n0; [done|apply same_recoverRecord].
Qed.

(** ** Reachable clusters *)

(** Every step replaces one process, and keeps who it is. *)
Lemma step_one w w' :
  step w w' -> exists id p p' sent, procs w !! id = Some p /\ w' = put w id p' sent /\
    same_id (p_node p) (p_node p').
Proof.
  destruct 1; (eexists _, _, _, _; split; [eassumption|]; split; [reflexivity|]);
    eauto using same_startElection, same_HandleRequestVote, same_voteReply, same_countVote, same_finishElection,
      same_HandleAppendEntries, same_replicateReply, same_handleClientReq, same_applyFor, same_restart; try done.
  all: by etransitivity; [|apply same_restart].
Qed.

Section identity.
Context (M : gset string) (addr : string -> string).

Definition isMember (id : string) (n : node) : Prop :=
  ID n = id /\ Addr n = addr id /\ Peers n = peersOf M addr id.

Definition membersKept (w : world) : Prop :=
  dom (procs w) = M /\ forall id p, procs w !! id = Some p -> isMember id (p_node p).

Lemma membersKept_step w w' : membersKept w -> step w w' -> membersKept w'.
Proof.
  intros [Hd Hm] (a & p & p' & sent & Hp & -> & E1 & E2 & E3)%step_one. split.
  - simpl. rewrite dom_insert_lookup_L by by eexists. done.
  - intros id q Hq. simpl in Hq. destruct (decide (id = a)) as [->|Hne].
    + rewrite lookup_insert_eq in Hq. simplify_eq. destruct (Hm _ _ Hp) as (?&?&?). unfold isMember. split_and!; congruence.
    + rewrite lookup_insert_ne in Hq by done. by apply Hm.
Qed.

Lemma reachable_members w : reachable M addr w -> membersKept w.
Proof.
  intros Hr. assert (membersKept (initWorld M addr)) as H0.
  { split.
    - apply set_eq. intros id. rewrite elem_of_dom. unfold is_Some. setoid_rewrite initWorld_lookup. naive_solver.
    - intros id p [_ ->]%initWorld_lookup. apply (same_restart (freshNode id (addr id) (peersOf M addr id) (mkMemWal [] true))). }
  revert H0. induction Hr; eauto using membersKept_step.
Qed.
End identity.

(** ** More messages under way *)

Definition more (w w' : world) : Prop := procs w' = procs w /\ net w ⊆ net w'.

Lemma more_put w w' id p sent : more w w' -> more (put w id p sent) (put w' id p sent).
Proof. intros [Hp Hn]. split; simpl; [by rewrite Hp|set_solver]. Qed.

Lemma more_step w w' w1 : more w w' -> step w w1 -> exists w1', step w' w1' /\ more w1 w1'.
Proof.
  intros Hm Hs. pose proof Hm as [Hp Hn].
  destruct Hs; (eexists; split; [|by apply more_put]);
    match goal with H : procs w !! _ = Some _ |- _ => rewrite <- Hp in H end;
    try match goal with H : _ ∈ net w |- _ => apply Hn in H end.
  - by apply step_timeout.
  - by eapply step_vote_request.
  - by eapply step_vote_reply.
  - by eapply step_vote_error.
  - by eapply step_count_vote.
  - by eapply step_finish_election.
  - by eapply step_heartbeats.
  - by eapply step_replicate.
  - by eapply step_append_request.
  - by eapply step_append_reply.
  - by eapply step_client.
  - by eapply step_apply.
  - by eapply step_restart.
  - by eapply step_crash_vote.
  - by eapply step_crash_append.
Qed.

Lemma more_steps w w1 : rtc step w w1 -> forall w', more w w' -> exists w1', rtc step w' w1' /\ more w1 w1'.
Proof.
  induction 1 as [w|w w2 w3 Hs _ IH]; intros w' Hm; [by exists w'|].
  destruct (more_step _ _ _ Hm Hs) as (w2' & Hs' & Hm2), (IH w2' Hm2) as (w3' & Hr & Hm3).
  exists w3'. split; [by eapply rtc_l|done].
Qed.

(** ** All nodes crash and start again *)

Definition restarted (p : proc) : proc := mkProc (restart (p_node p)) ∅ [].

Lemma restart_list (l : list string) : forall w, NoDup l -> (forall id, id ∈ l -> is_Some (procs w !! id)) ->
  exists w', rtc step w w' /\ net w' = net w /\
    forall id, procs w' !! id = if decide (id ∈ l) then restarted <$> procs w !! id else procs w !! id.
Proof.
  induction l as [|a l IH]; intros w Hl Hall.
  { exists w. split; [done|]. split; [done|]. intros id. by rewrite decide_False by apply not_elem_of_nil. }
  apply NoDup_cons in Hl as [Ha Hl]. destruct (Hall a) as [p Hp]; [left|].
  set (w1 := put w a (restarted p) []).
  destruct (IH w1 Hl) as (w' & Hs & Hn & Hw').
  { intros id Hid. unfold w1. simpl. rewrite lookup_insert_is_Some'. right. apply Hall. by right. }
  exists w'. split; [eapply rtc_l; [by apply step_restart|done]|]. split; [done|]. intros id. rewrite Hw'.
  unfold w1. simpl. destruct (decide (id = a)) as [->|Hne].
  - rewrite decide_False, decide_True by (done || left). by rewrite lookup_insert_eq, Hp.
  - rewrite lookup_insert_ne by done. destruct (decide (id ∈ l)).
    + by rewrite decide_True by by right.
    + rewrite decide_False; [done|]. by intros [?|?]%elem_of_cons.
Qed.

Lemma restart_all w : exists w', rtc step w w' /\ net w' = net w /\ procs w' = restarted <$> procs w.
Proof.
  destruct (restart_list (elements (dom (procs w))) w) as (w' & Hs & Hn & Hw'); [apply NoDup_elements| |].
  { intros id Hid%elem_of_elements. by apply elem_of_dom. }
  exists w'. split; [done|]. split; [done|]. apply map_eq. intros id. rewrite Hw', lookup_fmap.
  destruct (decide _) as [|Hid]; [done|]. rewrite elem_of_elements, elem_of_dom, <- eq_None_not_Some in Hid.
  by rewrite Hid.
Qed.
