(* ===== verification/ClusterOrigin.v ===== *)
(** * Where log entries come from

    Every entry on any disk or in any append request of a reachable cluster was
    made by [handleClientReq] on a leader, at the index and in the term it
    carries; so nothing is committed that no client asked for. *)

From stdpp Require Import base gmap strings list fin_sets.
From S2P Require Import Prelude Types Kv Wal State Recovery Election Replication Apply Durability Cluster ClusterRun ClusterInv ClusterSteps ClusterLog ClusterMoves ClusterCrash ClusterReach.

(** ** Entries on disk *)

Definition entriesOf (rs : list WALRecord) : list LogEntry := omap WALRecord.Entry rs.
Definition disk (n : node) : list LogEntry := entriesOf (records (wal n)).

Lemma entriesOf_app rs1 rs2 : entriesOf (rs1 ++ rs2) = entriesOf rs1 ++ entriesOf rs2.
Proof. apply omap_app. Qed.

Lemma entriesOf_one r : entriesOf [r] = option_list (WALRecord.Entry r).
Proof. unfold entriesOf. simpl. by destruct (WALRecord.Entry r). Qed.

Lemma take_subset {A} k (l : list A) : take k l ⊆ l.
Proof. intros x Hx. rewrite <- (take_drop k l). apply elem_of_app. by left. Qed.

Lemma truncateTo_subset t l : truncateTo t l ⊆ l.
Proof. unfold truncateTo. repeat case_if; [apply take_subset|set_solver|done]. Qed.

Lemma replay_entries rs : pLog (replayAll rs) ⊆ entriesOf rs.
Proof.
  induction rs as [|r rs IH] using rev_ind; [done|]. rewrite replayAll_snoc, entriesOf_app, entriesOf_one.
  unfold replayRecord. repeat case_bool_decide; cbn [pLog]; try set_solver.
  - pose proof (truncateTo_subset (WALRecord.CommitIndex r + 1) (pLog (replayAll rs))). set_solver.
Qed.

(** What a log write adds. *)
Lemma disk_append r (n : node) : disk (walAppend r n) ⊆ disk n ++ option_list (WALRecord.Entry r).
Proof.
  unfold disk, walAppend. simpl. destruct (is_open (wal n)); simpl; [|set_solver].
  by rewrite entriesOf_app, entriesOf_one.
Qed.

Lemma disk_none r (n : node) : WALRecord.Entry r = None -> disk (walAppend r n) = disk n.
Proof.
  intros Hr. unfold disk, walAppend. simpl. destruct (is_open (wal n)); simpl; [|done].
  rewrite entriesOf_app, entriesOf_one, Hr. apply app_nil_r.
Qed.

Lemma disk_wal (n n' : node) r : wal n' = wal_append (wal n) r -> WALRecord.Entry r = None -> disk n' = disk n.
Proof. intros Hw Hr. rewrite <- (disk_none r n Hr). unfold disk. by rewrite Hw. Qed.

Lemma disk_take k (n : node) n0 : disk (torn n0 n k) ⊆ disk n.
Proof.
  unfold disk, torn, entriesOf. simpl. intros e (r & Hr & He)%list_elem_of_omap. apply list_elem_of_omap.
  exists r. split; [|done]. by apply take_subset in Hr.
Qed.

Lemma disk_restart (n : node) : is_open (wal n) = true -> disk (restart n) = disk n.
Proof.
  intros Ho. destruct (restart_spec n (records (wal n))) as (_ & _ & _ & _ & Hv & _).
  - unfold wal_view, mem_wal_laws. by destruct (wal n) as [rs o]; simpl in *; subst.
  - unfold disk. by rewrite Hv.
Qed.

(** ** The handlers *)

Lemma disk_stepDown t (n : node) : disk (stepDown t n) = disk n.
Proof. by apply (disk_wal n _ (stateRecord t "")). Qed.

Lemma disk_startElection (n n' : node) req : startElection n = (n', Some req) -> disk n' = disk n.
Proof.
  unfold startElection. case_bool_decide; [done|]. cbv zeta. destruct (lastLog _). intros [= <- _].
  by apply (disk_wal n _ (stateRecord (wrap64 (CurrentTerm n + 1)) (ID n))).
Qed.

Lemma disk_HandleRequestVote (n : node) req n' resp : HandleRequestVote n req = (n', resp) -> disk n' = disk n.
Proof.
  intros Hh%HandleRequestVote_outcome. destruct Hh as [|n1 [[_ ->]|[_ ->]]|n1 [[_ ->]|[_ ->]]]; rewrite ?disk_stepDown; try done.
  - by apply (disk_wal n _ (stateRecord (RequestVoteRequest.Term req) (RequestVoteRequest.CandidateID req))).
  - rewrite <- (disk_stepDown (RequestVoteRequest.Term req) n).
    by apply (disk_wal (stepDown (RequestVoteRequest.Term req) n) _
      (stateRecord (RequestVoteRequest.Term req) (RequestVoteRequest.CandidateID req))).
Qed.

Lemma disk_becomeLeader (n : node) : disk (becomeLeader n) = disk n.
Proof. unfold becomeLeader. by case_match. Qed.

Lemma disk_voteReply t resp (n n' : node) go : voteReply t resp n = (n', go) -> disk n' = disk n.
Proof. unfold voteReply. repeat case_match; intros [= <- _]; rewrite ?disk_stepDown; done. Qed.

Lemma disk_countVote t v (n n' : node) v' : countVote t v n = (n', v') -> disk n' = disk n.
Proof. unfold countVote. repeat case_match; intros [= <- _]; rewrite ?disk_becomeLeader; done. Qed.

Lemma disk_finishElection t v (n : node) : disk (finishElection t v n) = disk n.
Proof. unfold finishElection. repeat case_match; rewrite ?disk_becomeLeader; done. Qed.

Lemma disk_advanceLoop fuel : forall N (n n' : node), advanceLoop fuel N n = Some n' -> disk n' = disk n.
Proof.
  induction fuel as [|fuel IH]; intros N n n'; simpl; case_if; try (by intros [= <-]).
  destruct (go_index (Log n) N) as [e|]; simpl; [|done]. repeat case_if; try apply IH.
  intros [= <-]. by apply (disk_wal n _ (commitRecord N)).
Qed.

Lemma disk_replicateReply (n n' : node) p nx t prev es resp :
  replicateReply n p nx t prev es resp = Some n' -> disk n' = disk n.
Proof.
  unfold replicateReply. repeat case_if; try (by intros [= <-]).
  - intros [= <-]. apply disk_stepDown.
  - unfold advanceCommitIndex. intros Hd%disk_advanceLoop. by rewrite Hd.
Qed.

Lemma disk_cutLog (n : node) idx : disk (cutLog n idx) = disk n.
Proof. by apply (disk_wal n _ (truncateRecord (idx - 1))). Qed.

Lemma disk_foldl es : forall n : node, disk (foldl appendEntry n es) ⊆ disk n ++ es.
Proof.
  induction es as [|e es IH]; intros n; simpl; [set_solver|].
  pose proof (IH (appendEntry n e)). pose proof (disk_append (entryRecord e) (set_Log (Log n ++ [e]) n)) as Ha.
  change (disk (set_Log _ n)) with (disk n) in Ha. unfold appendEntry in *. simpl in Ha. set_solver.
Qed.

Lemma disk_appendLoop prev es : forall i (n n' : node), appendLoop prev i es n = Some n' -> disk n' ⊆ disk n ++ es.
Proof.
  induction es as [|e es IH]; intros i n n'; cbn [appendLoop]; [intros [= <-]; set_solver|]. destruct (_ <? _).
  - destruct (go_index _ _) as [x|]; cbn [mbind option_bind]; [|done]. destruct (negb _).
    + destruct (truncateLog _ _) as [n2|] eqn:Ht; [|done]. apply truncateLog_eq in Ht as ->. intros [= <-].
      pose proof (disk_foldl (e :: es) (cutLog n (prev + 1 + i))) as Hd. by rewrite disk_cutLog in Hd.
    + intros Hl%IH. set_solver.
  - intros Hl%IH. pose proof (disk_foldl [e] n) as Hd. simpl in Hd. set_solver.
Qed.

Lemma disk_followCommit lc (n : node) : disk (followCommit lc n) = disk n.
Proof.
  unfold followCommit. repeat case_match; try done.
  all: by eapply (disk_wal n).
Qed.

Lemma disk_HandleAppendEntries (n n' : node) req resp :
  HandleAppendEntries n req = Some (n', resp) -> disk n' ⊆ disk n ++ AppendEntriesRequest.Entries req.
Proof.
  unfold HandleAppendEntries. case_match; [intros [= <- _]; set_solver|]. set (n0 := resetElectionTimer _).
  assert (disk n0 = disk n) as <-.
  { unfold n0. case_match; [|done]. apply disk_stepDown. }
  destruct (checkPrev_outcome n0 req) as (r & -> & Hout). cbn [mbind option_bind].
  assert (disk (match r with inl m => m | inr m => m end) = disk n0) as Hr
    by (destruct Hout; rewrite ?disk_cutLog; done).
  destruct r as [n2|n2]; [intros [= <- _]; rewrite Hr; set_solver|].
  destruct (appendLoop _ _ _ n2) as [n3|] eqn:Hl; [|done]. intros [= <- _].
  apply disk_appendLoop in Hl. rewrite disk_followCommit, <- Hr. done.
Qed.

(** ** Steps *)

(** The entry is on a disk or in a request. *)
Definition carries (w : world) (e : LogEntry) : Prop :=
  (exists id p, procs w !! id = Some p /\ e ∈ disk (p_node p)) \/
  (exists src dst nx req, AppendReq src dst nx req ∈ net w /\ e ∈ AppendEntriesRequest.Entries req).

(** The step from [w] to [w'] is a leader's [handleClientReq] that makes the
    entry. *)
Definition makes (w w' : world) (id : string) (req : ClientReq) (e : LogEntry) : Prop :=
  exists p, procs w !! id = Some p /\ State (p_node p) = Leader /\
    w' = put w id (mkProc (fst (handleClientReq (p_node p) req)) (p_ballots p) (p_tasks p)) [] /\
    e = LogEntry.mk (len (Log (p_node p))) (CurrentTerm (p_node p)) (ClientReq.Op req) (ClientReq.Key req)
          (ClientReq.Value req).

Lemma carries_put w a p p' sent e :
  procs w !! a = Some p -> carries (put w a p' sent) e ->
  (e ∈ disk (p_node p') -> carries w e) ->
  (forall src dst nx req, AppendReq src dst nx req ∈ sent -> e ∈ AppendEntriesRequest.Entries req -> carries w e) ->
  carries w e.
Proof.
  intros Hp [(id & q & Hq & He)|(src & dst & nx & req & Hin & He)] Hd Hs.
  - simpl in Hq. destruct (decide (id = a)) as [->|Hne].
    + rewrite lookup_insert_eq in Hq. injection Hq as <-. auto.
    + rewrite lookup_insert_ne in Hq by done. left. eauto.
  - simpl in Hin. apply elem_of_app in Hin as [Hin|Hin]; [eauto|]. right. by eexists _, _, _, _.
Qed.

Section origin.
Context (M : gset string) (addr : string -> string) (HM : "" ∉ M).

Abbreviation inv := (inv M).

Lemma log_on_disk g w id p : inv g w -> procs w !! id = Some p -> Log (p_node p) ⊆ disk (p_node p).
Proof.
  intros Hinv Hp. destruct (n_wal _ _ _ _ _ (Hn M g w id p Hinv Hp)) as (rs & Hrs & Hpr).
  pose proof (replay_entries rs) as Hr. rewrite Hpr in Hr. unfold disk. by rewrite Hrs.
Qed.

Lemma request_entries (n : node) nx t c req : replicateToPeer n nx t c = Some req -> AppendEntriesRequest.Entries req ⊆ Log n.
Proof.
  unfold replicateToPeer. case_if; [done|]. intros [= <-]. simpl. case_if; [|set_solver].
  unfold go_slice_from. case_if; simpl; [|set_solver]. intros e He. rewrite <- (take_drop (Z.to_nat nx) (Log n)).
  apply elem_of_app. by right.
Qed.

Lemma step_carries g w w' e :
  inv g w -> step w w' -> carries w' e -> carries w e \/ exists id req, makes w w' id req e.
Proof.
  intros Hinv Hs Hc.
  assert (forall id p, procs w !! id = Some p -> e ∈ disk (p_node p) -> carries w e) as Hdisk by (left; eauto).
  assert (forall id p req, procs w !! id = Some p -> (exists src dst nx, AppendReq src dst nx req ∈ net w) ->
    e ∈ disk (p_node p) ++ AppendEntriesRequest.Entries req -> carries w e) as Hboth.
  { intros id p req Hp (src & dst & nx & Hin) [He|He]%elem_of_app; [by eapply Hdisk|]. right. by eexists _, _, _, _. }
  destruct Hs; lazymatch type of Hc with
    | context [handleClientReq] => idtac
    | _ => try (left; eapply carries_put; [eassumption|exact Hc| |by intros ? ? ? ? ?%not_elem_of_nil]; cbn [p_node])
    end.
  - left. eapply carries_put; [eassumption|exact Hc| |].
    + cbn [p_node]. erewrite disk_startElection by eassumption. by eapply Hdisk.
    + unfold voteReqs. by intros ? ? ? ? (q & [=] & _)%list_elem_of_fmap.
  - left. eapply carries_put; [eassumption|exact Hc| |by intros ? ? ? ? [=]%list_elem_of_singleton].
    cbn [p_node]. erewrite disk_HandleRequestVote by eassumption. by eapply Hdisk.
  - erewrite disk_voteReply by eassumption. by eapply Hdisk.
  - by eapply Hdisk.
  - erewrite disk_countVote by eassumption. by eapply Hdisk.
  - rewrite disk_finishElection. by eapply Hdisk.
  - by eapply Hdisk.
  - left. eapply carries_put; [eassumption|exact Hc|by eapply Hdisk|].
    intros ? ? ? ? [= -> -> -> ->]%list_elem_of_singleton He. eapply Hdisk; [eassumption|].
    eapply log_on_disk; [eassumption..|]. by eapply request_entries.
  - left. eapply carries_put; [eassumption|exact Hc| |by intros ? ? ? ? [=]%list_elem_of_singleton].
    intros He. cbn [p_node] in He. eapply Hboth; [eassumption|by eexists _, _, _|]. by eapply disk_HandleAppendEntries.
  - erewrite disk_replicateReply by eassumption. by eapply Hdisk.
  - destruct (decide (State (p_node p) = Leader)) as [Hl|Hl].
    + destruct (decide (e = LogEntry.mk (len (Log (p_node p))) (CurrentTerm (p_node p)) (ClientReq.Op req)
        (ClientReq.Key req) (ClientReq.Value req))) as [He|Hne]; [right; by exists id, req, p|left].
      eapply carries_put; [eassumption|exact Hc| |by intros ? ? ? ? ?%not_elem_of_nil]. cbn [p_node].
      unfold handleClientReq. rewrite bool_decide_eq_true_2 by done. cbn [negb fst]. intros He.
      apply disk_append in He. apply elem_of_app in He as [He|He]; [by eapply Hdisk|].
      by apply list_elem_of_singleton in He.
    + left. eapply carries_put; [eassumption|exact Hc| |by intros ? ? ? ? ?%not_elem_of_nil]. cbn [p_node].
      unfold handleClientReq. rewrite bool_decide_eq_false_2 by done. by eapply Hdisk.
  - match goal with H : applyCommittedEntries _ = _ |- _ => apply applyFor_frame in H; rename H into Hf end.
    destruct Hf as (_&_&_&_&_&_&_&_&_&Hw). unfold disk. rewrite Hw. by eapply Hdisk.
  - rewrite disk_restart by by eapply wal_is_open. by eapply Hdisk.
  - rewrite disk_restart by done. intros He%disk_take. erewrite disk_HandleRequestVote in He by eassumption.
    by eapply Hdisk.
  - rewrite disk_restart by done. intros He%disk_take. eapply Hboth; [eassumption|by eexists _, _, _|].
    by eapply disk_HandleAppendEntries.
Qed.

(** Who made an entry, in the past of [w]. *)
Definition made_before (w : world) (id : string) (req : ClientReq) (e : LogEntry) : Prop :=
  exists w1 w2, reachable M addr w1 /\ step w1 w2 /\ makes w1 w2 id req e /\ rtc step w2 w.

Lemma carries_made w e : reachable M addr w -> carries w e -> exists id req, made_before w id req e.
Proof.
  intros Hr. unfold reachable in Hr. revert e. pattern w. eapply rtc_ind_r; [| |exact Hr]; clear w Hr.
  - intros e [(id & p & Hp & He)|(src & dst & nx & req & Hin & _)]; [|by apply not_elem_of_nil in Hin].
    apply initWorld_lookup in Hp as [_ ->]. by apply not_elem_of_nil in He.
  - intros w w' Hr Hs IH e Hc. destruct (reachable_inv M HM addr w Hr) as [g Hg].
    destruct (step_carries g w w' e Hg Hs Hc) as [Hc'|(id & req & Hm)].
    + destruct (IH e Hc') as (id & req & w1 & w2 & H1 & H2 & H3 & H4). exists id, req, w1, w2.
      split_and!; try done. by eapply rtc_r.
    + exists id, req, w, w'. by split_and!.
Qed.

(** C8: Nothing is invented: every entry in the log of a node of a reachable cluster was
    made by handleClientReq from a client's request, on a node that was the leader of
    the entry's term at that moment. *)
Theorem entries_from_clients w a p e :
  reachable M addr w -> procs w !! a = Some p -> e ∈ Log (p_node p) -> exists id req, made_before w id req e.
Proof.
  intros Hr Hp He. destruct (reachable_inv M HM addr w Hr) as [g Hg]. apply carries_made; [done|].
  left. exists a, p. split; [done|]. by eapply log_on_disk.
Qed.
End origin.

(** The write of the schedule of [ClusterRun], on n3 after its crash. *)
Definition n3_second : proc := default (mkProc sampleNode ∅ []) (procs wSecond !! "n3").

Lemma n3_second_some : procs wSecond !! "n3" = Some n3_second.
Proof.
  assert (bool_decide (is_Some (procs wSecond !! "n3")) = true) as Hs%bool_decide_eq_true by (vm_compute; reflexivity).
  unfold n3_second. by destruct Hs as [p ->].
Qed.

Lemma entries_from_clients_witness :
  exists id req, made_before three local wSecond id req (LogEntry.mk 0 1 OpSet "x" "1").
Proof.
  assert (Log (p_node n3_second) = [LogEntry.mk 0 1 OpSet "x" "1"]) as Hl by (vm_compute; reflexivity).
  apply (entries_from_clients three local) with (a := "n3") (p := n3_second).
  - by apply (bool_decide_unpack _); vm_compute.
  - exact wSecond_reachable.
  - exact n3_second_some.
  - rewrite Hl. left.
Defined.
