(* ===== verification/ClusterSafety.v ===== *)
(** * Safety of the cluster

    What holds in every reachable cluster, whatever the network loses,
    delays, reorders or repeats and whichever nodes crash: the safety
    properties of Raft for this implementation, the agreement of the stores,
    the durability of acknowledged writes, and the refinement of the cluster
    to a single append-only log. *)

From stdpp Require Import base gmap strings list fin_sets.
From S2P Require Import Prelude Types Kv Wal State Recovery Election Replication Apply Durability NodeRun Cluster ClusterRun ClusterInv ClusterSteps ClusterLog ClusterMoves ClusterReach.

(** The node of a process. *)
Definition nodeAt (w : world) (id : string) : option node := p_node <$> procs w !! id.

Section safety.
Context (M : gset string) (addr : string -> string) (HM : "" ∉ M).

(** Two moments of an execution, with the histories between them. *)
Lemma two_moments w w' :
  reachable M addr w -> rtc step w w' -> exists g g', inv M g w /\ inv M g' w' /\ later g g'.
Proof.
  intros Hr Hs. destruct (reachable_inv M HM addr w Hr) as [g Hg].
  destruct (inv_steps M HM g w w' Hs Hg) as (g' & Hlt & Hg'). by exists g, g'.
Qed.

Lemma nodeAt_inv g w id n : inv M g w -> nodeAt w id = Some n -> node_inv M g (terms w) id n.
Proof.
  unfold nodeAt. intros Hg Hn. apply fmap_Some in Hn as (p & Hp & ->). by apply (i_procs _ _ _ Hg).
Qed.

Lemma committed_choosable g tm t k : committed M g t k -> choosable M g tm t k.
Proof. intros (Q & HQ & Hv). exists Q. split; [done|]. intros v Hin. left. auto. Qed.

(** Two commit claims at the same moment agree. *)
Lemma commit_agree g tm T1 T2 L1 L2 c1 c2 c :
  ghost_ok M g tm -> commit_ok M g T1 L1 c1 -> commit_ok M g T2 L2 c2 -> c <= c1 -> c <= c2 ->
  take (Z.to_nat (c + 1)) L1 = take (Z.to_nat (c + 1)) L2.
Proof.
  intros Hg H1 H2 Hc1 Hc2.
  destruct H1 as [?|(t1 & k1 & G1 & Hk1 & Hp1 & _ & Hl1 & Ht1)];
    [by replace (Z.to_nat (c + 1)) with 0%nat by lia|].
  destruct H2 as [?|(t2 & k2 & G2 & Hk2 & Hp2 & _ & Hl2 & Ht2)];
    [by replace (Z.to_nat (c + 1)) with 0%nat by lia|].
  apply (take_eq_le _ (Z.to_nat (c + 1))) in Ht1, Ht2; [|lia..]. rewrite Ht1, Ht2.
  destruct (Z.lt_trichotomy t1 t2) as [Hlt|[Heq|Hlt]].
  - apply (take_eq_le k1); [lia|]. eapply (g_safe _ _ _ Hg t1 t2); [done|done| |apply Hp2].
    by apply committed_choosable.
  - subst. destruct Hp1 as [HG1 _], Hp2 as [HG2 _]. by simplify_eq.
  - symmetry. apply (take_eq_le k2); [lia|]. eapply (g_safe _ _ _ Hg t2 t1); [done|done| |apply Hp1].
    by apply committed_choosable.
Qed.

(** Committed prefixes at two moments, as histories carry them. *)
Lemma commit_agree_later g g' w w' a b na nb c :
  inv M g w -> inv M g' w' -> later g g' -> nodeAt w a = Some na -> nodeAt w' b = Some nb ->
  c <= CommitIndex na -> c <= CommitIndex nb ->
  take (Z.to_nat (c + 1)) (Log na) = take (Z.to_nat (c + 1)) (Log nb).
Proof.
  intros Hg Hg' Hlt Ha Hb Hca Hcb.
  apply (nodeAt_inv _ _ _ _ Hg) in Ha. apply (nodeAt_inv _ _ _ _ Hg') in Hb.
  destruct (n_commit _ _ _ _ _ Ha) as [_ Hoa], (n_commit _ _ _ _ _ Hb) as [_ Hob].
  apply (commit_ok_later M Hlt _ _ _ _ (Z.le_refl _)) in Hoa.
  by eapply commit_agree; [apply Hg'|..].
Qed.

(** A leader's log only grows during its term. *)
Lemma leader_prefix g g' w w' a na nb :
  inv M g w -> inv M g' w' -> later g g' -> nodeAt w a = Some na -> nodeAt w' a = Some nb ->
  State na = Leader -> State nb = Leader -> CurrentTerm na = CurrentTerm nb -> Log na `prefix_of` Log nb.
Proof.
  intros Hg Hg' Hlt Ha Hb Hla Hlb Ht.
  apply (nodeAt_inv _ _ _ _ Hg) in Ha. apply (nodeAt_inv _ _ _ _ Hg') in Hb.
  destruct (n_lead _ _ _ _ _ Ha Hla) as [_ H1 _ _ _], (n_lead _ _ _ _ _ Hb Hlb) as [_ H2 _ _ _].
  destruct (lt_llog _ _ Hlt _ _ H1) as (G' & HG' & Hp). rewrite Ht, H2 in HG'. by simplify_eq.
Qed.

(** A leader has what was committed in earlier terms and in its own. *)
Lemma leader_has_committed g g' w w' a b na nb :
  inv M g w -> inv M g' w' -> later g g' -> nodeAt w a = Some na -> nodeAt w' b = Some nb ->
  State nb = Leader -> CurrentTerm na <= CurrentTerm nb ->
  take (Z.to_nat (CommitIndex na + 1)) (Log nb) = take (Z.to_nat (CommitIndex na + 1)) (Log na).
Proof.
  intros Hg Hg' Hlt Ha Hb Hlb Ht.
  apply (nodeAt_inv _ _ _ _ Hg) in Ha. apply (nodeAt_inv _ _ _ _ Hg') in Hb.
  destruct (n_lead _ _ _ _ _ Hb Hlb) as [_ Hll _ _ _], (n_commit _ _ _ _ _ Ha) as [_ Hco].
  apply (commit_ok_later M Hlt _ _ _ _ (Z.le_refl _)) in Hco.
  destruct Hco as [?|(t & k & G & Hk & Hp & Hle & Hl & ->)];
    [by replace (Z.to_nat (CommitIndex na + 1)) with 0%nat by lia|].
  destruct (decide (t = CurrentTerm nb)) as [->|Hne].
  - destruct Hp as [HG _]. by simplify_eq.
  - symmetry. apply (take_eq_le k); [lia|].
    eapply (g_safe _ _ _ (i_ghost _ _ _ Hg') t); [|done| |done]; [lia|]. by apply committed_choosable.
Qed.

(** ** The safety properties of Raft *)

(** C5: Election safety. Two nodes that are leaders of the same term, at any two moments
    of an execution, are the same node. *)
Theorem one_leader_per_term w w' a b na nb :
  reachable M addr w -> rtc step w w' -> nodeAt w a = Some na -> nodeAt w' b = Some nb ->
  State na = Leader -> State nb = Leader -> CurrentTerm na = CurrentTerm nb -> a = b.
Proof.
  intros Hr Hs Ha Hb Hla Hlb Ht. destruct (two_moments w w' Hr Hs) as (g & g' & Hg & Hg' & Hlt).
  apply (nodeAt_inv _ _ _ _ Hg) in Ha. apply (nodeAt_inv _ _ _ _ Hg') in Hb.
  destruct (n_lead _ _ _ _ _ Ha Hla) as [H1 _ _ _ _], (n_lead _ _ _ _ _ Hb Hlb) as [H2 _ _ _ _].
  pose proof (lookup_weaken _ _ _ _ H1 (lt_lead _ _ Hlt)). congruence.
Qed.

(** C11: A leader never overwrites or drops entries of its log during its term. *)
Theorem leader_append_only w w' a na nb :
  reachable M addr w -> rtc step w w' -> nodeAt w a = Some na -> nodeAt w' a = Some nb ->
  State na = Leader -> State nb = Leader -> CurrentTerm na = CurrentTerm nb ->
  Log na `prefix_of` Log nb.
Proof.
  intros Hr Hs. destruct (two_moments w w' Hr Hs) as (g & g' & Hg & Hg' & Hlt).
  by apply (leader_prefix g g').
Qed.

(** C7: Log matching. If two logs, at any two moments, have an entry of the same term at
    the same index, they are equal up to and including that index. *)
Theorem log_matching_property w w' a b na nb i ea eb :
  reachable M addr w -> rtc step w w' -> nodeAt w a = Some na -> nodeAt w' b = Some nb ->
  Log na !! i = Some ea -> Log nb !! i = Some eb -> LogEntry.Term ea = LogEntry.Term eb ->
  take (S i) (Log na) = take (S i) (Log nb).
Proof.
  intros Hr Hs Ha Hb. destruct (two_moments w w' Hr Hs) as (g & g' & Hg & Hg' & Hlt).
  apply (nodeAt_inv _ _ _ _ Hg) in Ha. apply (nodeAt_inv _ _ _ _ Hg') in Hb.
  apply (log_matching g'); [apply (log_ok_later Hlt), Ha|apply Hb].
Qed.

(** C6: Leader completeness. What a node has committed is in the log of every leader,
    then or later, whose term is not older than the node's. *)
Theorem leader_completeness w w' a b na nb :
  reachable M addr w -> rtc step w w' -> nodeAt w a = Some na -> nodeAt w' b = Some nb ->
  State nb = Leader -> CurrentTerm na <= CurrentTerm nb ->
  take (Z.to_nat (CommitIndex na + 1)) (Log nb) = take (Z.to_nat (CommitIndex na + 1)) (Log na).
Proof.
  intros Hr Hs. destruct (two_moments w w' Hr Hs) as (g & g' & Hg & Hg' & Hlt).
  by apply (leader_has_committed g g').
Qed.

(** C1: State machine safety. In any reachable cluster, for any two nodes at any two
    moments of the execution (crashes and restarts in between included), the log entries
    both have committed are the same. *)
Theorem state_machine_safety w w' a b na nb c :
  reachable M addr w -> rtc step w w' -> nodeAt w a = Some na -> nodeAt w' b = Some nb ->
  c <= CommitIndex na -> c <= CommitIndex nb ->
  take (Z.to_nat (c + 1)) (Log na) = take (Z.to_nat (c + 1)) (Log nb).
Proof.
  intros Hr Hs. destruct (two_moments w w' Hr Hs) as (g & g' & Hg & Hg' & Hlt).
  by apply (commit_agree_later g g').
Qed.

(** The stores agree: a node that has applied at least as many entries as another
    (then or earlier) has the other's store with the remaining committed entries applied
    on top; with equal counters the stores are equal. *)
Lemma stores_agree w w' a b na nb :
  reachable M addr w -> rtc step w w' -> nodeAt w a = Some na -> nodeAt w' b = Some nb ->
  LastApplied na <= LastApplied nb ->
  KVStore nb = foldl applyEntry (KVStore na)
    (drop (Z.to_nat (LastApplied na + 1)) (take (Z.to_nat (LastApplied nb + 1)) (Log nb))).
Proof.
  intros Hr Hs Ha Hb Hle. destruct (two_moments w w' Hr Hs) as (g & g' & Hg & Hg' & Hlt).
  pose proof (nodeAt_inv _ _ _ _ Hg Ha) as Na. pose proof (nodeAt_inv _ _ _ _ Hg' Hb) as Nb.
  destruct (n_kv _ _ _ _ _ Na) as [[Hra ->] Hca], (n_kv _ _ _ _ _ Nb) as [[Hrb ->] Hcb].
  rewrite (commit_agree_later g g' w w' a b na nb) by (done || lia).
  by rewrite foldl_drop_take_replay by lia.
Qed.

(** ** Clients *)

(** What a success reply says about the node. *)
Lemma poll_ok (n : node) idx term late :
  pollClientReq n idx term late = Some None ->
  State n = Leader /\ CurrentTerm n = term /\ idx <= CommitIndex n.
Proof. unfold pollClientReq. repeat case_if; try done. Qed.

Lemma propose_ok (n n1 : node) req idx term :
  handleClientReq n req = (n1, inr (idx, term)) ->
  State n1 = Leader /\ CurrentTerm n1 = term /\ 0 <= idx /\
  Log n1 !! Z.to_nat idx =
    Some (LogEntry.mk idx term (ClientReq.Op req) (ClientReq.Key req) (ClientReq.Value req)).
Proof.
  unfold handleClientReq. destruct (negb _) eqn:Hs; [done|]. bool_to_prop. intros [= <- <- <-]. simpl.
  split; [done|]. split; [done|]. split; [lia|]. by rewrite Nat2Z.id, list_lookup_middle.
Qed.

(** C2: A client that is told OK COMMITTED keeps its write: once the waiting loop of
    handleClientReq replies success for the entry it proposed, every node that later
    commits its index, and every leader of the same or a later term, has exactly that
    entry there. *)
Theorem acknowledged_write_durable w a p req n1 idx term w2 n2 late w3 b n3 :
  reachable M addr w -> procs w !! a = Some p ->
  handleClientReq (p_node p) req = (n1, inr (idx, term)) ->
  rtc step (put w a (mkProc n1 (p_ballots p) (p_tasks p)) []) w2 ->
  nodeAt w2 a = Some n2 -> pollClientReq n2 idx term late = Some None ->
  rtc step w2 w3 -> nodeAt w3 b = Some n3 ->
  (idx <= CommitIndex n3 \/ State n3 = Leader /\ term <= CurrentTerm n3) ->
  Log n3 !! Z.to_nat idx =
    Some (LogEntry.mk idx term (ClientReq.Op req) (ClientReq.Key req) (ClientReq.Value req)).
Proof.
  intros Hr Hp Hc Hs2 Hn2 Hpoll Hs3 Hn3 Hcase. set (w1 := put _ _ _ _) in Hs2.
  assert (reachable M addr w1) as Hr1.
  { eapply rtc_r; [exact Hr|]. pose proof (step_client w a p req Hp) as Hst. by rewrite Hc in Hst. }
  assert (nodeAt w1 a = Some n1) as Hn1 by (unfold nodeAt, w1; simpl; by rewrite lookup_insert_eq).
  destruct (propose_ok _ _ _ _ _ Hc) as (Hl1 & Ht1 & Hidx & He), (poll_ok _ _ _ _ Hpoll) as (Hl2 & Ht2 & Hci).
  destruct (two_moments w1 w2 Hr1 Hs2) as (g1 & g2 & Hg1 & Hg2 & Hlt12).
  destruct (inv_steps M HM g2 w2 w3 Hs3 Hg2) as (g3 & Hlt23 & Hg3).
  assert (Log n2 !! Z.to_nat idx = Log n1 !! Z.to_nat idx) as He2.
  { destruct (leader_prefix g1 g2 w1 w2 a n1 n2) as [x ->]; try done; [congruence|].
    apply lookup_app_l, (lookup_lt_Some _ _ _ He). }
  rewrite <- He, <- He2. destruct Hcase as [Hc3|[Hl3 Ht3]].
  - symmetry. apply (take_eq_lookup (Z.to_nat (idx + 1))); [lia|].
    by apply (commit_agree_later g2 g3 w2 w3 a b).
  - apply (take_eq_lookup (Z.to_nat (CommitIndex n2 + 1))); [lia|].
    apply (leader_has_committed g2 g3 w2 w3 a b); try done. congruence.
Qed.

(** No handler of a reachable cluster panics: applying entries, handling any append
    request on the network and any response to one stay within the bounds of their
    slices. *)
Lemma cluster_never_panics w id n :
  reachable M addr w -> nodeAt w id = Some n ->
  is_Some (applyCommittedEntries n) /\
  (forall src nextIdx req, AppendReq src id nextIdx req ∈ net w -> is_Some (HandleAppendEntries n req)) /\
  (forall src nextIdx req resp, AppendResp src id nextIdx req resp ∈ net w ->
     is_Some (replicateReply n src nextIdx (AppendEntriesRequest.Term req)
       (AppendEntriesRequest.PrevLogIndex req) (AppendEntriesRequest.Entries req) resp)).
Proof.
  intros Hr Hp. destruct (reachable_inv M HM addr w Hr) as [g Hg].
  pose proof (nodeAt_inv _ _ _ _ Hg Hp) as HN.
  destruct (n_kv _ _ _ _ _ HN) as [[Hla _] _], (n_commit _ _ _ _ _ HN) as [Hci _]. split_and!.
  - destruct (applyCommittedEntries_spec n) as (n' & -> & _); [lia|done].
  - intros src nx req Hin. apply (i_net _ _ _ Hg) in Hin as [_ Happ]. apply HandleAppendEntries_total.
    by destruct Happ as (_ & _ & ? & _).
  - intros. apply replicateReply_total. lia.
Qed.

(** ** The cluster as one log *)

(** The committed part of a node's log. *)
Definition committedLog (n : node) : list LogEntry := take (Z.to_nat (CommitIndex n + 1)) (Log n).

(** The longest committed log of the cluster. *)
Definition decided (w : world) : list LogEntry :=
  map_fold (fun _ p best =>
    if (length best <? length (committedLog (p_node p)))%nat then committedLog (p_node p) else best)
    [] (procs w).

(** The abstract specification: a log that is only appended to. *)
Inductive log_step : list LogEntry -> list LogEntry -> Prop :=
| log_append l es : log_step l (l ++ es).

Lemma decided_spec w :
  (forall id p, procs w !! id = Some p -> (length (committedLog (p_node p)) <= length (decided w))%nat) /\
  (decided w = [] \/ exists id p, procs w !! id = Some p /\ decided w = committedLog (p_node p)).
Proof.
  unfold decided. apply (map_fold_weak_ind (fun (r : list LogEntry) (m : gmap string proc) =>
    (forall id p, m !! id = Some p -> (length (committedLog (p_node p)) <= length r)%nat) /\
    (r = [] \/ exists id p, m !! id = Some p /\ r = committedLog (p_node p)))).
  - split; [|by left]. intros id p. by rewrite lookup_empty.
  - intros i x m r Hi [IH1 IH2]. destruct (Nat.ltb_spec (length r) (length (committedLog (p_node x)))) as [Hlt|Hge].
    + split; [|right; exists i, x; by rewrite lookup_insert_eq].
      intros id p [[<- <-]|[_ Hp]]%lookup_insert_Some; [done|]. apply IH1 in Hp. lia.
    + split; [intros id p [[<- <-]|[_ Hp]]%lookup_insert_Some; [lia|by eapply IH1]|].
      destruct IH2 as [->|(id & p & Hp & ->)]; [by left|right]. exists id, p. split; [|done].
      rewrite lookup_insert_ne; [done|congruence].
Qed.

Lemma committedLog_length g w id p :
  inv M g w -> procs w !! id = Some p ->
  Z.of_nat (length (committedLog (p_node p))) = CommitIndex (p_node p) + 1.
Proof.
  intros Hg Hp. destruct (n_commit _ _ _ _ _ (p_inv _ _ _ _ _ (i_procs _ _ _ Hg id p Hp))) as [Hci _].
  unfold committedLog. len_lia.
Qed.

(** A committed log no longer than another, at that moment or later. *)
Lemma committedLog_prefix g g' w w' a b p q :
  inv M g w -> inv M g' w' -> later g g' -> procs w !! a = Some p -> procs w' !! b = Some q ->
  (length (committedLog (p_node p)) <= length (committedLog (p_node q)))%nat ->
  committedLog (p_node p) `prefix_of` committedLog (p_node q).
Proof.
  intros Hg Hg' Hlt Hp Hq Hle.
  pose proof (committedLog_length _ _ _ _ Hg Hp). pose proof (committedLog_length _ _ _ _ Hg' Hq).
  unfold committedLog in *.
  rewrite (commit_agree_later g g' w w' a b (p_node p) (p_node q) (CommitIndex (p_node p)));
    try done; try (unfold nodeAt; by rewrite ?Hp, ?Hq); [|lia].
  exists (drop (Z.to_nat (CommitIndex (p_node p) + 1)) (take (Z.to_nat (CommitIndex (p_node q) + 1)) (Log (p_node q)))).
  rewrite <- (take_drop (Z.to_nat (CommitIndex (p_node p) + 1)) (take _ (Log (p_node q)))) at 1.
  rewrite take_take. by rewrite Nat.min_l by lia.
Qed.

Lemma node_prefix_decided g w id p :
  inv M g w -> procs w !! id = Some p -> committedLog (p_node p) `prefix_of` decided w.
Proof.
  intros Hg Hp. destruct (decided_spec w) as [Hmax [He|(b & q & Hq & He)]];
    pose proof (Hmax id p Hp) as Hle; rewrite He in *.
  - destruct (committedLog (p_node p)); [done|simpl in Hle; lia].
  - by apply (committedLog_prefix g g w w id b).
Qed.

Lemma decided_grows g w w' : inv M g w -> step w w' -> decided w `prefix_of` decided w'.
Proof.
  intros Hg Hs. destruct (inv_step M HM g w w' Hg Hs) as (g' & Hlt & Hg').
  destruct (decided_spec w) as [_ [->|(a & p & Hp & ->)]]; [apply prefix_nil|].
  assert (is_Some (procs w' !! a)) as [p' Hp'].
  { apply elem_of_dom. rewrite (i_dom _ _ _ Hg'), <- (i_dom _ _ _ Hg). by apply elem_of_dom_2 in Hp. }
  pose proof (step_commit M HM g w w' a p p' Hg Hs Hp Hp') as Hci.
  pose proof (committedLog_length _ _ _ _ Hg Hp). pose proof (committedLog_length _ _ _ _ Hg' Hp').
  transitivity (committedLog (p_node p')); [|by eapply node_prefix_decided].
  apply (committedLog_prefix g g' w w' a a); try done. lia.
Qed.

Lemma decided_init : decided (initWorld M addr) = [].
Proof.
  destruct (decided_spec (initWorld M addr)) as [_ [?|(a & p & Hp & ->)]]; [done|].
  apply initWorld_lookup in Hp as [_ ->]; done.
Qed.
(** C3: The cluster refines one append-only log. The longest committed log of the
    cluster starts empty and every step (including a crash) only appends to it; every
    node's key-value store is the replay of a prefix of it. *)
Theorem cluster_refines_log w w' :
  reachable M addr w -> step w w' ->
  decided (initWorld M addr) = [] /\ log_step (decided w) (decided w') /\
  forall id p, procs w !! id = Some p ->
    LastApplied (p_node p) < len (decided w) /\
    KVStore (p_node p) = replay (take (Z.to_nat (LastApplied (p_node p) + 1)) (decided w)).
Proof.
  intros Hr Hs. destruct (reachable_inv M HM addr w Hr) as [g Hg].
  split; [apply decided_init|]. split.
  - destruct (decided_grows g w w' Hg Hs) as [es ->]. constructor.
  - intros id p Hp. pose proof (node_prefix_decided _ _ _ _ Hg Hp) as [x Hx].
    pose proof (committedLog_length _ _ _ _ Hg Hp) as Hlen.
    destruct (n_kv _ _ _ _ _ (p_inv _ _ _ _ _ (i_procs _ _ _ Hg id p Hp))) as [[Hla ->] Hle].
    rewrite Hx, length_app. split; [lia|]. rewrite take_app_le by lia. unfold committedLog.
    rewrite take_take. by rewrite Nat.min_l by lia.
Qed.

(** Terms do not decrease along a log. *)
Lemma log_sorted g tm L i j x y :
  ghost_ok M g tm -> log_ok g L -> (i <= j)%nat -> L !! i = Some x -> L !! j = Some y ->
  LogEntry.Term x <= LogEntry.Term y.
Proof.
  intros Hg HL Hij Hx Hy. destruct (HL j y Hy) as (_ & G & HG & Ht).
  destruct (g_log _ _ _ Hg _ _ HG) as [_ Hb].
  apply (proj1 (Forall_forall _ _) Hb), (list_elem_of_lookup_2 _ i).
  assert (take (S j) L !! i = Some x) as Hi by (rewrite lookup_take_lt by lia; done).
  rewrite Ht in Hi. by apply lookup_take_Some in Hi as [? _].
Qed.

(** C9: Every node of a reachable cluster is well formed: it has its own name and the
    other members as peers, the index of each entry is its position in the log, terms
    are positive, sorted and bounded by the current term, the applied index is at most
    the commit index, which is inside the log, and a leader's next and match indices
    stay within the log. *)
Theorem nodes_well_formed w a n :
  reachable M addr w -> nodeAt w a = Some n ->
  ID n = a /\ a ∈ M /\ dom (Peers n) = M ∖ {[a]} /\ 0 <= CurrentTerm n /\
  (forall i e, Log n !! i = Some e -> LogEntry.Index e = Z.of_nat i /\ 0 < LogEntry.Term e <= CurrentTerm n) /\
  (forall i j x y, (i <= j)%nat -> Log n !! i = Some x -> Log n !! j = Some y -> LogEntry.Term x <= LogEntry.Term y) /\
  -1 <= LastApplied n <= CommitIndex n /\ CommitIndex n < len (Log n) /\
  dom (MatchIndex n) ⊆ dom (Peers n) /\
  (State n = Leader -> forall p, p ∈ dom (Peers n) ->
     0 <= go_map_int (NextIndex n) p <= len (Log n) /\ forall m, MatchIndex n !! p = Some m -> m < len (Log n)).
Proof.
  intros Hr Ha. destruct (reachable_inv M HM addr w Hr) as [g Hg].
  pose proof (nodeAt_inv _ _ _ _ Hg Ha) as HN. pose proof (i_ghost _ _ _ Hg) as HG.
  destruct HN as [N1 N2 N3 N4 N5 N6 N7 N8 N9 N10 N11 N12 N13 N14 N15 [N16 _] [N17 N18]].
  split_and!; try done; try lia.
  - intros i e He. destruct (N7 i e He) as (Hi & G & HGe & _). split; [done|].
    split; [by apply (g_pos _ _ _ HG _ G)|]. by apply (proj1 (Forall_forall _ _) N8), (list_elem_of_lookup_2 _ i).
  - intros i j x y. by apply (log_sorted g (terms w)).
  - destruct N17; lia.
  - by rewrite N3.
  - intros Hl p Hp. destruct (N12 Hl) as [L1 L2 L3 L4 L5]. rewrite N3 in Hp. split; [by apply L4|].
    intros m Hm. specialize (L5 p m Hm). destruct (decide (0 < acked g p (CurrentTerm n))%nat) as [Hpos|]; [|lia].
    destruct (g_ack _ _ _ HG _ _ Hpos) as (_ & G & HGT & Hle). rewrite L2 in HGT. injection HGT as <-. lia.
Qed.
End safety.

(** ** Concrete runs

    The schedule of [ClusterRun]: n1 is elected in term 1 and commits a write,
    n3 takes part, crashes, recovers and is elected in term 2. *)

Definition nodeOf (w : world) (id : string) : node := default sampleNode (nodeAt w id).

Lemma nodeOf_some w id :
  match nodeAt w id with Some _ => true | None => false end = true -> nodeAt w id = Some (nodeOf w id).
Proof. unfold nodeOf. by destruct (nodeAt w id). Qed.

Lemma three_named : "" ∉ three.
Proof. by apply (bool_decide_unpack _); vm_compute. Qed.

Ltac at_node := apply nodeOf_some; vm_compute; reflexivity.
Ltac on_run := vm_compute; (reflexivity || discriminate).

Lemma one_leader_per_term_witness :
  State (nodeOf wElected "n1") = Leader /\ State (nodeOf wWritten "n1") = Leader /\ "n1" = "n1".
Proof.
  split; [on_run|]. split; [on_run|].
  apply (one_leader_per_term three local three_named wElected wWritten "n1" "n1"
    (nodeOf wElected "n1") (nodeOf wWritten "n1") wElected_reachable wWritten_steps);
    [at_node|at_node|on_run..].
Defined.

Lemma nodes_well_formed_witness :
  let n := nodeOf wSecond "n3" in
  ID n = "n3" /\ "n3" ∈ three /\ dom (Peers n) = three ∖ {["n3"]} /\ 0 <= CurrentTerm n /\
  (forall i e, Log n !! i = Some e -> LogEntry.Index e = Z.of_nat i /\ 0 < LogEntry.Term e <= CurrentTerm n) /\
  (forall i j x y, (i <= j)%nat -> Log n !! i = Some x -> Log n !! j = Some y -> LogEntry.Term x <= LogEntry.Term y) /\
  -1 <= LastApplied n <= CommitIndex n /\ CommitIndex n < len (Log n) /\
  dom (MatchIndex n) ⊆ dom (Peers n) /\
  (State n = Leader -> forall p, p ∈ dom (Peers n) ->
     0 <= go_map_int (NextIndex n) p <= len (Log n) /\ forall m, MatchIndex n !! p = Some m -> m < len (Log n)).
Proof. exact (nodes_well_formed three local three_named wSecond "n3" (nodeOf wSecond "n3") wSecond_reachable ltac:(at_node)). Defined.

Lemma leader_append_only_witness : Log (nodeOf wElected "n1") `prefix_of` Log (nodeOf wWritten "n1").
Proof.
  apply (leader_append_only three local three_named wElected wWritten "n1"
    (nodeOf wElected "n1") (nodeOf wWritten "n1") wElected_reachable wWritten_steps);
    [at_node|at_node|on_run..].
Defined.

Definition entryX : LogEntry := LogEntry.mk 0 1 OpSet "x" "1".

Lemma log_matching_property_witness :
  take 1 (Log (nodeOf wWritten "n1")) = take 1 (Log (nodeOf wSecond "n3")).
Proof.
  apply (log_matching_property three local three_named wWritten wSecond "n1" "n3"
    (nodeOf wWritten "n1") (nodeOf wSecond "n3") 0 entryX entryX wWritten_reachable wSecond_steps);
    [at_node|at_node|on_run..].
Defined.

(** The leader of term 2 has the write n1 committed in term 1. *)
Lemma leader_completeness_witness :
  CommitIndex (nodeOf wWritten "n1") = 0 /\
  take (Z.to_nat (CommitIndex (nodeOf wWritten "n1") + 1)) (Log (nodeOf wSecond "n3")) =
  take (Z.to_nat (CommitIndex (nodeOf wWritten "n1") + 1)) (Log (nodeOf wWritten "n1")).
Proof.
  split; [on_run|].
  apply (leader_completeness three local three_named wWritten wSecond "n1" "n3"
    (nodeOf wWritten "n1") (nodeOf wSecond "n3") wWritten_reachable wSecond_steps);
    [at_node|at_node|on_run..].
Defined.

Lemma state_machine_safety_witness :
  take (Z.to_nat (0 + 1)) (Log (nodeOf wWritten "n1")) = take (Z.to_nat (0 + 1)) (Log (nodeOf wSecond "n3")).
Proof.
  apply (state_machine_safety three local three_named wWritten wSecond "n1" "n3"
    (nodeOf wWritten "n1") (nodeOf wSecond "n3") 0 wWritten_reachable wSecond_steps);
    [at_node|at_node|on_run..].
Defined.

Lemma stores_agree_witness :
  KVStore (nodeOf wSecond "n3") = foldl applyEntry (KVStore (nodeOf wWritten "n1"))
    (drop (Z.to_nat (LastApplied (nodeOf wWritten "n1") + 1))
       (take (Z.to_nat (LastApplied (nodeOf wSecond "n3") + 1)) (Log (nodeOf wSecond "n3")))) /\
  GetState (nodeOf wSecond "n3") "x" = ("1", true).
Proof.
  split; [|on_run].
  apply (stores_agree three local three_named wWritten wSecond "n1" "n3"
    (nodeOf wWritten "n1") (nodeOf wSecond "n3") wWritten_reachable wSecond_steps);
    [at_node|at_node|on_run].
Defined.

Definition procOf (w : world) (id : string) : proc := default (mkProc sampleNode ∅ []) (procs w !! id).

Lemma procOf_some w id :
  match procs w !! id with Some _ => true | None => false end = true -> procs w !! id = Some (procOf w id).
Proof. unfold procOf. by destruct (procs w !! id). Qed.

(** The client's write of term 1 is acknowledged and in the log of term 2. *)
Lemma acknowledged_write_durable_witness :
  pollClientReq (nodeOf wWritten "n1") 0 1 false = Some None /\
  Log (nodeOf wSecond "n3") !! Z.to_nat 0 =
    Some (LogEntry.mk 0 1 (ClientReq.Op setX) (ClientReq.Key setX) (ClientReq.Value setX)).
Proof.
  split; [on_run|].
  apply (acknowledged_write_durable three local three_named wElected "n1" (procOf wElected "n1") setX
    (fst (handleClientReq (p_node (procOf wElected "n1")) setX)) 0 1
    wWritten (nodeOf wWritten "n1") false wSecond "n3" (nodeOf wSecond "n3") wElected_reachable).
  - apply procOf_some. on_run.
  - on_run.
  - assert (put wElected "n1" (mkProc (fst (handleClientReq (p_node (procOf wElected "n1")) setX))
      (p_ballots (procOf wElected "n1")) (p_tasks (procOf wElected "n1"))) [] = wProposed) as -> by on_run.
    apply after_steps.
  - at_node.
  - on_run.
  - apply wSecond_steps.
  - at_node.
  - left. on_run.
Defined.

Lemma cluster_never_panics_witness :
  is_Some (applyCommittedEntries (nodeOf wSecond "n3")) /\
  AppendReq "n1" "n3" 1 (AppendEntriesRequest.mk 1 "n1" 0 1 [] 0) ∈ net wSecond /\
  is_Some (HandleAppendEntries (nodeOf wSecond "n3") (AppendEntriesRequest.mk 1 "n1" 0 1 [] 0)).
Proof.
  destruct (cluster_never_panics three local three_named wSecond "n3" (nodeOf wSecond "n3")
    wSecond_reachable) as (H1 & H2 & _); [at_node|].
  assert (AppendReq "n1" "n3" 1 (AppendEntriesRequest.mk 1 "n1" 0 1 [] 0) ∈ net wSecond) as Hin.
  { apply (list_elem_of_lookup_2 _ 4). on_run. }
  split; [exact H1|]. split; [exact Hin|]. exact (H2 _ _ _ Hin).
Defined.

Lemma cluster_refines_log_witness :
  log_step (decided wSecond) (decided (after wSecond [DoApply "n3"])) /\ decided wSecond = [entryX].
Proof.
  split; [|on_run].
  destruct (cluster_refines_log three local three_named wSecond (after wSecond [DoApply "n3"])
    wSecond_reachable) as (_ & H & _); [|exact H].
  apply (exec_sound wSecond (DoApply "n3")). vm_compute. reflexivity.
Defined.

(** n1 proposes a write; the write is committed and nothing is applied. *)
Definition setOf (key value : string) : ClientReq := ClientReq.mk OpSet key value 0.

Definition proposedAt (w : world) (id : string) (req : ClientReq) : world :=
  let p := procOf w id in
  put w id (mkProc (fst (handleClientReq (p_node p) req)) (p_ballots p) (p_tasks p)) [].

Definition wCommitted (key value : string) : world :=
  after (proposedAt wElected "n1" (setOf key value)) (take 4 (drop 1 writeX)).

(** C30: An acknowledged write may be invisible: for every key and value there is a
    reachable cluster in which a leader proposes SET key value for a client at index 0,
    and an execution from there after which the entry is committed at index 0 of the
    leader's log, the waiting loop answers the client OK, and reading the key gives
    nothing, on the leader itself and on a follower. *)
Theorem acknowledged_before_applied key value :
  exists w0 p w n1 n2, reachable three local w0 /\ procs w0 !! "n1" = Some p /\
    let '(m, proposed) := handleClientReq (p_node p) (ClientReq.mk OpSet key value 0) in
    proposed = inr (0, 1) /\
    rtc step (put w0 "n1" (mkProc m (p_ballots p) (p_tasks p)) []) w /\
    nodeAt w "n1" = Some n1 /\ nodeAt w "n2" = Some n2 /\ State n1 = Leader /\
    Log n1 !! 0%nat = Some (LogEntry.mk 0 1 OpSet key value) /\ CommitIndex n1 = 0 /\
    pollClientReq n1 0 1 false = Some None /\
    GetState n1 key = ("", false) /\ GetState n2 key = ("", false).
Proof.
  exists wElected, (procOf wElected "n1"), (wCommitted key value),
    (nodeOf (wCommitted key value) "n1"), (nodeOf (wCommitted key value) "n2").
  split; [apply wElected_reachable|]. split; [apply procOf_some; on_run|].
  destruct (handleClientReq (p_node (procOf wElected "n1")) (ClientReq.mk OpSet key value 0))
    as [m proposed] eqn:E.
  assert (m = fst (handleClientReq (p_node (procOf wElected "n1")) (setOf key value))) as -> by (unfold setOf; by rewrite E).
  split; [apply (f_equal snd) in E; simpl in E; rewrite <- E; vm_compute; reflexivity|]. split; [apply after_steps|].
  split; [at_node|]. split; [at_node|]. split_and!; on_run.
Qed.
