(* ===== verification/Progress.v ===== *)
(** * Progress of the cluster

    From every reachable cluster in which a majority of nodes is not led by
    one of its members there is an execution that commits a client's write:
    the member with the most recent log can catch up with the terms of the
    others, win an election, replicate the write and acknowledge it.  The
    steps are those of [Cluster]; the handlers' behaviour is that of
    [Election] and [CatchUp]. *)

From stdpp Require Import base gmap strings list fin_sets.
From S2P Require Import Prelude Types Kv Wal State Recovery Election Replication CatchUp Apply Durability NodeRun Cluster ClusterRun ClusterInv ClusterSteps ClusterLog ClusterMoves ClusterReach ClusterSafety.

(** Processes other than those of [S] do not move. *)
Definition only (S : gset string) (w w' : world) : Prop :=
  forall x, x ∉ S -> procs w' !! x = procs w !! x.

Lemma only_trans S w1 w2 w3 : only S w1 w2 -> only S w2 w3 -> only S w1 w3.
Proof. intros H1 H2 x Hx. by rewrite H2, H1. Qed.

Lemma only_mono S S' w w' : S ⊆ S' -> only S w w' -> only S' w w'.
Proof. intros Hs H x Hx. apply H. set_solver. Qed.

Lemma put_at w a p sent : procs (put w a p sent) !! a = Some p.
Proof. apply lookup_insert_eq. Qed.

Lemma put_other w a p sent x : x <> a -> procs (put w a p sent) !! x = procs w !! x.
Proof. intros Hx. by apply lookup_insert_ne. Qed.

Lemma put_only w a p sent : only {[a]} w (put w a p sent).
Proof. intros x Hx. apply put_other. set_solver. Qed.

Lemma nodeAt_proc w a n : nodeAt w a = Some n <-> exists p, procs w !! a = Some p /\ p_node p = n.
Proof. unfold nodeAt. rewrite fmap_Some. naive_solver. Qed.

Section progress.
Context (M : gset string) (addr : string -> string) (HM : "" ∉ M).

(** ** What reachable nodes are like *)

Lemma member_proc w a : reachable M addr w -> a ∈ M -> exists p, procs w !! a = Some p.
Proof.
  intros Hr Ha. destruct (reachable_inv M HM addr w Hr) as [g Hg]. rewrite <- (i_dom _ _ _ Hg) in Ha. by apply elem_of_dom.
Qed.

Record shape (a : string) (n : node) : Prop := {
  sh_id : ID n = a;
  sh_peers : dom (Peers n) = M ∖ {[a]};
  sh_term : 0 <= CurrentTerm n;
  sh_index i e : Log n !! i = Some e -> LogEntry.Index e = Z.of_nat i;
  sh_terms e : e ∈ Log n -> LogEntry.Term e <= CurrentTerm n;
  sh_commit : -1 <= CommitIndex n < len (Log n) }.

Lemma reachable_shape w a p : reachable M addr w -> procs w !! a = Some p -> shape a (p_node p).
Proof.
  intros Hr Hp. destruct (reachable_inv M HM addr w Hr) as [g Hg]. destruct (i_procs _ _ _ Hg a p Hp) as [HN _ _].
  destruct HN as [N1 N2 N3 N4 N5 N6 N7 N8 N9 N10 N11 N12 N13 N14 N15 [N16 _] N17]. split; try done.
  - intros i e He. by destruct (N7 i e He).
  - intros e He. by apply (proj1 (Forall_forall _ _) N8).
Qed.

Lemma reachable_match w a b p q :
  reachable M addr w -> procs w !! a = Some p -> procs w !! b = Some q -> logs_match (Log (p_node p)) (Log (p_node q)).
Proof.
  intros Hr Hp Hq. destruct (reachable_inv M HM addr w Hr) as [g Hg].
  destruct (i_procs _ _ _ Hg a p Hp) as [HN _ _], (i_procs _ _ _ Hg b q Hq) as [HN' _ _].
  intros i x y Hx Hy Ht. by eapply log_matching; [apply HN|apply HN'|..].
Qed.

Lemma reachable_next w a p v :
  reachable M addr w -> procs w !! a = Some p -> State (p_node p) = Leader -> v ∈ M ∖ {[a]} ->
  0 <= go_map_int (NextIndex (p_node p)) v <= len (Log (p_node p)).
Proof.
  intros Hr Hp Hl Hv. destruct (reachable_inv M HM addr w Hr) as [g Hg]. destruct (i_procs _ _ _ Hg a p Hp) as [HN _ _].
  by apply (l_next _ _ _ _ (n_lead _ _ _ _ _ HN Hl)).
Qed.

Lemma steps_reachable w w' : reachable M addr w -> rtc step w w' -> reachable M addr w'.
Proof. intros Hr Hs. unfold reachable. by etransitivity. Qed.

(** ** Exchanges as steps *)

Lemma exchange_steps w a v pa pv L F :
  reachable M addr w -> v ∈ M ∖ {[a]} -> procs w !! a = Some pa -> procs w !! v = Some pv ->
  exchange v (p_node pa, p_node pv) = Some (L, F) ->
  exists w' pa' pv', rtc step w w' /\ only {[a; v]} w w' /\ procs w' !! a = Some pa' /\ p_node pa' = L /\
    procs w' !! v = Some pv' /\ p_node pv' = F.
Proof.
  intros Hr Hv Ha Hpv. pose proof (reachable_shape w a pa Hr Ha) as Hsh. unfold exchange.
  set (n := p_node pa) in *. set (next := go_map_int (NextIndex n) v).
  destruct (replicateToPeer n next (CurrentTerm n) (CommitIndex n)) as [req|] eqn:Hreq.
  2: { intros [= <- <-]. exists w, pa, pv. split_and!; done. }
  assert (State n = Leader) as Hl.
  { unfold replicateToPeer in Hreq. destruct (bool_decide_reflect (State n = Leader)); done. }
  destruct (HandleAppendEntries (p_node pv) req) as [[F1 resp]|] eqn:HF; [|done]. cbn [mbind option_bind].
  destruct (replicateReply _ _ _ _ _ _ _) as [L1|] eqn:HL; [|done]. cbn [mbind option_bind]. intros [= <- <-].
  assert (v <> a) as Hne by set_solver.
  assert (sendHeartbeats n = Some (CurrentTerm n, CommitIndex n,
    map (fun '(id, addr) => mkPeerInfo id addr (go_map_int (NextIndex n) id)) (map_to_list (Peers n)))) as Hhb.
  { unfold sendHeartbeats. by rewrite bool_decide_eq_true_2. }
  set (peers := map _ (map_to_list (Peers n))) in Hhb.
  set (p1 := mkProc n (p_ballots pa) (map (fun i => mkTask (pi_id i) (pi_next i) (CurrentTerm n) (CommitIndex n)) peers ++ p_tasks pa)).
  set (w1 := put w a p1 []). set (w2 := put w1 a p1 [AppendReq a v next req]).
  set (pv' := mkProc F1 (p_ballots pv) (p_tasks pv)). set (w3 := put w2 v pv' [AppendResp v a next req resp]).
  set (pa' := mkProc L1 (p_ballots p1) (p_tasks p1)). set (w4 := put w3 a pa' []).
  exists w4, pa', pv'. split; [|split; [|split_and!; try done]].
  - eapply rtc_l; [apply (step_heartbeats w a pa _ _ _ Ha Hhb)|]. fold n. fold p1 w1.
    eapply rtc_l; [|eapply rtc_l; [|apply rtc_once]].
    + apply (step_replicate w1 a p1 (mkTask v next (CurrentTerm n) (CommitIndex n)) req); [apply put_at| |done].
      simpl. apply elem_of_app. left. apply list_elem_of_fmap. unfold peers.
      assert (v ∈ dom (Peers n)) as [x Hx]%elem_of_dom by (by rewrite (sh_peers _ _ Hsh)).
      exists (mkPeerInfo v x next). split; [done|]. apply list_elem_of_fmap. exists (v, x). split; [done|]. by apply elem_of_map_to_list.
    + apply (step_append_request w2 a v next req pv F1 resp); [left| |done].
      unfold w2, w1. by rewrite !put_other.
    + apply (step_append_reply w3 v a next req resp p1 L1); [left| |done].
      unfold w3. rewrite put_other by done. apply put_at.
  - intros x Hx. unfold w4, w3, w2, w1. rewrite !put_other by set_solver. done.
  - apply put_at.
  - unfold w4. rewrite put_other by done. apply put_at.
Qed.

Lemma exchanges_steps k : forall w a v pa pv L F,
  reachable M addr w -> v ∈ M ∖ {[a]} -> procs w !! a = Some pa -> procs w !! v = Some pv ->
  exchanges k v (p_node pa, p_node pv) = Some (L, F) ->
  exists w' pa' pv', rtc step w w' /\ only {[a; v]} w w' /\ procs w' !! a = Some pa' /\ p_node pa' = L /\
    procs w' !! v = Some pv' /\ p_node pv' = F.
Proof.
  induction k as [|k IH]; intros w a v pa pv L F Hr Hv Ha Hpv; cbn [exchanges].
  { intros [= <- <-]. exists w, pa, pv. by split_and!. }
  destruct (exchange v (p_node pa, p_node pv)) as [[L1 F1]|] eqn:E; [|done]. cbn [mbind option_bind]. intros Hk.
  destruct (exchange_steps w a v pa pv L1 F1 Hr Hv Ha Hpv E) as (w1 & pa1 & pv1 & Hs1 & Ho1 & Ha1 & <- & Hv1 & <-).
  destruct (IH w1 a v pa1 pv1 L F (steps_reachable w w1 Hr Hs1) Hv Ha1 Hv1 Hk) as (w2 & pa2 & pv2 & Hs2 & Ho2 & ?).
  exists w2, pa2, pv2. split; [by etransitivity|]. split; [by eapply only_trans|done].
Qed.

Lemma visitAll_steps k a (vs : list string) : forall w pa (Fs : list node) L Fs',
  reachable M addr w -> NoDup vs -> Forall (fun v => v ∈ M ∖ {[a]}) vs -> procs w !! a = Some pa ->
  Forall2 (fun v F => nodeAt w v = Some F) vs Fs ->
  visitAll k (p_node pa) (zip vs Fs) = Some (L, Fs') ->
  exists w' pa', rtc step w w' /\ only ({[a]} ∪ list_to_set vs) w w' /\ procs w' !! a = Some pa' /\ p_node pa' = L.
Proof.
  induction vs as [|v vs IH]; intros w pa Fs L Fs' Hr Hnd Hin Ha HF; cbn [visitAll zip].
  { intros [= <- <-]. exists w, pa. by split_and!. }
  apply Forall2_cons_inv_l in HF as (F & Fs1 & HFv & HF & ->). cbn [zip_with visitAll].
  apply nodeAt_proc in HFv as (pv & Hpv & <-). apply NoDup_cons in Hnd as [Hnew Hnd]. apply Forall_cons in Hin as [Hv Hin].
  destruct (exchanges k v (p_node pa, p_node pv)) as [[L1 F1]|] eqn:E; [|done]. cbn [mbind option_bind].
  destruct (exchanges_steps k w a v pa pv L1 F1 Hr Hv Ha Hpv E) as (w1 & pa1 & pv1 & Hs1 & Ho1 & Ha1 & <- & Hv1 & <-).
  destruct (visitAll k (p_node pa1) (zip vs Fs1)) as [[L2 Fs2]|] eqn:E2; [|done]. cbn [mbind option_bind]. intros [= <- <-].
  destruct (IH w1 pa1 Fs1 L2 Fs2 (steps_reachable w w1 Hr Hs1) Hnd Hin Ha1) as (w2 & pa2 & Hs2 & Ho2 & ?); [|done|].
  - apply Forall2_same_length_lookup in HF as [Hlen HF]. apply Forall2_same_length_lookup. split; [done|].
    intros i x G Hx HG. unfold nodeAt. rewrite Ho1; [by eapply HF|].
    assert (x ∈ M ∖ {[a]}) by (by eapply (proj1 (Forall_forall _ _) Hin), list_elem_of_lookup_2).
    assert (x <> v) by (intros ->; by eapply Hnew, list_elem_of_lookup_2). set_solver.
  - exists w2, pa2. split; [by etransitivity|]. split; [|done].
    eapply only_trans; [eapply only_mono; [|exact Ho1]|eapply only_mono; [|exact Ho2]]; set_solver.
Qed.

(** ** An election as steps *)

Lemma timeout_step w a p :
  procs w !! a = Some p -> shape a (p_node p) -> State (p_node p) <> Leader -> CurrentTerm (p_node p) < maxInt ->
  let T := CurrentTerm (p_node p) + 1 in
  exists w' p', rtc step w w' /\ only {[a]} w w' /\ procs w' !! a = Some p' /\
    State (p_node p') = Candidate /\ CurrentTerm (p_node p') = T /\ Log (p_node p') = Log (p_node p) /\
    p_ballots p' !! T = Some (mkBallot 1 (M ∖ {[a]}) ∅) /\
    forall v, v ∈ M ∖ {[a]} ->
      VoteReq a v (RequestVoteRequest.mk T a (fst (lastLog (p_node p))) (snd (lastLog (p_node p)))) ∈ net w'.
Proof.
  intros Hp [Hid Hpeers Hterm _ _ _] Hs Hlt T. set (n := p_node p) in *.
  assert (wrap64 (CurrentTerm n + 1) = T) as Hw by (apply wrap64_id; unfold in_int, minInt; lia).
  assert (exists n', startElection n = (n', Some (RequestVoteRequest.mk T a (fst (lastLog n)) (snd (lastLog n)))) /\
    State n' = Candidate /\ CurrentTerm n' = T /\ Log n' = Log n /\ Peers n' = Peers n /\ ID n' = a) as (n' & HE & H1 & H2 & H3 & H4 & H5).
  { unfold startElection. rewrite bool_decide_eq_false_2 by done. cbv zeta. change (lastLog _) with (lastLog n).
    destruct (lastLog n) as [li lt]. eexists. split; [simpl; by rewrite Hw, Hid|]. by split_and!. }
  eexists _, _. split; [apply rtc_once, (step_timeout w a p n' _ Hp Hlt HE)|]. split; [apply put_only|].
  split; [apply put_at|]. simpl. split_and!; try done.
  - rewrite lookup_insert_eq. unfold newBallot. by rewrite H4, Hpeers.
  - intros v Hv. apply elem_of_app. left. unfold voteReqs. rewrite H5, H4, Hpeers.
    apply list_elem_of_fmap. exists v. split; [done|]. by apply elem_of_elements.
Qed.

(** Elections that nobody hears of. *)
Lemma raise_term k : forall w a p T,
  reachable M addr w -> procs w !! a = Some p -> State (p_node p) <> Leader ->
  CurrentTerm (p_node p) + Z.of_nat k = T -> T <= maxInt ->
  exists w' p', rtc step w w' /\ only {[a]} w w' /\ procs w' !! a = Some p' /\
    State (p_node p') <> Leader /\ CurrentTerm (p_node p') = T /\ Log (p_node p') = Log (p_node p).
Proof.
  induction k as [|k IH]; intros w a p T Hr Hp Hs Hk HT.
  { exists w, p. split_and!; try done. lia. }
  destruct (timeout_step w a p Hp (reachable_shape w a p Hr Hp) Hs ltac:(lia)) as (w1 & p1 & Hs1 & Ho1 & Hp1 & Hc1 & Ht1 & Hl1 & _).
  destruct (IH w1 a p1 T (steps_reachable w w1 Hr Hs1) Hp1) as (w2 & p2 & Hs2 & Ho2 & Hp2 & Hc2 & Ht2 & Hl2);
    [congruence|lia|done|].
  exists w2, p2. split; [by etransitivity|]. split; [by eapply only_trans|]. rewrite Hl2. done.
Qed.

Lemma grants (n : node) req :
  CurrentTerm n < RequestVoteRequest.Term req -> candidateUpToDate n req ->
  exists n', HandleRequestVote n req = (n', RequestVoteResponse.mk (RequestVoteRequest.Term req) true) /\
    CurrentTerm n' = RequestVoteRequest.Term req.
Proof.
  intros Ht Hu. unfold HandleRequestVote. rewrite (proj2 (Z.ltb_ge _ _)), Z.gtb_ltb, (proj2 (Z.ltb_lt _ _)) by lia.
  change (lastLog (stepDown _ n)) with (lastLog n). unfold candidateUpToDate in Hu. destruct (lastLog n) as [li lt].
  rewrite (proj2 (logUpToDate_iff _ _ _ _)) by exact Hu. simpl. eexists. by split.
Qed.

(** [a] leads term [T], and expects its peers to have its log. *)
Definition leads (T : Z) (L : list LogEntry) (a : string) (p : proc) : Prop :=
  State (p_node p) = Leader /\ CurrentTerm (p_node p) = T /\ Log (p_node p) = L /\
  forall v, v ∈ M ∖ {[a]} -> go_map_int (NextIndex (p_node p)) v = len L.

Lemma becomes_leader (n : node) a bal tasks :
  State n = Candidate -> dom (Peers n) = M ∖ {[a]} -> leads (CurrentTerm n) (Log n) a (mkProc (becomeLeader n) bal tasks).
Proof.
  intros Hs Hp. unfold leads, becomeLeader. simpl. rewrite Hs, bool_decide_eq_false_2 by done. simpl.
  split_and!; try done. intros v Hv. unfold go_map_int. rewrite assignAll_lookup.
  rewrite <- Hp in Hv. apply elem_of_dom in Hv as [x ->]. done.
Qed.

(** One vote, from the request to the count. *)
Lemma vote_steps w a v p q b req :
  let T := CurrentTerm (p_node p) in
  procs w !! a = Some p -> dom (Peers (p_node p)) = M ∖ {[a]} -> State (p_node p) = Candidate -> p_ballots p !! T = Some b ->
  v ∈ waiting b -> v <> a -> VoteReq a v req ∈ net w -> RequestVoteRequest.Term req = T ->
  procs w !! v = Some q -> CurrentTerm (p_node q) < T -> candidateUpToDate (p_node q) req ->
  exists w' p' q', rtc step w w' /\ only {[a; v]} w w' /\ net w ⊆ net w' /\ procs w' !! a = Some p' /\
    procs w' !! v = Some q' /\ CurrentTerm (p_node q') = T /\
    (if hasMajority (p_node p) (votes b + 1) then leads T (Log (p_node p)) a p'
     else p_node p' = p_node p /\ exists c, p_ballots p' !! T = Some (mkBallot (votes b + 1) (waiting b ∖ {[v]}) c)).
Proof.
  intros T Ha Hpeers Hs Hb Hv Hne Hnet HT Hq Hlt Hu. set (n := p_node p) in *.
  destruct (grants (p_node q) req ltac:(lia) Hu) as (n1 & Hgrant & Hn1). rewrite HT in Hgrant, Hn1.
  assert (voteReply T (RequestVoteResponse.mk T true) n = (n, true)) as Hreply.
  { unfold voteReply. rewrite Hs, bool_decide_eq_true_2 by done. fold T. rewrite Z.eqb_refl. simpl. by rewrite Z.gtb_ltb, Z.ltb_irrefl. }
  destruct (countVote T (votes b) n) as [n2 votes2] eqn:Hcount.
  set (q1 := mkProc n1 (p_ballots q) (p_tasks q)). set (w1 := put w v q1 [VoteResp v a T (RequestVoteResponse.mk T true)]).
  set (b1 := mkBallot (votes b) (waiting b ∖ {[v]}) (checked b ∪ {[v]})).
  set (p1 := mkProc n (<[T := b1]> (p_ballots p)) (p_tasks p)). set (w2 := put w1 a p1 []).
  set (p2 := mkProc n2 (<[T := mkBallot votes2 (waiting b1) (checked b1 ∖ {[v]})]> (p_ballots p1)) (p_tasks p1)).
  set (w3 := put w2 a p2 []). exists w3, p2, q1. split; [|split; [|split; [|split; [|split; [|split]]]]].
  - eapply rtc_l; [|eapply rtc_l; [|apply rtc_once]].
    + pose proof (step_vote_request w a v req q n1 _ Hnet Hq Hgrant) as Hst. rewrite HT in Hst. exact Hst.
    + apply (step_vote_reply w1 v a T (RequestVoteResponse.mk T true) p b n true); [left| |done|done|done].
      unfold w1. by rewrite put_other by done.
    + apply (step_count_vote w2 v a T p1 b1 n2 votes2); [apply put_at|apply lookup_insert_eq|unfold b1; simpl; set_solver|done].
  - intros x Hx. unfold w3, w2, w1. by rewrite !put_other by set_solver.
  - unfold w3, w2, w1. simpl. set_solver.
  - apply put_at.
  - unfold w3, w2. rewrite !put_other by done. apply put_at.
  - done.
  - unfold countVote in Hcount. fold n. destruct (hasMajority n (votes b + 1)).
    + rewrite Hs, bool_decide_eq_true_2 in Hcount by done. fold T in Hcount. rewrite Z.eqb_refl in Hcount.
      injection Hcount as <- <-. by apply becomes_leader.
    + injection Hcount as <- <-. split; [done|]. eexists. simpl. by rewrite lookup_insert_eq.
Qed.

(** The votes of [vs], one after the other, until they are a majority. *)
Lemma elect T req a vs : forall w p b,
  procs w !! a = Some p -> dom (Peers (p_node p)) = M ∖ {[a]} -> State (p_node p) = Candidate ->
  CurrentTerm (p_node p) = T -> p_ballots p !! T = Some b -> RequestVoteRequest.Term req = T ->
  NoDup vs -> a ∉ vs ->
  Forall (fun v => v ∈ waiting b /\ VoteReq a v req ∈ net w /\
    exists q, procs w !! v = Some q /\ CurrentTerm (p_node q) < T /\ candidateUpToDate (p_node q) req) vs ->
  ~ peersCount (p_node p) < 2 * votes b -> peersCount (p_node p) < 2 * (votes b + len vs) ->
  exists w' p', rtc step w w' /\ only ({[a]} ∪ list_to_set vs) w w' /\ procs w' !! a = Some p' /\
    leads T (Log (p_node p)) a p' /\
    Forall (fun v => exists q, procs w' !! v = Some q /\ CurrentTerm (p_node q) <= T) vs.
Proof.
  induction vs as [|v vs IH]; intros w p b Ha Hpeers Hs HT Hb Hreq Hnd Hnew Hall Hno Hyes.
  { simpl in Hyes. lia. }
  apply NoDup_cons in Hnd as [Hv Hnd]. apply not_elem_of_cons in Hnew as [Hav Hnew].
  apply Forall_cons in Hall as [(Hw & Hnet & q & Hq & Hlt & Hu) Hall].
  pose proof (vote_steps w a v p q b req Ha Hpeers Hs) as Hstep. rewrite HT in Hstep.
  destruct (Hstep Hb Hw (not_eq_sym Hav) Hnet Hreq Hq Hlt Hu) as (w1 & p1 & q1 & Hs1 & Ho1 & Hn1 & Ha1 & Hv1 & Hq1 & Hcase).
  assert (Forall (fun u => u ∈ vs /\ u <> a /\ u <> v /\ procs w1 !! u = procs w !! u) vs) as Hother.
  { apply Forall_forall. intros u Hu1. assert (u <> a /\ u <> v) as [? ?] by (split; intros ->; done).
    split_and!; try done. apply Ho1. set_solver. }
  destruct (hasMajority (p_node p) (votes b + 1)) eqn:Hmaj.
  - exists w1, p1. split_and!; try done; [eapply only_mono; [|exact Ho1]; set_solver|].
    constructor; [exists q1; split; [done|lia]|].
    eapply Forall_impl; [apply Forall_and; split; [exact Hall|exact Hother]|].
    intros u [(_ & _ & r & Hr & Hrt & _) (_ & _ & _ & E)]. exists r. rewrite E. split; [done|lia].
  - destruct Hcase as [Hn (c & Hb1)].
    assert (~ peersCount (p_node p) < 2 * (votes b + 1)) as Hno1 by (rewrite <- hasMajority_iff, Hmaj; done).
    destruct (IH w1 p1 (mkBallot (votes b + 1) (waiting b ∖ {[v]}) c)) as (w2 & p2 & Hs2 & Ho2 & Ha2 & Hl2 & Hall2);
      rewrite ?Hn; try done.
    + eapply Forall_impl; [apply Forall_and; split; [exact Hall|exact Hother]|].
      intros u [(Hw1 & Hnet1 & r & Hr & Hrest) (Hu1 & _ & Huv & E)]. simpl. split; [set_solver|]. split; [by apply Hn1|].
      exists r. by rewrite E.
    + simpl in *. lia.
    + rewrite Hn in Hl2. exists w2, p2. split; [by etransitivity|].
      split; [eapply only_trans; [eapply only_mono; [|exact Ho1]|eapply only_mono; [|exact Ho2]]; set_solver|].
      split_and!; try done. constructor; [|done]. exists q1. rewrite Ho2; [split; [done|lia]|]. set_solver.
Qed.

(** The log of [m] is at least as recent as that of [n]. *)
Definition asRecent (n m : node) : Prop :=
  snd (lastLog n) < snd (lastLog m) \/ snd (lastLog n) = snd (lastLog m) /\ fst (lastLog n) <= fst (lastLog m).

Lemma lastLog_eq (n m : node) : Log n = Log m -> lastLog n = lastLog m.
Proof. unfold lastLog. by intros ->. Qed.

(** A member with the most recent log among itself and [vs] can win. *)
Lemma can_win w a p vs T0 :
  reachable M addr w -> procs w !! a = Some p -> State (p_node p) <> Leader ->
  CurrentTerm (p_node p) <= T0 -> T0 < maxInt -> NoDup vs -> vs <> [] ->
  Z.of_nat (size M) < 2 * (1 + len vs) ->
  Forall (fun v => v ∈ M ∖ {[a]} /\
    exists q, procs w !! v = Some q /\ CurrentTerm (p_node q) <= T0 /\ asRecent (p_node q) (p_node p)) vs ->
  exists w' p', rtc step w w' /\ procs w' !! a = Some p' /\ leads (T0 + 1) (Log (p_node p)) a p' /\
    Forall (fun v => exists q, procs w' !! v = Some q /\ CurrentTerm (p_node q) <= T0 + 1) vs.
Proof.
  intros Hr Ha Hs Ht HT Hnd Hne Hmaj Hall.
  destruct (raise_term (Z.to_nat (T0 - CurrentTerm (p_node p))) w a p T0 Hr Ha Hs ltac:(lia) ltac:(lia))
    as (w1 & p1 & Hs1 & Ho1 & Ha1 & Hc1 & Ht1 & Hl1).
  pose proof (steps_reachable w w1 Hr Hs1) as Hr1. pose proof (reachable_shape w1 a p1 Hr1 Ha1) as Hsh1.
  destruct (timeout_step w1 a p1 Ha1 Hsh1 Hc1 ltac:(lia)) as (w2 & p2 & Hs2 & Ho2 & Ha2 & Hc2 & Ht2 & Hl2 & Hb2 & Hnet2).
  rewrite Ht1 in *. pose proof (reachable_shape w2 a p2 (steps_reachable w1 w2 Hr1 Hs2) Ha2) as [_ Hpeers2 _ _ _ _].
  assert (peersCount (p_node p2) = Z.of_nat (size M)) as Hcount.
  { unfold peersCount. rewrite <- (size_dom (Peers (p_node p2))), Hpeers2. pose proof (sh_id _ _ Hsh1).
    assert (a ∈ M) as Hin by (destruct (reachable_inv M HM addr w Hr) as [g Hg]; rewrite <- (i_dom _ _ _ Hg); by apply elem_of_dom_2 in Ha).
    rewrite size_difference by set_solver. rewrite size_singleton.
    assert (size M <> 0%nat) by (rewrite size_non_empty_iff; set_solver). lia. }
  destruct (elect (T0 + 1) (RequestVoteRequest.mk (T0 + 1) a (fst (lastLog (p_node p1))) (snd (lastLog (p_node p1)))) a vs w2 p2 _
    Ha2 Hpeers2 Hc2 Ht2 Hb2 eq_refl Hnd) as (w3 & p3 & Hs3 & Ho3 & Ha3 & Hl3 & Hall3).
  - intros Hin. apply (proj1 (Forall_forall _ _) Hall) in Hin as [Hin _]. set_solver.
  - eapply Forall_impl; [exact Hall|]. intros v (Hv & q & Hq & Hqt & Hrec). split; [done|]. split; [by apply Hnet2|].
    exists q. rewrite Ho2, Ho1 by set_solver. split; [done|]. split; [lia|].
    unfold candidateUpToDate. simpl. rewrite (lastLog_eq (p_node p1) (p_node p)) by done. exact Hrec.
  - rewrite Hcount. simpl. destruct vs as [|v vs]; [done|]. apply Forall_cons in Hall as [[Hv _] _].
    assert (a ∈ M) by (destruct (reachable_inv M HM addr w Hr) as [g Hg]; rewrite <- (i_dom _ _ _ Hg); by apply elem_of_dom_2 in Ha).
    assert (size ({[a; v]} : gset string) <= size M)%nat by (apply subseteq_size; set_solver).
    rewrite size_union, !size_singleton in * by set_solver. lia.
  - rewrite Hcount. simpl. lia.
  - exists w3, p3. split; [by etransitivity; [|etransitivity]|]. split; [done|]. rewrite Hl2, Hl1 in Hl3. done.
Qed.

(** ** A write *)

(** A leader of which a majority expects nothing newer replicates a proposal. *)
Lemma can_write w a p vs T L req :
  reachable M addr w -> procs w !! a = Some p -> leads T L a p -> NoDup vs -> vs <> [] ->
  Z.of_nat (size M) < 2 * (1 + len vs) ->
  Forall (fun v => v ∈ M ∖ {[a]} /\ exists q, procs w !! v = Some q /\ CurrentTerm (p_node q) <= T) vs ->
  let w1 := put w a (mkProc (fst (handleClientReq (p_node p) req)) (p_ballots p) (p_tasks p)) [] in
  exists w2 n, step w w1 /\ rtc step w1 w2 /\ nodeAt w2 a = Some n /\ State n = Leader /\ CurrentTerm n = T /\
    CommitIndex n = len L /\
    Log n = L ++ [LogEntry.mk (len L) T (ClientReq.Op req) (ClientReq.Key req) (ClientReq.Value req)].
Proof.
  intros Hr Ha (Hs & HT & HL & Hnext) Hnd Hne Hmaj Hall w1. pose proof (step_client w a p req Ha) as Hstep. fold w1 in Hstep.
  set (e := LogEntry.mk (len L) T (ClientReq.Op req) (ClientReq.Key req) (ClientReq.Value req)).
  set (n1 := fst (handleClientReq (p_node p) req)) in *.
  assert (n1 = walAppend (entryRecord e) (set_Log (L ++ [e]) (p_node p))) as En1.
  { unfold n1, handleClientReq. rewrite bool_decide_eq_true_2, HL, HT by done. done. }
  pose proof (steps_reachable w w1 Hr (rtc_once _ _ Hstep)) as Hr1.
  assert (procs w1 !! a = Some (mkProc n1 (p_ballots p) (p_tasks p))) as Ha1 by apply put_at.
  pose proof (reachable_shape w1 a _ Hr1 Ha1) as Hsh1. pose proof (reachable_shape w a _ Hr Ha) as Hsh. cbn [p_node] in Hsh1.
  assert (State n1 = Leader /\ CurrentTerm n1 = T /\ Log n1 = L ++ [e] /\ NextIndex n1 = NextIndex (p_node p) /\
    CommitIndex n1 = CommitIndex (p_node p)) as (Hs1 & HT1 & HL1 & Hn1 & Hc1) by (rewrite En1; by split_and!).
  clearbody n1. destruct (sh_commit _ _ Hsh) as [Hclo Hchi]. rewrite HL in Hchi.
  set (Fs := map (fun v => default n1 (nodeAt w1 v)) vs).
  assert (Forall (fun v => v <> a /\ v ∈ M ∖ {[a]} /\ exists q, procs w1 !! v = Some q /\ default n1 (nodeAt w1 v) = p_node q /\
    CurrentTerm (p_node q) <= T) vs) as Hfs.
  { eapply Forall_impl; [exact Hall|]. intros v (Hv & q & Hq & Hqt). assert (v <> a) as Hva by set_solver. split; [done|]. split; [done|].
    exists q. assert (procs w1 !! v = Some q) as E by (unfold w1; by rewrite put_other). unfold nodeAt. by rewrite E. }
  assert (len (L ++ [e]) = len L + 1) as Hlen by (rewrite length_app; simpl; lia).
  assert ((zip vs Fs).*1 = vs) as Hfst by (apply fst_zip; unfold Fs; by rewrite length_map).
  destruct (quorum_catch_up_commits (S (length L)) n1 (zip vs Fs) e) as (L' & Fs' & Hvisit & HsL & HtL & HlL & HcL & _).
  - done.
  - unfold lastIdx. rewrite HL1, Hlen. lia.
  - by rewrite Hfst.
  - apply Forall_forall. intros [v F] Hin. unfold Fs in Hin.
    apply list_elem_of_lookup in Hin as (i & [Hi1 Hi2]%lookup_zip_Some).
    apply list_lookup_fmap_Some in Hi2 as (v' & -> & Hi2). simplify_eq.
    apply list_elem_of_lookup_2 in Hi1. apply (proj1 (Forall_forall _ _) Hfs) in Hi1 as (Hva & Hv & q & Hq & -> & Hqt).
    pose proof (Hnext v Hv) as Hnx. unfold ready, lastIdx. rewrite HL1, HT1, Hn1, Hlen, Hnx, Hc1, Hs1.
    split_and!; try done; try lia. rewrite <- HL1. by apply (reachable_match w1 a v _ q Hr1 Ha1).
  - intros E. apply (f_equal (fmap fst)) in E. rewrite Hfst in E. done.
  - rewrite <- (length_fmap fst), Hfst. unfold peersCount. rewrite <- (size_dom (Peers n1)), (sh_peers _ _ Hsh1).
    assert (a ∈ M) as Hin by (destruct (reachable_inv M HM addr w Hr) as [g Hg]; rewrite <- (i_dom _ _ _ Hg); by apply elem_of_dom_2 in Ha).
    rewrite size_difference, size_singleton by set_solver.
    assert (size M <> 0%nat) by (rewrite size_non_empty_iff; set_solver). lia.
  - by rewrite HL1, last_snoc.
  - by rewrite HT1.
  - destruct (visitAll_steps (S (length L)) a vs w1 (mkProc n1 (p_ballots p) (p_tasks p)) Fs L' Fs' Hr1 Hnd)
      as (w2 & pa' & Hs2 & _ & Ha2 & Hpa2); try done.
    + eapply Forall_impl; [exact Hfs|]. by intros v (_ & Hv & _).
    + unfold Fs. apply Forall2_fmap_r, Forall_Forall2_diag. eapply Forall_impl; [exact Hfs|].
      intros v (_ & _ & q & Hq & _). simpl. unfold nodeAt. by rewrite Hq.
    + exists w2, L'. split; [done|]. split; [done|]. split; [apply nodeAt_proc; by exists pa'|].
      rewrite HsL, HtL, HlL, HcL, HL1, Hlen. split_and!; try done. lia.
Qed.

(** A largest element. *)
Lemma maximal {A} (R : A -> A -> Prop) (l : list A) :
  (forall x y, R x y \/ R y x) -> (forall x y z, R x y -> R y z -> R x z) -> l <> [] ->
  exists x, x ∈ l /\ forall y, y ∈ l -> R y x.
Proof.
  intros Htot Htr. assert (forall x, R x x) as Hrefl by (intros x; by destruct (Htot x x)).
  induction l as [|a [|b l] IH]; intros Hl; [done| |].
  - exists a. split; [left|]. by intros y ->%list_elem_of_singleton.
  - destruct IH as (x & Hx & Hmax); [done|]. destruct (Htot a x) as [Hax|Hxa].
    + exists x. split; [by right|]. intros y [->|Hy]%elem_of_cons; [done|by apply Hmax].
    + exists a. split; [left|]. intros y [->|Hy]%elem_of_cons; [done|]. eapply Htr; [by apply Hmax|done].
Qed.

(** C4: The cluster is never stuck: from every reachable cluster of at least two
    members, if no member of some majority leads and their terms can still be
    incremented, there is an execution in which a member of the majority wins an
    election, proposes a given client request and answers it with OK, the entry standing
    in its log at the index it was proposed for. *)
Theorem majority_can_write w Q req :
  reachable M addr w -> majority M Q -> (2 <= size M)%nat ->
  (forall v n, v ∈ Q -> nodeAt w v = Some n -> State n <> Leader /\ CurrentTerm n < maxInt) ->
  exists a w1 p w2 n, a ∈ Q /\ rtc step w w1 /\ procs w1 !! a = Some p /\ State (p_node p) = Leader /\
    let idx := len (Log (p_node p)) in
    let T := CurrentTerm (p_node p) in
    snd (handleClientReq (p_node p) req) = inr (idx, T) /\
    step w1 (put w1 a (mkProc (fst (handleClientReq (p_node p) req)) (p_ballots p) (p_tasks p)) []) /\
    rtc step (put w1 a (mkProc (fst (handleClientReq (p_node p) req)) (p_ballots p) (p_tasks p)) []) w2 /\
    nodeAt w2 a = Some n /\ pollClientReq n idx T false = Some None /\
    Log n !! Z.to_nat idx = Some (LogEntry.mk idx T (ClientReq.Op req) (ClientReq.Key req) (ClientReq.Value req)).
Proof.
  intros Hr [HQ Hmaj] H2 Hnone. set (nd := fun v => default (initNode M addr v) (nodeAt w v)).
  assert (forall v, v ∈ Q -> exists q, procs w !! v = Some q /\ nd v = p_node q) as Hnd.
  { intros v Hv. destruct (member_proc w v Hr (HQ v Hv)) as [q Hq]. exists q. split; [done|]. unfold nd, nodeAt. by rewrite Hq. }
  assert (elements Q <> []) as Hne by (intros E%elements_empty_inv; apply size_empty_iff in E; lia).
  destruct (maximal (fun u v => asRecent (nd u) (nd v)) (elements Q)) as (a & Ha & Hmax);
    [intros x y; unfold asRecent; lia|intros x y z; unfold asRecent; lia|done|].
  destruct (maximal (fun u v => CurrentTerm (nd u) <= CurrentTerm (nd v)) (elements Q)) as (b & Hb & Hmaxb);
    [intros x y; lia|intros x y z; lia|done|].
  rewrite elem_of_elements in Ha, Hb. destruct (Hnd a Ha) as (pa & Hpa & Ena), (Hnd b Hb) as (pb & Hpb & Enb).
  set (vs := elements (Q ∖ {[a]})).
  assert (len vs = Z.of_nat (size Q) - 1) as Hvs.
  { change (len vs) with (Z.of_nat (size (Q ∖ {[a]}))). rewrite size_difference, size_singleton by set_solver. lia. }
  assert (Forall (fun v => v ∈ M ∖ {[a]} /\ v ∈ Q) vs) as Hin by (apply Forall_forall; intros v; unfold vs; set_solver).
  assert (forall v q, v ∈ Q -> procs w !! v = Some q -> State (p_node q) <> Leader /\ CurrentTerm (p_node q) < maxInt) as Hn
    by (intros v q Hv Hq; apply (Hnone v); [done|]; apply nodeAt_proc; by exists q).
  destruct (can_win w a pa vs (CurrentTerm (p_node pb)) Hr Hpa) as (w1 & p1 & Hs1 & Hp1 & Hl1 & Hall1).
  - by apply (Hn a).
  - rewrite <- Ena, <- Enb. apply Hmaxb. set_solver.
  - by apply (Hn b).
  - apply NoDup_elements.
  - intros E. rewrite E in Hvs. simpl in Hvs. lia.
  - lia.
  - eapply Forall_impl; [exact Hin|]. intros v [Hv HvQ]. split; [done|]. destruct (Hnd v HvQ) as (q & Hq & Enq). exists q.
    rewrite <- Enq, <- Ena, <- Enb. split; [done|]. split; [apply Hmaxb|apply Hmax]; set_solver.
  - pose proof Hl1 as (Hlead & HT & HL & _).
    destruct (can_write w1 a p1 vs (CurrentTerm (p_node pb) + 1) (Log (p_node pa)) req (steps_reachable w w1 Hr Hs1) Hp1 Hl1)
      as (w2 & n & Hst & Hs2 & Hn2 & Hs & Ht & Hc & Hlog).
    + apply NoDup_elements.
    + intros E. rewrite E in Hvs. simpl in Hvs. lia.
    + lia.
    + eapply Forall_impl; [apply Forall_and; split; [exact Hall1|exact Hin]|]. by intros v [? [? ?]].
    + exists a, w1, p1, w2, n. cbv zeta. rewrite HL, HT. split_and!; try done.
      * unfold handleClientReq. rewrite bool_decide_eq_true_2, HL, HT by done. done.
      * unfold pollClientReq. rewrite Hs, Ht, Hc, bool_decide_eq_true_2, Z.eqb_refl by done. simpl. by rewrite Z.geb_leb, Z.leb_refl.
      * rewrite Hlog, Nat2Z.id. apply list_lookup_middle. done.
Qed.
End progress.

(** n1 and n2 of a cluster that has just started. *)
Lemma majority_can_write_witness :
  exists a w1 p w2 n, a ∈ ({["n1"; "n2"]} : gset string) /\ rtc step start3 w1 /\ procs w1 !! a = Some p /\
    rtc step (put w1 a (mkProc (fst (handleClientReq (p_node p) setX)) (p_ballots p) (p_tasks p)) []) w2 /\
    nodeAt w2 a = Some n /\ pollClientReq n (len (Log (p_node p))) (CurrentTerm (p_node p)) false = Some None.
Proof.
  destruct (majority_can_write three local three_named start3 {["n1"; "n2"]} setX) as (a & w1 & p & w2 & n & Ha & Hs & Hp & _ & H).
  - unfold reachable. done.
  - split; [apply (bool_decide_unpack _); vm_compute; exact I|vm_compute; lia].
  - vm_compute. lia.
  - intros v n _ Hn. apply nodeAt_proc in Hn as (p & Hp & <-). apply initWorld_lookup in Hp as [_ ->].
    split; [discriminate|vm_compute; reflexivity].
  - destruct H as (_ & _ & H1 & H2 & H3 & _). by exists a, w1, p, w2, n.
Defined.
