(* ===== verification/Ctl.v ===== *)
(** * The command-line client ([cmd/orrisctl/main.go])

    How [orrisctl] talks to the client server: one connection per command
    ([sendRawCommand]), the parsing of its responses ([queryNode],
    [parseLogItem]) and the routing of commands to the leader
    ([executeRouted]).  A server is what it sends back for the bytes it
    receives before the connection ends or its deadline passes; [None] is an
    address that cannot be dialled or written to.  The theorems put the client
    in front of the server of [Server]. *)

From Stdlib Require Import Strings.Ascii.
From stdpp Require Import base gmap strings list fin_maps.
From S2P Require Import Prelude Types Kv Wal State Recovery Election Replication Apply Server Text.

Abbreviation conn := (option (bytes -> bytes)).

(** ** Requests *)

(** The first line of the response; [None] is an error. *)
Definition sendRawCommand (server : conn) (cmd : bytes) : option bytes :=
  match server with
  | None => None
  | Some serve =>
      let cmd := if HasSuffix cmd [nl] then cmd else cmd ++ [nl] in
      let resp := serve cmd in
      head (scanLines (S (length resp)) resp)
  end.

(** A connection to the server of a node. *)
Definition serve {W} (seen : nat -> Node W) (pairs : list (string * string)) (answer : reply)
    (input : bytes) : bytes :=
  concat (map to_bytes (omap (respond seen pairs answer) (scanLines (S (length input)) input))).

(** It is [handleClient] in front of a node that does not change, with a client
    that reads everything. *)
Lemma serve_handleClient {W} (seen : nat -> Node W) pairs answer input :
  serve seen pairs answer input =
  concat (map to_bytes (handleClient (fun _ => seen) (fun _ => pairs) (fun _ => answer) (fun _ => true) input)).
Proof.
  unfold serve, handleClient. f_equal. f_equal. generalize 0%nat.
  induction (scanLines _ _) as [|text texts IH]; intros i; [done|]. simpl.
  destruct (respond seen pairs answer text); simpl; [f_equal|]; apply IH.
Qed.

(** [NodeInfo] without the latency. *)
Module NodeInfo.
Record t := mk {
  ID : string; Addr : string; Online : bool; Role : string; Term : Z; CommitIndex : Z;
  LastApplied : Z; LogLen : Z; Keys : gmap string string; Logs : list string }.
End NodeInfo.

(** The switch on a field of the STATUS response, with the field behind it. *)
Definition statusField (w b : bytes) (info : NodeInfo.t) : NodeInfo.t :=
  let '(NodeInfo.mk id addr online role term ci la ll keys logs) := info in
  if bool_decide (of_bytes w = "NODE") then NodeInfo.mk (of_bytes b) addr online role term ci la ll keys logs
  else if bool_decide (of_bytes w = "ROLE") then NodeInfo.mk id addr online (of_bytes b) term ci la ll keys logs
  else if bool_decide (of_bytes w = "TERM") then NodeInfo.mk id addr online role (fst (Atoi b)) ci la ll keys logs
  else if bool_decide (of_bytes w = "COMMIT") then NodeInfo.mk id addr online role term (fst (Atoi b)) la ll keys logs
  else if bool_decide (of_bytes w = "APPLIED") then NodeInfo.mk id addr online role term ci (fst (Atoi b)) ll keys logs
  else if bool_decide (of_bytes w = "LOGLEN") then NodeInfo.mk id addr online role term ci la (fst (Atoi b)) keys logs
  else info.

(** The loop: [parts[i]] with [parts[i+1]], for every [i] below
    [len(parts)-1]. *)
Fixpoint statusFields (parts : list bytes) (info : NodeInfo.t) : NodeInfo.t :=
  match parts with
  | w :: ((b :: _) as rest) => statusFields rest (statusField w b info)
  | _ => info
  end.

Definition parseKeys (resp : bytes) (keys : gmap string string) : gmap string string :=
  let keysStr := TrimPrefix resp (to_bytes "KEYS ") in
  if bool_decide (keysStr <> to_bytes "(empty)") && bool_decide (keysStr <> []) then
    foldl addPair keys (Split keysStr (to_bytes " | "))
  else keys.

Definition parseLogs (resp : bytes) (logs : list string) : list string :=
  let logsStr := TrimPrefix resp (to_bytes "LOGS ") in
  if bool_decide (logsStr <> to_bytes "(empty)") && bool_decide (logsStr <> []) then
    map of_bytes (Split logsStr (to_bytes " | "))
  else logs.

(** [server i] is the node at the [i]-th connection. *)
Definition queryNode (addr : string) (server : nat -> conn) : NodeInfo.t :=
  match sendRawCommand (server 0%nat) (to_bytes "STATUS") with
  | None => NodeInfo.mk "" addr false "" 0 0 0 0 ∅ []
  | Some statusResp =>
      let '(NodeInfo.mk id addr online role term ci la ll keys logs) :=
        statusFields (Fields statusResp) (NodeInfo.mk "" addr true "" 0 0 0 0 ∅ []) in
      let keys := match sendRawCommand (server 1%nat) (to_bytes "KEYS") with
                  | Some keysResp => parseKeys keysResp keys
                  | None => keys
                  end in
      let logs := match sendRawCommand (server 2%nat) (to_bytes "LOGS") with
                  | Some logsResp => parseLogs logsResp logs
                  | None => logs
                  end in
      NodeInfo.mk id addr online role term ci la ll keys logs
  end.

Definition queryCluster (server : string -> nat -> conn) (nodeAddrs : list string) : list NodeInfo.t :=
  map (fun addr => queryNode addr (server addr)) nodeAddrs.

Module LogItem.
Record t := mk { Index : Z; Term : Z; Op : string; Key : string; Val : string }.
End LogItem.

Definition parseLogItem (raw : bytes) : LogItem.t * bool :=
  let zero := LogItem.mk 0 0 "" "" "" in
  match TrimSpace raw with
  | "["%char :: raw' =>
      match cut "]"%char raw' with
      | (_, None) => (zero, false)
      | (num, Some rest) =>
          let idx := fst (Atoi num) in
          match cut ":"%char rest with
          | (_, None) => (LogItem.mk idx 0 "" "" "", false)
          | (part0, Some rest) =>
              match cut ":"%char rest with
              | (_, None) => (LogItem.mk idx 0 "" "" "", false)
              | (op, Some part2) =>
                  let term := fst (Atoi (TrimPrefix part0 ["T"%char])) in
                  let '(k, v) := cut "="%char part2 in
                  (LogItem.mk idx term (of_bytes op) (of_bytes k) (of_bytes (default [] v)), true)
              end
          end
      end
  | _ => (zero, false)
  end.

(** ** Routing *)

Section routing.
(** [send s addr cmd]: one [sendRawCommand], which may change the state of
    the cluster. *)
Context {S : Type} (send : S -> string -> string -> S * option string).

Definition routed (res : string) : bool := negb (Contains (to_bytes res) (to_bytes "NOT_LEADER")).

(** The second loop: every node that is online, in order. *)
Fixpoint tryAll (s : S) (nodes : list NodeInfo.t) (cmd : string) : S * string * string :=
  match nodes with
  | [] => (s, "ERR NO_LEADER_FOUND", "none")
  | n :: nodes =>
      if NodeInfo.Online n then
        match send s (NodeInfo.Addr n) cmd with
        | (s, Some res) => if routed res then (s, res, NodeInfo.Addr n) else tryAll s nodes cmd
        | (s, None) => tryAll s nodes cmd
        end
      else tryAll s nodes cmd
  end.

(** [leaderAddr] after the first loop. *)
Fixpoint findLeader (nodes : list NodeInfo.t) : string :=
  match nodes with
  | [] => ""
  | n :: nodes =>
      if NodeInfo.Online n && bool_decide (NodeInfo.Role n = "LEADER") then NodeInfo.Addr n
      else findLeader nodes
  end.

Definition executeRouted (server : string -> nat -> conn) (s : S) (nodeAddrs : list string) (cmd : string)
    : S * string * string :=
  let nodes := queryCluster server nodeAddrs in
  let leaderAddr := findLeader nodes in
  if bool_decide (leaderAddr <> "") then
    match send s leaderAddr cmd with
    | (s, Some res) => if routed res then (s, res, leaderAddr) else tryAll s nodes cmd
    | (s, None) => tryAll s nodes cmd
    end
  else tryAll s nodes cmd.
End routing.

Example ctl_examples :
  (parseLogItem (to_bytes (logItem (LogEntry.mk 3 2 OpSet "a" "b=c:d"))), parseLogItem (to_bytes "[1]T2:SET"),
   sendRawCommand (Some (serve (fun _ => sampleNode) [("x", "1")] None)) (to_bytes "KEYS"),
   queryNode "a:1" (fun _ => Some (serve (fun _ => sampleNode) [("x", "1")] None)))
  = ((LogItem.mk 3 2 "SET" "a" "b=c:d", true), (LogItem.mk 1 0 "" "" "", false), Some (to_bytes "KEYS x=1"),
     NodeInfo.mk "n1" "a:1" true "FOLLOWER" 1 0 0 2 {["x" := "1"]}
       ["[0]T1:SET:x=1"; "[1]T1:SET:y=2"]).
Proof. vm_compute. reflexivity. Qed.

(** ** The client in front of the server *)

(** What the client reads of a response of one line. *)
Lemma first_line (t : bytes) :
  nl ∉ t -> last t <> Some cr ->
  head (scanLines (S (length (t ++ [nl]))) (t ++ [nl])) = if len t <? maxTokenSize then Some t else None.
Proof.
  intros Hn Hc. assert (scanLines (S (length (t ++ [nl]))) (t ++ [nl]) =
    if len t <? maxTokenSize then dropCR t :: scanLines (length (t ++ [nl])) [] else []) as ->.
  { cbn [scanLines]. rewrite cut_found by done. by destruct t. }
  destruct (len t <? maxTokenSize); [|done]. simpl. f_equal. unfold dropCR.
  destruct (last t) as [c|] eqn:E; [|done]. rewrite bool_decide_eq_false_2; [done|congruence].
Qed.

Lemma last_app_not c (a b : bytes) : b <> [] -> c ∉ b -> last (a ++ b) <> Some c.
Proof.
  intros Hb Hc. rewrite last_app. destruct (last b) as [x|] eqn:E; [|by apply last_None in E].
  intros [= ->]. by apply last_Some_elem_of in E.
Qed.

Section answers.
Context {W : Type} (seen : nat -> Node W) (pairs : list (string * string)) (answer : reply).

Lemma serve_status : serve seen pairs answer (to_bytes "STATUS" ++ [nl]) = to_bytes (statusLine seen) ++ [].
Proof. reflexivity. Qed.

Lemma serve_keys :
  serve seen pairs answer (to_bytes "KEYS" ++ [nl]) =
  to_bytes (match pairs with [] => "KEYS (empty)" ++ newline
            | _ => "KEYS " ++ joinBar (map keyItem pairs) ++ newline end)%string ++ [].
Proof. by destruct pairs. Qed.

Lemma serve_logs :
  serve seen pairs answer (to_bytes "LOGS" ++ [nl]) =
  to_bytes (match Log (seen 0%nat) with [] => "LOGS (empty)" ++ newline
            | es => "LOGS " ++ joinBar (map logItem es) ++ newline end)%string ++ [].
Proof. unfold serve, respond, handleLine, handleCommand, GetLogEntries. simpl. by destruct (Log (seen 0%nat)). Qed.

(** The words of a status response. *)
Definition statusWords : list string :=
  ["NODE"; ID (seen 0%nat); "ROLE"; GetRole (seen 0%nat); "TERM"; decimal (GetTerm (seen 1%nat));
   "COMMIT"; decimal (GetCommit (seen 2%nat)); "APPLIED"; decimal (GetLastApplied (seen 3%nat));
   "LOGLEN"; decimal (len (GetLogEntries (seen 4%nat)))].

Lemma statusLine_words : to_bytes (statusLine seen) = to_bytes (String.concat " " statusWords) ++ [nl].
Proof.
  unfold statusLine, statusWords. simpl String.concat. rewrite !to_bytes_app. simpl.
  repeat (rewrite <- !app_assoc; simpl). done.
Qed.
End answers.

(** *** STATUS *)

Definition keywords : list string := ["NODE"; "ROLE"; "TERM"; "COMMIT"; "APPLIED"; "LOGLEN"].

Lemma statusField_other w b info : w ∉ keywords -> statusField (to_bytes w) b info = info.
Proof.
  intros Hw. unfold statusField. destruct info. rewrite of_to_bytes.
  repeat (rewrite bool_decide_eq_false_2; [|intros ->; apply Hw; vm_compute; set_solver]). done.
Qed.

(** A word that is not NODE can only change what later fields set. *)
Lemma statusField_id w b info :
  w <> "NODE" -> exists role t ci la ll, statusField (to_bytes w) b info =
    NodeInfo.mk (NodeInfo.ID info) (NodeInfo.Addr info) (NodeInfo.Online info) role t ci la ll
      (NodeInfo.Keys info) (NodeInfo.Logs info).
Proof.
  intros Hw. unfold statusField. destruct info. rewrite of_to_bytes, (bool_decide_eq_false_2 (w = "NODE")) by done.
  repeat case_match; repeat eexists.
Qed.

Lemma decimal_no_keyword z : decimal z ∉ keywords.
Proof.
  intros Hin. pose proof (decimal_bytes z) as Hb.
  assert (Forall (fun w => exists c, c ∈ to_bytes w /\ isDigit c || bool_decide (c = "-"%char) = false) keywords) as Hk.
  { repeat constructor; eexists; (split; [left|reflexivity]). }
  destruct (proj1 (Forall_forall _ _) Hk _ Hin) as (c & Hc & Hf).
  rewrite (proj1 (Forall_forall _ _) Hb c Hc) in Hf. done.
Qed.

Lemma role_no_keyword s : NodeState_String s ∉ keywords.
Proof. destruct s; by_decision. Qed.

Lemma role_plain s : plain (NodeState_String s) /\ NodeState_String s <> "".
Proof. destruct s; (split; [by_decision|done]). Qed.

Lemma plain_absent s c : plainByte c = false -> plain s -> c ∉ to_bytes s.
Proof. intros Hc Hs Hin. pose proof (proj1 (Forall_forall _ _) Hs c Hin) as H. simpl in H. congruence. Qed.

Section status.
Context {W : Type} (seen : nat -> Node W) (pairs : list (string * string)) (answer : reply).

Lemma statusWords_plain :
  plain (ID (seen 0%nat)) -> ID (seen 0%nat) <> "" -> Forall (fun s => plain s /\ s <> "") (statusWords seen).
Proof.
  intros Hp Hne. unfold statusWords, GetRole.
  repeat constructor; first [apply role_plain | apply decimal_plain | apply decimal_nonempty | done | idtac].
Qed.

Lemma statusFields_words info :
  ID (seen 0%nat) <> "NODE" -> in_int (GetTerm (seen 1%nat)) -> in_int (GetCommit (seen 2%nat)) ->
  in_int (GetLastApplied (seen 3%nat)) -> in_int (len (GetLogEntries (seen 4%nat))) ->
  statusFields (map to_bytes (statusWords seen)) info =
  NodeInfo.mk (ID (seen 0%nat)) (NodeInfo.Addr info) (NodeInfo.Online info) (GetRole (seen 0%nat))
    (GetTerm (seen 1%nat)) (GetCommit (seen 2%nat)) (GetLastApplied (seen 3%nat))
    (len (GetLogEntries (seen 4%nat))) (NodeInfo.Keys info) (NodeInfo.Logs info).
Proof.
  intros Hid Ht Hc Ha Hl. unfold statusWords. cbn [map statusFields].
  rewrite !(statusField_other (decimal _)) by apply decimal_no_keyword.
  rewrite !(statusField_other (GetRole _)) by apply role_no_keyword.
  destruct (statusField_id (ID (seen 0%nat)) (to_bytes "ROLE")
    (statusField (to_bytes "NODE") (to_bytes (ID (seen 0%nat))) info) Hid) as (role & t & ci & la & ll & ->).
  destruct info. unfold statusField. simpl. by rewrite !of_to_bytes, !Atoi_decimal.
Qed.

Lemma status_line :
  plain (ID (seen 0%nat)) -> ID (seen 0%nat) <> "" -> len (to_bytes (statusLine seen)) <= maxTokenSize ->
  sendRawCommand (Some (serve seen pairs answer)) (to_bytes "STATUS") =
  Some (to_bytes (String.concat " " (statusWords seen))).
Proof.
  intros Hp Hne Hlen. pose proof (statusWords_plain Hp Hne) as Hw.
  unfold sendRawCommand. change (HasSuffix (to_bytes "STATUS") [nl]) with false. cbn beta iota zeta.
  rewrite serve_status, app_nil_r. rewrite statusLine_words in *.
  assert (forall c, plainByte c = false -> c <> sp -> c ∉ to_bytes (String.concat " " (statusWords seen))) as Hn.
  { intros c Hc Hs. apply not_elem_concat; [set_solver|].
    eapply Forall_impl; [exact Hw|]. intros x [Hx _]. by apply plain_absent. }
  rewrite first_line; [|by apply Hn|].
  - rewrite length_app in Hlen. cbn [length] in Hlen.
    match goal with |- context [len ?l <? _] => by rewrite (proj2 (Z.ltb_lt (len l) maxTokenSize)) by lia end.
  - intros Hl. apply last_Some_elem_of in Hl. by apply (Hn cr).
Qed.

(** C33: What orrisctl reports of a node is the node's state: if the node's name is a
    word other than NODE and the response fits a line of the scanner, queryNode reads
    name, role, term, commit index, applied index and log length back from the response
    of the STATUS command. *)
Theorem status_reported addr (server : nat -> conn) :
  server 0%nat = Some (serve seen pairs answer) ->
  plain (ID (seen 0%nat)) -> ID (seen 0%nat) <> "" -> ID (seen 0%nat) <> "NODE" ->
  len (to_bytes (statusLine seen)) <= maxTokenSize ->
  in_int (GetTerm (seen 1%nat)) -> in_int (GetCommit (seen 2%nat)) ->
  in_int (GetLastApplied (seen 3%nat)) -> in_int (len (GetLogEntries (seen 4%nat))) ->
  exists keys logs, queryNode addr server =
    NodeInfo.mk (ID (seen 0%nat)) addr true (GetRole (seen 0%nat)) (GetTerm (seen 1%nat))
      (GetCommit (seen 2%nat)) (GetLastApplied (seen 3%nat)) (len (GetLogEntries (seen 4%nat))) keys logs.
Proof.
  intros Hs Hp Hne Hid Hlen Ht Hc Ha Hl. unfold queryNode. rewrite Hs, status_line by done.
  rewrite Fields_words by by apply statusWords_plain.
  rewrite statusFields_words by done. cbn [NodeInfo.Addr NodeInfo.Online NodeInfo.Keys NodeInfo.Logs].
  by eexists _, _.
Qed.
End status.

(** *** KEYS *)

(** No newline, carriage return or bar. *)
Definition cleanByte (c : ascii) : bool :=
  negb (bool_decide (c = nl)) && negb (bool_decide (c = cr)) && negb (bool_decide (c = "|"%char)).
Definition clean (s : string) : Prop := Forall (fun c => cleanByte c = true) (to_bytes s).

#[global] Instance clean_dec s : Decision (clean s).
Proof. unfold clean. apply _. Defined.

Lemma clean_absent c s : cleanByte c = false -> clean s -> c ∉ to_bytes s.
Proof. intros Hc Hs Hin. pose proof (proj1 (Forall_forall _ _) Hs c Hin) as H. simpl in H. congruence. Qed.

Lemma clean_app a b : clean (a ++ b)%string <-> clean a /\ clean b.
Proof. unfold clean. by rewrite to_bytes_app, Forall_app. Qed.

Lemma clean_word s : forallb cleanByte (to_bytes s) = true -> clean s.
Proof. unfold clean. rewrite Forall_forall. rewrite forallb_forall. intros H c Hc. by apply H, list_elem_of_In. Qed.

Lemma clean_decimal z : clean (decimal z).
Proof.
  apply Forall_forall. intros c Hc. unfold cleanByte. rewrite !andb_true_iff, !negb_true_iff, !bool_decide_eq_false.
  split_and!; intros ->; by apply decimal_absent in Hc.
Qed.

(** The line the client reads of a list of clean items, and its split. *)
Lemma items_line (pre : string) (items : list string) :
  clean pre -> items <> [] -> Forall (fun s => clean s /\ s <> "") items ->
  head (let resp := to_bytes (pre ++ joinBar items ++ newline)%string ++ [] in scanLines (S (length resp)) resp) =
  if len (to_bytes (pre ++ joinBar items)) <? maxTokenSize then Some (to_bytes pre ++ to_bytes (joinBar items)) else None.
Proof.
  intros Hp Hne Hi. cbv zeta. rewrite app_nil_r, !to_bytes_app, app_assoc.
  change (to_bytes newline) with [nl].
  assert (forall c, c ∉ to_bytes " | " -> cleanByte c = false -> c ∉ to_bytes pre ++ to_bytes (joinBar items)) as Hn.
  { intros c Hb Hc. apply not_elem_of_app. split; [by apply clean_absent|]. apply not_elem_concat; [done|].
    eapply Forall_impl; [exact Hi|]. intros s [Hs _]. by apply clean_absent. }
  assert (forall c, bool_decide (c ∉ to_bytes " | ") && negb (cleanByte c) = true ->
    c ∉ to_bytes pre ++ to_bytes (joinBar items)) as Hn'.
  { intros c [H1%bool_decide_eq_true H2%negb_true_iff]%andb_true_iff. by apply Hn. }
  apply first_line; [by apply Hn'|].
  intros Hl. apply last_Some_elem_of in Hl. by apply (Hn' cr).
Qed.

Lemma joinBar_split (items : list string) :
  items <> [] -> Forall (fun s => clean s /\ s <> "") items ->
  Split (to_bytes (joinBar items)) (to_bytes " | ") = map to_bytes items.
Proof.
  intros Hne Hi. apply (Split_concat " | " [" "%char] "|"%char [" "%char]); [done|set_solver|done|].
  eapply Forall_impl; [exact Hi|]. intros s [Hs _]. by apply clean_absent.
Qed.

Lemma statusFields_frame parts info :
  NodeInfo.Addr (statusFields parts info) = NodeInfo.Addr info /\
  NodeInfo.Online (statusFields parts info) = NodeInfo.Online info /\
  NodeInfo.Keys (statusFields parts info) = NodeInfo.Keys info /\
  NodeInfo.Logs (statusFields parts info) = NodeInfo.Logs info.
Proof.
  revert info. induction parts as [|w parts IH]; intros info; [done|]. destruct parts as [|b parts]; [done|].
  change (statusFields (w :: b :: parts) info) with (statusFields (b :: parts) (statusField w b info)).
  destruct (IH (statusField w b info)) as (-> & -> & -> & ->).
  unfold statusField. destruct info. repeat case_match; done.
Qed.

(** What an online node's keys and log are read from. *)
Lemma queryNode_keys_logs addr server :
  NodeInfo.Online (queryNode addr server) = true ->
  NodeInfo.Keys (queryNode addr server) =
    match sendRawCommand (server 1%nat) (to_bytes "KEYS") with Some r => parseKeys r ∅ | None => ∅ end /\
  NodeInfo.Logs (queryNode addr server) =
    match sendRawCommand (server 2%nat) (to_bytes "LOGS") with Some r => parseLogs r [] | None => [] end.
Proof.
  unfold queryNode. destruct (sendRawCommand (server 0%nat) _) as [r|]; [|done]. intros _.
  pose proof (statusFields_frame (Fields r) (NodeInfo.mk "" addr true "" 0 0 0 0 ∅ [])) as (_ & _ & Hk & Hl).
  destruct (statusFields _ _). simpl in Hk, Hl. by subst.
Qed.

Lemma send_line {W} (seen : nat -> Node W) pairs answer (cmd : string) :
  HasSuffix (to_bytes cmd) [nl] = false ->
  sendRawCommand (Some (serve seen pairs answer)) (to_bytes cmd) =
  head (let resp := serve seen pairs answer (to_bytes cmd ++ [nl]) in scanLines (S (length resp)) resp).
Proof. intros Hs. unfold sendRawCommand. by rewrite Hs. Qed.

Lemma joinBar_elem c a items : c ∈ to_bytes a -> c ∈ to_bytes (joinBar (a :: items)).
Proof.
  intros Hc. unfold joinBar. destruct items as [|b items]; [done|]. rewrite concat_cons. set_solver.
Qed.

Lemma joinBar_special c s a items : c ∈ to_bytes a -> c ∉ s -> to_bytes (joinBar (a :: items)) <> s.
Proof. intros Ha Hs E. apply Hs. rewrite <- E. by apply joinBar_elem. Qed.

Section keys.
Context {W : Type} (seen : nat -> Node W) (pairs : list (string * string)) (answer : reply).

(** The keys orrisctl reads from a node are the node's store, in whatever order the
    node lists them, if keys have no equals sign and keys and values no bar or line
    break, and the response fits a line of the scanner. *)
Lemma keys_reported addr (server : nat -> conn) :
  NodeInfo.Online (queryNode addr server) = true -> server 1%nat = Some (serve seen pairs answer) ->
  pairs ≡ₚ map_to_list (GetAllKeys (seen 0%nat)) ->
  Forall (fun kv => "="%char ∉ to_bytes (fst kv) /\ clean (fst kv) /\ clean (snd kv)) pairs ->
  len (to_bytes ("KEYS " ++ joinBar (map keyItem pairs))) < maxTokenSize ->
  NodeInfo.Keys (queryNode addr server) = GetAllKeys (seen 0%nat).
Proof.
  intros Hon Hs Hm Hp Hlen. destruct (queryNode_keys_logs addr server Hon) as [-> _].
  rewrite Hs, send_line, serve_keys by done. destruct pairs as [|kv ps] eqn:Eps.
  { symmetry in Hm. apply Permutation_nil_r, map_to_list_empty_iff in Hm. by rewrite Hm. }
  assert (Forall (fun s => clean s /\ s <> "") (map keyItem (kv :: ps))) as Hc.
  { apply Forall_fmap. eapply Forall_impl; [exact Hp|]. intros [k v] (_ & Hk & Hv). unfold keyItem. simpl.
    split; [|by destruct k]. by rewrite !clean_app; split_and!; [|by apply clean_word|]. }
  rewrite items_line by (done || by apply clean_word). rewrite (proj2 (Z.ltb_lt _ _)) by done.
  unfold parseKeys. rewrite TrimPrefix_app, joinBar_split by done.
  assert ("="%char ∈ to_bytes (keyItem kv)) as Hin by (unfold keyItem; rewrite !to_bytes_app; set_solver).
  cbn [map]. rewrite !bool_decide_eq_true_2 by (apply (joinBar_special "="%char); [done|by_decision]).
  apply (addPairs_map (kv :: ps)); [|done]. eapply Forall_impl; [exact Hp|]. by intros ? [? _].
Qed.
End keys.

(** *** LOGS *)

(** An entry whose text can be taken apart again. *)
Definition printable (e : LogEntry) : Prop :=
  in_int (LogEntry.Index e) /\ in_int (LogEntry.Term e) /\ ":"%char ∉ to_bytes (LogEntry.Operation e) /\
  "="%char ∉ to_bytes (LogEntry.Key e) /\ endsClean (LogEntry.Value e).

Definition itemOf (e : LogEntry) : LogItem.t :=
  LogItem.mk (LogEntry.Index e) (LogEntry.Term e) (LogEntry.Operation e) (LogEntry.Key e) (LogEntry.Value e).

Lemma logItem_bytes e :
  to_bytes (logItem e) = "["%char :: to_bytes (decimal (LogEntry.Index e)) ++ "]"%char ::
    ("T"%char :: to_bytes (decimal (LogEntry.Term e))) ++ ":"%char :: to_bytes (LogEntry.Operation e) ++ ":"%char ::
    to_bytes (LogEntry.Key e) ++ "="%char :: to_bytes (LogEntry.Value e).
Proof. unfold logItem. by rewrite !to_bytes_app. Qed.

Lemma logItem_value e : exists a, to_bytes (logItem e) = a ++ "="%char :: to_bytes (LogEntry.Value e).
Proof.
  unfold logItem. rewrite !string_app_assoc, to_bytes_app, to_bytes_app, <- app_assoc. by eexists.
Qed.

Lemma logItem_trim e : endsClean (LogEntry.Value e) -> TrimSpace (to_bytes (logItem e)) = to_bytes (logItem e).
Proof.
  intros Hv. apply TrimSpace_id.
  - apply Forall_forall. intros q Hq [x Hx]. rewrite logItem_bytes in Hx. destruct (spaces_spec q Hq) as [Hl _].
    destruct q as [|y q]; [simpl in Hl; lia|]. injection Hx as <- _.
    assert (Forall (fun q => head q <> Some "["%char) spaces) as Hh by (by_decision).
    by apply (proj1 (Forall_forall _ _) Hh _ Hq).
  - assert (Forall (fun q => "="%char ∉ q) spaces) as Hh by (by_decision).
    apply Forall_forall. intros q Hq Hs. apply (proj1 (Forall_forall _ _) Hv q Hq).
    destruct (logItem_value e) as [a Ha]. rewrite Ha in Hs.
    apply (suffix_behind "="%char _ a); [by apply (proj1 (Forall_forall _ _) Hh q Hq)|done].
Qed.

Lemma parseLogItem_logItem e : printable e -> parseLogItem (to_bytes (logItem e)) = (itemOf e, true).
Proof.
  intros (Hi & Ht & Ho & Hk & Hv). unfold parseLogItem. rewrite logItem_trim, logItem_bytes by done.
  rewrite cut_found by by apply decimal_absent.
  rewrite cut_found by (apply not_elem_of_cons; split; [done|by apply decimal_absent]).
  rewrite cut_found, cut_found by done.
  change ("T"%char :: to_bytes (decimal (LogEntry.Term e))) with (["T"%char] ++ to_bytes (decimal (LogEntry.Term e))).
  rewrite TrimPrefix_app, !Atoi_decimal, !of_to_bytes by done. simpl. by rewrite of_to_bytes.
Qed.

Section logs.
Context {W : Type} (seen : nat -> Node W) (pairs : list (string * string)) (answer : reply).
Context (addr : string) (server : nat -> conn).
Context (Hon : NodeInfo.Online (queryNode addr server) = true).
Context (Hs : server 2%nat = Some (serve seen pairs answer)).
Context (Hclean : Forall (fun e => clean (logItem e)) (Log (seen 0%nat))).

Lemma logs_read :
  NodeInfo.Logs (queryNode addr server) =
  if len (to_bytes ("LOGS " ++ joinBar (map logItem (Log (seen 0%nat))))) <? maxTokenSize
  then map logItem (Log (seen 0%nat)) else [].
Proof using Hon Hs Hclean.
  destruct (queryNode_keys_logs addr server Hon) as [_ ->].
  rewrite Hs, send_line, serve_logs by done. destruct (Log (seen 0%nat)) as [|e es] eqn:E; [done|].
  assert (Forall (fun s => clean s /\ s <> "") (map logItem (e :: es))) as Hc
    by (apply Forall_fmap; eapply Forall_impl; [exact Hclean|]; done).
  rewrite items_line by (done || by apply clean_word). destruct (_ <? _); [|done].
  unfold parseLogs. rewrite TrimPrefix_app, joinBar_split by done.
  assert ("["%char ∈ to_bytes (logItem e)) as Hin by (rewrite logItem_bytes; left).
  cbn [map]. rewrite !bool_decide_eq_true_2 by (apply (joinBar_special "["%char); [done|by_decision]).
  apply (map_of_to_bytes (map logItem (e :: es))).
Qed.

(** C34: The log orrisctl reads from a node is the node's log, under conditions: the
    node answers and is shown online; no item of its log contains a bar, a carriage
    return or a newline; operations have no colon, keys no equals sign, values do not
    end in white space, index and term are Go ints; and the LOGS response is shorter
    than 64 KiB. Then the items of the response are split where they were joined, and
    parseLogItem gives back index, term, operation, key and value of every entry, colons
    and equals signs in the value included. *)
Theorem logs_reported :
  Forall printable (Log (seen 0%nat)) ->
  len (to_bytes ("LOGS " ++ joinBar (map logItem (Log (seen 0%nat))))) < maxTokenSize ->
  NodeInfo.Logs (queryNode addr server) = map logItem (Log (seen 0%nat)) /\
  map (fun raw => parseLogItem (to_bytes raw)) (NodeInfo.Logs (queryNode addr server)) =
  map (fun e => (itemOf e, true)) (Log (seen 0%nat)).
Proof using Hon Hs Hclean.
  intros Hp Hlen. rewrite logs_read, (proj2 (Z.ltb_lt _ _)) by done. split; [done|].
  rewrite map_map. apply map_ext_Forall. eapply Forall_impl; [exact Hp|]. apply parseLogItem_logItem.
Qed.

(** A long log is reported as empty: once the LOGS response reaches 64 KiB, the
    limit of the scanner's line buffer, the node is still shown online but with no log
    at all. *)
Lemma long_logs_unseen :
  maxTokenSize <= len (to_bytes ("LOGS " ++ joinBar (map logItem (Log (seen 0%nat))))) ->
  NodeInfo.Logs (queryNode addr server) = [].
Proof using Hon Hs Hclean. intros Hlen. by rewrite logs_read, (proj2 (Z.ltb_ge _ _)). Qed.
End logs.

(** ** Routing *)

Section routing_lemmas.
Context {S : Type} (send : S -> string -> string -> S * option string).
Context (server : string -> nat -> conn) (nodeAddrs : list string) (cmd : string).

Lemma queryNode_addr addr sv : NodeInfo.Addr (queryNode addr sv) = addr.
Proof.
  unfold queryNode. destruct (sendRawCommand _ _) as [r|]; [|done].
  pose proof (statusFields_frame (Fields r) (NodeInfo.mk "" addr true "" 0 0 0 0 ∅ [])) as (Ha & _).
  by destruct (statusFields _ _).
Qed.

Lemma queryCluster_addr n : n ∈ queryCluster server nodeAddrs -> NodeInfo.Addr n ∈ nodeAddrs.
Proof. intros (a & -> & Ha)%list_elem_of_fmap. by rewrite queryNode_addr. Qed.

Lemma findLeader_online nodes :
  findLeader nodes <> "" -> exists n, n ∈ nodes /\ NodeInfo.Online n = true /\ NodeInfo.Addr n = findLeader nodes.
Proof.
  induction nodes as [|n nodes IH]; [done|]. simpl. destruct (NodeInfo.Online n && _) eqn:E.
  - apply andb_true_iff in E as [? _]. intros _. exists n. split_and!; [left|done|done].
  - intros (m & ? & ? & ?)%IH. exists m. split_and!; [by right|done|done].
Qed.

(** The answer is that of the last request, or there is none. *)
Definition answered (s' : S) (res addr : string) : Prop :=
  (res = "ERR NO_LEADER_FOUND" /\ addr = "none") \/
  exists s, send s addr cmd = (s', Some res) /\ routed res = true /\ addr ∈ nodeAddrs.

Lemma tryAll_answered nodes s s' res addr :
  (forall n, n ∈ nodes -> NodeInfo.Addr n ∈ nodeAddrs) ->
  tryAll send s nodes cmd = (s', res, addr) -> answered s' res addr.
Proof.
  intros Hin. revert s. induction nodes as [|n nodes IH]; intros s; simpl; [intros [= <- <- <-]; by left|].
  assert (forall s, tryAll send s nodes cmd = (s', res, addr) -> answered s' res addr) as IH'
    by (apply IH; intros m Hm; apply Hin; by right).
  destruct (NodeInfo.Online n); [|by apply IH'].
  destruct (send s (NodeInfo.Addr n) cmd) as [s1 [r|]] eqn:E; [|by apply IH'].
  destruct (routed r) eqn:Er; [|by apply IH']. intros [= <- <- <-].
  right. exists s. split_and!; [done|done|]. apply Hin. left.
Qed.

(** The answer the router reports comes from a node of the list. *)
Lemma executeRouted_answer s s' res addr :
  executeRouted send server s nodeAddrs cmd = (s', res, addr) -> answered s' res addr.
Proof.
  unfold executeRouted. set (nodes := queryCluster server nodeAddrs).
  assert (forall s, tryAll send s nodes cmd = (s', res, addr) -> answered s' res addr) as Ht
    by (intros s0; apply tryAll_answered, queryCluster_addr).
  destruct (bool_decide_reflect (findLeader nodes <> "")) as [Hl|]; [|by apply Ht].
  destruct (send s (findLeader nodes) cmd) as [s1 [r|]] eqn:E; [|by apply Ht].
  destruct (routed r) eqn:Er; [|by apply Ht]. intros [= <- <- <-].
  right. exists s. split_and!; [done|done|]. apply findLeader_online in Hl as (n & Hn & _ & <-).
  by apply queryCluster_addr.
Qed.
End routing_lemmas.

(** The requests a run of the router sends, recorded next to the state. *)
Definition traced {S : Type} (send : S -> string -> string -> S * option string)
    (s : S * list string) (addr cmd : string) : S * list string * option string :=
  let '(s', res) := send (fst s) addr cmd in (s', snd s ++ [addr], res).

Section resubmission.
Context {S : Type} (send : S -> string -> string -> S * option string).
Context (server : string -> nat -> conn) (nodeAddrs : list string) (cmd : string).

(** Requests are only added. *)
Lemma tryAll_grows nodes s : exists tr, snd (tryAll (traced send) s nodes cmd).1.1 = snd s ++ tr.
Proof.
  revert s. induction nodes as [|n nodes IH]; intros s; simpl; [exists []; by rewrite app_nil_r|].
  destruct (NodeInfo.Online n); [|apply IH]. unfold traced at 1.
  destruct (send (fst s) (NodeInfo.Addr n) cmd) as [s1 r].
  assert (exists tr, snd (tryAll (traced send) (s1, snd s ++ [NodeInfo.Addr n]) nodes cmd).1.1 = snd s ++ tr) as Hg.
  { destruct (IH (s1, snd s ++ [NodeInfo.Addr n])) as [tr Htr]. rewrite Htr. simpl.
    rewrite <- app_assoc. by eexists. }
  destruct r as [r|]; [|done]. destruct (routed r); [by eexists|done].
Qed.

(** A node that no other online node answers for is reached. *)
Lemma tryAll_reaches nodes s L :
  (forall n s0 s1 res, n ∈ nodes -> NodeInfo.Online n = true -> NodeInfo.Addr n <> L ->
    send s0 (NodeInfo.Addr n) cmd = (s1, Some res) -> routed res = false) ->
  (exists n, n ∈ nodes /\ NodeInfo.Online n = true /\ NodeInfo.Addr n = L) ->
  exists tr, snd (tryAll (traced send) s nodes cmd).1.1 = snd s ++ tr /\ L ∈ tr.
Proof.
  revert s. induction nodes as [|n nodes IH]; intros s Ho (m & Hm & Hon & HL); [by apply not_elem_of_nil in Hm|].
  assert (forall s0 s1 res, NodeInfo.Online n = true -> NodeInfo.Addr n <> L ->
    send s0 (NodeInfo.Addr n) cmd = (s1, Some res) -> routed res = false) as Hn by (intros; eapply (Ho n); [left|eassumption..]).
  destruct (decide (NodeInfo.Online n = true /\ NodeInfo.Addr n = L)) as [[Hn1 Hn2]|Hne].
  - simpl. rewrite Hn1. unfold traced at 1. destruct (send (fst s) (NodeInfo.Addr n) cmd) as [s1 r].
    rewrite Hn2. destruct (tryAll_grows nodes (s1, snd s ++ [L])) as [tr Htr]. simpl in Htr.
    rewrite <- app_assoc in Htr. destruct r as [r|]; [destruct (routed r)|]; eexists; (split; [done||exact Htr|]); set_solver.
  - assert (forall s, exists tr, snd (tryAll (traced send) s nodes cmd).1.1 = snd s ++ tr /\ L ∈ tr) as IH'.
    { intros s0. apply IH; [intros; eapply Ho; [by right|eassumption..]|]. exists m.
      apply elem_of_cons in Hm as [->|Hm]; [naive_solver|done]. }
    simpl. destruct (NodeInfo.Online n); [|apply IH']. unfold traced at 1.
    destruct (send (fst s) (NodeInfo.Addr n) cmd) as [s1 r] eqn:E.
    destruct (IH' (s1, snd s ++ [NodeInfo.Addr n])) as (tr & Htr & HLt). simpl in Htr. rewrite <- app_assoc in Htr.
    destruct r as [r|]; [rewrite (Hn _ _ _ eq_refl ltac:(naive_solver) E)|]; eexists; (split; [exact Htr|]); set_solver.
Qed.

(** C35: A command may be submitted twice: when the leader does not answer in time and
    the other nodes are not leaders, executeRouted sends the same command to the leader
    again. *)
Theorem timed_out_command_resubmitted s s1 :
  let nodes := queryCluster server nodeAddrs in
  let L := findLeader nodes in
  L <> "" -> send s L cmd = (s1, None) ->
  (forall n s0 s1 res, n ∈ nodes -> NodeInfo.Online n = true -> NodeInfo.Addr n <> L ->
    send s0 (NodeInfo.Addr n) cmd = (s1, Some res) -> routed res = false) ->
  exists tr, snd (executeRouted (traced send) server (s, []) nodeAddrs cmd).1.1 = L :: tr /\ L ∈ tr.
Proof.
  intros nodes L HL Hs Ho. unfold executeRouted. fold nodes. fold L. rewrite bool_decide_eq_true_2 by done.
  unfold traced at 1. simpl. rewrite Hs. simpl.
  by apply (tryAll_reaches nodes (s1, [L]) L Ho), findLeader_online.
Qed.
End resubmission.

(** ** Witnesses *)

Definition sampleServer : nat -> conn := fun _ => Some (serve (fun _ => sampleNode) [("x", "1")] None).

Lemma status_reported_witness :
  exists keys logs, queryNode "a:1" sampleServer = NodeInfo.mk "n1" "a:1" true "FOLLOWER" 1 0 0 2 keys logs.
Proof.
  refine (status_reported (fun _ => sampleNode) [("x", "1")] None "a:1" sampleServer eq_refl _ _ _ _ _ _ _ _);
    first [by_decision | done | vm_compute; (split; discriminate) | vm_compute; discriminate].
Defined.

Lemma keys_reported_witness : NodeInfo.Keys (queryNode "a:1" sampleServer) = GetAllKeys sampleNode.
Proof.
  refine (keys_reported (fun _ => sampleNode) [("x", "1")] None "a:1" sampleServer _ eq_refl _ _ _).
  - vm_compute. reflexivity.
  - assert (map_to_list (GetAllKeys sampleNode) = [("x", "1")]) as -> by (vm_compute; reflexivity). done.
  - by_decision.
  - vm_compute. reflexivity.
Defined.

Lemma logs_reported_witness :
  NodeInfo.Logs (queryNode "a:1" sampleServer) = map logItem (Log sampleNode) /\
  map (fun raw => parseLogItem (to_bytes raw)) (NodeInfo.Logs (queryNode "a:1" sampleServer)) =
  map (fun e => (itemOf e, true)) (Log sampleNode).
Proof.
  refine (logs_reported (fun _ => sampleNode) [("x", "1")] None "a:1" sampleServer _ eq_refl _ _ _).
  - vm_compute. reflexivity.
  - by_decision.
  - by_decision.
  - vm_compute. reflexivity.
Defined.

(** A value of any length. *)
Definition pad (k : nat) : string := of_bytes (repeat "a"%char k).

Lemma pad_bytes k : to_bytes (pad k) = repeat "a"%char k.
Proof. apply to_of_bytes. Qed.

Lemma clean_pad k : clean (pad k).
Proof. unfold clean. rewrite pad_bytes. induction k; simpl; by constructor. Qed.

Definition longEntry : LogEntry := LogEntry.mk 0 1 OpSet "x" (pad (Z.to_nat maxTokenSize)).
Definition longNode : Node MemWal := set_Log [longEntry] sampleNode.

Lemma long_logs_unseen_witness :
  NodeInfo.Logs (queryNode "a:1" (fun i => match i with
    | 2%nat => Some (serve (fun _ => longNode) [("x", "1")] None) | _ => sampleServer i end)) = [].
Proof.
  refine (long_logs_unseen (fun _ => longNode) [("x", "1")] None "a:1" _ _ eq_refl _ _).
  - vm_compute. reflexivity.
  - change (Log longNode) with [longEntry]. apply Forall_singleton. unfold logItem.
    rewrite !clean_app. split_and!; first [apply clean_decimal | apply clean_pad | by apply clean_word].
  - change (Log longNode) with [longEntry]. change (joinBar (map logItem [longEntry])) with (logItem longEntry).
    destruct (logItem_value longEntry) as [a Ha]. rewrite to_bytes_app, Ha, !length_app.
    change (LogEntry.Value longEntry) with (pad (Z.to_nat maxTokenSize)). rewrite pad_bytes. cbn [length].
    rewrite repeat_length. unfold maxTokenSize. lia.
Defined.

Definition sampleCluster (addr : string) : nat -> conn :=
  fun _ => Some (serve (fun _ => if bool_decide (addr = "b:2") then set_State Leader sampleNode else sampleNode) [] None).

(** The leader answers the first request too late. *)
Definition slowLeader (s : nat) (addr cmd : string) : nat * option string :=
  if bool_decide (addr = "b:2") then (S s, match s with O => None | _ => Some "OK COMMITTED" end)
  else (s, Some "ERR NOT_LEADER").

Example executeRouted_slow :
  executeRouted slowLeader sampleCluster 0%nat ["a:1"; "b:2"] "SET k v" = (2%nat, "OK COMMITTED", "b:2").
Proof. vm_compute. reflexivity. Qed.

Lemma timed_out_command_resubmitted_witness :
  exists tr, snd (executeRouted (traced slowLeader) sampleCluster (0%nat, []) ["a:1"; "b:2"] "SET k v").1.1
    = findLeader (queryCluster sampleCluster ["a:1"; "b:2"]) :: tr /\
    findLeader (queryCluster sampleCluster ["a:1"; "b:2"]) ∈ tr.
Proof.
  assert (findLeader (queryCluster sampleCluster ["a:1"; "b:2"]) = "b:2") as E by (vm_compute; reflexivity).
  refine (timed_out_command_resubmitted slowLeader sampleCluster ["a:1"; "b:2"] "SET k v" 0%nat 1%nat _ _ _).
  - by rewrite E.
  - by rewrite E.
  - rewrite E. intros n s0 s1 res _ _ Hne. unfold slowLeader. rewrite bool_decide_eq_false_2 by done.
    intros [= _ <-]. vm_compute. reflexivity.
Defined.
