(* ===== verification/Bench.v ===== *)
(** * The concurrent benchmark ([runConcurrentBenchmark] in [cmd/orrisctl/main.go])

    [concurrency] goroutines take job numbers from a channel and route one SET
    for each.  A step of the model is one action of one goroutine: taking a
    job, querying the cluster, or one request; the goroutines may interleave in
    any order.  The requests of one [executeRouted] are given as the addresses
    it tries ([targets]). *)

From Stdlib Require Import Strings.Ascii.
From stdpp Require Import base gmap strings list list_numbers fin_maps.
From S2P Require Import Prelude Types Kv Wal State Recovery Election Replication Apply Server Text Ctl.

Section bench.
Context {M : Type} (send : M -> string -> string -> M * option string) (server : M -> string -> nat -> conn).
Context (nodeAddrs : list string).

(** ** The addresses [executeRouted] tries *)

Definition targets (nodes : list NodeInfo.t) : list string :=
  (if bool_decide (findLeader nodes <> "") then [findLeader nodes] else []) ++
  map NodeInfo.Addr (filter (fun n => NodeInfo.Online n = true) nodes).

Fixpoint sendFirst (m : M) (addrs : list string) (cmd : string) : M * string * string :=
  match addrs with
  | [] => (m, "ERR NO_LEADER_FOUND", "none")
  | a :: addrs =>
      match send m a cmd with
      | (m, Some res) => if routed res then (m, res, a) else sendFirst m addrs cmd
      | (m, None) => sendFirst m addrs cmd
      end
  end.

Lemma tryAll_targets nodes m cmd :
  tryAll send m nodes cmd = sendFirst m (map NodeInfo.Addr (filter (fun n => NodeInfo.Online n = true) nodes)) cmd.
Proof.
  revert m. induction nodes as [|n nodes IH]; intros m; [done|]. rewrite filter_cons. simpl.
  destruct (NodeInfo.Online n); simpl; [|apply IH]. destruct (send m (NodeInfo.Addr n) cmd) as [m1 [r|]]; [|apply IH].
  destruct (routed r); [done|apply IH].
Qed.

(** Routing is trying the targets in order. *)
Lemma executeRouted_targets m cmd :
  executeRouted send (server m) m nodeAddrs cmd = sendFirst m (targets (queryCluster (server m) nodeAddrs)) cmd.
Proof.
  unfold executeRouted, targets. set (nodes := queryCluster _ _).
  destruct (bool_decide _); simpl; [|apply tryAll_targets].
  destruct (send m (findLeader nodes) cmd) as [m1 [r|]]; [|apply tryAll_targets].
  destruct (routed r); [done|apply tryAll_targets].
Qed.

(** ** Goroutines *)

Inductive worker :=
| Idle                                      (* at [range jobs] *)
| Querying (idx : Z)                        (* before [queryCluster] *)
| Sending (idx : Z) (addrs : list string)   (* the addresses left to try *)
| Done.

#[export] Instance worker_eq_dec : EqDecision worker.
Proof. solve_decision. Defined.

(** [finished] records the jobs in the order their responses were counted. *)
Record bench := mkBench {
  machine : M; jobs : list Z; workers : list worker; successCount : Z; failCount : Z; finished : list Z }.

Definition benchCmd (idx : Z) : string := ("SET k_" ++ decimal idx ++ " val_" ++ decimal idx)%string.

Definition startBench (m : M) (total concurrency : Z) : bench :=
  mkBench m (seqZ 0 total) (replicate (Z.to_nat concurrency) Idle) 0 0 [].

(** The response of a job is counted. *)
Definition count (b : bench) (w : nat) (m : M) (idx : Z) (res : string) : bench :=
  let ok := HasPrefix (to_bytes res) (to_bytes "OK") in
  mkBench m (jobs b) (<[w := Idle]> (workers b))
    (if ok then successCount b + 1 else successCount b) (if ok then failCount b else failCount b + 1)
    (finished b ++ [idx]).

Definition benchStep (b : bench) (w : nat) : option bench :=
  match workers b !! w with
  | None | Some Done => None
  | Some Idle =>
      match jobs b with
      | idx :: js => Some (mkBench (machine b) js (<[w := Querying idx]> (workers b)) (successCount b) (failCount b) (finished b))
      | [] => Some (mkBench (machine b) [] (<[w := Done]> (workers b)) (successCount b) (failCount b) (finished b))
      end
  | Some (Querying idx) =>
      let addrs := targets (queryCluster (server (machine b)) nodeAddrs) in
      Some (mkBench (machine b) (jobs b) (<[w := Sending idx addrs]> (workers b)) (successCount b) (failCount b) (finished b))
  | Some (Sending idx []) => Some (count b w (machine b) idx "ERR NO_LEADER_FOUND")
  | Some (Sending idx (a :: addrs)) =>
      let '(m, res) := send (machine b) a (benchCmd idx) in
      let next := mkBench m (jobs b) (<[w := Sending idx addrs]> (workers b)) (successCount b) (failCount b) (finished b) in
      match res with
      | Some res => if routed res then Some (count b w m idx res) else Some next
      | None => Some next
      end
  end.

(** A schedule is the list of the goroutines that act. *)
Definition benchRun (b : bench) (ws : list nat) : option bench :=
  foldl (fun b w => b ← b; benchStep b w) (Some b) ws.

(** A schedule that always exists: [pick] chooses among the goroutines that
    have not returned. *)
Definition active (b : bench) : list nat :=
  filter (fun w => workers b !! w <> Some Done) (seq 0 (length (workers b))).

Fixpoint runBench (fuel : nat) (pick : nat -> nat) (b : bench) : bench :=
  match fuel, active b with
  | S fuel, (w :: _) as ws =>
      match benchStep b (nth (pick fuel mod length ws) ws w) with
      | Some b => runBench fuel pick b
      | None => b
      end
  | _, _ => b
  end.

(** [wg.Wait()] returns. *)
Definition allDone (b : bench) : Prop := Forall (fun w => w = Done) (workers b).

(** ** Progress *)

Definition workerCost (w : worker) : nat :=
  match w with
  | Idle => 1 | Querying _ => 4 + length nodeAddrs | Sending _ addrs => 2 + length addrs | Done => 0
  end%nat.

Definition cost (b : bench) : nat := (length (jobs b) * (5 + length nodeAddrs) + sum_list (map workerCost (workers b)))%nat.

Lemma targets_length m : (length (targets (queryCluster (server m) nodeAddrs)) <= S (length nodeAddrs))%nat.
Proof.
  unfold targets. rewrite length_app, length_map.
  pose proof (length_filter (fun n => NodeInfo.Online n = true) (queryCluster (server m) nodeAddrs)) as Hf.
  unfold queryCluster in *. rewrite length_map in Hf. destruct (bool_decide _); simpl in *; lia.
Qed.

Lemma sum_insert (l : list worker) w x y :
  l !! w = Some x -> (sum_list (map workerCost (<[w := y]> l)) + workerCost x = sum_list (map workerCost l) + workerCost y)%nat.
Proof.
  revert w. induction l as [|z l IH]; intros [|w]; simpl; [done|done|intros [= ->]; lia|intros Hw]. specialize (IH w Hw). lia.
Qed.

Lemma benchStep_cost b w b' : benchStep b w = Some b' -> (cost b' < cost b)%nat.
Proof.
  unfold benchStep, cost. destruct (workers b !! w) as [x|] eqn:Hw; [|done].
  pose proof (sum_insert _ _ _ Idle Hw) as Hi. pose proof (sum_insert _ _ _ Done Hw) as Hd.
  assert (forall idx addrs, sum_list (map workerCost (<[w:=Sending idx addrs]> (workers b))) + workerCost x
    = sum_list (map workerCost (workers b)) + (2 + length addrs))%nat as Hs by (intros; by apply sum_insert).
  destruct x as [|idx|idx [|a addrs]|]; cbn [workerCost length] in *; [| | | |done].
  - destruct (jobs b) as [|idx js] eqn:Hj; intros [= <-]; simpl; [lia|].
    pose proof (sum_insert _ _ _ (Querying idx) Hw). cbn [workerCost] in *. lia.
  - pose proof (targets_length (machine b)). intros [= <-]. cbn [jobs workers].
    specialize (Hs idx (targets (queryCluster (server (machine b)) nodeAddrs))). lia.
  - intros [= <-]. simpl. lia.
  - specialize (Hs idx addrs). destruct (send _ _ _) as [m [r|]]; [destruct (routed r)|]; intros [= <-]; simpl; lia.
Qed.

Lemma benchRun_cons b w ws b' :
  benchRun b (w :: ws) = Some b' -> exists b1, benchStep b w = Some b1 /\ benchRun b1 ws = Some b'.
Proof.
  unfold benchRun. simpl. destruct (benchStep b w) as [b1|]; [by eauto|].
  intros H. exfalso. revert H. clear. induction ws; [done|apply IHws].
Qed.

Lemma benchRun_length b ws b' : benchRun b ws = Some b' -> (length ws + cost b' <= cost b)%nat.
Proof.
  revert b. induction ws as [|w ws IH]; intros b; [intros [= <-]; simpl; lia|].
  intros (b1 & H1 & H2)%benchRun_cons. apply IH in H2. apply benchStep_cost in H1. simpl. lia.
Qed.

(** ** Every job once *)

Definition workerJob (w : worker) : list Z := match w with Querying i | Sending i _ => [i] | _ => [] end.

Definition pending (b : bench) : list Z := finished b ++ jobs b ++ concat (map workerJob (workers b)).

Lemma jobs_insert (l : list worker) w x y :
  l !! w = Some x -> workerJob x ++ concat (map workerJob (<[w := y]> l)) ≡ₚ workerJob y ++ concat (map workerJob l).
Proof.
  revert w. induction l as [|z l IH]; intros [|w]; simpl; [done|done|intros [= ->]|intros Hw].
  - solve_Permutation.
  - specialize (IH w Hw). rewrite (Permutation_app_swap_app (workerJob x)), IH. solve_Permutation.
Qed.

Lemma benchStep_jobs b w b' :
  benchStep b w = Some b' ->
  pending b' ≡ₚ pending b /\
  successCount b' + failCount b' - len (finished b') = successCount b + failCount b - len (finished b) /\
  length (workers b') = length (workers b).
Proof.
  unfold benchStep, pending. destruct (workers b !! w) as [x|] eqn:Hw; [|done].
  pose proof (jobs_insert _ _ _ Idle Hw) as Hi. pose proof (jobs_insert _ _ _ Done Hw) as Hd.
  pose proof (fun i => jobs_insert _ _ _ (Querying i) Hw) as Hq.
  pose proof (fun i a => jobs_insert _ _ _ (Sending i a) Hw) as Hs.
  assert (forall m idx res, x = Querying idx \/ (exists a, x = Sending idx a) ->
    finished (count b w m idx res) ++ jobs (count b w m idx res) ++ concat (map workerJob (workers (count b w m idx res)))
      ≡ₚ finished b ++ jobs b ++ concat (map workerJob (workers b)) /\
    successCount (count b w m idx res) + failCount (count b w m idx res) - len (finished (count b w m idx res)) =
      successCount b + failCount b - len (finished b) /\
    length (workers (count b w m idx res)) = length (workers b)) as Hc.
  { intros m idx res Hx. unfold count. cbn [finished jobs workers successCount failCount]. split_and!.
    - assert ([idx] ++ concat (map workerJob (<[w:=Idle]> (workers b))) ≡ₚ concat (map workerJob (workers b))) as <-
        by (destruct Hx as [->|[a ->]]; exact Hi).
      rewrite <- app_assoc. apply Permutation_app_head. solve_Permutation.
    - rewrite length_app. simpl. destruct (HasPrefix _ _); lia.
    - apply length_insert. }
  destruct x as [|idx|idx [|a addrs]|]; cbn [workerJob app] in *; [| | | |done].
  - destruct (jobs b) as [|idx js] eqn:Hj; intros [= <-]; cbn [finished jobs workers successCount failCount];
      (split_and!; [|done|apply length_insert]); [by rewrite Hd|].
    rewrite (Hq idx). apply Permutation_app_head. solve_Permutation.
  - intros [= <-]. cbn [finished jobs workers successCount failCount]. split_and!; [|done|apply length_insert].
    apply Permutation_app_head, Permutation_app_head. apply (Permutation_app_inv_l [idx]), Hs.
  - intros [= <-]. apply Hc. eauto.
  - destruct (send _ _ _) as [m [r|]]; [destruct (routed r)|]; intros [= <-];
      try (apply Hc; eauto); cbn [finished jobs workers successCount failCount]; (split_and!; [|done|apply length_insert]);
      apply Permutation_app_head, Permutation_app_head, (Permutation_app_inv_l [idx]), Hs.
Qed.

(** A goroutine leaves its loop when the channel is empty. *)
Lemma benchStep_done b w b' :
  benchStep b w = Some b' -> (Done ∈ workers b -> jobs b = []) -> Done ∈ workers b' -> jobs b' = [].
Proof.
  intros Hb Hinv. assert (forall y, y <> Done -> Done ∈ <[w := y]> (workers b) -> jobs b = []) as Hkeep.
  { intros y Hy (i & Hi)%list_elem_of_lookup. apply Hinv. destruct (decide (i = w)) as [->|].
    - destruct (decide (w < length (workers b))%nat) as [Hl|Hl]; [rewrite list_lookup_insert_eq in Hi by done; congruence|].
      rewrite list_insert_ge in Hi by lia. by apply list_elem_of_lookup_2 in Hi.
    - rewrite list_lookup_insert_ne in Hi by done. by apply list_elem_of_lookup_2 in Hi. }
  unfold benchStep in Hb. destruct (workers b !! w) as [[|idx|idx [|a addrs]|]|]; [| | | |done|done].
  - destruct (jobs b) as [|idx js]; injection Hb as <-; cbn [jobs workers] in *; [done|].
    intros Hd. by apply Hkeep in Hd.
  - injection Hb as <-. by apply Hkeep.
  - injection Hb as <-. by apply Hkeep.
  - destruct (send _ _ _) as [m [r|]]; [destruct (routed r)|]; injection Hb as <-; by apply Hkeep.
Qed.

Lemma benchRun_inv b ws b' :
  benchRun b ws = Some b' -> (Done ∈ workers b -> jobs b = []) ->
  (Done ∈ workers b' -> jobs b' = []) /\ pending b' ≡ₚ pending b /\
  successCount b' + failCount b' - len (finished b') = successCount b + failCount b - len (finished b) /\
  length (workers b') = length (workers b).
Proof.
  revert b. induction ws as [|w ws IH]; intros b; [intros [= <-]; done|].
  intros (b1 & H1 & H2)%benchRun_cons Hd. pose proof (benchStep_jobs _ _ _ H1) as (Hp & Hc & Hl).
  destruct (IH b1 H2 (benchStep_done _ _ _ H1 Hd)) as (? & Hp' & ? & ?).
  split_and!; [done| |lia|lia]. by rewrite Hp'.
Qed.

Lemma benchStep_enabled b w : workers b !! w <> Some Done -> is_Some (workers b !! w) -> is_Some (benchStep b w).
Proof.
  intros Hw [x Hx]. unfold benchStep. rewrite Hx in *. destruct x as [|idx|idx [|a addrs]|]; try done.
  - by destruct (jobs b).
  - destruct (send _ _ _) as [m [r|]]; [destruct (routed r)|]; done.
Qed.

Lemma pending_done b : allDone b -> jobs b = [] -> pending b = finished b.
Proof.
  intros Hd Hj. unfold pending. rewrite Hj. assert (concat (map workerJob (workers b)) = []) as ->; [|by rewrite app_nil_r].
  induction Hd as [|x l -> _ IH]; done.
Qed.

(** C37: The concurrent benchmark ends: in any interleaving of its goroutines there are
    at most total * (5 + number of nodes) + concurrency steps, as long as a goroutine
    has not returned a step is possible, and when all have returned every job was
    counted exactly once, so that successes and failures add up to the total. *)
Theorem benchmark_finishes m total concurrency ws b :
  0 <= total -> 1 <= concurrency -> benchRun (startBench m total concurrency) ws = Some b ->
  len ws <= total * (5 + len nodeAddrs) + concurrency /\
  (allDone b \/ exists w, is_Some (benchStep b w)) /\
  (allDone b -> finished b ≡ₚ seqZ 0 total /\ successCount b + failCount b = total).
Proof.
  intros Ht Hc Hr. pose proof (benchRun_length _ _ _ Hr) as Hlen.
  destruct (benchRun_inv _ _ _ Hr) as (Hd & Hp & Hs & Hw).
  { intros Hin. apply elem_of_replicate in Hin as [? _]. done. }
  assert (concat (map workerJob (replicate (Z.to_nat concurrency) Idle)) = []) as Hidle
    by (induction (Z.to_nat concurrency); done).
  assert (forall k, sum_list (map workerCost (replicate k Idle)) = k) as Hcost by (induction k; simpl; lia).
  unfold startBench, pending, cost in *. cbn [jobs workers finished successCount failCount] in *.
  rewrite Hcost, length_seqZ in Hlen. rewrite length_replicate in Hw. rewrite Hidle, app_nil_r in Hp.
  split_and!.
  - nia.
  - destruct (decide (Forall (fun w => w = Done) (workers b))) as [|Hn]; [by left|right]. apply not_Forall_Exists in Hn; [|apply _].
    apply Exists_exists in Hn as (x & (w & Hx)%list_elem_of_lookup & Hne). exists w.
    apply benchStep_enabled; [rewrite Hx; congruence|by rewrite Hx].
  - intros Ha. assert (Done ∈ workers b) as Hin.
    { unfold allDone in Ha. destruct (workers b) as [|x l]; [simpl in Hw; lia|]. apply Forall_cons in Ha as [-> _]. left. }
    pose proof (pending_done b Ha (Hd Hin)) as Hpend. unfold pending in Hpend. rewrite Hpend in Hp.
    change ([] ++ seqZ 0 total) with (seqZ 0 total) in Hp. split; [done|]. apply Permutation_length in Hp. rewrite length_seqZ in Hp. simpl in Hs. lia.
Qed.
End bench.

(** ** Two goroutines and a slow leader *)

Definition sampleBench : option (bench (M := nat)) :=
  benchRun slowLeader (fun _ => sampleCluster) ["a:1"; "b:2"] (startBench 0%nat 2 2)
    [0; 1; 0; 1; 0; 1; 0; 0; 0; 1]%nat.

Example sampleBench_end :
  option_map (fun b => (machine b, finished b, successCount b, failCount b, workers b)) sampleBench
  = Some (3%nat, [1; 0], 2, 0, [Done; Done]).
Proof. vm_compute. reflexivity. Qed.

Lemma benchmark_finishes_witness : exists b, sampleBench = Some b /\
  len [0; 1; 0; 1; 0; 1; 0; 0; 0; 1]%nat <= 2 * (5 + len ["a:1"; "b:2"]) + 2 /\
  finished b ≡ₚ seqZ 0 2 /\ successCount b + failCount b = 2.
Proof.
  destruct sampleBench as [b|] eqn:E; [|vm_compute in E; discriminate E]. exists b. split; [done|].
  destruct (benchmark_finishes slowLeader (fun _ => sampleCluster) ["a:1"; "b:2"] 0%nat 2 2
    [0; 1; 0; 1; 0; 1; 0; 0; 0; 1]%nat b ltac:(lia) ltac:(lia) E) as (H1 & _ & H2).
  split; [exact H1|]. apply H2. vm_compute in E. injection E as <-. repeat constructor.
Defined.
