(* ===== verification/Launch.v ===== *)
(** * Starting nodes ([cmd/orrisctl/main.go], [cmd/orrisd/main.go])

    [orrisctl] passes every node it starts the list of its peers as a string,
    which [orrisd] parses.  [start] brings up a whole cluster on the data
    directories there are, [spawn] a single node; the theorems relate the nodes they start to the clusters of
    [Cluster]. *)

From Stdlib Require Import Strings.Ascii.
From stdpp Require Import base gmap strings list list_numbers fin_maps fin_sets.
From S2P Require Import Prelude Types Kv Wal State Recovery Election Replication Apply Server Text Cluster ClusterRun ClusterInv ClusterCrash ClusterReach ClusterIdentity.

(** ** [orrisd] *)

Definition parsePeers (peersStr : string) : gmap string string :=
  if bool_decide (peersStr <> "") then foldl addPair ∅ (Split (to_bytes peersStr) (to_bytes ",")) else ∅.

(** The node [orrisd] runs for its flags. *)
Definition orrisd {W} `{WalOps W} (id addr peersStr : string) (opened : W + error) : Node W + error :=
  NewNode id addr (parsePeers peersStr) opened.

(** ** [orrisctl] *)

(** [fmt.Sprintf("node%d", i)] and [fmt.Sprintf("127.0.0.1:%d", 8000+i)] *)
Definition nodeName (i : Z) : string := ("node" ++ decimal i)%string.
Definition nodeAddr (i : Z) : string := ("127.0.0.1:" ++ decimal (8000 + i))%string.

(** The [-peers] argument. *)
Definition peersArg (i totalCount : Z) : string :=
  String.concat "," (map (fun j => (nodeName j ++ "=" ++ nodeAddr j)%string)
    (filter (fun j => j <> i) (seqZ 1 totalCount))).

Definition clusterStartSingleNode {W} `{WalOps W} (i totalCount : Z) (opened : W + error) : Node W + error :=
  orrisd (nodeName i) (nodeAddr i) (peersArg i totalCount) opened.

(** A process for a node that has come up. *)
Definition running (i : Z) (n : node + error) : list (string * proc) :=
  match n with inl n => [(nodeName i, mkProc n ∅ [])] | inr _ => [] end.

(** [clusterStart], when no node is left running (it first kills the processes
    in the pid files of node1 to node20).  [data i] are the
    records in [./data/node<i>/wal.log], none if there is no such file: start
    and stop never clear a data directory, and [orrisd] opens what is there. *)
Definition clusterStart (count : Z) (data : Z -> list WALRecord) : world :=
  let count := if count <? 1 then 3 else count in
  mkWorld (list_to_map (concat (map
    (fun i => running i (clusterStartSingleNode i count (inl (mkMemWal (data i) true)))) (seqZ 1 count)))) [].

(** The [SPAWN] command: the number of the node, from the arguments. *)
Definition spawnNum (args : list string) : Z :=
  match args with
  | _ :: a :: _ =>
      let '(c, ok) := Atoi (TrimPrefix (ToLower (to_bytes a)) (to_bytes "node")) in if ok : bool then c else 1
  | _ => 1
  end.

(** A node that is down is started on its data directory, one that [w] does not
    have on an empty one.  The command line
    has a fixed total of 3 nodes. *)
Definition spawn (w : world) (args : list string) : world :=
  let i := spawnNum args in
  let disk := match procs w !! nodeName i with
              | Some p => wal_reopen (wal (p_node p)) | None => mkMemWal [] true end in
  mkWorld (list_to_map (running i (clusterStartSingleNode i 3 (inl disk))) ∪ procs w) (net w).

Example launch_examples :
  (peersArg 2 3, parsePeers (peersArg 2 3), parsePeers "", map spawnNum [["SPAWN"; "Node12"]; ["SPAWN"; "7"]; ["SPAWN"; "x"]])
  = ("node1=127.0.0.1:8001,node3=127.0.0.1:8003",
     {["node1" := "127.0.0.1:8001"; "node3" := "127.0.0.1:8003"]}, ∅, [12; 7; 1]).
Proof. vm_compute. reflexivity. Qed.

(** ** The membership *)

Definition members (count : Z) : gset string := list_to_set (map nodeName (seqZ 1 count)).

Definition memberAddr (count : Z) (id : string) : string :=
  default "" ((list_to_map (map (fun j => (nodeName j, nodeAddr j)) (seqZ 1 count)) : gmap string string) !! id).

Lemma append_inj (a b c : string) : (a ++ b = a ++ c)%string -> b = c.
Proof. induction a as [|x a IH]; [done|]. intros [= H]. by apply IH. Qed.

Lemma nodeName_inj i j : nodeName i = nodeName j -> i = j.
Proof. intros H. by apply decimal_inj, (append_inj "node"). Qed.

Lemma NoDup_names (l : list Z) {A} (f : Z -> A) : NoDup l -> NoDup (map (fun j => (nodeName j, f j)) l).*1.
Proof.
  intros Hl. rewrite <- list_fmap_compose. apply NoDup_fmap_2; [|done]. intros i j. apply nodeName_inj.
Qed.

(** A map given by the numbers of the nodes. *)
Lemma lookup_names (l : list Z) {A} (f : Z -> A) id x :
  NoDup l -> (list_to_map (map (fun j => (nodeName j, f j)) l) : gmap string A) !! id = Some x <->
  exists j, j ∈ l /\ id = nodeName j /\ x = f j.
Proof.
  intros Hl. rewrite <- elem_of_list_to_map by by apply NoDup_names. rewrite list_elem_of_fmap. naive_solver.
Qed.

Lemma memberAddr_node count j : 1 <= j <= count -> memberAddr count (nodeName j) = nodeAddr j.
Proof.
  intros Hj. unfold memberAddr. rewrite (proj2 (lookup_names (seqZ 1 count) nodeAddr (nodeName j) (nodeAddr j) (NoDup_seqZ _ _))); [done|].
  exists j. by rewrite elem_of_seqZ; split_and!; try lia.
Qed.

Lemma elem_members count id : id ∈ members count <-> exists j, 1 <= j <= count /\ id = nodeName j.
Proof.
  unfold members. rewrite elem_of_list_to_set, list_elem_of_fmap. setoid_rewrite elem_of_seqZ.
  split; intros (j & ? & ?); exists j; (split; [|]); try done; lia.
Qed.

Lemma absent_app c (a b : string) : c ∉ to_bytes a -> c ∉ to_bytes b -> c ∉ to_bytes (a ++ b)%string.
Proof. intros Ha Hb. by rewrite to_bytes_app, not_elem_of_app. Qed.

Lemma absent_name c j :
  bool_decide (c ∉ to_bytes "node") && negb (isDigit c || bool_decide (c = "-"%char)) = true -> c ∉ to_bytes (nodeName j).
Proof.
  intros [H1%bool_decide_eq_true H2%negb_true_iff]%andb_true_iff. apply absent_app; [done|by apply decimal_absent].
Qed.

Lemma absent_addr c j :
  bool_decide (c ∉ to_bytes "127.0.0.1:") && negb (isDigit c || bool_decide (c = "-"%char)) = true -> c ∉ to_bytes (nodeAddr j).
Proof.
  intros [H1%bool_decide_eq_true H2%negb_true_iff]%andb_true_iff. apply absent_app; [done|by apply decimal_absent].
Qed.

(** What [orrisd] makes of the list [orrisctl] gives it. *)
Lemma parsePeers_arg i count :
  parsePeers (peersArg i count) =
  list_to_map (reverse (map (fun j => (nodeName j, nodeAddr j)) (filter (fun j => j <> i) (seqZ 1 count)))).
Proof.
  unfold parsePeers, peersArg. set (l := filter (fun j => j <> i) (seqZ 1 count)).
  assert (forall l, map (fun j => (nodeName j ++ "=" ++ nodeAddr j)%string) l =
    map (fun kv => (fst kv ++ "=" ++ snd kv)%string) (map (fun j => (nodeName j, nodeAddr j)) l)) as Hm
    by (intros; by rewrite map_map).
  destruct l as [|j l]; [done|]. rewrite bool_decide_eq_true_2 by (by destruct l).
  rewrite (Split_concat "," [] ","%char []); [|done|apply not_elem_of_nil|done|].
  - rewrite Hm, addPairs_items; [by rewrite map_union_empty|].
    apply Forall_fmap, Forall_forall. intros k _. by apply absent_name.
  - apply Forall_fmap, Forall_forall. intros k _.
    apply (absent_app _ (nodeName k)); [by apply absent_name|apply absent_app; [by_decision|by apply absent_addr]].
Qed.

Lemma started_peers i count :
  parsePeers (peersArg i count) = peersOf (members count) (memberAddr count) (nodeName i).
Proof.
  rewrite parsePeers_arg. apply map_eq. intros id. apply option_eq. intros a.
  rewrite <- fmap_reverse, lookup_names by (rewrite reverse_Permutation; apply NoDup_filter, NoDup_seqZ).
  unfold peersOf. rewrite lookup_set_to_map by naive_solver.
  setoid_rewrite elem_of_reverse. setoid_rewrite list_elem_of_filter. setoid_rewrite elem_of_seqZ.
  setoid_rewrite elem_of_difference. setoid_rewrite elem_of_singleton. setoid_rewrite elem_members. split.
  - intros (j & [Hne Hj] & -> & ->). exists (nodeName j). split_and!.
    + exists j. split; [lia|done].
    + by intros ->%nodeName_inj.
    + by rewrite memberAddr_node by lia.
  - intros (y & [(j & Hj & ->) Hne] & [= <- <-]). exists j. rewrite memberAddr_node by done.
    split_and!; [congruence|lia..|done|done].
Qed.

Lemma size_members count : 0 <= count -> Z.of_nat (size (members count)) = count.
Proof.
  intros Hc. unfold members. rewrite size_list_to_set, length_fmap, length_seqZ; [lia|].
  apply NoDup_fmap_2; [|apply NoDup_seqZ]. intros i j. apply nodeName_inj.
Qed.

(** The process of node [i] of a cluster of [count], started on [rs]. *)
Definition startedNode (count i : Z) (rs : list WALRecord) : node :=
  resetElectionTimer (recoverState (freshNode (nodeName i) (memberAddr count (nodeName i))
    (peersOf (members count) (memberAddr count) (nodeName i)) (mkMemWal rs true))).

Lemma started_node count i rs :
  1 <= i <= count ->
  clusterStartSingleNode i count (inl (mkMemWal rs true)) = inl (startedNode count i rs).
Proof.
  intros Hi. unfold clusterStartSingleNode, orrisd, NewNode, startedNode. by rewrite started_peers, memberAddr_node.
Qed.

(** The processes [start] brings up. *)
Lemma clusterStart_lookup count data id p :
  let total := if count <? 1 then 3 else count in
  procs (clusterStart count data) !! id = Some p <->
  exists i, 1 <= i <= total /\ id = nodeName i /\ p = mkProc (startedNode total i (data i)) ∅ [].
Proof.
  intros total. unfold clusterStart. fold total. cbn [procs].
  set (P := fun i => mkProc (startedNode total i (data i)) ∅ []).
  assert (forall l, Forall (fun i => 1 <= i <= total) l ->
    concat (map (fun i => running i (clusterStartSingleNode i total (inl (mkMemWal (data i) true)))) l) =
    map (fun i => (nodeName i, P i)) l) as ->.
  { induction 1 as [|i l Hi Hl IH]; [done|]. cbn [map concat]. by rewrite IH, started_node. }
  - rewrite lookup_names by apply NoDup_seqZ. setoid_rewrite elem_of_seqZ.
    split; intros (i & Hi & ?); exists i; (split; [lia|done]).
  - apply Forall_forall. intros i Hi%elem_of_seqZ. lia.
Qed.

Lemma clusterStart_empty count data :
  let total := if count <? 1 then 3 else count in
  (forall i, 1 <= i <= total -> data i = []) ->
  clusterStart count data = initWorld (members total) (memberAddr total).
Proof.
  intros total He. assert (procs (clusterStart count data) = procs (initWorld (members total) (memberAddr total))) as Hp.
  { apply map_eq. intros id. apply option_eq. intros p. rewrite clusterStart_lookup, initWorld_lookup, elem_members. fold total.
    split.
    - intros (i & Hi & -> & ->). rewrite He by done. split; [by exists i|done].
    - intros [(i & Hi & ->) ->]. exists i. by rewrite He. }
  change (clusterStart count data) with (mkWorld (procs (clusterStart count data)) []). by rewrite Hp.
Qed.

(** Processes killed and started on the data they left are the cluster after
    a crash of all its nodes. *)
Lemma clusterStart_again count data w :
  let total := if count <? 1 then 3 else count in
  reachable (members total) (memberAddr total) w ->
  (forall i, 1 <= i <= total -> exists p, procs w !! nodeName i = Some p /\ data i = records (wal (p_node p))) ->
  exists w', rtc step w w' /\ procs w' = procs (clusterStart count data).
Proof.
  intros total Hr Hdata. destruct (reachable_members _ _ _ Hr) as [Hdom Hid].
  destruct (restart_all w) as (w' & Hs & _ & Hp). exists w'. split; [done|]. rewrite Hp.
  assert (forall i p, 1 <= i <= total -> procs w !! nodeName i = Some p ->
    restarted p = mkProc (startedNode total i (data i)) ∅ []) as Hnode.
  { intros i p Hi Hpi. destruct (Hdata i Hi) as (q & Hq & ->). simplify_eq.
    destruct (Hid _ _ Hpi) as (H1 & H2 & H3). unfold restarted, restart, startedNode. by rewrite H1, H2, H3. }
  apply map_eq. intros id. apply option_eq. intros p. rewrite clusterStart_lookup, lookup_fmap_Some. fold total. split.
  - intros (q & <- & Hq). assert (id ∈ members total) as (i & Hi & ->)%elem_members
      by (rewrite <- Hdom; apply elem_of_dom; by eexists).
    exists i. split; [done|]. split; [done|]. by apply Hnode.
  - intros (i & Hi & -> & ->). destruct (Hdata i Hi) as (q & Hq & _). exists q. split; [by apply Hnode|done].
Qed.

(** C31: The cluster orrisctl starts, when no other node is left running, is a cluster
    the safety theorems are about. For every requested size the peer lists orrisctl
    prints and orrisd parses give a membership of that size with non-empty names. On
    empty data directories the started nodes form its initial world. On the data
    directories that a reachable cluster of the same membership has left, which nothing
    clears, whatever the started cluster does is what that cluster can do after a crash
    and restart of all its nodes: from the world it was in, an execution leads to the
    same processes. *)
Theorem started_cluster_initial count data :
  let total := if count <? 1 then 3 else count in
  Z.of_nat (size (members total)) = total /\ "" ∉ members total /\
  ((forall i, 1 <= i <= total -> data i = []) ->
   clusterStart count data = initWorld (members total) (memberAddr total)) /\
  (forall w, reachable (members total) (memberAddr total) w ->
   (forall i, 1 <= i <= total ->
      exists p, procs w !! nodeName i = Some p /\ data i = records (wal (p_node p))) ->
   forall w1, rtc step (clusterStart count data) w1 ->
   exists w2, rtc step w w2 /\ procs w2 = procs w1).
Proof.
  intros total. assert (1 <= total) as Ht by (unfold total; destruct (Z.ltb_spec count 1); lia).
  split; [apply size_members; lia|]. split; [by intros (j & _ & [=])%elem_members|].
  split; [apply clusterStart_empty|]. intros w Hr Hdata w1 Hs1.
  destruct (clusterStart_again count data w Hr Hdata) as (w' & Hs & Hp).
  destruct (more_steps _ _ Hs1 w') as (w2 & Hs2 & Hp2 & _).
  { split; [done|]. intros pk Hpk. by apply not_elem_of_nil in Hpk. }
  exists w2. split; [by transitivity w'|done].
Qed.

(** Data left by a cluster of three whose first node led term 1. *)
Definition ledOnce : world := after (initWorld (members 3) (memberAddr 3))
  [DoTimeout "node1"; DoVoteRequest 0; DoVoteReply 0; DoCountVote "node1" 1 "node3"; DoClient "node1" setX].

Definition dataOf (w : world) (i : Z) : list WALRecord :=
  match procs w !! nodeName i with Some p => records (wal (p_node p)) | None => [] end.

Lemma started_cluster_initial_witness :
  clusterStart 0 (fun _ => []) = initWorld (members 3) (memberAddr 3) /\
  (map (fun i => length (dataOf ledOnce i)) [1; 2; 3]) = [2%nat; 0%nat; 2%nat] /\
  forall w1, rtc step (clusterStart 3 (dataOf ledOnce)) w1 ->
  exists w2, rtc step ledOnce w2 /\ procs w2 = procs w1.
Proof.
  split; [|split; [vm_compute; reflexivity|]].
  - destruct (started_cluster_initial 0 (fun _ => [])) as (_ & _ & H & _). apply H. reflexivity.
  - destruct (started_cluster_initial 3 (dataOf ledOnce)) as (_ & _ & _ & H).
    apply (H ledOnce (after_steps _ _)). intros i Hi.
    assert (exists p, procs ledOnce !! nodeName i = Some p) as [p Hp].
    { destruct (decide (i = 1)) as [->|]; [|destruct (decide (i = 2)) as [->|]; [|assert (i = 3) as -> by (simpl in Hi; lia)]];
        match goal with |- exists p, ?x = Some p => destruct x eqn:E; [by eexists|exfalso; revert E; vm_compute; discriminate] end. }
    exists p. split; [exact Hp|]. unfold dataOf. by rewrite Hp.
Defined.

(** ** [spawn] in a cluster of five *)

(** node1 and node2 have been started again; node2 votes for node1, node3 and
    node4 vote for node5. *)
Definition respawned : world := spawn (spawn (clusterStart 5 (fun _ => [])) ["SPAWN"; "node1"]) ["SPAWN"; "2"].

Definition splitVote : list action :=
  [DoTimeout "node1"; DoVoteRequest 1; DoVoteReply 0; DoCountVote "node1" 1 "node2";
   DoTimeout "node5"; DoVoteRequest 0; DoVoteReply 0; DoCountVote "node5" 1 "node3";
   DoVoteRequest 4; DoVoteReply 0; DoCountVote "node5" 1 "node4"].

Definition leadership (w : world) (id : string) : option (NodeState * Z) :=
  (fun p => (State (p_node p), CurrentTerm (p_node p))) <$> procs w !! id.

(** C32: Restarting nodes with orrisctl spawn breaks election safety in a cluster of
    five: after node1 and node2 were spawned, with the peer list of a three-node
    cluster, there is a run in which node1 and node5 both lead term 1. *)
Theorem spawn_two_leaders :
  exists w, rtc step (spawn (spawn (clusterStart 5 (fun _ => [])) ["SPAWN"; "node1"]) ["SPAWN"; "2"]) w /\
    leadership w "node1" = Some (Leader, 1) /\ leadership w "node5" = Some (Leader, 1).
Proof.
  exists (after respawned splitVote). split; [apply after_steps|].
  split; vm_compute; reflexivity.
Qed.
