(* ===== verification/Daemon.v ===== *)
(** * The daemon ([cmd/orrisd/main.go]) and the listeners

    [orrisd] reads its flags, opens the log, builds the node and listens on two
    addresses.  What the operating system grants it is the record [daemonEnv].
    [StartRPCServer] and [StartClientServer] accept connections in a loop. *)

From Stdlib Require Import Strings.Ascii.
From stdpp Require Import base gmap strings list fin_maps.
From S2P Require Import Prelude Types Kv Wal State Recovery Election Replication Apply Server Text Cluster ClusterRun Launch.

(** ** Package [flag] *)

Inductive flagValue := StringFlag (s : string) | BoolFlag (b : bool).

Inductive flagError := ErrHelp | BadSyntax | NotDefined (name : string) | NeedsArgument (name : string) | BadBool (value : string).

(** [strconv.ParseBool] *)
Definition ParseBool (s : string) : option bool :=
  if bool_decide (s ∈ ["1"; "t"; "T"; "TRUE"; "true"; "True"]) then Some true
  else if bool_decide (s ∈ ["0"; "f"; "F"; "FALSE"; "false"; "False"]) then Some false
  else None.

(** [flag.Parse]: the flags by name, first with their defaults; the arguments
    that are left. *)
Fixpoint parseFlags (flags : gmap string flagValue) (args : list string) : gmap string flagValue * list string + flagError :=
  match args with
  | [] => inl (flags, [])
  | s :: rest =>
      match to_bytes s with
      | c :: ((d :: body) as one) =>
          if negb (bool_decide (c = "-"%char)) then inl (flags, args)
          else if bool_decide (one = ["-"%char]) then inl (flags, rest)
          else
            let name := if bool_decide (d = "-"%char) then body else one in
            if bool_decide (head name = Some "-"%char) || bool_decide (head name = Some "="%char) then inr BadSyntax
            else
              let '(name, value) := cut "="%char name in
              let name := of_bytes name in
              match flags !! name with
              | None => inr (if bool_decide (name = "help" \/ name = "h") then ErrHelp else NotDefined name)
              | Some (BoolFlag _) =>
                  match value with
                  | None => parseFlags (<[name := BoolFlag true]> flags) rest
                  | Some v => match ParseBool (of_bytes v) with
                              | Some b => parseFlags (<[name := BoolFlag b]> flags) rest
                              | None => inr (BadBool (of_bytes v))
                              end
                  end
              | Some (StringFlag _) =>
                  match value, rest with
                  | Some v, _ => parseFlags (<[name := StringFlag (of_bytes v)]> flags) rest
                  | None, v :: rest => parseFlags (<[name := StringFlag v]> flags) rest
                  | None, [] => inr (NeedsArgument name)
                  end
              end
      | _ => inl (flags, args)
      end
  end.

Definition stringFlag (flags : gmap string flagValue) (name : string) : string :=
  match flags !! name with Some (StringFlag s) => s | _ => "" end.
Definition boolFlag (flags : gmap string flagValue) (name : string) : bool :=
  match flags !! name with Some (BoolFlag b) => b | _ => false end.

(** [flag.CommandLine] exits on an error, with a message on the standard error
    output. *)
Definition flagExit (e : flagError) : Z := match e with ErrHelp => 0 | _ => 2 end.

(** ** [orrisd] *)

Definition daemonFlags : gmap string flagValue := list_to_map
  [("id", StringFlag "node1"); ("addr", StringFlag "127.0.0.1:8001"); ("client", StringFlag "127.0.0.1:9001");
   ("peers", StringFlag ""); ("data", StringFlag "./data/node1"); ("log", StringFlag ""); ("version", BoolFlag false)].

Example parse_examples :
  match parseFlags daemonFlags ["-id"; "a"; "--peers=x=y"; "-version"; "rest"; "-id"; "b"] with
  | inl (flags, rest) => (stringFlag flags "id", stringFlag flags "peers", boolFlag flags "version", rest)
  | inr _ => ("", "", false, [])
  end = ("a", "x=y", true, ["rest"; "-id"; "b"]) /\
  parseFlags daemonFlags ["-x"] = inr (NotDefined "x") /\ parseFlags daemonFlags ["-version=7"] = inr (BadBool "7").
Proof. vm_compute. done. Qed.

(** What the operating system allows: directories that can be made, log files
    that can be opened, addresses that can be listened on, files that can be
    written. *)
Record daemonEnv W := mkDaemonEnv {
  can_mkdir : string -> bool;
  open_wal : string -> W + error;
  can_listen : string -> bool;
  can_append : string -> bool }.
Arguments mkDaemonEnv {W}. Arguments can_mkdir {W}. Arguments open_wal {W}. Arguments can_listen {W}. Arguments can_append {W}.

(** The process ends with a code and what it printed, or waits for a signal:
    the node, the addresses it listens on and the file its log output goes to. *)
Inductive daemon W :=
| Exit (code : Z) (out : string)
| Running (n : Node W) (rpcAddr clientAddr : string) (logFile : option string).
Arguments Exit {W}. Arguments Running {W}.

Definition versionLine : string := ("orrisd version " ++ "1.0.0" ++ " (zero-dependency Raft distributed KV)" ++ newline)%string.

Section daemon.
Context {W : Type} `{WalOps W}.

Definition orrisdMain (env : daemonEnv W) (args : list string) : daemon W :=
  match parseFlags daemonFlags args with
  | inr e => Exit (flagExit e) ""
  | inl (flags, _) =>
      let id := stringFlag flags "id" in
      let addr := stringFlag flags "addr" in
      let clientAddr := stringFlag flags "client" in
      let dataDir := stringFlag flags "data" in
      let logFile := stringFlag flags "log" in
      if boolFlag flags "version" then Exit 0 versionLine
      else
        let logTo := if bool_decide (logFile <> "") && can_append env logFile then Some logFile else None in
        if negb (can_mkdir env dataDir) then Exit 1 ""
        else
          match orrisd id addr (stringFlag flags "peers") (open_wal env (Join [dataDir; "wal.log"])) with
          | inr _ => Exit 1 ""
          | inl n =>
              if negb (can_listen env addr) then Exit 1 ""
              else if negb (can_listen env clientAddr) then Exit 1 ""
              else Running n addr clientAddr logTo
          end
  end.

(** After SIGINT or SIGTERM. *)
Definition orrisdSignal (d : daemon W) : daemon W :=
  match d with
  | Exit code out => Exit code out
  | Running n rpcAddr clientAddr logFile => Running (Stop n) rpcAddr clientAddr logFile
  end.
End daemon.

(** ** Accepting connections *)

(** A result of [ln.Accept]: a connection, or an error with whether [stopCh] is
    closed. *)
Inductive accepted (C : Type) := Accepted (c : C) | AcceptError (stopping : bool).
Arguments Accepted {C}. Arguments AcceptError {C}.

(** The connections that get a goroutine. *)
Fixpoint acceptLoop {C} (events : list (accepted C)) : list C :=
  match events with
  | [] => []
  | Accepted c :: events => c :: acceptLoop events
  | AcceptError true :: _ => []
  | AcceptError false :: events => acceptLoop events
  end.

(** [None] is the error of [net.Listen]; the goroutines run [handleConn] and
    [handleClient]. *)
Definition StartRPCServer {C} (listening : bool) (events : list (accepted C)) : option (list C) :=
  if listening then Some (acceptLoop events) else None.
Definition StartClientServer {C} (listening : bool) (events : list (accepted C)) : option (list C) :=
  if listening then Some (acceptLoop events) else None.

(** An error that is not the end of the server loses no connection. *)
Lemma acceptLoop_errors {C} (a b : list (accepted C)) :
  acceptLoop (a ++ AcceptError false :: b) = acceptLoop (a ++ b).
Proof. induction a as [|[c|[|]] a IH]; simpl; congruence. Qed.

(** ** What [orrisctl] starts is what [orrisd] runs *)

Definition clientAddr (i : Z) : string := ("127.0.0.1:" ++ decimal (9000 + i))%string.
Definition dataPath (i : Z) : string := ("./data/node" ++ decimal i)%string.
Definition logPath (i : Z) : string := ("node" ++ decimal i ++ ".log")%string.

(** The arguments of [exec.Command] in [clusterStartSingleNode]. *)
Definition launchArgs (i totalCount : Z) : list string :=
  ["-id"; nodeName i; "-addr"; nodeAddr i; "-client"; clientAddr i; "-peers"; peersArg i totalCount;
   "-data"; dataPath i; "-log"; logPath i].

(** The file [orrisctl wal] shows for a node. *)
Definition walPathOf (i : Z) : string := Join ["data"; nodeName i; "wal.log"].

Lemma parse_launch id addr client peers data log :
  exists flags, parseFlags daemonFlags ["-id"; id; "-addr"; addr; "-client"; client; "-peers"; peers; "-data"; data; "-log"; log]
    = inl (flags, []) /\
  (stringFlag flags "id" = id /\ stringFlag flags "addr" = addr /\ stringFlag flags "client" = client) /\
  (stringFlag flags "peers" = peers /\ stringFlag flags "data" = data /\ stringFlag flags "log" = log) /\
  boolFlag flags "version" = false.
Proof. eexists. split; [vm_compute; reflexivity|]. vm_compute. done. Qed.

(** A name is an element of its own. *)
Lemma Clean_elems (items : list string) :
  Forall (fun x => "/"%char ∉ to_bytes x) items -> head items <> Some "" -> items <> [] ->
  Clean (String.concat "/" items) =
  let elems := reverse (foldl (cleanStep false) [] (map to_bytes items)) in
  if bool_decide (elems = []) then "." else String.concat "/" (map of_bytes elems).
Proof.
  intros Hi Hh Hn. destruct items as [|x items]; [done|]. unfold Clean.
  rewrite (Split_concat "/" [] "/"%char []); [|done|apply not_elem_of_nil|done|done].
  assert (HasPrefix (to_bytes (String.concat "/" (x :: items))) ["/"%char] = false) as ->; [|done].
  unfold HasPrefix. apply bool_decide_eq_false_2. intros [rest E]. destruct x as [|c x]; [by destruct (Hh eq_refl)|].
  apply (proj1 (Forall_forall _ _) Hi (String c x)); [left|].
  destruct items; injection E as ->; left.
Qed.

Lemma data_dir_wal i : Join [dataPath i; "wal.log"] = walPathOf i.
Proof.
  assert ("/"%char ∉ to_bytes (nodeName i)) as Hn by by apply absent_name.
  unfold walPathOf, Join. rewrite !bool_decide_eq_false_2 by done.
  change (String.concat "/" [dataPath i; "wal.log"]) with (dataPath i ++ "/wal.log")%string.
  assert (dataPath i ++ "/wal.log" = String.concat "/" ["."; "data"; nodeName i; "wal.log"])%string as ->
    by (unfold dataPath, nodeName; cbn; by rewrite <- !string_app_assoc).
  rewrite !Clean_elems; try done;
    try (repeat constructor; first [exact Hn | by_decision]).
Qed.

(** ** A started node *)

Section started.
Context {W : Type} `{WalOps W}.

(** C38: What orrisctl starts is what orrisd runs: from the arguments orrisctl passes,
    orrisd parses the flags back and, unless the system refuses a directory, the log or
    an address, runs the node Launch describes, listening on the two addresses orrisctl
    prints, on the log file that orrisctl wal shows. *)
Theorem started_daemon (env : daemonEnv W) i totalCount :
  orrisdMain env (launchArgs i totalCount) =
  if can_mkdir env (dataPath i) then
    match clusterStartSingleNode i totalCount (open_wal env (walPathOf i)) with
    | inr _ => Exit 1 ""
    | inl n =>
        if can_listen env (nodeAddr i) && can_listen env (clientAddr i) then
          Running n (nodeAddr i) (clientAddr i) (if can_append env (logPath i) then Some (logPath i) else None)
        else Exit 1 ""
    end
  else Exit 1 "".
Proof.
  unfold orrisdMain, launchArgs.
  destruct (parse_launch (nodeName i) (nodeAddr i) (clientAddr i) (peersArg i totalCount) (dataPath i) (logPath i))
    as (flags & -> & (-> & -> & ->) & (-> & -> & ->) & ->).
  rewrite data_dir_wal, bool_decide_eq_true_2 by done. unfold clusterStartSingleNode.
  destruct (can_mkdir env _); [|done]. destruct (orrisd _ _ _ _); [|done]. simpl.
  destruct (can_listen env (nodeAddr i)), (can_listen env (clientAddr i)); done.
Qed.
End started.
