(* ===== verification/Console.v ===== *)
(** * What [orrisctl] prints about a cluster ([cmd/orrisctl/main.go])

    The tables and lists of [displayPing], [displayLeader], [displayStatus],
    [displayKeys], [displayLogs], [displayNodeWAL], [displayAllWALs] and
    [renderDashboard], as functions from what [queryCluster] has read (or from
    the records of the log files) to the text on the terminal.  The measured
    latencies and the time of day are inputs: [latency n] is the text of the
    rounded [n.Latency]. *)

From Stdlib Require Import Strings.Ascii.
From stdpp Require Import base gmap strings list sorting fin_maps.
From S2P Require Import Prelude Types Kv Wal State Recovery Election Replication Apply Server Text Format Cluster ClusterRun Ctl.

(** [fmt.Printf] of consecutive pieces. *)
Definition cat (pieces : list string) : string := String.concat "" pieces.
Definition line (pieces : list string) : string := (cat pieces ++ newline)%string.

(** ** Ping, leader and status *)

Section tables.
Context (latency : NodeInfo.t -> string).

Definition pingRow (n : NodeInfo.t) : string :=
  if NodeInfo.Online n then
    line [" "; colorGreen; "* Node "; NodeInfo.ID n; colorReset; " ("; NodeInfo.Addr n; ") -> "; colorBold; colorGreen;
          "PONG"; colorReset; " in "; colorYellow; latency n; colorReset]
  else
    line [" "; colorRed; "* Node on "; NodeInfo.Addr n; colorReset; " -> "; colorRed; "[OFFLINE]"; colorReset].

Definition displayPing (nodes : list NodeInfo.t) : string :=
  cat ([newline; line [colorBold; colorCyan; "=== CLUSTER PING & LATENCY ==="; colorReset]] ++ map pingRow nodes ++ [newline]).

Definition isLeader (n : NodeInfo.t) : bool := NodeInfo.Online n && bool_decide (NodeInfo.Role n = "LEADER").

Definition displayLeader (nodes : list NodeInfo.t) : string :=
  match filter (fun n => isLeader n = true) nodes with
  | n :: _ =>
      line [colorBold; colorGreen; "[LEADER]"; colorReset; " Node "; NodeInfo.ID n; " on "; NodeInfo.Addr n; " (Term: ";
            decimal (NodeInfo.Term n); ", CommitIndex: "; decimal (NodeInfo.CommitIndex n); ")"]
  | [] => line [colorYellow; "No active leader detected."; colorReset]
  end.

Definition statusRow (n : NodeInfo.t) : string :=
  if NodeInfo.Online n then
    let badgeColor := if bool_decide (NodeInfo.Role n = "LEADER") then colorGreen
                      else if bool_decide (NodeInfo.Role n = "CANDIDATE") then colorYellow else colorBlue in
    line ["   "; padTo 8 (NodeInfo.ID n); " | "; padTo 16 (NodeInfo.Addr n); " | "; badgeColor; padTo 10 (NodeInfo.Role n);
          colorReset; " | "; padD 6 (NodeInfo.Term n); " | "; padD 12 (NodeInfo.CommitIndex n); " | ";
          padD 12 (NodeInfo.LastApplied n); " | "; padTo 8 (latency n)]
  else
    line ["   "; padTo 8 "-"; " | "; padTo 16 (NodeInfo.Addr n); " | "; colorRed; padTo 10 "OFFLINE"; colorReset; " | ";
          padTo 6 "-"; " | "; padTo 12 "-"; " | "; padTo 12 "-"; " | "; padTo 8 "-"].

Definition displayStatus (nodes : list NodeInfo.t) : string :=
  cat ([newline; line [colorBold; colorCyan; "=== CLUSTER STATUS MATRIX ==="; colorReset];
        line ["   "; padTo 8 "NODE"; " | "; padTo 16 "CLIENT ADDR"; " | "; padTo 10 "ROLE"; " | "; padTo 6 "TERM"; " | ";
              padTo 12 "COMMIT IDX"; " | "; padTo 12 "LAST APPLIED"; " | "; padTo 8 "LATENCY"];
        line ["   "; dashes 82]] ++ map statusRow nodes ++ [newline]).

(** ** Keys *)

(** [slices.Sort] on strings: bytewise. *)
Definition strLe (a b : string) : Prop := String.leb a b = true.
#[local] Instance strLe_dec : RelDecision strLe.
Proof. intros a b. unfold strLe. apply _. Defined.

Definition sortStrings (l : list string) : list string := merge_sort strLe l.

(** [allKeys]: for every key, the value by node name; of two nodes of one name
    the later one counts. *)
Definition addValue (id : string) (k v : string) (m : gmap string (gmap string string)) : gmap string (gmap string string) :=
  <[k := <[id := v]> (default ∅ (m !! k))]> m.

Definition allKeysOf (nodes : list NodeInfo.t) : gmap string (gmap string string) :=
  foldl (fun m n => if NodeInfo.Online n then map_fold (addValue (NodeInfo.ID n)) m (NodeInfo.Keys n) else m) ∅ nodes.

Definition keyCells (nodes : list NodeInfo.t) (byNode : gmap string string) : list string :=
  omap (fun n => if NodeInfo.Online n
                 then (fun v => cat [NodeInfo.ID n; ":"; v]) <$> byNode !! NodeInfo.ID n else None) nodes.

Definition displayKeys (nodes : list NodeInfo.t) : string :=
  let allKeys := allKeysOf nodes in
  if bool_decide (allKeys = ∅) then line ["No keys stored in cluster."]
  else
    cat ([newline; line [colorBold; colorCyan; "=== ALL KEYS MATRIX ==="; colorReset]] ++
         map (fun k => line ["   • "; colorBold; padTo 16 k; colorReset; " -> ";
                             joinBar (keyCells nodes (default ∅ (allKeys !! k)))])
             (sortStrings (elements (dom allKeys))) ++ [newline]).

(** ** Logs *)

(** [highestCommit] and [primaryLogs]: the largest commit index, and the first
    of the longest logs, of the nodes that are online. *)
Definition highestCommit (nodes : list NodeInfo.t) : Z :=
  foldl (fun h n => if NodeInfo.Online n && (NodeInfo.CommitIndex n >? h) then NodeInfo.CommitIndex n else h) (-1) nodes.

Definition primaryLogs (nodes : list NodeInfo.t) : list string :=
  foldl (fun l n => if NodeInfo.Online n && (length l <? length (NodeInfo.Logs n))%nat then NodeInfo.Logs n else l) [] nodes.

Definition isDelete (item : LogItem.t) : bool :=
  bool_decide (LogItem.Op item = "DELETE") || bool_decide (LogItem.Op item = "DEL").

Definition payloadOf (item : LogItem.t) : string :=
  shorten 32 29 (if isDelete item then LogItem.Key item else cat [LogItem.Key item; " = "; LogItem.Val item]).

Definition commitStatus (highest : Z) (item : LogItem.t) : string :=
  if LogItem.Index item >? highest then cat [colorYellow; "[UNCOMMITTED]"; colorReset]
  else cat [colorGreen; "[COMMITTED]"; colorReset].

Definition logRow (highest : Z) (raw : string) : string :=
  match parseLogItem (to_bytes raw) with
  | (_, false) => ""
  | (item, true) =>
      line ["   "; padTo 8 (cat ["#"; decimal (LogItem.Index item)]); " | ";
            padTo 8 (cat ["Term "; decimal (LogItem.Term item)]); " | "; padTo 8 (LogItem.Op item); " | ";
            padTo 32 (payloadOf item); " | "; padTo 12 (commitStatus highest item)]
  end.

Definition displayLogs (nodes : list NodeInfo.t) : string :=
  match primaryLogs nodes with
  | [] => line ["Log is empty."]
  | logs =>
      cat ([newline; line [colorBold; colorCyan; "=== FULL REPLICATED LOG TIMELINE ("; decimal (len logs); " Entries) ==="; colorReset];
            line ["   "; padTo 8 "INDEX"; " | "; padTo 8 "TERM"; " | "; padTo 8 "OP"; " | "; padTo 32 "KEY / VALUE"; " | ";
                  padTo 12 "STATUS"];
            line ["   "; dashes 76]] ++ map (logRow (highestCommit nodes)) logs ++ [newline])
  end.

(** ** The dashboard *)

Definition nodeBlock (i : nat) (n : NodeInfo.t) : string :=
  if NodeInfo.Online n then
    let roleBadge := if bool_decide (NodeInfo.Role n = "LEADER") then cat [bgGreen; " [LEADER] "; colorReset]
                     else if bool_decide (NodeInfo.Role n = "CANDIDATE") then cat [bgYellow; " [CANDIDATE] "; colorReset]
                     else cat [bgBlue; " [FOLLOWER] "; colorReset] in
    cat [line [" "; colorGreen; "* Node "; NodeInfo.ID n; colorReset; " on "; colorCyan; NodeInfo.Addr n; colorReset;
               " (ping: "; colorDim; latency n; colorReset; ")"];
         line ["   Role: "; roleBadge; "   Term: "; colorBold; decimal (NodeInfo.Term n); colorReset; "   CommitIndex: ";
               colorBold; decimal (NodeInfo.CommitIndex n); colorReset; "   Applied: "; colorBold;
               decimal (NodeInfo.LastApplied n); colorReset; "   LogEntries: "; colorBold; decimal (NodeInfo.LogLen n);
               colorReset]; newline]
  else
    let name := if bool_decide (NodeInfo.ID n = "") then cat ["Node "; decimal (Z.of_nat i + 1)] else NodeInfo.ID n in
    cat [line [" "; colorRed; "* "; name; colorReset; " ("; NodeInfo.Addr n; ")"];
         line ["   Status: "; bgRed; "[OFFLINE / STOPPED]"; colorReset; "  (Run 'spawn "; decimal (Z.of_nat i + 1);
               "' to restart)"]; newline].

(** The keys of the nodes that are online. *)
Definition onlineKeys (nodes : list NodeInfo.t) : gset string :=
  foldl (fun s n => if NodeInfo.Online n then dom (NodeInfo.Keys n) ∪ s else s) ∅ nodes.

Definition valueCell (k : string) (n : NodeInfo.t) : string :=
  if negb (NodeInfo.Online n) then cat [" | "; colorRed; padTo 16 "OFFLINE"; colorReset]
  else match NodeInfo.Keys n !! k with
       | Some v => cat [" | "; colorGreen; padTo 16 (shorten 16 13 v); colorReset]
       | None => cat [" | "; colorDim; padTo 16 "<nil>"; colorReset]
       end.

Definition keyTable (nodes : list NodeInfo.t) : string :=
  if bool_decide (onlineKeys nodes = ∅) then
    line ["   "; colorDim; "(No keys stored yet — use 'set <key> <value>' to write data)"; colorReset; newline]
  else
    let header := cat (["   "; padTo 16 "KEY"] ++
      map (fun n => cat [" | "; padTo 16 (if bool_decide (NodeInfo.ID n = "") then NodeInfo.Addr n else NodeInfo.ID n)]) nodes) in
    cat ([line [header]; line ["   "; dashes (length (to_bytes header) - 3)]] ++
         map (fun k => line (["   "; padTo 16 k] ++ map (valueCell k) nodes)) (sortStrings (elements (onlineKeys nodes))) ++
         [newline]).

Definition recentRow (highest : Z) (raw : string) : string :=
  match parseLogItem (to_bytes raw) with
  | (_, false) => ""
  | (item, true) =>
      let opColor := if isDelete item then colorRed else colorGreen in
      line ["   "; padTo 8 (cat ["#"; decimal (LogItem.Index item)]); " | ";
            padTo 8 (cat ["Term "; decimal (LogItem.Term item)]); " | ";
            padTo 16 (cat [opColor; padTo 6 (LogItem.Op item); colorReset]); " | ";
            padTo 32 (payloadOf item); " | "; padTo 12 (commitStatus highest item)]
  end.

(** The last six entries. *)
Definition recentLogs (logs : list string) : list string := drop (length logs - 6) logs.

Definition logTable (nodes : list NodeInfo.t) : string :=
  match primaryLogs nodes with
  | [] =>
      cat [line [colorBold; colorWhite; "--- [ RAFT WAL & LOG ENTRIES ] "; dashes 56; colorReset];
           line ["   "; colorDim; "(Log is empty)"; colorReset; newline]]
  | logs =>
      cat ([line [colorBold; colorWhite; "--- [ RAFT WAL & LOG ENTRIES (Recent "; decimal (len (recentLogs logs)); " of ";
                  decimal (len logs); " Entries) ] "; dashes 32; colorReset];
            line ["   "; padTo 8 "INDEX"; " | "; padTo 8 "TERM"; " | "; padTo 8 "OP"; " | "; padTo 32 "KEY / VALUE"; " | ";
                  padTo 12 "COMMIT STATE"];
            line ["   "; dashes 76]] ++ map (recentRow (highestCommit nodes)) (recentLogs logs) ++
           [line ["   "; colorDim; "(All active nodes synchronized • Type 'wals' to view all "; decimal (len logs);
                  " node WAL records)"; colorReset; newline]])
  end.

Definition renderDashboard (now : string) (nodes : list NodeInfo.t) : string :=
  let bar86 := cat (repeat "═" 86) in
  cat ([clearScreen; line [colorBold; colorCyan; "╔"; bar86; "╗"; colorReset];
        line [colorBold; colorCyan; "║  ORRIS CLUSTER VISUALIZER  [Zero-Dependency Raft Consensus]          "; colorYellow;
              "TIME: "; now; "  ║"; colorReset];
        line [colorBold; colorCyan; "╚"; bar86; "╝"; colorReset; newline];
        line [colorBold; colorWhite; "--- [ CLUSTER NODES & RAFT STATE ] "; dashes 51; colorReset]] ++
       imap nodeBlock nodes ++
       [line [colorBold; colorWhite; "--- [ REPLICATED STATE MACHINE (KV STORE) ] "; dashes 43; colorReset];
        keyTable nodes; logTable nodes]).
End tables.

(** ** Log files *)

(** What [os.Stat], [OpenWAL] and [ReadAll] give for a log file; a string is
    the text of an error. *)
Inductive walFile :=
| NotFound (err : string)
| NotOpened (size : Z) (err : string)
| NotRead (size : Z) (records : list WALRecord) (err : string)
| ReadRecords (size : Z) (records : list WALRecord).

Definition walRow (i : nat) (r : WALRecord) : string :=
  let t := WALRecord.Type_ r in
  let '(typeColor, votedCommit, payload) :=
    if bool_decide (t = RecordState) then
      (colorBlue, cat ["Voted:"; WALRecord.VotedFor r], cat ["Term state set to "; decimal (WALRecord.Term r)])
    else if bool_decide (t = RecordCommit) then
      (colorGreen, cat ["CommitIdx:"; decimal (WALRecord.CommitIndex r)],
       cat ["Advanced CommitIndex to "; decimal (WALRecord.CommitIndex r)])
    else if bool_decide (t = RecordTruncate) then
      (colorRed, cat ["TruncTo:"; decimal (WALRecord.CommitIndex r)],
       cat ["Log truncated after index "; decimal (WALRecord.CommitIndex r)])
    else if bool_decide (t = RecordEntry) then
      match WALRecord.Entry r with
      | Some e => (colorYellow, cat ["Idx:"; decimal (LogEntry.Index e); " T"; decimal (LogEntry.Term e)],
                   cat [LogEntry.Operation e; " "; LogEntry.Key e; " = "; LogEntry.Value e])
      | None => (colorYellow, "-", "-")
      end
    else (colorWhite, "-", "-") in
  line ["   "; padD 6 (Z.of_nat i + 1); " | "; typeColor; padTo 10 t; colorReset; " | "; padD 8 (WALRecord.Term r); " | ";
        padTo 12 votedCommit; " | "; padTo 32 payload].

(** [nodeTarget] made a node name. *)
Definition targetName (target : bytes) : bytes :=
  let t := ToLower (TrimSpace target) in
  if HasPrefix t (to_bytes "node") then t else to_bytes "node" ++ t.

(** [ToUpper] is exact on names without other letters than ASCII ones. *)
Definition displayNodeWAL (nodeTarget : bytes) (read : string -> walFile) : string :=
  let name := targetName nodeTarget in
  let walPath := Join ["data"; of_bytes name; "wal.log"] in
  match read walPath with
  | NotFound err => line [colorRed; "[ERR] WAL file not found at "; walPath; ": "; err; colorReset]
  | NotOpened _ err => line [colorRed; "[ERR] Failed to open WAL at "; walPath; ": "; err; colorReset]
  | NotRead _ _ err => line [colorRed; "[ERR] Failed to read WAL records: "; err; colorReset]
  | ReadRecords size records =>
      cat ([newline; line [colorBold; colorCyan; "=== ON-DISK WAL INSPECTION: "; of_bytes (ToUpper name); " ("; walPath; ", ";
                           decimal size; " bytes) ==="; colorReset];
            line ["   "; padTo 6 "#"; " | "; padTo 10 "REC TYPE"; " | "; padTo 8 "TERM"; " | "; padTo 12 "VOTED / COMMIT"; " | ";
                  padTo 32 "PAYLOAD / LOG ENTRY"];
            line ["   "; dashes 80]] ++ imap walRow records ++
           [newline; line ["   "; colorGreen; "Total on-disk records: "; decimal (len records);
                           " (All CRC32 checksums verified)"; colorReset; newline]])
  end.

Definition lastTermOf (records : list WALRecord) : Z :=
  foldl (fun t r => if WALRecord.Term r >? t then WALRecord.Term r else t) 0 records.

Definition entriesCount (records : list WALRecord) : Z :=
  len (filter (fun r => WALRecord.Type_ r = RecordEntry) records).

(** A file that cannot be found or opened is left out; an error of [ReadAll]
    is not looked at. *)
Definition walSummary (read : string -> walFile) (i : Z) : string :=
  let nodeID := cat ["node"; decimal i] in
  let row size records :=
    line ["   "; padTo 10 nodeID; " | "; padTo 12 (cat [decimal size; " B"]); " | "; padD 10 (len records); " | ";
          padD 12 (lastTermOf records); " | "; padD 16 (entriesCount records)] in
  match read (Join ["data"; nodeID; "wal.log"]) with
  | NotFound _ | NotOpened _ _ => ""
  | NotRead size records _ | ReadRecords size records => row size records
  end.

Definition displayAllWALs (read : string -> walFile) : string :=
  cat ([newline; line [colorBold; colorCyan; "=== ALL NODE WRITE-AHEAD LOG (WAL) COMPARISON ==="; colorReset];
        line ["   "; padTo 10 "NODE"; " | "; padTo 12 "DISK SIZE"; " | "; padTo 10 "RECORDS"; " | "; padTo 12 "LAST TERM"; " | ";
              padTo 16 "LOG ENTRIES"];
        line ["   "; dashes 72]] ++ map (walSummary read) (seqZ 1 10) ++
       [newline; line ["   "; colorDim; "(Type 'wal <node>' e.g. 'wal node1' to inspect raw ledger records)"; colorReset; newline]]).

(** ** A log of two leaders

    n1 leads term 1 and has two entries that reach nobody; n3 leads term 2 and
    commits another entry at index 0 with n2. *)

Definition setY : ClientReq := ClientReq.mk OpSet "y" "9" 1.

Definition twoLeaders : list action :=
  electN1 ++ [DoClient "n1" setX; DoClient "n1" setX] ++
  [DoTimeout "n3"; DoVoteRequest 1; DoVoteReply 0; DoCountVote "n3" 2 "n2";
   DoClient "n3" setY; DoHeartbeats "n3"; DoReplicate "n3" 1; DoAppendRequest 0; DoAppendReply 0].

(** The nodes of a cluster, each under its own name as its address. *)
Definition viewOf (w : world) (addr : string) (i : nat) : conn :=
  p ← procs w !! addr; Some (serve (fun _ => p_node p) (map_to_list (GetAllKeys (p_node p))) None).

Definition committedAt (w : world) (id : string) (i : nat) : option LogEntry :=
  p ← procs w !! id; if Z.of_nat i <=? CommitIndex (p_node p) then Log (p_node p) !! i else None.

Definition shownRow (index term op payload status : string) : string :=
  line ["   "; padTo 8 index; " | "; padTo 8 term; " | "; padTo 8 op; " | "; padTo 32 payload; " | "; padTo 12 status].

(** C40: The log view can call an entry committed that is not: there is a reachable
    cluster in which an entry is committed at index 0, while orrisctl logs shows a
    different entry at that index, from the longer log of a deposed leader, as
    [COMMITTED]. *)
Theorem stale_log_shown_committed :
  exists w, reachable three local w /\
    map (fun id => committedAt w id 0) ["n1"; "n2"; "n3"] = [None; None; Some (LogEntry.mk 0 2 OpSet "y" "9")] /\
    displayLogs (queryCluster (viewOf w) ["n1"; "n2"; "n3"]) =
      cat [newline; line [colorBold; colorCyan; "=== FULL REPLICATED LOG TIMELINE (2 Entries) ==="; colorReset];
           shownRow "INDEX" "TERM" "OP" "KEY / VALUE" "STATUS"; line ["   "; dashes 76];
           shownRow "#0" "Term 1" "SET" "x = 1" (cat [colorGreen; "[COMMITTED]"; colorReset]);
           shownRow "#1" "Term 1" "SET" "x = 1" (cat [colorYellow; "[UNCOMMITTED]"; colorReset]); newline].
Proof.
  exists (after start3 twoLeaders). split; [apply after_steps|]. split; [vm_compute; reflexivity|].
  vm_compute. reflexivity.
Qed.
