(* ===== verification/Shell.v ===== *)
(** * The commands of [orrisctl] ([cmd/orrisctl/main.go])

    [cliCommand] and [parseLine] read a command from the arguments or from a
    line of the interactive prompt; the other definitions carry it out.  They
    are programs of the monad [io]: what the machine does is the class
    [Machine], what is printed is collected.  A command that refreshes the
    screen until it is interrupted gets the number of refreshes as an
    argument. *)

From Stdlib Require Import Strings.Ascii.
From stdpp Require Import base gmap strings list list_numbers fin_maps.
From S2P Require Import Prelude Types Kv Wal State Recovery Election Replication Apply Server Text Format Ctl Bench Cluster ClusterRun Launch Daemon Console.

(** ** Commands *)

Inductive command :=
| CmdStart (count : Z)
| CmdStop
| CmdKillLeader
| CmdKill (target : string)
| CmdSpawn (num totalCount : Z)
| CmdWals
| CmdWal (target : string)
| CmdBench (total concurrency : Z)
| CmdPing
| CmdLeader
| CmdStatus
| CmdKeys
| CmdLogs
| CmdDemo
| CmdClusterUsage
| CmdDashboard
| CmdRepl
| CmdRouted (cmd : string) (args : list string)
| CmdSingle (cmd : string) (args : list string).

(** [if len(args) > i { if c, err := strconv.Atoi(args[i]); err == nil && c > 0 ... }] *)
Definition positiveArg (args : list string) (i : nat) (d : Z) : Z :=
  match args !! i with
  | None => d
  | Some a => let '(c, ok) := Atoi (to_bytes a) in if ok && (c >? 0) then c else d
  end.

Definition upper (s : string) : string := of_bytes (ToUpper (to_bytes s)).
Definition lower (s : string) : string := of_bytes (ToLower (to_bytes s)).

(** The switch of [main], for at least one argument. *)
Definition cliCommand (args : list string) : command :=
  let cmd := upper (default "" (head args)) in
  let among words := bool_decide (cmd ∈ words) in
  if among ["START"; "UP"] then CmdStart (positiveArg args 1 3)
  else if among ["STOP"; "DOWN"] then CmdStop
  else if among ["KILL-LEADER"; "KILLLEADER"] then CmdKillLeader
  else if among ["KILL"] then CmdKill (default "leader" (args !! 1%nat))
  else if among ["SPAWN"; "START-NODE"; "RESTART"] then CmdSpawn (spawnNum args) 3
  else if among ["WALS"; "WAL"] then match args !! 1%nat with Some t => CmdWal t | None => CmdWals end
  else if among ["BENCH"; "BENCHMARK"] then CmdBench (positiveArg args 1 50) (positiveArg args 2 5)
  else if among ["PING"] then CmdPing
  else if among ["LEADER"] then CmdLeader
  else if among ["STATUS"; "INFO"] then CmdStatus
  else if among ["KEYS"] then CmdKeys
  else if among ["LOGS"; "LOG"] then CmdLogs
  else if among ["DEMO"] then CmdDemo
  else if among ["CLUSTER"] then
    match args !! 1%nat with
    | None => CmdClusterUsage
    | Some a =>
        let sub := upper a in
        if bool_decide (sub ∈ ["START"; "UP"]) then CmdStart (positiveArg args 2 3)
        else if bool_decide (sub ∈ ["STOP"; "DOWN"]) then CmdStop
        else if bool_decide (sub = "KILL-LEADER") then CmdKillLeader
        else CmdClusterUsage
    end
  else if among ["RUN"; "LIVE"; "DASHBOARD"; "TOP"; "UI"] then CmdDashboard
  else if among ["REPL"; "INTERACTIVE"] then CmdRepl
  else if among ["SET"; "DELETE"; "DEL"] then CmdRouted cmd (tail args)
  else CmdSingle cmd (tail args).

(** What a line typed at the prompt asks for. *)
Inductive request :=
| LineEmpty
| LineExit
| LineRefresh
| LineWatch
| LineCommand (c : command)
| LineSet (key value : string)
| LineGet (key : string)
| LineDel (key : string)
| LineUsage (usage : string)
| LineHelp
| LineUnknown (cmd : string).

(** [parts] is not empty. *)
Definition lineRequest (displayed : Z) (parts : list string) : request :=
  let cmd := lower (default "" (head parts)) in
  let among words := bool_decide (cmd ∈ words) in
  if among ["exit"; "quit"; "q"] then LineExit
  else if among ["clear"; "cls"] then LineRefresh
  else if among ["start"; "up"; "scale"] then LineCommand (CmdStart (positiveArg parts 1 3))
  else if among ["stop"; "down"] then LineCommand CmdStop
  else if among ["kill-leader"; "killleader"] then LineCommand CmdKillLeader
  else if among ["kill"] then LineCommand (CmdKill (default "leader" (parts !! 1%nat)))
  else if among ["spawn"; "start-node"; "restart-node"; "restart"] then LineCommand (CmdSpawn (spawnNum parts) displayed)
  else if among ["ping"] then LineCommand CmdPing
  else if among ["leader"] then LineCommand CmdLeader
  else if among ["status"; "info"] then LineCommand CmdStatus
  else if among ["keys"; "dump"] then LineCommand CmdKeys
  else if among ["wals"] then LineCommand CmdWals
  else if among ["wal"] then LineCommand (match parts !! 1%nat with Some t => CmdWal t | None => CmdWals end)
  else if among ["watch"; "top"] then LineWatch
  else if among ["set"] then
    match parts with
    | _ :: key :: ((_ :: _) as words) => LineSet key (String.concat " " words)
    | _ => LineUsage "set <key> <value>"
    end
  else if among ["get"] then match parts with _ :: key :: _ => LineGet key | _ => LineUsage "get <key>" end
  else if among ["del"; "delete"] then match parts with _ :: key :: _ => LineDel key | _ => LineUsage "del <key>" end
  else if among ["bench"; "benchmark"] then LineCommand (CmdBench (positiveArg parts 1 50) (positiveArg parts 2 5))
  else if among ["logs"; "log"] then LineCommand CmdLogs
  else if among ["help"; "?"] then LineHelp
  else LineUnknown cmd.

Definition parseLine (displayed : Z) (text : bytes) : request :=
  match TrimSpace text with
  | [] => LineEmpty
  | line =>
      let line := TrimSpace (TrimPrefix (TrimPrefix line (to_bytes "orris>")) (to_bytes "orris >")) in
      match line with
      | [] => LineEmpty
      | _ => lineRequest displayed (map of_bytes (Fields line))
      end
  end.

(** The commands sent for them. *)
Definition setPayload (key value : string) : string := ("SET " ++ key ++ " " ++ value)%string.
Definition getPayload (key : string) : string := ("GET " ++ key)%string.
Definition delPayload (key : string) : string := ("DEL " ++ key)%string.

Definition routedPayload (cmd : string) (args : list string) : string := (cmd ++ " " ++ String.concat " " args)%string.
Definition singlePayload (cmd : string) (args : list string) : string :=
  match args with [] => cmd | _ => (cmd ++ " " ++ String.concat " " args)%string end.

Example command_examples :
  (cliCommand ["set"; "a"; "b c"], cliCommand ["Cluster"; "start"; "5"], cliCommand ["restart"; "Node4"], cliCommand ["bench"; "x"; "7"],
   map (fun l => parseLine 3 (to_bytes l))
     ["  orris> SET  a  b   c "; "kill 2"; "spawn node5"; "set a"; ""; "orris>"; "bench 9"; "frob x"])
  = (CmdRouted "SET" ["a"; "b c"], CmdStart 5, CmdSpawn 4 3, CmdBench 50 7,
     [LineSet "a" "b c"; LineCommand (CmdKill "2"); LineCommand (CmdSpawn 5 3); LineUsage "set <key> <value>"; LineEmpty;
      LineEmpty; LineCommand (CmdBench 9 5); LineUnknown "frob"]).
Proof. vm_compute. reflexivity. Qed.

(** ** The machine *)

(** The cluster as [sendRawCommand] and [queryNode] see it, files, processes
    and the clock.  [startProcess] gives a process id or the text of an error;
    [lastError] is the text of the last network error. *)
Class Machine (M : Type) := {
  query : M -> string -> nat -> conn;
  send : M -> string -> string -> M * option string;
  readFile : M -> string -> option string;
  writeFile : string -> string -> M -> M;
  removeFile : string -> M -> M;
  isMissing : M -> string -> bool;
  mkdirAll : string -> M -> M;
  readWal : M -> string -> walFile;
  findProcess : M -> Z -> bool;
  killProcess : Z -> M -> M;
  startProcess : string -> list string -> M -> M * (Z + string);
  onWindows : bool;
  goBuild : string -> M -> M * option string;
  sleep : Z -> M -> M;
  latencyOf : M -> NodeInfo.t -> string;
  elapsed : M -> string;
  opsPerSec : M -> Z -> string;
  timeOfDay : M -> string;
  lastError : M -> string;
  scheduler : M -> nat -> nat }.

(** State and output. *)
Definition io (M A : Type) : Type := M * string -> M * string * A.

#[export] Instance io_ret M : MRet (io M) := fun A x s => (s, x).
#[export] Instance io_bind M : MBind (io M) := fun A B f c s => let '(s, x) := c s in f x s.

Definition gets {M A} (f : M -> A) : io M A := fun s => (s, f (fst s)).
Definition modify {M} (f : M -> M) : io M unit := fun s => ((f (fst s), snd s), tt).
Definition call {M A} (f : M -> M * A) : io M A := fun s => let '(m, x) := f (fst s) in ((m, snd s), x).
Definition print {M} (text : string) : io M unit := fun s => ((fst s, (snd s ++ text)%string), tt).
Definition say {M} (pieces : list string) : io M unit := print (line pieces).

Fixpoint forEach {M A} (l : list A) (f : A -> io M unit) : io M unit :=
  match l with [] => mret tt | x :: l => f x;; forEach l f end.

Section shell.
Context {M : Type} `{Machine M}.

Definition queryNodes (nodeAddrs : list string) : io M (list NodeInfo.t) := gets (fun m => queryCluster (query m) nodeAddrs).

(** [executeRouted] with the text of the latency. *)
Definition route (nodeAddrs : list string) (cmd : string) : io M (string * string * string) :=
  fun s => let '(m, res, addr) := executeRouted send (query (fst s)) (fst s) nodeAddrs cmd in
           ((m, snd s), (res, if bool_decide (res = "ERR NO_LEADER_FOUND" /\ addr = "none") then "0s" else elapsed m, addr)).

(** ** Processes *)

Definition pidFile (id : string) : string := (id ++ ".pid")%string.

(** What a pid file leads to: [None] if it cannot be read, [Some None] if it has
    no number or there is no such process. *)
Definition readPid (file : string) : io M (option (option Z)) :=
  data ← gets (fun m => readFile m file);
  match data with
  | None => mret None
  | Some data =>
      let '(pid, ok) := Atoi (TrimSpace (to_bytes data)) in
      if ok : bool then found ← gets (fun m => findProcess m pid); mret (Some (if found : bool then Some pid else None))
      else mret (Some None)
  end.

(** One round of the loops of [clusterStop] and [clusterStopSilent]; 1 for a
    process that was stopped. *)
Definition stopNode (report : Z -> Z -> io M unit) (i : Z) : io M Z :=
  p ← readPid (pidFile (nodeName i));
  match p with
  | None => mret 0
  | Some None => modify (removeFile (pidFile (nodeName i)));; mret 0
  | Some (Some pid) =>
      modify (killProcess pid);; report i pid;; modify (removeFile (pidFile (nodeName i)));; mret 1
  end.

Fixpoint stopNodes (report : Z -> Z -> io M unit) (l : list Z) : io M Z :=
  match l with
  | [] => mret 0
  | i :: l => a ← stopNode report i; b ← stopNodes report l; mret (a + b)
  end.

Definition clusterStopSilent : io M unit := _ ← stopNodes (fun _ _ => mret tt) (seqZ 1 20); mret tt.

Definition clusterStop : io M unit :=
  say [colorBold; colorYellow; ">>> Stopping all cluster nodes..."; colorReset];;
  stopped ← stopNodes (fun i pid => say [" "; colorGreen; "[OK]"; colorReset; " Stopped node"; decimal i; " (PID: "; decimal pid; ")"])
    (seqZ 1 20);
  if stopped =? 0 then say [colorDim; "No running nodes found."; colorReset]
  else say [colorBold; colorGreen; "[OK] All "; decimal stopped; " nodes stopped."; colorReset].

(** Kills the process of a pid file and removes the file. *)
Definition killNamed (id : string) (report : Z -> io M unit) : io M bool :=
  p ← readPid (pidFile id);
  match p with
  | Some (Some pid) => modify (killProcess pid);; modify (removeFile (pidFile id));; report pid;; mret true
  | _ => mret false
  end.

Fixpoint killFirst (nodes : list NodeInfo.t) : io M bool :=
  match nodes with
  | [] => mret false
  | n :: nodes =>
      if isLeader n then
        killed ← killNamed (NodeInfo.ID n) (fun pid =>
          say [colorBold; colorRed; "[CHAOS] Killed active leader "; NodeInfo.ID n; " ("; NodeInfo.Addr n; ", PID: "; decimal pid; ")"; colorReset]);
        if killed : bool then mret true else killFirst nodes
      else killFirst nodes
  end.

Definition clusterKillLeader (nodeAddrs : list string) : io M unit :=
  nodes ← queryNodes nodeAddrs;
  killed ← killFirst nodes;
  if killed : bool then mret tt else say [colorYellow; "No active leader found to kill."; colorReset].

Definition clusterKillTarget (nodeAddrs : list string) (target : string) : io M unit :=
  if bool_decide (ToLower (TrimSpace (to_bytes target)) = to_bytes "leader") then clusterKillLeader nodeAddrs
  else
    let targetID := of_bytes (targetName (to_bytes target)) in
    killed ← killNamed targetID (fun pid =>
      say [colorBold; colorRed; "[CHAOS] Killed target node "; targetID; " (PID: "; decimal pid; ")"; colorReset]);
    if killed : bool then mret tt else say [colorYellow; "Could not find running process for "; targetID; colorReset].

(** The path of the binary, empty if it cannot be built. *)
Definition getOrrisdExe : io M string :=
  let exePath := Join ["bin"; ("orrisd" ++ (if onWindows then ".exe" else ""))%string] in
  missing ← gets (fun m => isMissing m exePath);
  if missing : bool then
    say [colorDim; "[Building orrisd binary...]"; colorReset];;
    modify (mkdirAll "bin");;
    err ← call (goBuild exePath);
    match err with
    | Some err => say [colorRed; "Failed to build orrisd: "; err; colorReset];; mret ""
    | None => mret exePath
    end
  else mret exePath.

Definition clusterStartSingleNode (i totalCount : Z) : io M unit :=
  exe ← getOrrisdExe;
  if bool_decide (exe = "") then mret tt
  else
    let id := nodeName i in
    modify (mkdirAll (dataPath i));;
    res ← call (startProcess exe (launchArgs i totalCount));
    match res with
    | inr err => say [colorRed; "Failed to start "; id; ": "; err; colorReset]
    | inl pid =>
        modify (writeFile (pidFile id) (decimal pid));;
        say [" "; colorGreen; "[OK]"; colorReset; " Started "; id; " (Consensus: "; nodeAddr i; ", Client: "; clientAddr i; ", PID: ";
             decimal pid; ")"]
    end.

Definition clusterStart (count : Z) : io M unit :=
  let count := if count <? 1 then 3 else count in
  say [colorBold; colorCyan; ">>> Starting "; decimal count; "-Node Raft Cluster (Cross-Platform)..."; colorReset];;
  clusterStopSilent;;
  forEach (seqZ 1 count) (fun i => clusterStartSingleNode i count);;
  say [colorDim; "Waiting for leader election..."; colorReset];;
  modify (sleep 2000);;
  nodes ← queryNodes (map clientAddr (seqZ 1 count));
  match filter (fun n => isLeader n = true) nodes with
  | n :: _ =>
      say [colorBold; colorGreen; "[OK] Cluster Ready! Active Leader: "; NodeInfo.ID n; " on "; NodeInfo.Addr n; " (Term: ";
           decimal (NodeInfo.Term n); ")"; colorReset]
  | [] => say [colorYellow; "Cluster initialized."; colorReset]
  end.

Definition ensureClusterRunning (nodeAddrs : list string) : io M unit :=
  nodes ← queryNodes nodeAddrs;
  if forallb (fun n => negb (NodeInfo.Online n)) nodes then
    say [colorCyan; "[No active cluster detected — auto-starting 3-node Raft cluster in background...]"; colorReset];;
    clusterStart 3;;
    modify (sleep 500)
  else mret tt.

(** ** Views *)

Definition show (text : M -> list NodeInfo.t -> string) (nodeAddrs : list string) : io M unit :=
  nodes ← queryNodes nodeAddrs; body ← gets (fun m => text m nodes); print body.

Definition showDashboard (nodes : list NodeInfo.t) : io M unit :=
  body ← gets (fun m => renderDashboard (latencyOf m) (timeOfDay m) nodes); print body.

(** [loop]: the refreshes until the process is interrupted. *)
Fixpoint refresh (refreshes : nat) (nodeAddrs : list string) : io M unit :=
  match refreshes with
  | O => mret tt
  | S refreshes =>
      nodes ← queryNodes nodeAddrs;
      showDashboard nodes;;
      say [colorDim; "[Auto-refreshing every 1s — Press Ctrl+C to exit]"; colorReset];;
      modify (sleep 1000);;
      refresh refreshes nodeAddrs
  end.

Definition runDashboard (refreshes : nat) (nodeAddrs : list string) : io M unit :=
  ensureClusterRunning nodeAddrs;; refresh refreshes nodeAddrs.

(** ** Requests *)

Definition runConcurrentBenchmark (nodeAddrs : list string) (total concurrency : Z) : io M unit :=
  say [colorCyan; "Running concurrent benchmark: "; decimal total; " writes with concurrency "; decimal concurrency; "..."; colorReset];;
  b ← call (fun m => let b0 := startBench m total concurrency in
                     let b := runBench send query nodeAddrs (cost nodeAddrs b0) (scheduler m) b0 in (machine b, b));
  rate ← gets (fun m => opsPerSec m (successCount b));
  took ← gets elapsed;
  say [colorBold; colorGreen; "[OK] Benchmark Finished:"; colorReset; " "; decimal (successCount b); "/"; decimal total; " committed in ";
       took; " (~"; rate; " ops/sec, "; decimal (failCount b); " failed)"].

Definition handleRoutedCommand (nodeAddrs : list string) (cmd : string) (args : list string) : io M unit :=
  r ← route nodeAddrs (routedPayload cmd args);
  let '(res, lat, addr) := r in
  say [res; " (via "; addr; " in "; lat; ")"].

(** The exit code. *)
Definition handleSingleCommand (targetAddr cmd : string) (args : list string) : io M Z :=
  res ← call (fun m => send m targetAddr (singlePayload cmd args));
  match res with
  | None => err ← gets lastError; say ["Failed to connect: "; err];; mret 1
  | Some res => say [res];; mret 0
  end.

(** The [get] of the prompt: every node that was online. *)
Fixpoint getFrom (nodes : list NodeInfo.t) (key : string) : io M unit :=
  match nodes with
  | [] => say [colorYellow; "[NOT FOUND]"; colorReset; " Key '"; key; "' not present"]
  | n :: nodes =>
      if NodeInfo.Online n then
        res ← call (fun m => send m (NodeInfo.Addr n) (getPayload key));
        let res := default "" res in
        if HasPrefix (to_bytes res) (to_bytes "VALUE") then
          lat ← gets elapsed;
          say [colorGreen; "[FOUND]"; colorReset; " Key '"; key; "' = '"; colorBold; of_bytes (TrimPrefix (to_bytes res) (to_bytes "VALUE "));
               colorReset; "' (from "; NodeInfo.Addr n; " in "; lat; ")"]
        else getFrom nodes key
      else getFrom nodes key
  end.

(** The answer to [set] and [del]. *)
Definition submit (nodeAddrs : list string) (payload done : string) : io M unit :=
  r ← route nodeAddrs payload;
  let '(res, lat, leaderAddr) := r in
  if HasPrefix (to_bytes res) (to_bytes "OK") then
    say [colorGreen; "[COMMITTED]"; colorReset; " "; done; " via "; leaderAddr; " (latency: "; lat; ")"]
  else say [colorRed; "[FAILED]"; colorReset; " "; res].

(** ** The demonstration *)

Definition demoRow (n : NodeInfo.t) : string :=
  if NodeInfo.Online n then
    let badge := if bool_decide (NodeInfo.Role n = "LEADER") then cat [colorGreen; "[LEADER]"; colorReset]
                 else cat [colorBlue; NodeInfo.Role n; colorReset] in
    line [" Node "; NodeInfo.ID n; " on "; padTo 14 (NodeInfo.Addr n); " -> Role: "; badge; " | Term: "; decimal (NodeInfo.Term n);
          " | Val(project): "; colorGreen; default "" (NodeInfo.Keys n !! "project"); colorReset]
  else line [" Node on "; padTo 19 (NodeInfo.Addr n); " -> "; colorRed; "[OFFLINE / KILLED]"; colorReset].

Definition demoWrite (nodeAddrs : list string) (label key value : string) : io M unit :=
  r ← route nodeAddrs (setPayload key value);
  let '(res, lat, addr) := r in
  say [" "; label; ": '"; key; "'='"; value; "' -> "; res; " (via "; addr; " in "; lat; ")"].

Definition demoRead (addr : string) : io M unit :=
  val ← call (fun m => send m addr "GET project");
  match val with
  | None => mret tt
  | Some val => lat ← gets elapsed;
                say [" Node on "; padTo 14 addr; " -> "; colorGreen; val; colorReset; " (in "; lat; ")"]
  end.

Definition runFullDemo (nodeAddrs : list string) : io M unit :=
  let bar := "========================================================================" in
  print newline;; say [colorBold; colorCyan; bar; colorReset];;
  say [colorBold; colorCyan; "               ORRIS END-TO-END DEMO & VALIDATION                       "; colorReset];;
  say [colorBold; colorCyan; bar; colorReset; newline];;
  clusterStart 3;;
  modify (sleep 1000);;
  print newline;; say [colorBold; colorWhite; ">>> [1/4] Writing Data via Consensus Leader..."; colorReset];;
  demoWrite nodeAddrs "Write 1" "project" "orris-zero-dep";;
  demoWrite nodeAddrs "Write 2" "system" "distributed-raft";;
  modify (sleep 500);;
  print newline;; say [colorBold; colorWhite; ">>> [2/4] Verifying Replicated State Across All Follower Nodes..."; colorReset];;
  forEach nodeAddrs demoRead;;
  print newline;; say [colorBold; colorWhite; ">>> [3/4] Triggering Leader Failover (Killing Leader)..."; colorReset];;
  clusterKillLeader nodeAddrs;;
  say [colorDim; "Waiting 2 seconds for quorum re-election..."; colorReset];;
  modify (sleep 2000);;
  print newline;; say [colorBold; colorWhite; ">>> [4/4] Verifying State & New Leader After Failover..."; colorReset];;
  nodes ← queryNodes nodeAddrs;
  forEach nodes (fun n => print (demoRow n));;
  print newline;; say [colorBold; colorGreen; "[OK] DEMO COMPLETE: Consensus, Replication, WAL & Failover Verified!"; colorReset; newline];;
  clusterStop.

(** ** Running commands *)

(** The commands that are carried out the same way from the command line and
    from the prompt. *)
Definition perform (refreshes : nat) (nodeAddrs : list string) (c : command) : io M unit :=
  match c with
  | CmdStart count => clusterStart count
  | CmdStop => clusterStop
  | CmdKillLeader => clusterKillLeader nodeAddrs
  | CmdKill target => clusterKillTarget nodeAddrs target
  | CmdSpawn num totalCount => clusterStartSingleNode num totalCount
  | CmdWals => text ← gets (fun m => displayAllWALs (readWal m)); print text
  | CmdWal target => text ← gets (fun m => displayNodeWAL (to_bytes target) (readWal m)); print text
  | CmdBench total concurrency => runConcurrentBenchmark nodeAddrs total concurrency
  | CmdPing => show (fun m => displayPing (latencyOf m)) nodeAddrs
  | CmdLeader => show (fun _ => displayLeader) nodeAddrs
  | CmdStatus => show (fun m => displayStatus (latencyOf m)) nodeAddrs
  | CmdKeys => show (fun _ => displayKeys) nodeAddrs
  | CmdLogs => show (fun _ => displayLogs) nodeAddrs
  | CmdDemo => runFullDemo nodeAddrs
  | CmdClusterUsage => say ["Usage: orrisctl cluster [start [N]|stop|kill-leader]"]
  | CmdDashboard => runDashboard refreshes nodeAddrs
  | CmdRouted cmd args => handleRoutedCommand nodeAddrs cmd args
  | CmdRepl | CmdSingle _ _ => mret tt
  end.

(** The addresses the prompt looks at, and the nodes it shows: those that are
    online and the first three. *)
Definition activeAddrs : list string := map clientAddr (seqZ 1 10).

Definition displayedNodes (nodes : list NodeInfo.t) : list NodeInfo.t :=
  concat (imap (fun i n => if NodeInfo.Online n || (i <? 3)%nat then [n] else []) nodes).

Definition helpLines : list string :=
  ["";
   "Available commands:";
   "  [Cluster Management]";
   "    start [N]         - Start an N-node cluster (default: 3)";
   "    stop              - Stop all cluster nodes";
   "    kill <node|leader>- Crash/kill a specific node (e.g. 'kill node2', 'kill 1', 'kill leader')";
   "    spawn <node>      - Restart a crashed node (e.g. 'spawn node2', 'spawn 2')";
   "    status / info     - Print live status matrix for all nodes";
   "    ping              - Ping all cluster nodes and display latencies";
   "    leader            - Query active consensus leader";
   "";
   "  [KV State Machine]";
   "    set <k> <v>       - Replicate and commit a key-value pair to leader";
   "    get <k>           - Read a value from any active node";
   "    del <k>           - Delete a key across the cluster";
   "    keys / dump       - List all keys stored across all nodes";
   "";
   "  [WAL & Replicated Log Diagnostics]";
   "    logs              - Print full replicated log timeline across the cluster";
   "    wals              - Compare physical on-disk WAL records across all nodes";
   "    wal <node>        - Inspect raw on-disk WAL ledger records for a specific node (e.g. 'wal node1')";
   "";
   "  [Benchmark & Tools]";
   "    bench [n] [c]     - Run concurrent write benchmark with n entries and c workers (e.g. 'bench 100 10')";
   "    watch / top       - Enter live 1-second auto-refreshing dashboard";
   "    clear / cls       - Refresh dashboard screen";
   "    exit / q          - Quit"].

Definition answerRequest (refreshes : nat) (nodeAddrs : list string) (nodes : list NodeInfo.t) (r : request) : io M unit :=
  match r with
  | LineEmpty | LineExit | LineRefresh | LineWatch => mret tt
  | LineCommand c => perform refreshes nodeAddrs c
  | LineSet key value => submit nodeAddrs (setPayload key value) (cat ["Set '"; key; "' = '"; value; "'"])
  | LineGet key => getFrom nodes key
  | LineDel key => submit nodeAddrs (delPayload key) (cat ["Deleted '"; key; "'"])
  | LineUsage usage => say [colorRed; "[ERR] Usage: "; usage; colorReset]
  | LineHelp => forEach helpLines (fun l => say [l])
  | LineUnknown cmd => say [colorRed; "Unknown command '"; cmd; "'. Type 'help' for options."; colorReset]
  end.

(** The screen and the prompt, before a line is read. *)
Definition showPrompt : io M (list NodeInfo.t) :=
  nodes ← queryNodes activeAddrs;
  showDashboard (displayedNodes nodes);;
  say [colorBold; colorPurple; "COMMANDS:"; colorReset; " set <k> <v> | get <k> | del <k> | keys | wals | wal <node> | kill <node|leader> | spawn <node> | ping | leader | bench [n] [c] | help | exit"];;
  print (cat [colorBold; "orris> "; colorReset]);;
  mret nodes.

(** The loop of [runREPL] on the lines that are typed; it ends with them.  A
    command is followed by one more line, the key that refreshes the screen. *)
Fixpoint prompt (refreshes : nat) (nodeAddrs : list string) (input : list bytes) : io M unit :=
  nodes ← showPrompt;
  match input with
  | [] => mret tt
  | text :: input =>
      match parseLine (len (displayedNodes nodes)) text with
      | LineExit => say ["Goodbye!"]
      | LineEmpty | LineRefresh => prompt refreshes nodeAddrs input
      | LineWatch => runDashboard refreshes nodeAddrs
      | r =>
          answerRequest refreshes nodeAddrs nodes r;;
          print (cat [newline; colorDim; "[Press Enter to refresh dashboard]"; colorReset]);;
          match input with
          | _ :: input => prompt refreshes nodeAddrs input
          | [] => _ ← showPrompt; mret tt
          end
      end
  end.

Definition runREPL (refreshes : nat) (nodeAddrs : list string) (input : list bytes) : io M unit :=
  ensureClusterRunning nodeAddrs;; prompt refreshes nodeAddrs input.

End shell.

(** ** [main] *)

Definition ctlFlags : gmap string flagValue := list_to_map
  [("addr", StringFlag ""); ("nodes", StringFlag "127.0.0.1:9001,127.0.0.1:9002,127.0.0.1:9003"); ("watch", BoolFlag false)].

(** The exit code, for the arguments and the lines typed. *)
Definition orrisctlMain {M} `{Machine M} (refreshes : nat) (args : list string) (input : list bytes) : io M Z :=
  match parseFlags ctlFlags args with
  | inr e => mret (flagExit e)
  | inl (flags, args) =>
      let nodeAddrs := map of_bytes (Split (to_bytes (stringFlag flags "nodes")) (to_bytes ",")) in
      match args with
      | _ :: _ =>
          match cliCommand args with
          | CmdRepl => runREPL refreshes nodeAddrs input;; mret 0
          | CmdSingle cmd args =>
              let addr := stringFlag flags "addr" in
              handleSingleCommand (if bool_decide (addr = "") then default "" (head nodeAddrs) else addr) cmd args
          | c => perform refreshes nodeAddrs c;; mret 0
          end
      | [] =>
          if boolFlag flags "watch" then runDashboard refreshes nodeAddrs;; mret 0
          else runREPL refreshes nodeAddrs input;; mret 0
      end
  end.
