(* ===== verification/ShellFacts.v ===== *)
(** * Properties of the commands of [orrisctl]

    What is typed at the prompt is what the cluster is asked to do, and what
    [stop] does to the processes of the nodes. *)

From Stdlib Require Import Strings.Ascii.
From stdpp Require Import base gmap strings list list_numbers fin_maps fin_sets.
From S2P Require Import Prelude Types Kv Wal State Recovery Election Replication Apply Server Text Format Ctl Bench Cluster ClusterRun Launch Daemon Console Shell.

(** ** Typed commands *)

(** The words of a line. *)
Definition words (ws : list string) : Prop := Forall (fun w => w <> "" /\ spaceFree (to_bytes w)) ws.

Lemma words_fields line : words (map of_bytes (Fields line)).
Proof.
  apply Forall_fmap, Forall_forall. intros w Hw. apply Fields_spec in Hw as (Hn & Hs & _). simpl.
  rewrite to_of_bytes. split; [|done]. intros E. apply Hn. by rewrite <- (to_of_bytes w), E.
Qed.

Lemma word_absent c w : [c] ∈ spaces -> spaceFree (to_bytes w) -> c ∉ to_bytes w.
Proof. apply spaceFree_byte. Qed.

Lemma words_absent c ws : [c] ∈ spaces -> c <> sp -> words ws -> c ∉ to_bytes (String.concat " " ws).
Proof.
  intros Hc Hsp Hw. apply not_elem_concat; [intros ?%list_elem_of_singleton; done|].
  eapply Forall_impl; [exact Hw|]. intros w [_ Hs]. by apply word_absent.
Qed.

Lemma concat_nonempty w ws : w <> "" -> String.concat " " (w :: ws) <> "".
Proof. destruct w; [done|]. by destruct ws. Qed.

(** The last word ends the line. *)
Lemma words_end ws : words ws -> endsClean (String.concat " " ws).
Proof.
  unfold endsClean. induction 1 as [|w ws [Hn Hs] Hw IH].
  - apply Forall_forall. intros q Hq Hs. destruct (spaces_spec q Hq) as [Hl _].
    apply suffix_length in Hs. simpl in *. lia.
  - destruct ws as [|x ws]; [by apply spaceFree_ends|]. rewrite concat_cons. apply Forall_forall. intros q Hq Hsuf.
    apply (proj1 (Forall_forall _ _) IH q Hq). destruct (spaces_spec q Hq) as [Hl Hsp].
    assert (to_bytes (String.concat " " (x :: ws)) <> []) as Hne.
    { apply Forall_cons in Hw as [[Hx _] _]. pose proof (concat_nonempty x ws Hx) as Hc.
      intros E. apply Hc. by rewrite <- (of_to_bytes (String.concat _ _)), E. }
    apply suffix_prefix_reverse in Hsuf. rewrite !reverse_app in Hsuf. change (reverse (to_bytes " ")) with [sp] in Hsuf.
    rewrite <- app_assoc in Hsuf. apply space_prefix in Hsuf; rewrite ?length_reverse, ?elem_of_reverse; try done.
    + by apply suffix_prefix_reverse.
    + intros E. apply Hne. by rewrite <- (reverse_involutive (to_bytes _)), E.
Qed.

(** Inversion of the switch on the first word. *)
Lemma lineRequest_set d parts k v :
  lineRequest d parts = LineSet k v -> exists w x ws, parts = w :: k :: x :: ws /\ v = String.concat " " (x :: ws).
Proof. unfold lineRequest. intros E. repeat (case_match; simplify_eq); by eexists _, _, _. Qed.

Lemma lineRequest_del d parts k : lineRequest d parts = LineDel k -> exists w ws, parts = w :: k :: ws.
Proof. unfold lineRequest. intros E. repeat (case_match; simplify_eq); by eexists _, _. Qed.

Lemma parseLine_words d text r :
  parseLine d text = r -> r <> LineEmpty -> exists parts, words parts /\ lineRequest d parts = r.
Proof.
  unfold parseLine. destruct (TrimSpace text) as [|c l]; [by intros <-|].
  destruct (TrimSpace (TrimPrefix _ _)) as [|c' l']; [by intros <-|]. intros <- _. eexists. split; [apply words_fields|done].
Qed.

(** *** A line that is not blank has a word: [parts[0]] is in range *)

Lemma trimFront_done seqs fuel s :
  Forall (fun q => (0 < length q)%nat) seqs -> (length s <= fuel)%nat ->
  Forall (fun q => ~ q `prefix_of` trimFront fuel seqs s) seqs.
Proof.
  intros Hq. revert s. induction fuel as [|fuel IH]; intros s Hf.
  - destruct s; [|simpl in Hf; lia]. eapply Forall_impl; [exact Hq|]. intros q Hl Hp.
    apply prefix_length in Hp. simpl in *. lia.
  - cbn [trimFront]. destruct (filter (fun q => q `prefix_of` s) seqs) as [|q qs] eqn:E.
    + apply Forall_forall. intros q Hin Hp. assert (q ∈ filter (fun q => q `prefix_of` s) seqs) as Hno by (by apply list_elem_of_filter).
      rewrite E in Hno. by apply not_elem_of_nil in Hno.
    + assert (q ∈ filter (fun q => q `prefix_of` s) seqs) as [Hp Hin]%list_elem_of_filter by (rewrite E; left).
      apply (proj1 (Forall_forall _ _) Hq) in Hin. simpl in Hin. apply IH. rewrite length_drop. lia.
Qed.

Lemma trimFront_suffix fuel seqs s : trimFront fuel seqs s `suffix_of` s.
Proof.
  revert s. induction fuel as [|fuel IH]; intros s; cbn [trimFront]; [done|]. destruct (filter _ _) as [|q qs]; [done|].
  etransitivity; [apply IH|]. apply suffix_drop.
Qed.

Lemma TrimSpace_front s : Forall (fun q => ~ q `prefix_of` TrimSpace s) spaces.
Proof.
  assert (Forall (fun q => (0 < length q)%nat) spaces) as Hl by (apply Forall_forall; intros q Hq; by apply spaces_spec).
  pose proof (trimFront_done spaces (length s) s Hl ltac:(lia)) as Hd. fold (trimLeft s) in Hd.
  eapply Forall_impl; [exact Hd|]. intros q Hno Hp. apply Hno. etransitivity; [exact Hp|].
  unfold TrimSpace, trimRight. set (t := trimLeft s).
  pose proof (trimFront_suffix (length t) (map reverse spaces) (reverse t)) as Hs.
  apply suffix_prefix_reverse in Hs. by rewrite reverse_involutive in Hs.
Qed.

Lemma fieldsFuel_some fuel c cur s : fieldsFuel fuel (c :: cur) s <> [].
Proof.
  revert cur s. induction fuel as [|fuel IH]; intros cur [|x s]; try done. cbn [fieldsFuel]. destruct (spaceLen _); [apply IH|done].
Qed.

Lemma Fields_some s : TrimSpace s <> [] -> Fields (TrimSpace s) <> [].
Proof.
  intros Hn. pose proof (TrimSpace_front s) as Hf. destruct (TrimSpace s) as [|x l]; [done|]. unfold Fields. cbn [length fieldsFuel].
  unfold spaceLen. rewrite filter_none by done. apply fieldsFuel_some.
Qed.

(** The bytes [sendRawCommand] writes for a command without a line break. *)
Definition wire (cmd : string) : bytes := to_bytes cmd ++ [nl].

Definition received (cmd : string) : list bytes := scanLines (S (length (wire cmd))) (wire cmd).

Lemma received_one cmd :
  nl ∉ to_bytes cmd -> last (to_bytes cmd) <> Some cr -> len (to_bytes cmd) < maxTokenSize -> received cmd = [to_bytes cmd].
Proof.
  intros Hn Hc Hl. unfold received, wire. set (t := to_bytes cmd) in *.
  assert (scanLines (S (length (t ++ [nl]))) (t ++ [nl]) =
    if len t <? maxTokenSize then dropCR t :: scanLines (length (t ++ [nl])) [] else []) as ->.
  { cbn [scanLines]. rewrite cut_found by done. by destruct t. }
  rewrite (proj2 (Z.ltb_lt _ _)) by done.
  assert (forall f, scanLines f [] = []) as -> by by intros [].
  f_equal. unfold dropCR. destruct (last t) as [c|] eqn:E; [|done]. rewrite bool_decide_eq_false_2; [done|congruence].
Qed.

(** A payload is a word, a space and words. *)
Lemma received_words w ws :
  nl ∉ to_bytes w -> words ws -> ws <> [] -> let cmd := (w ++ " " ++ String.concat " " ws)%string in
  len (to_bytes cmd) < maxTokenSize -> received cmd = [to_bytes cmd].
Proof.
  intros Hw Hws Hne cmd Hl. assert ([nl] ∈ spaces /\ [cr] ∈ spaces) as [Hnl Hcr] by (split; by_decision).
  apply received_one; [| |done]; unfold cmd; rewrite !to_bytes_app.
  - rewrite !not_elem_of_app. split_and!; [done|by_decision|]. by apply words_absent.
  - rewrite app_assoc. apply last_app_not; [|by apply words_absent].
    destruct ws as [|x ws]; [done|]. apply Forall_cons in Hws as [[Hx _] _]. pose proof (concat_nonempty x ws Hx) as Hc.
    intros E. apply Hc. by rewrite <- (of_to_bytes (String.concat _ _)), E.
Qed.

Section typed.
Context {W : Type} (seen : nat -> Node W) (pairs : list (string * string)) (displayed : Z) (text : bytes) (k v : string).

(** C36: What is typed at the prompt is what the cluster is asked to do: whatever line
    is read as set key value, the bytes sent for it are one command line for the server,
    which proposes exactly that key and value, the words of the value joined by one
    space; a line read as del key leads to the removal of that key. *)
Theorem typed_commands_proposed :
  (parseLine displayed text = LineSet k v -> len (to_bytes (setPayload k v)) < maxTokenSize ->
   map (handleLine seen pairs) (received (setPayload k v)) = [Some (Propose OpSet k v)]) /\
  (parseLine displayed text = LineDel k -> len (to_bytes (delPayload k)) < maxTokenSize ->
   map (handleLine seen pairs) (received (delPayload k)) = [Some (Propose OpDelete k "")]).
Proof.
  assert ([sp] ∈ spaces) as Hsp by by_decision. split; intros Hp Hl.
  - apply parseLine_words in Hp as (parts & Hw & (w & x & ws & -> & ->)%lineRequest_set); [|done].
    apply Forall_cons in Hw as [_ [[Hk Hks] Hw]%Forall_cons].
    unfold setPayload in *. change ("SET " ++ ?a)%string with ("SET" ++ " " ++ a)%string in *.
    change (k ++ " " ++ String.concat " " (x :: ws))%string with (String.concat " " (k :: x :: ws)) in *.
    rewrite (received_words "SET" (k :: x :: ws)); [|by_decision|by apply Forall_cons|done|done].
    cbn [map]. f_equal. apply (set_command_parsed seen pairs k (String.concat " " (x :: ws))).
    + by apply word_absent.
    + apply Forall_cons in Hw as [[Hx _] _]. by apply concat_nonempty.
    + by apply words_end.
  - apply parseLine_words in Hp as (parts & Hw & (w & ws & ->)%lineRequest_del); [|done].
    apply Forall_cons in Hw as [_ [[Hk Hks] _]%Forall_cons].
    unfold delPayload in *. change ("DEL " ++ k)%string with ("DEL" ++ " " ++ String.concat " " [k])%string in *.
    assert (words [k]) as Hkw by by apply Forall_singleton.
    rewrite (received_words "DEL" [k]); [|by_decision|done|done|done].
    cbn [map]. f_equal. apply (del_command_parsed seen pairs k); [done|by apply word_absent|].
    by apply (words_end [k]).
Qed.
End typed.

Lemma typed_commands_proposed_witness :
  map (handleLine seenSample []) (received (setPayload "greeting" "hello world")) = [Some (Propose OpSet "greeting" "hello world")] /\
  map (handleLine seenSample []) (received (delPayload "x")) = [Some (Propose OpDelete "x" "")].
Proof.
  split.
  - refine (proj1 (typed_commands_proposed seenSample [] 3 (to_bytes "orris> Set greeting  hello   world") _ _) _ _); vm_compute; reflexivity.
  - refine (proj2 (typed_commands_proposed seenSample [] 3 (to_bytes "delete x") "x" "") _ _); vm_compute; reflexivity.
Defined.

(** ** Stopping the cluster *)

(** What files and processes promise: [alive] are the processes that run. *)
Class MachineLaws (M : Type) `{Machine M} := {
  alive : M -> gset Z;
  read_removed f g m : readFile (removeFile f m) g = if bool_decide (g = f) then None else readFile m g;
  alive_removed f m : alive (removeFile f m) = alive m;
  read_killed pid f m : readFile (killProcess pid m) f = readFile m f;
  alive_killed pid m : 0 < pid -> alive (killProcess pid m) = alive m ∖ {[pid]};
  alive_found pid m : 0 < pid -> pid ∈ alive m -> findProcess m pid = true }.

Section stopping.
Context {M : Type} `{MachineLaws M}.

(** The process id in the pid file of a node. *)
Definition pidIn (m : M) (i : Z) : option Z :=
  data ← readFile m (pidFile (nodeName i));
  let '(pid, ok) := Atoi (TrimSpace (to_bytes data)) in if ok : bool then Some pid else None.

Definition pidsOf (m : M) (l : list Z) : gset Z := list_to_set (omap (pidIn m) l).

Definition pidFiles (l : list Z) : list string := map (fun i => pidFile (nodeName i)) l.

Lemma append_inj_l (a b c : string) : (a ++ c = b ++ c)%string -> a = b.
Proof.
  intros E. apply (f_equal to_bytes) in E. rewrite !to_bytes_app in E. apply app_inv_tail in E.
  by rewrite <- (of_to_bytes a), E, of_to_bytes.
Qed.

Lemma pidFile_inj i j : pidFile (nodeName i) = pidFile (nodeName j) -> i = j.
Proof. intros E. by apply nodeName_inj, (append_inj_l _ _ ".pid"). Qed.

(** Printing leaves the machine alone. *)
Definition prints {A} (c : io M A) : Prop := forall s, fst (fst (c s)) = fst s.

Lemma say_prints pieces : prints (say pieces).
Proof. done. Qed.

Lemma stopNode_spec report i m o :
  (forall i pid, prints (report i pid)) -> (forall pid, pidIn m i = Some pid -> 0 < pid) ->
  let m' := fst (fst (stopNode report i (m, o))) in
  (forall f, readFile m' f = if bool_decide (f ∈ pidFiles [i]) then None else readFile m f) /\
  alive m' = alive m ∖ pidsOf m [i].
Proof.
  intros Hr Hpos. unfold stopNode, readPid, pidsOf, pidIn in *. unfold mbind, io_bind, gets, mret, io_ret, modify in *. simpl in *.
  assert (forall f, f ∈ pidFiles [i] <-> f = pidFile (nodeName i)) as Hf by (intros; apply list_elem_of_singleton).
  destruct (readFile m (pidFile (nodeName i))) as [data|] eqn:Hd; simpl in *.
  2: { split; [|set_solver]. intros f. case_bool_decide as E; [|done]. apply Hf in E. by subst. }
  assert (forall m1, (forall f, readFile m1 f = readFile m f) -> forall f,
    readFile (removeFile (pidFile (nodeName i)) m1) f = if bool_decide (f ∈ pidFiles [i]) then None else readFile m f) as Hrm.
  { intros m1 H1 f. rewrite read_removed, H1. by rewrite (bool_decide_ext _ _ (Hf f)). }
  destruct (Atoi (TrimSpace (to_bytes data))) as [pid [|]]; simpl; [|rewrite alive_removed; split; [by apply Hrm|set_solver]].
  specialize (Hpos pid eq_refl). destruct (findProcess m pid) eqn:Hfound; simpl.
  - pose proof (Hr i pid (killProcess pid m, o)) as Hm. destruct (report i pid (killProcess pid m, o)) as [[m1 o1] u].
    simpl in *. subst m1. rewrite alive_removed, alive_killed by done. split; [|set_solver].
    apply Hrm. intros f. apply read_killed.
  - rewrite alive_removed. split; [by apply Hrm|].
    assert (pid ∉ alive m); [|set_solver]. intros Hin. by rewrite alive_found in Hfound.
Qed.

Lemma stopNodes_spec report l m o :
  (forall i pid, prints (report i pid)) -> NoDup l -> (forall i pid, i ∈ l -> pidIn m i = Some pid -> 0 < pid) ->
  let m' := fst (fst (stopNodes report l (m, o))) in
  (forall f, readFile m' f = if bool_decide (f ∈ pidFiles l) then None else readFile m f) /\
  alive m' = alive m ∖ pidsOf m l.
Proof.
  intros Hr Hnd. revert m o. induction Hnd as [|i l Hi Hnd IH]; intros m o Hpos; cbn zeta.
  { split; [done|]. unfold pidsOf. simpl. set_solver. }
  pose proof (stopNode_spec report i m o Hr (fun pid => Hpos i pid ltac:(left))) as [Hf1 Ha1].
  simpl stopNodes. unfold mbind, io_bind, mret, io_ret. destruct (stopNode report i (m, o)) as [[m1 o1] a]. simpl in Hf1, Ha1.
  assert (forall j, j ∈ l -> pidIn m1 j = pidIn m j) as Hp.
  { intros j Hj. unfold pidIn. rewrite Hf1, bool_decide_eq_false_2; [done|].
    intros E%list_elem_of_singleton. apply pidFile_inj in E. by subst. }
  destruct (IH m1 o1) as [Hf2 Ha2].
  { intros j pid Hj. rewrite (Hp j Hj). apply Hpos. by right. }
  destruct (stopNodes report l (m1, o1)) as [[m2 o2] b]. simpl in *. split.
  - intros f. rewrite Hf2, Hf1. cbn [pidFiles map]. repeat case_bool_decide; set_solver.
  - rewrite Ha2, Ha1. assert (pidsOf m1 l = pidsOf m l) as ->.
    { unfold pidsOf. f_equal. clear -Hp. induction l as [|j l IH]; [done|]. simpl. rewrite Hp by left.
      destruct (pidIn m j); [f_equal|]; apply IH; intros; apply Hp; by right. }
    unfold pidsOf. simpl. destruct (pidIn m i); simpl; set_solver.
Qed.

(** C39: orrisctl stop kills exactly the processes named by the pid files of node1 to
    node20 and removes these files; every other file and process, that of a node with a
    higher number included, is left alone. *)
Theorem cluster_stop m o :
  (forall i pid, 1 <= i <= 20 -> pidIn m i = Some pid -> 0 < pid) ->
  let m' := fst (fst (clusterStop (m, o))) in
  (forall f, readFile m' f = if bool_decide (f ∈ pidFiles (seqZ 1 20)) then None else readFile m f) /\
  alive m' = alive m ∖ pidsOf m (seqZ 1 20).
Proof.
  intros Hpos. set (report := fun i pid => say (M := M) [" "; colorGreen; "[OK]"; colorReset; " Stopped node"; decimal i; " (PID: "; decimal pid; ")"]).
  pose proof (stopNodes_spec report (seqZ 1 20) m) as Hs. unfold clusterStop. fold report.
  unfold mbind, io_bind, say, print. cbn [fst snd].
  match goal with |- context [stopNodes report _ (m, ?o1)] => specialize (Hs o1) end.
  destruct (stopNodes report _ _) as [[m1 o1] k]. cbn [fst snd] in *.
  assert (forall i pid, i ∈ seqZ 1 20 -> pidIn m i = Some pid -> 0 < pid) as Hp
    by (intros i pid Hi%elem_of_seqZ; apply Hpos; lia).
  specialize (Hs (fun i pid => say_prints _) (NoDup_seqZ _ _) Hp). destruct (k =? 0); exact Hs.
Qed.
End stopping.

(** ** A machine *)

(** Files, processes and the last process id; no node answers. *)
Record host := mkHost { hostFiles : gmap string string; hostAlive : gset Z; lastPid : Z }.

#[export] Instance host_machine : Machine host := {|
  query := fun _ _ _ => None;
  send := fun m _ _ => (m, None);
  readFile := fun m f => hostFiles m !! f;
  writeFile := fun f d m => mkHost (<[f := d]> (hostFiles m)) (hostAlive m) (lastPid m);
  removeFile := fun f m => mkHost (delete f (hostFiles m)) (hostAlive m) (lastPid m);
  isMissing := fun _ _ => false;
  mkdirAll := fun _ m => m;
  readWal := fun _ f => NotFound ("stat " ++ f ++ ": no such file or directory");
  findProcess := fun _ _ => true;
  killProcess := fun pid m => mkHost (hostFiles m) (hostAlive m ∖ {[pid]}) (lastPid m);
  startProcess := fun _ _ m => (mkHost (hostFiles m) ({[lastPid m + 1]} ∪ hostAlive m) (lastPid m + 1), inl (lastPid m + 1));
  onWindows := false;
  goBuild := fun _ m => (m, None);
  sleep := fun _ m => m;
  latencyOf := fun _ _ => "1ms";
  elapsed := fun _ => "1ms";
  opsPerSec := fun _ _ => "0.0";
  timeOfDay := fun _ => "00:00:00";
  lastError := fun _ => "connection refused";
  scheduler := fun _ n => n |}.

#[export] Instance host_laws : MachineLaws host.
Proof.
  refine {| alive := hostAlive |}; try done.
  intros f g m. simpl. case_bool_decide as E; [subst; apply lookup_delete_eq|by rewrite lookup_delete_ne].
Defined.

(** Twenty-one nodes are started, and stop reaches twenty of them. *)
Example node21_keeps_running :
  let m0 := mkHost ∅ ∅ 100 in
  let m1 := fst (fst (clusterStart 21 (m0, ""))) in
  let m2 := fst (fst (clusterStop (m1, ""))) in
  (bool_decide (hostAlive m1 = list_to_set (seqZ 101 21)), elements (hostAlive m2), map_to_list (hostFiles m2))
  = (true, [121], [("node21.pid", "121")]).
Proof. vm_compute. reflexivity. Qed.

Example main_stop :
  let '(m, out, code) := orrisctlMain 0 ["stop"] [] (mkHost {["node2.pid" := "42"]} {[42; 43]} 50, "") in
  (hostFiles m, elements (hostAlive m), out, code) =
  (∅, [43], cat [line [colorBold; colorYellow; ">>> Stopping all cluster nodes..."; colorReset];
                 line [" "; colorGreen; "[OK]"; colorReset; " Stopped node2 (PID: 42)"];
                 line [colorBold; colorGreen; "[OK] All 1 nodes stopped."; colorReset]], 0).
Proof. vm_compute. reflexivity. Qed.

Example main_single :
  snd (orrisctlMain 0 ["-addr"; "a:1"; "get"; "x"] [] (mkHost ∅ ∅ 0, "")) = 1 /\
  snd (orrisctlMain 0 ["-x"] [] (mkHost ∅ ∅ 0, "")) = 2.
Proof. vm_compute. done. Qed.

Definition stoppedHost : host := mkHost (list_to_map [("node1.pid", "101"); ("node21.pid", "121")]) {[101; 121]} 121.

Lemma cluster_stop_witness : alive (fst (fst (clusterStop (stoppedHost, "")))) = {[101; 121]} ∖ pidsOf stoppedHost (seqZ 1 20).
Proof.
  refine (proj2 (cluster_stop stoppedHost "" _)). intros i pid Hi. unfold pidIn.
  destruct (decide (i = 1)) as [->|Hne]; [vm_compute; by intros [= <-]|].
  assert (readFile stoppedHost (pidFile (nodeName i)) = None) as ->; [|done].
  simpl. unfold stoppedHost. cbn [hostFiles list_to_map foldr fst snd].
  rewrite !lookup_insert_ne, lookup_empty; [done| |].
  - intros E. apply (pidFile_inj 21) in E. lia.
  - intros E. by apply (pidFile_inj 1) in E.
Defined.
